(* ===== verification/_CoqProject ===== *)
-Q . S2P
Prelude.v
PyStruct.v
Crc32.v
Sha256.v
Json.v
Serde.v
SerdeV2.v
SerdeV3.v
DfsBinding.v
ObjBinding.v
Keys.v
ConnBase.v
ConnDfs.v
ConnRaw.v
FoldedLoad.v
Connector.v
KvMap.v
WedgePool.v
Batch.v
BatchRaw.v
Streaming.v
StreamLoads.v
L2Config.v
L2Adapter.v
L2Tasks.v
L2Health.v
FairDispatcher.v
GdsBackend.v
GdsThreads.v
GdsMeta.v
StreamPatch.v
StreamOnce.v
L2Served.v
DaosEvent.v
Ctypes.v
Native.v
Lifecycle.v
L2Life.v
GdsLife.v
Install.v
