(* ===== verification/Prelude.v ===== *)
(** * lmcache-daos: a verification development

    lmcache-daos stores the KV cache of a language-model server in DAOS, a
    distributed object store.  It is a Python package ([src/lmcache_daos]) that
    LMCache loads in four ways: as a remote connector ([connector.py]), as the
    second-level adapter of the multi-process server ([mp/l2_adapter.py]), as
    a GPU-direct storage backend ([gds_backend.py]) and, for the server, as a
    patch that streams loads ([mp/streaming_patch.py]).  All of them sit on
    ctypes bindings of the DAOS client ([dfs_binding.py], [obj_binding.py],
    [daos_event.py]) and on the layouts of a stored object ([serde*.py]).

    This file is the prelude: Python's exceptions and results, a state and
    exception monad ([M]) with its weakest preconditions ([wp]) and frame
    rules ([keeps]), thread-pool maps, byte strings with Python slices, and the
    lemmas and tactics the other files share.

    ** How the model is built

    Python code that keeps state becomes a function of the monad [M S]: a
    result or an exception, and the next state, which is kept when an
    exception is raised, as Python does.  [try_except] and [try_finally] are
    Python's; what an [except] clause catches is a function of the exception,
    so that [except Exception] and [except DaosError] differ as they do in the
    code.  Integers are [Z]; where a width matters (the [struct] formats, the
    CRC, SHA-256, a C int) it is written out.

    Code outside [src/] is a parameter: a class of entry points over an
    abstract world, and a second class with the laws the code relies on,
    stated on ghost views of that world.  Failure is part of each law: any
    call may fail with any code, and a write that fails may leave any prefix of
    its data.  Every class of laws has a concrete instance (the modules [Mem*]
    and [*Demo]), on which the witnesses run.
      - [LibDfs], [LibDfsLaws] (libdfs: files and handles), [LibDfsGpu],
        [GpuLaws] (GPU transfers, rename), [LibDfsMount], [MountLaws],
        [MountFrame] (mounts), [LibEvent], [EventLaws], [StoreLaws] (events);
      - [LibDaosObj], [LibDaosObjLaws], [LibDaosConn], [LibDaosConnLaws]
        (libdaos: values and handles);
      - [MetaCodec], [LocalCpu], [GpuObjs] and their laws (LMCache's metadata,
        allocator and memory objects); [L2Loads], [L1Manager] (LMCache's
        adapters and first level); [Clock]; [CudaDriver];
      - [Torch], [TorchLaws] (dtypes, sizes and memory formats), [Linker] (the
        dynamic linker), [Registry] (LMCache's adapter registry).

    ** The files

      - [PyStruct], [Crc32], [Sha256], [Json], [Ctypes]: the standard library's
        [struct], [zlib.crc32], [hashlib.sha256], [json] (with UTF-8 decoding
        and [int()]) and the types, layouts and conversions of [ctypes], as
        functions that compute.
      - [Serde], [SerdeV2], [SerdeV3]: [serde.py], [serde_v2.py],
        [serde_v3.py].  Round trips of the v1 blob and of the v2 header page,
        the akey form of that page, and that a header with one byte changed is
        refused.
      - [DfsBinding]: [DfsSys] and the warm-up of [dfs_binding.py], each method
        with a specification proved from the laws of libdfs.
      - [ObjBinding]: [obj_binding.py], the structures passed to libdaos,
        update, fetch, punch, the handles, the layout probe.
      - [Keys]: names and addresses, and [_choose_backend].
      - [ConnBase], [ConnDfs], [ConnRaw], [Connector]: [connector.py].  A file
        or a (dkey, layer) is compared with its abstract content ([dfs_decode],
        [raw_view]: the complete object it holds, if any); store and load
        implement insertion and lookup, and a store that fails anywhere leaves
        a miss or the complete object.  Batched operations are positional.
      - [FoldedLoad]: the folded load of a chunk's layers: every layer is read
        into a memory object of its own or is a miss, and what is staged and
        not handed out is given back.
      - [KvMap]: the connector refines a map from addresses to objects: every
        sequence of put, get, exists and remove, on either layout, gives the
        answers of the map (forward simulation, slot by slot).
      - [WedgePool]: admission to the I/O pool and the health probe, as step
        relations over the executor and over the pings; the executor also runs
        tasks that came past [_run] and drops queued tasks that are cancelled.
      - [Batch], [BatchRaw]: the coroutines on that pool.  [bstep] is one event
        of a batch (a call is submitted or refused, a call returns, time passes,
        other users of the pool submit, take a worker and give it back, something
        else acts), [await_all], [await_first] and [await_one] what the coroutine
        receives.  Loads and stores are right under every interleaving, on
        both layouts; run in order they are the methods of [Connector]; what a
        refused batch leaves behind; and what a batch waits for when some of
        its calls never return.
      - [Streaming]: [streaming.py] under every completion order, with the items
        whose raise is no [Exception] and ends the generator; [StreamLoads]:
        [stream_get] on the connector's loads, which allocate: every history of
        threads, generator and other loads, and a consumer that stops.
      - [L2Config], [L2Adapter], [L2Tasks], [L2Health], [FairDispatcher]:
        [mp/l2_adapter.py]: configuration and names; the adapter's state and
        operations and the delivery of each result exactly once; what the tasks
        do to the store (round trip, completion, torn writes); locks,
        deletion, health and the status loop; the round-robin dispatcher with
        every interleaving of its threads, how long a task waits while others
        arrive, and what closing it strands.
      - [GdsBackend]: [gds_backend.py]: atomic publication by rename, prefix
        loads, reference counts, the CUDA context of each thread.
      - [GdsThreads]: the same lookups, puts, loads and removals on many threads,
        cut where [_known_lock] is taken and where the files are touched, and the
        set of known keys they share.
      - [GdsMeta]: its JSON metadata ([_meta_pack], [_meta_unpack]), which
        fits the header page and survives it, and the store and load of a
        tensor group with that codec in place of the parameter.
      - [StreamPatch]: [mp/streaming_patch.py]: the proxy refines the contract
        of the adapter it wraps ([L2LoadsLaws] in, the same contract out); the
        sub-batched transfer equals the whole one and ends.
      - [StreamOnce]: the state that is global to that module under any number
        of proxies and server threads: the finishes of each write are counted,
        with the one overlap of publications that finishes a write twice.
      - [L2Served]: the MP adapter with its workers implements that contract,
        with stores, lookups and loads in its queue and on any backend; composed
        with the proxy, a streamed load returns the stored bytes.
      - [DaosEvent]: [daos_event.py]: host buffers with explicit stores, so
        that an overrun is a value ([Overflow]); the guard, the asynchronous
        read and the ABI check.
      - [Native]: the structures, prototype tables and loaders of the three
        bindings, and the arguments of every call they make: each call is to a
        declared function that accepts them; what a failed load leaves.
      - [Lifecycle], [L2Life], [GdsLife]: the url, the mount, and the
        constructors, warm-ups and [close] of the connector, the adapter and the
        GPU backend: one mount in, the same mount out, which failures keep
        it, and which DAOS calls keep [close] of the adapter from returning.
      - [Install]: [apply] of [streaming_patch.py], [main] of [mp/server.py],
        [mp/vllm_connector.py] and [register]: what is rebound in the process,
        as chains of wrappers that end at LMCache's functions.

    ** What the theorems show

    Data: what is stored is what is loaded (connector on both layouts, MP
    adapter, GPU backend), other objects are untouched, and an interrupted
    store is never read back as a partial object.  Control: every task that
    runs completes and its result is delivered once; the stream, the dispatcher
    and the transfer end if the calls they wait for do; a batch waits for its
    own calls and for nothing else unless hung calls hold every worker; a wedged
    pool refuses work at once.  Resources: handles,
    mounts, event queues, locks and references balance on every path, except
    where a lemma shows the path that does not.  Where the code does something
    else than it means to, a lemma states what it does; these lemmas are the
    findings of the manifest.

    ** Bounds and fuel

    Recursion is structural on the data wherever the code loops over a list.
    Fuel appears in the directory listing ([listdir_loop]: the entries and one
    more, by [listdir_lists_the_directory]), the stream ([fill], [drain]: at most
    one step per item, enough by [stream_yields_each_index_once]), the
    sub-batches of the proxy ([submit_subs] and [transfer_loop]: the number of
    keys), the hexadecimal printer ([hex_digits]: the digits of the number), the
    JSON scanner (the length of the text; more changes nothing, by
    [scan_fuel_eq]) and the poll loop of the ABI check, where it is the code's own bound
    of 2000.

    ** Concurrency

    A thread-pool map runs its items one after the other, all of them, also
    after a failure, as the executor does; the items act on disjoint keys or
    only read.  Where the interleaving is the point (the executor, pings, the
    batched coroutines, the dispatcher, the adapter's queued tasks, the
    streaming proxies, the known keys of the GPU backend) the threads are steps
    of a relation or of a function and the theorems range over all histories; the
    adapter's methods and tasks are then one step each, a lookup two.  A DAOS
    call that never returns is an event that never comes ([Batch], [WedgePool])
    or an argument ([L2Life]); elsewhere a call is a function and returns.  Where
    results depend on the order of the workers ([L2Served]), that order is an
    explicit schedule and the theorem holds for every one.

    ** Not modelled

    Logging, debug helpers and timing statistics; methods that return a
    constant or delegate to LMCache's allocator ([support_ping], [pin],
    [initialize_allocator], the event descriptors); the locks themselves (a
    critical section is a step); the wait of the adapter's [close] (steps of its
    machine).  The value of a JSON number with a fraction or an exponent is its
    text: the code never writes one, and reading one back goes through the
    parameter [int_of_float].  Prototypes are checked against the arguments the
    bindings pass, listed next to the tables; that the C functions have these
    prototypes is DAOS's.  The benchmarks and the figures are measurement
    scripts, not part of the system. *)
From Corelib Require Export ssreflect.
From stdpp Require Export base gmap strings list fin_maps sets.
From Stdlib Require Export ZArith Lia.
From Stdlib Require Import Strings.Byte.

#[export] Set Warnings "-clear-no-such-hyp".

Declare Scope py_scope.
Delimit Scope py_scope with py.

(** ** Python exceptions and results *)

(** Why [serde_v2.parse_header] refused a page, one constructor per [raise]. *)
Inductive bad_header :=
| ShortHeader | BadMagic | BadVersion | MetaTooLong | MetaTruncated
| CrcMismatch | NotCommitted.

(** The exceptions the modelled code raises or catches.  [Overflow] is not a
    Python exception: it is what the model returns when C code wrote more
    bytes than the buffer holds, after which nothing is guaranteed.  No
    handler of the model catches it. *)
Inductive exn :=
| ValueError
| StructError
| BadHeader (why : bad_header)
| DaosError (rc : Z)
| DaosPoolWedged
| OSError (errno : Z)
| RuntimeError
| DaosEventABIError
| SystemExit
| NotImplementedError
| AssertionError
| OtherError
| Overflow (excess : Z).

#[export] Instance bad_header_eq_dec : EqDecision bad_header.
Proof. solve_decision. Defined.
#[export] Instance exn_eq_dec : EqDecision exn.
Proof. solve_decision. Defined.

(** [except Exception]: everything but [SystemExit] and undefined behaviour. *)
Definition is_exception (e : exn) : bool :=
  match e with Overflow _ | SystemExit => false | _ => true end.

(** [DaosError] is a subclass of [OSError], and [DaosPoolWedged] of
    [DaosError]; its [rc] is EBUSY. *)
Definition EBUSY : Z := 16.
Definition ENOENT : Z := 2.
Definition EINVAL : Z := 22.
Definition EEXIST : Z := 17.
Definition daos_rc (e : exn) : option Z :=
  match e with
  | DaosError rc => Some rc
  | DaosPoolWedged => Some EBUSY
  | _ => None
  end.
Definition is_daos_error (e : exn) : bool := bool_decide (is_Some (daos_rc e)).
Definition os_errno (e : exn) : option Z :=
  match e with OSError n => Some n | _ => daos_rc e end.
(** [struct.error] is not a [ValueError]; [BadHeader] is one. *)
Definition is_value_error (e : exn) : bool :=
  match e with ValueError | BadHeader _ => true | _ => false end.

Inductive res (A : Type) :=
| Ok (a : A)
| Raise (e : exn).
Arguments Ok {A} _.
Arguments Raise {A} _.

Definition res_bind {A B} (r : res A) (f : A → res B) : res B :=
  match r with Ok a => f a | Raise e => Raise e end.

Notation "'let?' x ':=' c 'in' k" := (res_bind c (λ x, k))
  (at level 10, x pattern, c at level 100, k at level 200) : py_scope.

(** [tuple(f(x) for x in l)]: the first exception ends it. *)
Fixpoint res_map {A B} (f : A → res B) (l : list A) : res (list B) :=
  match l with
  | [] => Ok []
  | x :: l => res_bind (f x) (λ y, res_bind (res_map f l) (λ ys, Ok (y :: ys)))
  end.

Lemma res_map_total {A B} (f : A → res B) (g : A → B) l :
  Forall (λ x, f x = Ok (g x)) l → res_map f l = Ok (g <$> l).
Proof. induction 1 as [|x l Hx _ IH]; simpl; [done|]. by rw Hx /= IH. Qed.

Lemma res_map_raise {A B} (f : A → res B) (g : A → B) e l1 x l2 :
  Forall (λ x, f x = Ok (g x)) l1 → f x = Raise e → res_map f (l1 ++ x :: l2) = Raise e.
Proof. intros Hl Hx. induction Hl as [|y l Hy _ IH]; simpl; [by rw Hx|]. by rw Hy /= IH. Qed.

Definition is_ok {A} (r : res A) : bool := match r with Ok _ => true | _ => false end.

(** ** State and exceptions: the monad of the modelled methods

    A method that touches the outside world is a function of that world.  The
    world survives an exception, as it does in Python. *)
Definition M (S A : Type) : Type := S → res A * S.

Definition ret {S A} (a : A) : M S A := λ s, (Ok a, s).
Definition raise {S A} (e : exn) : M S A := λ s, (Raise e, s).
Definition lift {S A} (r : res A) : M S A := λ s, (r, s).
Definition bind {S A B} (m : M S A) (f : A → M S B) : M S B := λ s,
  match m s with
  | (Ok a, s') => f a s'
  | (Raise e, s') => (Raise e, s')
  end.

(** [try: m except e: h e], where [h] returns [None] to let [e] through. *)
Definition try_except {S A} (m : M S A) (h : exn → option (M S A)) : M S A := λ s,
  match m s with
  | (Raise e, s') => match h e with Some k => k s' | None => (Raise e, s') end
  | r => r
  end.

(** [try: m finally: f], where [f] does not raise. *)
Definition try_finally {S A} (m : M S A) (f : S → S) : M S A := λ s,
  let '(r, s') := m s in (r, f s').

Notation "'let!' x ':=' c 'in' k" := (bind c (λ x, k))
  (at level 10, x pattern, c at level 100, k at level 200) : py_scope.
Notation "c ;;! k" := (bind c (λ _, k))
  (at level 199, right associativity) : py_scope.

Fixpoint mapM {S A B} (f : A → M S B) (l : list A) : M S (list B) :=
  match l with
  | [] => ret []
  | x :: l => bind (f x) (λ y, bind (mapM f l) (λ ys, ret (y :: ys)))
  end.

(** A loop whose body only computes. *)
Lemma mapM_pure {S A B} (f : A → M S B) (g : A → B) (l : list A) (s : S) :
  (∀ x, x ∈ l → f x s = (Ok (g x), s)) → mapM f l s = (Ok (g <$> l), s).
Proof.
  induction l as [|x l IH]; intros Hf; simpl; [done|]. rw /bind Hf; [set_solver|].
  rw IH //. intros y Hy. apply Hf. set_solver.
Qed.

(** ** Weakest preconditions of the monad *)
Definition wp {S A} (m : M S A) (s : S) (Q : A → S → Prop) (E : exn → S → Prop) : Prop :=
  match m s with (Ok a, s') => Q a s' | (Raise e, s') => E e s' end.

Create HintDb wp discriminated.

Section Wp.
Context {S : Type}.
Implicit Types s : S.

Lemma wp_ret {A} (a : A) s Q E : Q a s → wp (ret a) s Q E.
Proof. done. Qed.
Lemma wp_raise {A} e s (Q : A → S → Prop) E : E e s → wp (raise e) s Q E.
Proof. done. Qed.
Lemma wp_lift {A} (r : res A) s Q E :
  match r with Ok a => Q a s | Raise e => E e s end → wp (lift r) s Q E.
Proof. by destruct r. Qed.

Lemma wp_bind {A B} (m : M S A) (f : A → M S B) s Q E :
  wp m s (λ a s', wp (f a) s' Q E) E → wp (bind m f) s Q E.
Proof. rw /wp /bind. by destruct (m s) as [[a|e] s']. Qed.

Lemma wp_mono {A} (m : M S A) s (Q Q' : A → S → Prop) (E E' : exn → S → Prop) :
  wp m s Q E → (∀ a s', Q a s' → Q' a s') → (∀ e s', E e s' → E' e s') → wp m s Q' E'.
Proof. rw /wp. destruct (m s) as [[a|e] s']; eauto. Qed.

Lemma wp_finally {A} (m : M S A) f s Q E :
  wp m s (λ a s', Q a (f s')) (λ e s', E e (f s')) → wp (try_finally m f) s Q E.
Proof. rw /wp /try_finally. by destruct (m s) as [[a|e] s']. Qed.

Lemma wp_except {A} (m : M S A) h s Q E :
  wp m s Q (λ e s', match h e with Some k => wp k s' Q E | None => E e s' end) →
  wp (try_except m h) s Q E.
Proof.
  rw /wp /try_except. destruct (m s) as [[a|e] s']; [done|].
  by destruct (h e).
Qed.

(** What a [wp] says of the run itself. *)
Lemma wp_run {A} (m : M S A) s Q E r s' :
  wp m s Q E → m s = (r, s') →
  match r with Ok a => Q a s' | Raise e => E e s' end.
Proof. rw /wp. intros H Heq. rw Heq in H. by destruct r. Qed.

(** A run by its result. *)
Lemma run_of {A} (m : M S A) s r : fst (m s) = r → m s = (r, snd (m s)).
Proof. intros <-. by destruct (m s). Qed.

Lemma wp_and {A} (m : M S A) s Q1 E1 Q2 E2 :
  wp m s Q1 E1 → wp m s Q2 E2 →
  wp m s (λ a s', Q1 a s' ∧ Q2 a s') (λ e s', E1 e s' ∧ E2 e s').
Proof. rw /wp. by destruct (m s) as [[a|e] s']. Qed.

Lemma bind_run {A B} (m : M S A) (f : A → M S B) s a s' :
  m s = (Ok a, s') → bind m f s = f a s'.
Proof. rw /bind. by intros ->. Qed.
End Wp.

(** ** Frame properties of the monad

    [keeps R m]: whatever [m] returns or raises, it moves the state along the
    preorder [R].  The rules follow the structure of the program, so that a
    frame property of a method needs only those of its primitive actions. *)
Definition keeps {S A} (R : S → S → Prop) (m : M S A) : Prop := ∀ s, R s (snd (m s)).

Create HintDb keeps discriminated.

Section Keeps.
Context {S : Type} (R : S → S → Prop) `{!PreOrder R}.

Lemma keeps_ret {A} (a : A) : keeps R (ret a).
Proof. by intros s. Qed.
Lemma keeps_raise {A} e : keeps R (raise (A:=A) e).
Proof. by intros s. Qed.
Lemma keeps_bind {A B} (m : M S A) (f : A → M S B) :
  keeps R m → (∀ a, keeps R (f a)) → keeps R (bind m f).
Proof.
  intros Hm Hf s. rw /bind. specialize (Hm s). destruct (m s) as [[a|e] s']; [|done].
  etrans; [exact Hm|apply Hf].
Qed.
Lemma keeps_except {A} (m : M S A) h :
  keeps R m → (∀ e k, h e = Some k → keeps R k) → keeps R (try_except m h).
Proof.
  intros Hm Hh s. rw /try_except. specialize (Hm s). destruct (m s) as [[a|e] s']; [done|].
  destruct (h e) as [k|] eqn:E; [|done]. etrans; [exact Hm|by eapply Hh].
Qed.
Lemma keeps_finally {A} (m : M S A) f :
  keeps R m → (∀ s, R s (f s)) → keeps R (try_finally m f).
Proof.
  intros Hm Hf s. rw /try_finally. specialize (Hm s). destruct (m s) as [r s']. simpl in *.
  etrans; [exact Hm|apply Hf].
Qed.
Lemma keeps_run {A} (m : M S A) s r s' : keeps R m → m s = (r, s') → R s s'.
Proof. intros Hm Heq. specialize (Hm s). by rw Heq in Hm. Qed.
Lemma wp_keeps {A} (m : M S A) s : keeps R m → wp m s (λ _ s', R s s') (λ _ s', R s s').
Proof. intros Hm. specialize (Hm s). rw /wp. by destruct (m s) as [[a|e] s']. Qed.
End Keeps.

(** [keeps_tac]: descend through the control structure; primitive actions are
    left to the hints. *)
Ltac keeps_tac :=
  repeat first
    [ progress intros
    | lazymatch goal with
      | |- keeps _ (ret _) => apply keeps_ret; apply _
      | |- keeps _ (raise _) => apply keeps_raise; apply _
      | |- keeps _ (bind _ _) => apply keeps_bind; [apply _ | |]
      | |- keeps _ (try_except _ _) => apply keeps_except; [apply _ | |]
      | |- keeps _ (try_finally _ _) => apply keeps_finally; [apply _ | |]
      end
    | solve [eauto with keeps]
    | progress simplify_eq
    | case_match ].

(** [wp_step]: one structural rule of the monad. *)
Ltac wp_step :=
  first
    [ apply wp_ret
    | apply wp_raise
    | apply wp_bind
    | apply wp_finally
    | apply wp_except
    | apply wp_lift ].
Ltac wp_steps := repeat (wp_step; simpl).
(** [wp_use H]: discharge the current call with its specification [H]. *)
Tactic Notation "wp_use" open_constr(H) := eapply wp_mono; [eapply H | simpl | simpl].

(** ** Bytes *)
Abbreviation byte := Byte.byte.
Abbreviation bytes := (list byte).

#[export] Instance byte_eq_dec : EqDecision byte := Byte.byte_eq_dec.
#[export] Program Instance byte_countable : Countable byte :=
  inj_countable Byte.to_N Byte.of_N _.
Next Obligation. intros b. apply Byte.of_to_N. Qed.
#[export] Instance byte_inhabited : Inhabited byte := populate Byte.x00.

Definition byte_to_Z (b : byte) : Z := Z.of_N (Byte.to_N b).
Definition byte_of_Z (z : Z) : byte := default Byte.x00 (Byte.of_N (Z.to_N (z mod 256))).

Lemma byte_to_Z_bound b : (0 ≤ byte_to_Z b < 256)%Z.
Proof. rw /byte_to_Z. pose proof (Byte.to_N_bounded b). lia. Qed.

Lemma byte_to_of_Z z : byte_to_Z (byte_of_Z z) = (z mod 256)%Z.
Proof.
  rw /byte_to_Z /byte_of_Z.
  pose proof (Z.mod_pos_bound z 256 ltac:(lia)) as Hb.
  destruct (Byte.of_N (Z.to_N (z mod 256))) as [b|] eqn:E; simpl.
  - apply Byte.to_of_N in E. lia.
  - apply Byte.of_N_None_iff in E. lia.
Qed.

Lemma byte_of_to_Z b : byte_of_Z (byte_to_Z b) = b.
Proof.
  pose proof (byte_to_Z_bound b). rw /byte_of_Z Z.mod_small //. rw /byte_to_Z.
  by rw N2Z.id Byte.of_to_N.
Qed.

#[export] Instance byte_to_Z_inj : Inj (=) (=) byte_to_Z.
Proof. intros a b H. by rw -(byte_of_to_Z a) -(byte_of_to_Z b) H. Qed.

(** ** Python's [len], slices and [str.encode] *)
Definition len {A} (l : list A) : Z := Z.of_nat (length l).
(** [b[i:j]] for the non-negative bounds the code uses. *)
Definition slice {A} (l : list A) (i j : Z) : list A :=
  take (Z.to_nat (j - i)) (drop (Z.to_nat i) l).
Definition zeros (n : nat) : bytes := replicate n Byte.x00.
(** Strings are kept as their UTF-8 bytes, so encoding is a change of type. *)
Definition encode (s : string) : bytes := String.list_byte_of_string s.

Create Rewrite HintDb len.
#[export] Hint Rewrite @length_app @length_take @length_drop @length_replicate
  @length_cons @length_nil @length_fmap : len.

(** [div_lia]: [lia] with division and remainder by constants. *)
Ltac div_lia := intros; Z.to_euclidean_division_equations; lia.

(** [solve_len]: length goals after pushing [length] inside. *)
Ltac solve_len := unfold len, slice, zeros in *; autorewrite with len in *; simpl in *; lia.

Lemma len_nonneg {A} (l : list A) : (0 ≤ len l)%Z.
Proof. solve_len. Qed.
Lemma len_app {A} (l k : list A) : len (l ++ k) = (len l + len k)%Z.
Proof. solve_len. Qed.
Lemma len_zero_inv {A} (l : list A) : len l = 0%Z → l = [].
Proof. destruct l; [done|solve_len]. Qed.
Lemma len_to_nat {A} (l : list A) : Z.to_nat (len l) = length l.
Proof. rw /len. lia. Qed.

Lemma slice_app_l {A} (l k : list A) n : n = len l → slice (l ++ k) 0 n = l.
Proof. intros ->. rw /slice /= drop_0 Z.sub_0_r len_to_nat. by rw take_app_length. Qed.

Lemma slice_app_mid {A} (l m k : list A) i j :
  i = len l → j = (len l + len m)%Z → slice (l ++ m ++ k) i j = m.
Proof.
  intros -> ->. rw /slice. replace (len l + len m - len l)%Z with (len m) by lia.
  by rw !len_to_nat drop_app_length take_app_length.
Qed.

Lemma slice_app_end {A} (l m : list A) i j :
  i = len l → j = (len l + len m)%Z → slice (l ++ m) i j = m.
Proof. intros. rw -{1}(app_nil_r m). by apply slice_app_mid. Qed.

Lemma len_slice {A} (l : list A) i j :
  (0 ≤ i)%Z → (i ≤ j)%Z → len (slice l i j) = Z.min (j - i) (Z.max 0 (len l - i)).
Proof. intros. rw /slice /len length_take length_drop. lia. Qed.

Lemma slice_full {A} (l : list A) n : (len l ≤ n)%Z → slice l 0 n = l.
Proof. intros. rw /slice drop_0. apply take_ge. rw /len in H. lia. Qed.

Lemma slice_slice {A} (l : list A) n i j :
  (0 ≤ i)%Z → (j ≤ len (slice l 0 n))%Z → slice (slice l 0 n) i j = slice l i j.
Proof.
  intros Hi Hj. rw /len /slice length_take length_drop in Hj. rw /slice drop_0 Z.sub_0_r.
  rw skipn_firstn_comm take_take. f_equal. lia.
Qed.
Lemma slice_short {A} (l : list A) i j : (0 ≤ i)%Z → (i ≤ j)%Z → (len (slice l i j) ≤ j - i)%Z.
Proof. intros. rw len_slice //. lia. Qed.

Lemma encode_length s : length (encode s) = String.length s.
Proof. induction s as [|a s IH]; simpl; [done|]. by f_equal. Qed.

Lemma encode_inj s1 s2 : encode s1 = encode s2 → s1 = s2.
Proof.
  intros H. rw -(String.string_of_list_byte_of_string s1)
    -(String.string_of_list_byte_of_string s2). by f_equal.
Qed.

(** ** Lists and options *)
Lemma take_app_short {A} (l k : list A) n :
  n < length l → take n (l ++ k) = take n l.
Proof. intros. apply take_app_le. lia. Qed.

(** The prefix of a list of options before its first [None]. *)
Fixpoint some_prefix {A} (l : list (option A)) : list A :=
  match l with
  | Some a :: l => a :: some_prefix l
  | _ => []
  end.

Lemma some_prefix_lookup {A} (l : list (option A)) i a :
  some_prefix l !! i = Some a → l !! i = Some (Some a).
Proof.
  revert i. induction l as [|[b|] l IH]; intros [|i] H; simplify_eq/=; eauto.
Qed.

Lemma some_prefix_spec {A} (l : list (option A)) :
  ∃ tl, l = (Some <$> some_prefix l) ++ tl ∧ (tl = [] ∨ ∃ tl', tl = None :: tl').
Proof.
  induction l as [|[b|] l IH]; simpl; [by exists []; eauto| |by eexists; eauto].
  destruct IH as (tl & Heq & Htl). exists tl. split; [|done]. by rw {1}Heq.
Qed.
