(* ===== verification/PyStruct.v ===== *)
(** * Python's [struct] module, for the formats the layouts use

    [serde.py] packs ["<II"], [serde_v2.py] packs ["<8sIIIIQI"] and
    ["<8sIIIIQ"].  All are little-endian with no padding: [I] is an unsigned
    32-bit field, [Q] an unsigned 64-bit one, [8s] eight raw bytes.  A value
    outside its field is a [struct.error]. *)
From S2P Require Import Prelude.
Open Scope Z_scope.
Open Scope py_scope.

(** ** Little-endian integers *)
Fixpoint le_bytes (n : nat) (z : Z) : bytes :=
  match n with
  | O => []
  | S n => byte_of_Z z :: le_bytes n (z / 256)
  end.

Fixpoint le_val (l : bytes) : Z :=
  match l with
  | [] => 0
  | b :: l => byte_to_Z b + 256 * le_val l
  end.

Lemma length_le_bytes n z : length (le_bytes n z) = n.
Proof. revert z. induction n as [|n IH]; intros z; simpl; [done|]. by rw IH. Qed.
#[export] Hint Rewrite length_le_bytes : len.

Lemma le_val_bound l : 0 ≤ le_val l < 256 ^ len l.
Proof.
  rw /len. induction l as [|b l IH]; [done|].
  cbn [le_val length]. pose proof (byte_to_Z_bound b).
  rw Nat2Z.inj_succ Z.pow_succ_r; lia.
Qed.

Lemma le_val_bytes n z : le_val (le_bytes n z) = z mod 256 ^ Z.of_nat n.
Proof.
  revert z. induction n as [|n IH]; intros z; [by rw Z.mod_1_r|].
  cbn [le_bytes le_val]. rw byte_to_of_Z IH Nat2Z.inj_succ Z.pow_succ_r; [lia|].
  rw (Z.rem_mul_r z 256 (256 ^ Z.of_nat n)); lia.
Qed.

Lemma le_val_bytes_small n z : 0 ≤ z < 256 ^ Z.of_nat n → le_val (le_bytes n z) = z.
Proof. intros. rw le_val_bytes. by apply Z.mod_small. Qed.

Lemma le_bytes_val l : le_bytes (length l) (le_val l) = l.
Proof.
  induction l as [|b l IH]; [done|]. cbn [length le_bytes le_val].
  pose proof (byte_to_Z_bound b). f_equal.
  - rw -{2}(byte_of_to_Z b). rw /byte_of_Z.
    by rw (Z.mul_comm 256) Z_mod_plus_full.
  - rw (Z.mul_comm 256) Z.div_add; [lia|]. by rw Z.div_small.
Qed.

Lemma le_val_inj l1 l2 : length l1 = length l2 → le_val l1 = le_val l2 → l1 = l2.
Proof. intros Hl Hv. by rw -(le_bytes_val l1) -(le_bytes_val l2) Hl Hv. Qed.

(** Changing one byte of an integer field gives another value of the field. *)
Lemma le_bytes_insert n z j b :
  (j < n)%nat → 0 ≤ z < 256 ^ Z.of_nat n → ∃ z',
    0 ≤ z' < 256 ^ Z.of_nat n ∧ <[j:=b]> (le_bytes n z) = le_bytes n z' ∧
    (z' = z → le_bytes n z !! j = Some b).
Proof.
  intros Hj Hz. exists (le_val (<[j:=b]> (le_bytes n z))).
  assert (length (<[j:=b]> (le_bytes n z)) = n) as Hl.
  { by rw length_insert length_le_bytes. }
  split; [|split].
  - pose proof (le_val_bound (<[j:=b]> (le_bytes n z))) as Hb. rw /len Hl in Hb. exact Hb.
  - by rw -{2}Hl le_bytes_val.
  - intros Heq. assert (<[j:=b]> (le_bytes n z) = le_bytes n z) as Hx.
    + apply le_val_inj; [by rw Hl length_le_bytes|]. rw Heq. symmetry. by apply le_val_bytes_small.
    + rw -Hx. apply list_lookup_insert_eq. by rw length_le_bytes.
Qed.

#[global] Arguments le_bytes : simpl never.
#[global] Arguments le_val : simpl never.

(** ** Formats *)
Inductive field := FI | FQ | Fs (n : nat).
Inductive value := VInt (z : Z) | VBytes (b : bytes).

Definition fsize (f : field) : nat := match f with FI => 4 | FQ => 8 | Fs n => n end.
Definition calcsize (fmt : list field) : nat := sum_list (fsize <$> fmt).

(** [Fs n] pads with zeros or truncates, as Python's ["8s"] does. *)
Definition pack1 (f : field) (v : value) : res bytes :=
  match f, v with
  | FI, VInt z => if bool_decide (0 ≤ z < 2 ^ 32) then Ok (le_bytes 4 z) else Raise StructError
  | FQ, VInt z => if bool_decide (0 ≤ z < 2 ^ 64) then Ok (le_bytes 8 z) else Raise StructError
  | Fs n, VBytes b => Ok (take n b ++ zeros (n - length b))
  | _, _ => Raise StructError
  end.

Fixpoint struct_pack (fmt : list field) (vs : list value) : res bytes :=
  match fmt, vs with
  | [], [] => Ok []
  | f :: fmt, v :: vs =>
      let? b := pack1 f v in
      let? bs := struct_pack fmt vs in
      Ok (b ++ bs)
  | _, _ => Raise StructError
  end.

Definition unpack1 (f : field) (b : bytes) : value :=
  match f with
  | FI | FQ => VInt (le_val b)
  | Fs _ => VBytes b
  end.

Fixpoint unpack_fields (fmt : list field) (b : bytes) : list value :=
  match fmt with
  | [] => []
  | f :: fmt => unpack1 f (take (fsize f) b) :: unpack_fields fmt (drop (fsize f) b)
  end.

(** [Struct.unpack] wants exactly [calcsize] bytes. *)
Definition struct_unpack (fmt : list field) (b : bytes) : res (list value) :=
  if bool_decide (length b = calcsize fmt) then Ok (unpack_fields fmt b)
  else Raise StructError.

(** A value that fits its field. *)
Definition fits (f : field) (v : value) : Prop :=
  match f, v with
  | FI, VInt z => 0 ≤ z < 2 ^ 32
  | FQ, VInt z => 0 ≤ z < 2 ^ 64
  | Fs n, VBytes b => length b = n
  | _, _ => False
  end.

Lemma pack1_fits f v : fits f v → ∃ b,
  pack1 f v = Ok b ∧ length b = fsize f ∧ unpack1 f b = v.
Proof.
  destruct f, v; simpl; intros H; try done.
  - rw bool_decide_true //. eexists; split; [done|].
    rw length_le_bytes le_val_bytes_small //.
  - rw bool_decide_true //. eexists; split; [done|].
    rw length_le_bytes le_val_bytes_small //.
  - subst n. exists b. rw Nat.sub_diag take_ge // app_nil_r //.
Qed.

Lemma pack_fits fmt vs : Forall2 fits fmt vs → ∃ b,
  struct_pack fmt vs = Ok b ∧ length b = calcsize fmt ∧ unpack_fields fmt b = vs.
Proof.
  induction 1 as [|f v fmt vs Hf _ IH]; simpl; [by eexists|].
  destruct (pack1_fits _ _ Hf) as (b & -> & Hlen & Hu).
  destruct IH as (bs & -> & Hlens & Hus). simpl.
  eexists; split; [done|]. split.
  - rw length_app Hlen Hlens //.
  - rw -{1}Hlen take_app_length -{1}Hlen drop_app_length Hu Hus //.
Qed.

(** Packing and unpacking are inverse, on the values that fit. *)
Lemma unpack_pack fmt vs b : Forall2 fits fmt vs → struct_pack fmt vs = Ok b → struct_unpack fmt b = Ok vs.
Proof.
  intros (b' & Hb & Hl & Hu)%pack_fits Hp. rw Hp in Hb. injection Hb as ->.
  by rw /struct_unpack bool_decide_true // Hu.
Qed.

Lemma pack_length fmt vs b : Forall2 fits fmt vs → struct_pack fmt vs = Ok b → length b = calcsize fmt.
Proof. intros (b' & Hb & Hl & Hu)%pack_fits Hp. congruence. Qed.

(** Conversely, unpacking then packing gives the bytes back. *)
Lemma pack1_unpack1 f b : length b = fsize f → pack1 f (unpack1 f b) = Ok b.
Proof.
  destruct f; simpl; intros Hl.
  - pose proof (le_val_bound b). rw /len Hl in H. rw bool_decide_true; [lia|].
    by rw -Hl le_bytes_val.
  - pose proof (le_val_bound b). rw /len Hl in H. rw bool_decide_true; [lia|].
    by rw -Hl le_bytes_val.
  - subst. by rw Nat.sub_diag take_ge // app_nil_r.
Qed.

Lemma pack_unpack fmt b vs : struct_unpack fmt b = Ok vs → struct_pack fmt vs = Ok b.
Proof.
  rw /struct_unpack. case_bool_decide as Hl; [|done]. intros [= <-].
  revert b Hl. induction fmt as [|f fmt IH]; intros b Hl; simpl.
  - by apply nil_length_inv in Hl as ->.
  - rw /calcsize fmap_cons /= in Hl. rw pack1_unpack1; [solve_len|]. simpl.
    rw IH; [rw /calcsize; solve_len|]. by rw /= take_drop.
Qed.

(** The packed form of one field, for rewriting a format field by field. *)
Lemma pack1_I z : 0 ≤ z < 2 ^ 32 → pack1 FI (VInt z) = Ok (le_bytes 4 z).
Proof. intros. by rw /pack1 bool_decide_true. Qed.
Lemma pack1_Q z : 0 ≤ z < 2 ^ 64 → pack1 FQ (VInt z) = Ok (le_bytes 8 z).
Proof. intros. by rw /pack1 bool_decide_true. Qed.
Lemma pack1_s n b : length b = n → pack1 (Fs n) (VBytes b) = Ok b.
Proof. intros <-. by rw /pack1 Nat.sub_diag take_ge // app_nil_r. Qed.
Lemma pack1_Q_fail z : ¬ (0 ≤ z < 2 ^ 64) → pack1 FQ (VInt z) = Raise StructError.
Proof. intros. by rw /pack1 bool_decide_false. Qed.
#[global] Arguments pack1 : simpl never.
