(* ===== verification/Crc32.v ===== *)
(** * [zlib.crc32]

    The header of the v2 and v3 layouts is guarded by [zlib.crc32], the
    reflected CRC-32 with polynomial 0xEDB88320.  It is defined bit by bit as
    the standard does, on 32-bit states kept in [Z].  The fact the layouts rely
    on is proved here: two inputs of the same length that differ in exactly one
    byte never have the same CRC. *)
From S2P Require Import Prelude.
Open Scope Z_scope.

Definition crc_poly : Z := 0xEDB88320.
Definition u32_max : Z := 0xFFFFFFFF.

Definition crc_bit (c : Z) : Z :=
  if Z.testbit c 0 then Z.lxor (Z.shiftr c 1) crc_poly else Z.shiftr c 1.
Definition crc_byte (c : Z) (b : byte) : Z :=
  Nat.iter 8 crc_bit (Z.lxor c (byte_to_Z b)).
Definition crc_run (c : Z) (data : bytes) : Z := fold_left crc_byte data c.

(** [zlib.crc32(data, value)] *)
Definition crc32 (data : bytes) (value : Z) : Z :=
  Z.lxor (crc_run (Z.lxor value u32_max) data) u32_max.

(** The check value of the CRC-32 standard, of the ASCII string 123456789. *)
Example crc32_check_value : crc32 (encode "123456789") 0 = 0xCBF43926.
Proof. vm_compute. reflexivity. Qed.

(** ** 32-bit states *)
Definition u32 (c : Z) : Prop := 0 ≤ c < 2 ^ 32.

Lemma u32_lxor a b : u32 a → u32 b → u32 (Z.lxor a b).
Proof.
  intros [Ha Ha'] [Hb Hb']. split; [apply Z.lxor_nonneg; lia|].
  destruct (Z.eq_dec (Z.lxor a b) 0) as [->|Hne]; [lia|].
  assert (0 ≤ Z.lxor a b) by (apply Z.lxor_nonneg; lia).
  apply Z.log2_lt_pow2; [lia|]. pose proof (Z.log2_lxor a b Ha Hb).
  assert (∀ x, 0 ≤ x < 2 ^ 32 → Z.log2 x < 32) as Hlog.
  { intros x Hx. destruct (Z.eq_dec x 0) as [->|]; [done|]. apply Z.log2_lt_pow2; lia. }
  pose proof (Hlog a). pose proof (Hlog b). lia.
Qed.

Lemma u32_byte b : u32 (byte_to_Z b).
Proof. pose proof (byte_to_Z_bound b). rw /u32. lia. Qed.

Lemma u32_const_poly : u32 crc_poly.
Proof. done. Qed.
Lemma u32_const_max : u32 u32_max.
Proof. done. Qed.

Lemma u32_shiftr c : u32 c → u32 (Z.shiftr c 1).
Proof. rw /u32 -Z.div2_spec Z.div2_div. div_lia. Qed.

Create HintDb u32 discriminated.
#[export] Hint Resolve u32_lxor u32_byte u32_const_poly u32_const_max u32_shiftr : u32.

Lemma u32_crc_bit c : u32 c → u32 (crc_bit c).
Proof. rw /crc_bit. destruct (Z.testbit c 0); eauto with u32. Qed.
#[export] Hint Resolve u32_crc_bit : u32.

Lemma u32_crc_bits n c : u32 c → u32 (Nat.iter n crc_bit c).
Proof. intros. induction n; simpl; eauto with u32. Qed.

Lemma u32_crc_byte c b : u32 c → u32 (crc_byte c b).
Proof. intros. apply u32_crc_bits. eauto with u32. Qed.
#[export] Hint Resolve u32_crc_byte : u32.

Lemma u32_crc_run c data : u32 c → u32 (crc_run c data).
Proof. rw /crc_run. revert c. induction data; simpl; eauto with u32. Qed.
#[export] Hint Resolve u32_crc_run : u32.

Lemma u32_crc32 data v : u32 v → u32 (crc32 data v).
Proof. rw /crc32. eauto with u32. Qed.
#[export] Hint Resolve u32_crc32 : u32.

(** ** Injectivity *)

(** Bit 31 of the result of one step is the bit that was shifted out. *)
Lemma crc_bit_top c : u32 c → Z.testbit (crc_bit c) 31 = Z.testbit c 0.
Proof.
  intros Hc. assert (Z.testbit (Z.shiftr c 1) 31 = false) as Ht.
  { rw Z.shiftr_spec; [lia|]. rw -(Z.mod_small c (2 ^ 32)) //.
    by apply Z.mod_pow2_bits_high. }
  rw /crc_bit. destruct (Z.testbit c 0); [|done]. by rw Z.lxor_spec Ht.
Qed.

Lemma shiftr1_bit0_inj a b :
  Z.shiftr a 1 = Z.shiftr b 1 → Z.testbit a 0 = Z.testbit b 0 → a = b.
Proof.
  intros Hs H0. apply Z.bits_inj'. intros n Hn.
  destruct (Z.eq_dec n 0) as [->|]; [done|].
  replace n with (n - 1 + 1) by lia. rw -!Z.shiftr_spec; [lia..|]. by rw Hs.
Qed.

Lemma crc_bit_inj a b : u32 a → u32 b → crc_bit a = crc_bit b → a = b.
Proof.
  intros Ha Hb Heq. assert (Z.testbit a 0 = Z.testbit b 0) as H0.
  { by rw -(crc_bit_top a) // -(crc_bit_top b) // Heq. }
  apply shiftr1_bit0_inj; [|done]. move: Heq. rw /crc_bit H0.
  destruct (Z.testbit b 0); [|done]. intros Hx.
  apply (f_equal (λ z, Z.lxor z crc_poly)) in Hx.
  by rw !Z.lxor_assoc Z.lxor_nilpotent !Z.lxor_0_r in Hx.
Qed.

Lemma crc_bits_inj n a b :
  u32 a → u32 b → Nat.iter n crc_bit a = Nat.iter n crc_bit b → a = b.
Proof.
  intros Ha Hb. induction n as [|n IH]; simpl; [done|].
  intros H%crc_bit_inj; eauto using u32_crc_bits.
Qed.

Lemma lxor_cancel_r a b c : Z.lxor a c = Z.lxor b c → a = b.
Proof.
  intros H. apply (f_equal (λ z, Z.lxor z c)) in H.
  by rw !Z.lxor_assoc Z.lxor_nilpotent !Z.lxor_0_r in H.
Qed.

(** For a fixed byte the step is injective in the state ... *)
Lemma crc_byte_inj_state a b x : u32 a → u32 b → crc_byte a x = crc_byte b x → a = b.
Proof.
  intros Ha Hb H. apply crc_bits_inj in H; eauto with u32. by apply lxor_cancel_r in H.
Qed.

(** ... and for a fixed state it is injective in the byte. *)
Lemma crc_byte_inj_byte c x y : u32 c → crc_byte c x = crc_byte c y → x = y.
Proof.
  intros Hc H. apply crc_bits_inj in H; eauto with u32.
  rw !(Z.lxor_comm c) in H. apply lxor_cancel_r in H. by apply (inj byte_to_Z).
Qed.

Lemma crc_run_inj a b data : u32 a → u32 b → crc_run a data = crc_run b data → a = b.
Proof.
  rw /crc_run. revert a b. induction data as [|x data IH]; simpl; [done|].
  intros a b Ha Hb H. apply IH in H; eauto with u32. by apply crc_byte_inj_state in H.
Qed.

Lemma crc_run_app c d1 d2 : crc_run c (d1 ++ d2) = crc_run (crc_run c d1) d2.
Proof. apply fold_left_app. Qed.

(** Chaining through [value] is the CRC of the concatenation. *)
Lemma crc32_app d1 d2 v : crc32 d2 (crc32 d1 v) = crc32 (d1 ++ d2) v.
Proof.
  rw /crc32 crc_run_app. do 2 f_equal. by rw Z.lxor_assoc Z.lxor_nilpotent Z.lxor_0_r.
Qed.

(** One changed byte always changes the CRC. *)
Lemma crc32_one_byte pre x y post v :
  u32 v → crc32 (pre ++ x :: post) v = crc32 (pre ++ y :: post) v → x = y.
Proof.
  rw /crc32 !crc_run_app /=. intros Hv H. apply lxor_cancel_r in H.
  apply crc_run_inj in H; eauto with u32. apply crc_byte_inj_byte in H; eauto with u32.
Qed.

(** The same in terms of an update in place. *)
Lemma crc32_insert d i x v :
  u32 v → (i < length d)%nat → crc32 (<[i:=x]> d) v = crc32 d v → d !! i = Some x.
Proof.
  intros Hv Hi. destruct (lookup_lt_is_Some_2 _ _ Hi) as [y Hy].
  rw -{2}(take_drop_middle d i y Hy) (insert_take_drop d i x Hi).
  intros ->%crc32_one_byte; done.
Qed.
