(* ===== verification/Sha256.v ===== *)
(** * [hashlib.sha256]

    Every layout names an object by the SHA-256 of the key's string.  The
    function is defined as FIPS 180-4 gives it, on 32-bit words kept in [Z], so
    that names can be computed; what the development uses of it is that a
    digest has 32 bytes and its hexadecimal form 64 characters 0-9a-f.
    Collision freedom is never assumed: where two keys must not meet, the
    theorem has the inequality of the two digests as a hypothesis. *)
From S2P Require Import Prelude.
Open Scope Z_scope.

Definition w32 (x : Z) : Z := x mod 2 ^ 32.
Definition rotr (x n : Z) : Z := w32 (Z.lor (Z.shiftr x n) (Z.shiftl x (32 - n))).
Definition ch (x y z : Z) : Z := Z.lxor (Z.land x y) (Z.land (Z.lxor x 0xFFFFFFFF) z).
Definition maj (x y z : Z) : Z := Z.lxor (Z.lxor (Z.land x y) (Z.land x z)) (Z.land y z).
Definition bsig0 (x : Z) : Z := Z.lxor (Z.lxor (rotr x 2) (rotr x 13)) (rotr x 22).
Definition bsig1 (x : Z) : Z := Z.lxor (Z.lxor (rotr x 6) (rotr x 11)) (rotr x 25).
Definition ssig0 (x : Z) : Z := Z.lxor (Z.lxor (rotr x 7) (rotr x 18)) (Z.shiftr x 3).
Definition ssig1 (x : Z) : Z := Z.lxor (Z.lxor (rotr x 17) (rotr x 19)) (Z.shiftr x 10).

(** The round constants are not tabulated but computed from their definition:
    the first 32 bits of the fractional parts of the cube roots (square roots,
    for the initial state) of the first primes. *)
Definition is_prime (n : Z) : bool := forallb (λ d, negb (n mod d =? 0)) (seqZ 2 (n - 2)).
Definition primes_to (n : Z) : list Z := base.filter (λ p, is_prime p = true) (seqZ 2 (n - 1)).
(** [cbrt k lo p]: the largest [r] with [r ^ 3 <= p], among [lo .. lo + 2 ^ k). *)
Fixpoint cbrt (k : nat) (lo p : Z) : Z :=
  match k with
  | O => lo
  | S k => let mid := lo + 2 ^ Z.of_nat k in cbrt k (if mid * mid * mid <=? p then mid else lo) p
  end.
Definition sha_k : list Z :=
  Eval vm_compute in (λ p, w32 (cbrt 36 0 (p * 2 ^ 96))) <$> primes_to 311.
Definition sha_h0 : list Z :=
  Eval vm_compute in (λ p, w32 (Z.sqrt (p * 2 ^ 64))) <$> primes_to 19.

(** Big-endian words. *)
Fixpoint be_bytes (n : nat) (z : Z) : bytes :=
  match n with
  | O => []
  | S n => be_bytes n (z / 256) ++ [byte_of_Z z]
  end.
Definition be_val (l : bytes) : Z := fold_left (λ a b, a * 256 + byte_to_Z b) l 0.

Fixpoint words (n : nat) (l : bytes) : list Z :=
  match n with
  | O => []
  | S n => be_val (take 4 l) :: words n (drop 4 l)
  end.

Definition sha_pad (m : bytes) : bytes :=
  let zeros_n := Z.to_nat ((55 - len m) mod 64) in
  m ++ [Byte.x80] ++ zeros zeros_n ++ be_bytes 8 (8 * len m).

Definition schedule_step (w : list Z) : list Z :=
  let t := length w in
  let at_ k := nth (t - k) w 0 in
  w ++ [w32 (ssig1 (at_ 2%nat) + at_ 7%nat + ssig0 (at_ 15%nat) + at_ 16%nat)].
Definition schedule (w : list Z) : list Z := Nat.iter 48 schedule_step w.

Definition sha_round (s : list Z) (kw : Z * Z) : list Z :=
  match s with
  | [a; b; c; d; e; f; g; h] =>
      let t1 := w32 (h + bsig1 e + ch e f g + kw.1 + kw.2) in
      let t2 := w32 (bsig0 a + maj a b c) in
      [w32 (t1 + t2); a; b; c; w32 (d + t1); e; f; g]
  | _ => s
  end.

Definition sha_block (s : list Z) (blk : bytes) : list Z :=
  let s' := fold_left sha_round (zip sha_k (schedule (words 16 blk))) s in
  zip_with (λ x y, w32 (x + y)) s s'.

Fixpoint sha_blocks (n : nat) (s : list Z) (m : bytes) : list Z :=
  match n with
  | O => s
  | S n => sha_blocks n (sha_block s (take 64 m)) (drop 64 m)
  end.

Definition sha256 (m : bytes) : bytes :=
  let p := sha_pad m in
  mjoin (be_bytes 4 <$> sha_blocks (length p / 64) sha_h0 p).

(** [.hexdigest()] *)
Definition hex_digit (d : Z) : Ascii.ascii :=
  Ascii.ascii_of_byte (byte_of_Z (if d <? 10 then 48 + d else 87 + d)).
Fixpoint hex_string (l : bytes) : string :=
  match l with
  | [] => EmptyString
  | b :: l => String (hex_digit (byte_to_Z b / 16)) (String (hex_digit (byte_to_Z b mod 16)) (hex_string l))
  end.
Definition hexdigest (m : bytes) : string := hex_string (sha256 m).

(** The FIPS test vector. *)
Example sha256_abc :
  hexdigest (encode "abc") = "ba7816bf8f01cfea414140de5dae2223b00361a396177a9cb410ff61f20015ad"%string.
Proof. vm_compute. reflexivity. Qed.
Example sha256_empty :
  hexdigest [] = "e3b0c44298fc1c149afbf4c8996fb92427ae41e4649b934ca495991b7852b855"%string.
Proof. vm_compute. reflexivity. Qed.

(** ** Shape of a digest *)
Lemma length_be_bytes n z : length (be_bytes n z) = n.
Proof. revert z. induction n as [|n IH]; intros z; simpl; [done|]. rw length_app IH /=. lia. Qed.

Lemma length_sha_round s kw : length (sha_round s kw) = length s.
Proof. by do 9 (destruct s as [|? s]; [done|]). Qed.

Lemma length_sha_rounds l s : length (fold_left sha_round l s) = length s.
Proof. revert s. induction l as [|x l IH]; intros s; simpl; [done|]. by rw IH length_sha_round. Qed.

Lemma length_sha_block s blk : length (sha_block s blk) = length s.
Proof. rw /sha_block length_zip_with length_sha_rounds. lia. Qed.

Lemma length_sha_blocks n s m : length (sha_blocks n s m) = length s.
Proof.
  revert s m. induction n as [|n IH]; intros s m; simpl; [done|]. by rw IH length_sha_block.
Qed.

Lemma length_sha256 m : length (sha256 m) = 32%nat.
Proof.
  rw /sha256. pose proof (length_sha_blocks (length (sha_pad m) / 64) sha_h0 (sha_pad m)) as Hl.
  destruct (sha_blocks _ _ _) as [|? [|? [|? [|? [|? [|? [|? [|? [|]]]]]]]]]; done.
Qed.

Lemma length_hex_string l : String.length (hex_string l) = (2 * length l)%nat.
Proof. induction l as [|b l IH]; simpl; [done|]. rw IH. lia. Qed.

Lemma length_hexdigest m : String.length (hexdigest m) = 64%nat.
Proof. by rw /hexdigest length_hex_string length_sha256. Qed.

(** The characters of a digest. *)
Definition is_hex (c : Ascii.ascii) : bool :=
  let n := Ascii.nat_of_ascii c in
  ((48 <=? n) && (n <=? 57) || (97 <=? n) && (n <=? 102))%nat.
Fixpoint all_hex (s : string) : bool :=
  match s with EmptyString => true | String c s => is_hex c && all_hex s end.

Lemma forallb_seqZ (f : Z → bool) n d :
  forallb f (seqZ 0 n) = true → 0 ≤ d < n → f d = true.
Proof.
  rw List.forallb_forall. intros Hf Hd. apply Hf. apply list_elem_of_In, elem_of_seqZ. lia.
Qed.

Lemma hex_digit_is_hex d : 0 ≤ d < 16 → is_hex (hex_digit d) = true.
Proof. by apply (forallb_seqZ (λ d, is_hex (hex_digit d))). Qed.

Lemma all_hex_string l : all_hex (hex_string l) = true.
Proof.
  induction l as [|b l IH]; [done|]. cbn [hex_string all_hex].
  pose proof (byte_to_Z_bound b).
  rw !hex_digit_is_hex; [div_lia..|done].
Qed.

(** Two digits determine the byte, so the hexadecimal form is injective. *)
Lemma hex_digit_inj d e : 0 ≤ d < 16 → 0 ≤ e < 16 → hex_digit d = hex_digit e → d = e.
Proof.
  intros Hd He Heq.
  assert (forallb (λ d, implb (Ascii.eqb (hex_digit d) (hex_digit e)) (d =? e)) (seqZ 0 16) = true) as Hall.
  { move: He. apply (forallb_seqZ (λ e,
      forallb (λ d, implb (Ascii.eqb (hex_digit d) (hex_digit e)) (d =? e)) (seqZ 0 16))).
    vm_compute. reflexivity. }
  pose proof (forallb_seqZ _ 16 d Hall Hd) as Himp. simpl in Himp.
  rw Heq Ascii.eqb_refl in Himp. by apply Z.eqb_eq.
Qed.

Lemma hex_string_inj l1 l2 : hex_string l1 = hex_string l2 → l1 = l2.
Proof.
  revert l2. induction l1 as [|a l1 IH]; intros [|b l2]; try done. cbn [hex_string].
  intros [= Hq Hr Ht]. pose proof (byte_to_Z_bound a). pose proof (byte_to_Z_bound b).
  apply hex_digit_inj in Hq; [|div_lia..]. apply hex_digit_inj in Hr; [|div_lia..].
  f_equal; [|by apply IH]. apply (inj byte_to_Z). div_lia.
Qed.
