(* ===== verification/Json.v ===== *)
(** * Python's [json] module and UTF-8 decoding, for the metadata of the GPU backend

    [gds_backend.py] writes its metadata with [json.dumps] (compact separators)
    and reads it with [json.loads].  A Python string is the list of its code
    points ([pystr]); [dumps] escapes everything outside printable ASCII, as
    [ensure_ascii] does; [loads] is the whole scanner: white space, escapes and
    surrogate pairs, numbers, nesting, the later of two equal keys.  A number
    with a fraction or an exponent is kept as its text ([JFloat]).  The two
    limits of CPython (nesting depth, 4300 digits) are not modelled.

    The round trip [loads_dumps] is proved for every value without floats whose
    strings hold no surrogate and whose objects have distinct keys. *)
From Stdlib Require Import Decimal DecimalFacts DecimalPos DecimalZ.
From S2P Require Import Prelude.
Open Scope Z_scope.
Open Scope py_scope.

(** ** Strings as code points *)
Abbreviation pystr := (list Z).
Definition codes (s : string) : pystr := byte_to_Z <$> encode s.

(** [bytes.decode()]: strict UTF-8. *)
Definition cont (b : Z) : bool := (128 <=? b) && (b <? 192).
Definition surrogate (c : Z) : bool := (55296 <=? c) && (c <? 57344).
Fixpoint utf8 (b : list Z) : res pystr :=
  match b with
  | [] => Ok []
  | a :: b =>
      if a <? 128 then (let? s := utf8 b in Ok (a :: s)) else
      match b with
      | x :: b =>
          if negb (cont x) then Raise ValueError else
          if (194 <=? a) && (a <? 224) then (let? s := utf8 b in Ok ((a - 192) * 64 + (x - 128) :: s)) else
          match b with
          | y :: b =>
              if negb (cont y) then Raise ValueError else
              if (224 <=? a) && (a <? 240) then
                let c := (a - 224) * 4096 + (x - 128) * 64 + (y - 128) in
                if (c <? 2048) || surrogate c then Raise ValueError else
                (let? s := utf8 b in Ok (c :: s))
              else
              match b with
              | z :: b =>
                  if negb (cont z) || (a <? 240) then Raise ValueError else
                  let c := (a - 240) * 262144 + (x - 128) * 4096 + (y - 128) * 64 + (z - 128) in
                  if (c <? 65536) || (1114111 <? c) then Raise ValueError else
                  (let? s := utf8 b in Ok (c :: s))
              | [] => Raise ValueError
              end
          | [] => Raise ValueError
          end
      | [] => Raise ValueError
      end
  end.
Definition decode (b : bytes) : res pystr := utf8 (byte_to_Z <$> b).
(** [str.encode()] of an ASCII string. *)
Definition ascii_encode (s : pystr) : bytes := byte_of_Z <$> s.

(** ** JSON values *)
Inductive json :=
| JNull
| JBool (b : bool)
| JInt (z : Z)
| JFloat (text : pystr)
| JStr (s : pystr)
| JList (l : list json)
| JObj (d : list (pystr * json)).

(** The dict a sequence of pairs builds: a repeated key keeps its place and
    takes the later value. *)
Fixpoint dict_set (k : pystr) (v : json) (d : list (pystr * json)) : list (pystr * json) :=
  match d with
  | [] => [(k, v)]
  | (k', v') :: d => if bool_decide (k = k') then (k, v) :: d else (k', v') :: dict_set k v d
  end.
Fixpoint dict_of (acc pairs : list (pystr * json)) : list (pystr * json) :=
  match pairs with
  | [] => acc
  | (k, v) :: pairs => dict_of (dict_set k v acc) pairs
  end.
Fixpoint dict_get (k : pystr) (d : list (pystr * json)) : option json :=
  match d with
  | [] => None
  | (k', v) :: d => if bool_decide (k = k') then Some v else dict_get k d
  end.

(** ** [json.dumps(v, separators=(",", ":"))] *)
Definition hex_digit (d : Z) : Z := if d <? 10 then 48 + d else 87 + d.
Definition u4 (n : Z) : pystr :=
  [92; 117; hex_digit (n / 4096); hex_digit (n / 256 mod 16); hex_digit (n / 16 mod 16); hex_digit (n mod 16)].
Definition escape (c : Z) : pystr :=
  if c =? 34 then [92; 34] else
  if c =? 92 then [92; 92] else
  if c =? 10 then [92; 110] else
  if c =? 13 then [92; 114] else
  if c =? 9 then [92; 116] else
  if c =? 12 then [92; 102] else
  if c =? 8 then [92; 98] else
  if (32 <=? c) && (c <=? 126) then [c] else
  if c <? 65536 then u4 c else
  u4 (55296 + (c - 65536) / 1024) ++ u4 (56320 + (c - 65536) mod 1024).
Fixpoint escape_all (s : pystr) : pystr :=
  match s with [] => [] | c :: s => escape c ++ escape_all s end.
Definition dump_str (s : pystr) : pystr := [34] ++ escape_all s ++ [34].

Fixpoint uint_codes (u : uint) : pystr :=
  match u with
  | Nil => []
  | D0 u => 48 :: uint_codes u | D1 u => 49 :: uint_codes u | D2 u => 50 :: uint_codes u
  | D3 u => 51 :: uint_codes u | D4 u => 52 :: uint_codes u | D5 u => 53 :: uint_codes u
  | D6 u => 54 :: uint_codes u | D7 u => 55 :: uint_codes u | D8 u => 56 :: uint_codes u
  | D9 u => 57 :: uint_codes u
  end.
(** [int.__repr__] *)
Definition dump_int (z : Z) : pystr :=
  match Z.to_int z with
  | Pos u => uint_codes u
  | Neg u => 45 :: uint_codes u
  end.

(** [sep.join(l)] for a one-character separator *)
Fixpoint join (sep : Z) (l : list pystr) : pystr :=
  match l with
  | [] => []
  | [s] => s
  | s :: l => s ++ sep :: join sep l
  end.
Fixpoint dumps (j : json) : pystr :=
  match j with
  | JNull => codes "null"
  | JBool true => codes "true"
  | JBool false => codes "false"
  | JInt z => dump_int z
  | JFloat t => t
  | JStr s => dump_str s
  | JList l => [91] ++ join 44 (map dumps l) ++ [93]
  | JObj d => [123] ++ join 44 (map (λ '(k, v), dump_str k ++ 58 :: dumps v) d) ++ [125]
  end.

(** ** [json.loads] *)
Definition is_ws (c : Z) : bool := (c =? 32) || (c =? 9) || (c =? 10) || (c =? 13).
Fixpoint skip_ws (s : pystr) : pystr :=
  match s with c :: s' => if is_ws c then skip_ws s' else s | [] => [] end.

Definition unhex (c : Z) : option Z :=
  if (48 <=? c) && (c <=? 57) then Some (c - 48) else
  if (97 <=? c) && (c <=? 102) then Some (c - 87) else
  if (65 <=? c) && (c <=? 70) then Some (c - 55) else None.
Definition unhex4 (a b c d : Z) : option Z :=
  match unhex a, unhex b, unhex c, unhex d with
  | Some a, Some b, Some c, Some d => Some (((a * 16 + b) * 16 + c) * 16 + d)
  | _, _, _, _ => None
  end.
Definition unescape1 (c : Z) : option Z :=
  if (c =? 34) || (c =? 92) || (c =? 47) then Some c else
  if c =? 98 then Some 8 else if c =? 102 then Some 12 else if c =? 110 then Some 10 else
  if c =? 114 then Some 13 else if c =? 116 then Some 9 else None.
Definition high (c : Z) : bool := (55296 <=? c) && (c <=? 56319).
Definition low (c : Z) : bool := (56320 <=? c) && (c <=? 57343).

Definition push (c : Z) (r : res (pystr * pystr)) : res (pystr * pystr) :=
  let? (t, rest) := r in Ok (c :: t, rest).

(** [scanstring], after the opening quote: the string and what follows the
    closing quote. *)
Fixpoint scan_str (s : pystr) : res (pystr * pystr) :=
  match s with
  | [] => Raise ValueError
  | c :: s =>
      if c =? 34 then Ok ([], s) else
      if c <? 32 then Raise ValueError else
      if negb (c =? 92) then push c (scan_str s) else
      match s with
      | [] => Raise ValueError
      | e :: s =>
          if negb (e =? 117) then
            match unescape1 e with Some c => push c (scan_str s) | None => Raise ValueError end
          else
          match s with
          | h1 :: h2 :: h3 :: h4 :: s =>
              match unhex4 h1 h2 h3 h4 with
              | None => Raise ValueError
              | Some u =>
                  if negb (high u) then push u (scan_str s) else
                  match s with
                  | b :: v :: l1 :: l2 :: l3 :: l4 :: s' =>
                      if (b =? 92) && (v =? 117) then
                        match unhex4 l1 l2 l3 l4 with
                        | None => Raise ValueError
                        | Some w =>
                            if low w then push (65536 + (u - 55296) * 1024 + (w - 56320)) (scan_str s')
                            else push u (scan_str s)
                        end
                      else push u (scan_str s)
                  | _ => push u (scan_str s)
                  end
              end
          | _ => Raise ValueError
          end
      end
  end.

Definition is_digit (c : Z) : bool := (48 <=? c) && (c <=? 57).
Fixpoint digits (s : pystr) : pystr * pystr :=
  match s with
  | c :: s' => if is_digit c then let '(d, r) := digits s' in (c :: d, r) else ([], s)
  | [] => ([], [])
  end.
Definition cons_digit (c : Z) (u : uint) : uint :=
  match c - 48 with
  | 0 => D0 u | 1 => D1 u | 2 => D2 u | 3 => D3 u | 4 => D4 u
  | 5 => D5 u | 6 => D6 u | 7 => D7 u | 8 => D8 u | _ => D9 u
  end.
Definition uint_of (l : pystr) : uint := foldr cons_digit Nil l.

(** The fraction and the exponent of a number: their text and the rest. *)
Definition scan_frac (s : pystr) : pystr * pystr :=
  match s with
  | c :: s' =>
      if c =? 46 then match digits s' with ([], _) => ([], s) | (d, r) => (c :: d, r) end else ([], s)
  | [] => ([], [])
  end.
Definition scan_exp (s : pystr) : pystr * pystr :=
  match s with
  | c :: s' =>
      if (c =? 101) || (c =? 69) then
        let '(sign, s'') := match s' with
          | x :: s'' => if (x =? 43) || (x =? 45) then ([x], s'') else ([], s')
          | [] => ([], []) end in
        match digits s'' with ([], _) => ([], s) | (d, r) => (c :: sign ++ d, r) end
      else ([], s)
  | [] => ([], [])
  end.
Definition scan_number (s : pystr) : res (json * pystr) :=
  let '(sign, s1) := match s with
    | c :: s' => if c =? 45 then ([c], s') else ([], s)
    | [] => ([], []) end in
  let '(int, s2) := match s1 with
    | c :: s' => if c =? 48 then ([c], s') else digits s1
    | [] => ([], []) end in
  if bool_decide (int = []) then Raise ValueError else
  let '(frac, s3) := scan_frac s2 in
  let '(ex, s4) := scan_exp s3 in
  if bool_decide (frac = [] ∧ ex = [])
  then Ok (JInt (Z.of_int (if bool_decide (sign = []) then Pos (uint_of int) else Neg (uint_of int))), s4)
  else Ok (JFloat (sign ++ int ++ frac ++ ex), s4).

(** [s.startswith(p)], with what follows. *)
Fixpoint strip_prefix (p s : pystr) : option pystr :=
  match p, s with
  | [], _ => Some s
  | a :: p, c :: s => if a =? c then strip_prefix p s else None
  | _, [] => None
  end.
(** The constants, [NaN] and [Infinity] included. *)
Definition constants : list (pystr * json) :=
  [(codes "null", JNull); (codes "true", JBool true); (codes "false", JBool false);
   (codes "NaN", JFloat (codes "NaN")); (codes "Infinity", JFloat (codes "Infinity"));
   (codes "-Infinity", JFloat (codes "-Infinity"))].
Fixpoint scan_const (l : list (pystr * json)) (s : pystr) : option (json * pystr) :=
  match l with
  | [] => None
  | (p, v) :: l => match strip_prefix p s with Some r => Some (v, r) | None => scan_const l s end
  end.

(** The scanner: [fuel] bounds the nesting; every level consumes a character. *)
Fixpoint scan (fuel : nat) (s : pystr) : res (json * pystr) :=
  match fuel with
  | O => Raise ValueError
  | S fuel =>
      match s with
      | [] => Raise ValueError
      | c :: s' =>
          if c =? 34 then (let? (t, r) := scan_str s' in Ok (JStr t, r)) else
          if c =? 91 then
            match skip_ws s' with
            | [] => Raise ValueError
            | (x :: r) as s'' => if x =? 93 then Ok (JList [], r) else
                let? (l, r) := scan_items fuel s'' in Ok (JList l, r)
            end else
          if c =? 123 then
            match skip_ws s' with
            | [] => Raise ValueError
            | (x :: r) as s'' => if x =? 125 then Ok (JObj [], r) else
                let? (l, r) := scan_pairs fuel s'' in Ok (JObj (dict_of [] l), r)
            end else
          match scan_const constants s with
          | Some (v, r) => Ok (v, r)
          | None => scan_number s
          end
      end
  end
(** From the first value of an array to its closing bracket. *)
with scan_items (fuel : nat) (s : pystr) : res (list json * pystr) :=
  match fuel with
  | O => Raise ValueError
  | S fuel =>
      let? (v, r) := scan fuel s in
      match skip_ws r with
      | x :: r =>
          if x =? 93 then Ok ([v], r) else
          if x =? 44 then (let? (l, r) := scan_items fuel (skip_ws r) in Ok (v :: l, r)) else Raise ValueError
      | [] => Raise ValueError
      end
  end
(** From the first key of an object to its closing brace. *)
with scan_pairs (fuel : nat) (s : pystr) : res (list (pystr * json) * pystr) :=
  match fuel with
  | O => Raise ValueError
  | S fuel =>
      match s with
      | q :: s =>
          if negb (q =? 34) then Raise ValueError else
          let? (k, r) := scan_str s in
          match skip_ws r with
          | x :: r =>
              if negb (x =? 58) then Raise ValueError else
              let? (v, r) := scan fuel (skip_ws r) in
              match skip_ws r with
              | x :: r =>
                  if x =? 125 then Ok ([(k, v)], r) else
                  if x =? 44 then (let? (l, r) := scan_pairs fuel (skip_ws r) in Ok ((k, v) :: l, r))
                  else Raise ValueError
              | [] => Raise ValueError
              end
          | [] => Raise ValueError
          end
      | [] => Raise ValueError
      end
  end.

Definition loads (s : pystr) : res json :=
  let? (v, r) := scan (S (2 * length s)) (skip_ws s) in
  match skip_ws r with [] => Ok v | _ :: _ => Raise ValueError end.

(** ** [int(text)]: white space around, a sign, single underscores between the
    digits.  Digits outside ASCII are not modelled. *)
Definition is_uspace (c : Z) : bool :=
  ((9 <=? c) && (c <=? 13)) || ((28 <=? c) && (c <=? 32)) || (c =? 133) || (c =? 160) || (c =? 5760) ||
  ((8192 <=? c) && (c <=? 8202)) || (c =? 8232) || (c =? 8233) || (c =? 8239) || (c =? 8287) || (c =? 12288).
Fixpoint lstrip (s : pystr) : pystr :=
  match s with c :: s' => if is_uspace c then lstrip s' else s | [] => [] end.
Definition strip (s : pystr) : pystr := reverse (lstrip (reverse (lstrip s))).
(** [need]: a digit must come next. *)
Fixpoint digit_run (need : bool) (acc : Z) (s : pystr) : res Z :=
  match s with
  | [] => if need then Raise ValueError else Ok acc
  | c :: s =>
      if is_digit c then digit_run false (acc * 10 + (c - 48)) s else
      if (c =? 95) && negb need then digit_run true acc s else Raise ValueError
  end.
Definition py_int (s : pystr) : res Z :=
  match strip s with
  | c :: s' =>
      if c =? 45 then (let? n := digit_run true 0 s' in Ok (- n)) else
      if c =? 43 then digit_run true 0 s' else digit_run true 0 (c :: s')
  | [] => Raise ValueError
  end.

(** ** The values of the round trip *)
Definition scalar (c : Z) : bool := (0 <=? c) && (c <=? 1114111) && negb (surrogate c).
Definition str_ok (s : pystr) : bool := forallb scalar s.
Fixpoint json_ok (j : json) : bool :=
  match j with
  | JFloat _ => false
  | JStr s => str_ok s
  | JList l => forallb json_ok l
  | JObj d => bool_decide (NoDup (map fst d)) && forallb (λ '(k, v), str_ok k && json_ok v) d
  | _ => true
  end.

(** The induction principle that reaches inside lists and objects. *)
Section JsonInd.
Context (P : json → Prop).
Hypothesis Hnull : P JNull.
Hypothesis Hbool : ∀ b, P (JBool b).
Hypothesis Hint : ∀ z, P (JInt z).
Hypothesis Hfloat : ∀ t, P (JFloat t).
Hypothesis Hstr : ∀ s, P (JStr s).
Hypothesis Hlist : ∀ l, Forall P l → P (JList l).
Hypothesis Hobj : ∀ d, Forall (λ kv, P kv.2) d → P (JObj d).
Fixpoint json_nested_ind (j : json) : P j :=
  match j with
  | JNull => Hnull | JBool b => Hbool b | JInt z => Hint z | JFloat t => Hfloat t | JStr s => Hstr s
  | JList l => Hlist l ((fix go l : Forall P l :=
      match l with [] => Forall_nil_2 _ | x :: l => Forall_cons_2 _ _ _ (json_nested_ind x) (go l) end) l)
  | JObj d => Hobj d ((fix go d : Forall (λ kv, P kv.2) d :=
      match d with [] => Forall_nil_2 _ | x :: d => Forall_cons_2 _ _ _ (json_nested_ind x.2) (go d) end) d)
  end.
End JsonInd.

(** ** Strings *)
Lemma unhex_digit d : 0 ≤ d < 16 → unhex (hex_digit d) = Some d.
Proof.
  intros. rw /hex_digit /unhex. destruct (Z.ltb_spec d 10).
  - destruct (Z.leb_spec 48 (48 + d)), (Z.leb_spec (48 + d) 57); simpl; f_equal; lia.
  - destruct (Z.leb_spec 48 (87 + d)), (Z.leb_spec (87 + d) 57); simpl; try lia.
    destruct (Z.leb_spec 97 (87 + d)), (Z.leb_spec (87 + d) 102); simpl; f_equal; lia.
Qed.

Lemma unhex4_u4 n : 0 ≤ n < 65536 →
  unhex4 (hex_digit (n / 4096)) (hex_digit (n / 256 mod 16)) (hex_digit (n / 16 mod 16)) (hex_digit (n mod 16)) = Some n.
Proof.
  intros. rw /unhex4 !unhex_digit; [div_lia..|]. f_equal. div_lia.
Qed.

Lemma scan_u4 n s : 0 ≤ n < 65536 → high n = false → scan_str (u4 n ++ s) = push n (scan_str s).
Proof. intros Hn Hh. cbn. rw unhex4_u4 //. by rw Hh. Qed.

Lemma scan_pair u w s :
  0 ≤ u < 65536 → 0 ≤ w < 65536 → high u = true → low w = true →
  scan_str (u4 u ++ u4 w ++ s) = push (65536 + (u - 55296) * 1024 + (w - 56320)) (scan_str s).
Proof.
  intros Hu Hw Hh Hl. cbn. rw (unhex4_u4 u) // Hh. cbn. rw unhex4_u4 // Hl. done.
Qed.

Lemma scan_escape c s : scalar c = true → scan_str (escape c ++ s) = push c (scan_str s).
Proof.
  rw /scalar /surrogate. intros Hc. rw /escape.
  repeat (case_match; [by (assert (c = 34 ∨ c = 92 ∨ c = 10 ∨ c = 13 ∨ c = 9 ∨ c = 12 ∨ c = 8)
    as [->|[->|[->|[->|[->|[->| ->]]]]]] by lia)|]).
  case_match.
  { cbn [app scan_str]. replace (c =? 34) with false by lia. replace (c <? 32) with false by lia.
    by replace (c =? 92) with false by lia. }
  case_match.
  - apply scan_u4; [lia|]. rw /high. lia.
  - rw -app_assoc scan_pair; [div_lia|div_lia| | |].
    + rw /high. assert (0 ≤ (c - 65536) / 1024 ≤ 1023) by div_lia. lia.
    + rw /low. assert (0 ≤ (c - 65536) mod 1024 ≤ 1023) by div_lia. lia.
    + f_equal. div_lia.
Qed.

Lemma scan_dump_str s rest : str_ok s = true → scan_str (escape_all s ++ 34 :: rest) = Ok (s, rest).
Proof.
  induction s as [|c s IH]; cbn [escape_all str_ok forallb app]; [done|].
  intros [Hc Hs]%andb_prop. rw -app_assoc scan_escape // IH //.
Qed.

(** ** Numbers *)

(** What may follow a value inside an array or an object. *)
Definition stop (s : pystr) : bool :=
  match s with [] => true | c :: _ => (c =? 44) || (c =? 93) || (c =? 125) end.

Lemma digits_codes u rest : stop rest = true → digits (uint_codes u ++ rest) = (uint_codes u, rest).
Proof.
  intros Hr. induction u as [|u IH|u IH|u IH|u IH|u IH|u IH|u IH|u IH|u IH|u IH]; cbn; try by rw IH.
  destruct rest as [|c rest]; [done|]. cbn in *. rw /is_digit. by replace ((48 <=? c) && (c <=? 57)) with false by lia.
Qed.

Lemma uint_of_codes u : uint_of (uint_codes u) = u.
Proof. induction u as [|u IH|u IH|u IH|u IH|u IH|u IH|u IH|u IH|u IH|u IH]; cbn; [done|by rw -/(uint_of _) IH..]. Qed.

(** The decimal digits of a positive number start with none that is 0. *)
Lemma to_uint_head p : ∃ c t, uint_codes (Pos.to_uint p) = c :: t ∧ 49 ≤ c ≤ 57.
Proof.
  assert (Pos.to_uint p = unorm (Pos.to_uint p)) as Hn.
  { by rw -{1}Unsigned.to_of Unsigned.of_to. }
  pose proof (Unsigned.to_uint_nonzero p) as Hz. pose proof (Unsigned.to_uint_nonnil p) as Hl.
  assert (nzhead (Pos.to_uint p) ≠ Nil) as Hh.
  { intros Hh%unorm_0. congruence. }
  rw unorm_nzhead // in Hn. pose proof (nzhead_nonzero (Pos.to_uint p)) as Hd.
  destruct (Pos.to_uint p) as [|u|u|u|u|u|u|u|u|u|u]; try done; [|by do 2 eexists; split; [done|lia]..].
  by destruct (Hd u).
Qed.

Lemma stop_frac rest : stop rest = true → scan_frac rest = ([], rest).
Proof. destruct rest as [|c rest]; [done|]. cbn. intros. by replace (c =? 46) with false by lia. Qed.
Lemma stop_exp rest : stop rest = true → scan_exp rest = ([], rest).
Proof.
  destruct rest as [|c rest]; [done|]. cbn. intros. by replace ((c =? 101) || (c =? 69)) with false by lia.
Qed.

Lemma scan_positive (neg : bool) p rest : stop rest = true →
  scan_number ((if neg then [45] else []) ++ uint_codes (Pos.to_uint p) ++ rest) =
    Ok (JInt (if neg then Z.neg p else Z.pos p), rest).
Proof.
  intros Hr. destruct (to_uint_head p) as (c & t & Hu & Hc). rw /scan_number Hu.
  pose proof (digits_codes (Pos.to_uint p) rest Hr) as Hd. rw Hu in Hd. cbn [app] in Hd.
  pose proof (uint_of_codes (Pos.to_uint p)) as Hv. rw Hu in Hv.
  assert (Z.of_uint (Pos.to_uint p) = Z.pos p) as Hz by by rw /Z.of_uint Unsigned.of_to.
  destruct neg; cbn [app Z.eqb Pos.eqb].
  - replace (c =? 48) with false by lia. rw Hd. cbn [bool_decide decide_rel].
    rw stop_frac // stop_exp // bool_decide_false // bool_decide_true // bool_decide_false //.
    rw Hv /= Hz //.
  - replace (c =? 45) with false by lia. replace (c =? 48) with false by lia. rw Hd.
    rw stop_frac // stop_exp // bool_decide_false // bool_decide_true // bool_decide_true //.
    rw Hv /= Hz //.
Qed.

Lemma scan_dump_int z rest : stop rest = true → scan_number (dump_int z ++ rest) = Ok (JInt z, rest).
Proof.
  intros Hr. destruct z as [|p|p].
  - cbn. by rw stop_frac // stop_exp //.
  - exact (scan_positive false p rest Hr).
  - exact (scan_positive true p rest Hr).
Qed.

(** ** The fuel is enough

    Every scanning function leaves less text than it was given, so that twice
    the length of the text bounds the depth of the calls. *)
Lemma skip_ws_length s : (length (skip_ws s) ≤ length s)%nat.
Proof. induction s as [|c s IH]; simpl; [done|]. destruct (is_ws c); simpl; lia. Qed.

Lemma push_inv c r t rest : push c r = Ok (t, rest) → ∃ t', r = Ok (t', rest).
Proof. destruct r as [[t' r']|e]; [|done]. cbn. intros [= _ <-]. by eexists. Qed.

Lemma scan_str_length s t r : scan_str s = Ok (t, r) → (length r < length s)%nat.
Proof.
  remember (length s) as n eqn:Hn. revert s Hn t r. induction (lt_wf n) as [n _ IH].
  assert (∀ s c t r, (length s < n)%nat → push c (scan_str s) = Ok (t, r) → (length r < n)%nat) as Hrec.
  { intros s c t r Hs (t' & Ht)%push_inv. pose proof (IH _ Hs _ eq_refl _ _ Ht). lia. }
  intros s Hn t r. destruct s as [|c s]; [done|]. cbn [scan_str]. simpl in Hn.
  case_match; [intros [= _ <-]; lia|]. case_match; [done|].
  case_match; [by apply Hrec; lia|]. destruct s as [|e s]; [done|]. simpl in Hn.
  case_match; [case_match; [by apply Hrec; lia|done]|].
  destruct s as [|h1 [|h2 [|h3 [|h4 s]]]]; try done. simpl in Hn.
  case_match; [|done]. case_match; [by apply Hrec; lia|].
  repeat (case_match; try (by apply Hrec; simpl in *; lia)); done.
Qed.

Lemma digits_length s d r : digits s = (d, r) → (length r ≤ length s ∧ (d ≠ [] → length r < length s))%nat.
Proof.
  revert d r. induction s as [|c s IH]; simpl; intros d r; [by intros [= <- <-]|].
  case_match; [|by intros [= <- <-]]. destruct (digits s) as [d' r']. intros [= <- <-].
  destruct (IH _ _ eq_refl). split; [lia|]. simpl. lia.
Qed.

Lemma scan_frac_length s f r : scan_frac s = (f, r) → (length r ≤ length s)%nat.
Proof.
  destruct s as [|c s]; simpl; [by intros [= <- <-]|]. case_match; [|by intros [= <- <-]].
  destruct (digits s) as [d r'] eqn:E. destruct (digits_length _ _ _ E).
  destruct d; intros [= <- <-]; simpl in *; lia.
Qed.
Lemma scan_exp_length s f r : scan_exp s = (f, r) → (length r ≤ length s)%nat.
Proof.
  destruct s as [|c s]; simpl; [by intros [= <- <-]|]. case_match; [|by intros [= <- <-]].
  set (p := match s with [] => _ | _ => _ end).
  assert (length p.2 ≤ length s)%nat as Hp by (subst p; repeat case_match; simpl; lia).
  destruct p as [sg s'']. simpl in Hp. destruct (digits s'') as [d r'] eqn:E.
  destruct (digits_length _ _ _ E). destruct d; intros [= <- <-]; simpl in *; lia.
Qed.

Lemma scan_number_length s v r : scan_number s = Ok (v, r) → (length r < length s)%nat.
Proof.
  rw /scan_number. set (p := match s with [] => _ | _ => _ end).
  assert (length p.2 ≤ length s)%nat as Hp by (subst p; repeat case_match; simpl; lia).
  destruct p as [sg s1]. simpl in Hp. set (q := match s1 with [] => _ | _ => _ end).
  assert (q.1 ≠ [] → length q.2 < length s1)%nat as Hq.
  { subst q. destruct s1 as [|c s']; [done|]. case_match; cbn [fst snd length]; [lia|].
    destruct (digits (c :: s')) as [d r'] eqn:E. cbn [fst snd]. by destruct (digits_length _ _ _ E). }
  destruct q as [i s2]. simpl in Hq. case_bool_decide; [done|]. specialize (Hq ltac:(done)).
  destruct (scan_frac s2) as [f s3] eqn:Ef. destruct (scan_exp s3) as [e s4] eqn:Ee.
  apply scan_frac_length in Ef. apply scan_exp_length in Ee.
  case_bool_decide; intros [= _ <-]; lia.
Qed.

Lemma strip_prefix_length p s r : strip_prefix p s = Some r → (length s = length p + length r)%nat.
Proof.
  revert s. induction p as [|a p IH]; intros [|c s]; simpl; try by intros [= <-].
  case_match; [|done]. intros Hs%IH. lia.
Qed.
Lemma scan_const_length s v r : scan_const constants s = Some (v, r) → (length r < length s)%nat.
Proof.
  rw /constants. cbn [scan_const].
  repeat (case_match; [intros [= _ <-]; match goal with H : strip_prefix _ _ = Some _ |- _ =>
    apply strip_prefix_length in H; cbn in H; lia end|]). done.
Qed.

Lemma scan_lengths f : (∀ s v r, scan f s = Ok (v, r) → (length r < length s)%nat) ∧
  (∀ s l r, scan_items f s = Ok (l, r) → (length r < length s)%nat) ∧
  (∀ s l r, scan_pairs f s = Ok (l, r) → (length r < length s)%nat).
Proof.
  induction f as [|f (IHv & IHi & IHp)]; [done|].
  assert (∀ s c r, skip_ws s = c :: r → length r < length s)%nat as Hws.
  { intros s c r Hs. pose proof (skip_ws_length s) as Hl. rw Hs /= in Hl. lia. }
  split_and!.
  - intros s v r. destruct s as [|c s]; [done|]. cbn [scan].
    destruct (c =? 34).
    { destruct (scan_str s) as [[t r']|] eqn:Es; [|done]. intros [= _ <-].
      apply scan_str_length in Es. simpl. lia. }
    destruct (c =? 91).
    { destruct (skip_ws s) as [|x r'] eqn:Es; [done|]. pose proof (Hws _ _ _ Es).
      destruct (x =? 93); [intros [= _ <-]; simpl; lia|].
      destruct (scan_items f (x :: r')) as [[l r'']|] eqn:Ei; [|done]. intros [= _ <-].
      apply IHi in Ei. simpl in *. lia. }
    destruct (c =? 123).
    { destruct (skip_ws s) as [|x r'] eqn:Es; [done|]. pose proof (Hws _ _ _ Es).
      destruct (x =? 125); [intros [= _ <-]; simpl; lia|].
      destruct (scan_pairs f (x :: r')) as [[l r'']|] eqn:Ei; [|done]. intros [= _ <-].
      apply IHp in Ei. simpl in *. lia. }
    destruct (scan_const constants (c :: s)) as [[v' r']|] eqn:Es; [|by apply scan_number_length].
    intros [= _ <-]. by apply scan_const_length in Es.
  - intros s l r. cbn [scan_items]. destruct (scan f s) as [[v r1]|] eqn:E; [|done]. apply IHv in E. cbn.
    destruct (skip_ws r1) as [|x r2] eqn:E2; [done|]. apply Hws in E2.
    case_match; [intros [= _ <-]; lia|]. case_match; [|done].
    destruct (scan_items f (skip_ws r2)) as [[l' r3]|] eqn:E3; [|done]. intros [= _ <-].
    apply IHi in E3. pose proof (skip_ws_length r2). lia.
  - intros s l r. cbn [scan_pairs]. destruct s as [|q s]; [done|]. case_match; [done|].
    destruct (scan_str s) as [[k r1]|] eqn:E; [|done]. apply scan_str_length in E. cbn.
    destruct (skip_ws r1) as [|x r2] eqn:E2; [done|]. apply Hws in E2. case_match; [done|].
    destruct (scan f (skip_ws r2)) as [[v r3]|] eqn:E3; [|done]. apply IHv in E3. cbn.
    pose proof (skip_ws_length r2). destruct (skip_ws r3) as [|y r4] eqn:E4; [done|]. apply Hws in E4.
    case_match; [intros [= _ <-]; lia|]. case_match; [|done].
    destruct (scan_pairs f (skip_ws r4)) as [[l' r5]|] eqn:E5; [|done]. intros [= _ <-].
    apply IHp in E5. pose proof (skip_ws_length r4). lia.
Qed.

Lemma scan_length f s v r : scan f s = Ok (v, r) → (length r < length s)%nat.
Proof. apply scan_lengths. Qed.

(** Any fuel past the bound gives the same result. *)
Lemma scan_fuel_eq f g : (∀ s, (2 * length s < f → 2 * length s < g → scan f s = scan g s)%nat) ∧
  (∀ s, (S (2 * length s) < f → S (2 * length s) < g → scan_items f s = scan_items g s)%nat) ∧
  (∀ s, (S (2 * length s) < f → S (2 * length s) < g → scan_pairs f s = scan_pairs g s)%nat).
Proof.
  revert g. induction f as [|f IH]; [intros g; split_and!; lia|]. intros [|g]; [split_and!; lia|].
  destruct (IH g) as (IHv & IHi & IHp). split_and!.
  - intros [|c s] Hf Hg; [done|]. cbn [scan]. simpl in Hf, Hg. pose proof (skip_ws_length s) as Hl.
    destruct (skip_ws s) as [|x r]; [done|]. simpl in Hl. by rw IHi ?IHp; simpl; try lia.
  - intros s Hf Hg. cbn [scan_items]. rw IHv; [lia..|]. destruct (scan g s) as [[v r]|] eqn:Hs; [|done].
    apply scan_length in Hs. cbn. pose proof (skip_ws_length r) as Hl.
    destruct (skip_ws r) as [|x r']; [done|]. simpl in Hl. pose proof (skip_ws_length r').
    rw IHi; [lia..|done].
  - intros [|q s] Hf Hg; [done|]. cbn [scan_pairs]. simpl in Hf, Hg. case_match; [done|].
    destruct (scan_str s) as [[k r]|] eqn:Hk; [|done]. apply scan_str_length in Hk. cbn.
    pose proof (skip_ws_length r) as Hl. destruct (skip_ws r) as [|x r']; [done|]. simpl in Hl.
    case_match; [done|]. pose proof (skip_ws_length r') as Hl'. rw IHv; [lia..|].
    destruct (scan g (skip_ws r')) as [[v r2]|] eqn:Hs; [|done]. apply scan_length in Hs. cbn.
    pose proof (skip_ws_length r2) as Hl2. destruct (skip_ws r2) as [|y r3]; [done|]. simpl in Hl2.
    pose proof (skip_ws_length r3). rw IHp; [lia..|done].
Qed.

Lemma scan_enough f s : (2 * length s < f)%nat → scan f s = scan (S (2 * length s)) s.
Proof. intros. apply scan_fuel_eq; lia. Qed.

(** ** Round trip *)

(** [s] is read as [v] by enough fuel, in front of anything that may follow. *)
Definition reads (s : pystr) (v : json) : Prop :=
  ∀ rest, stop rest = true → ∃ f0, ∀ f, (f0 ≤ f)%nat → scan f (s ++ rest) = Ok (v, rest).

Lemma skip_ws_head c s : is_ws c = false → skip_ws (c :: s) = c :: s.
Proof. simpl. by intros ->. Qed.

Lemma dumps_head j : json_ok j = true → ∃ c t, dumps j = c :: t ∧ is_ws c = false ∧ c ≠ 93.
Proof.
  destruct j as [|[]|z|t|s|l|d]; cbn [dumps json_ok]; intros Hok; try done; try by do 2 eexists.
  destruct z as [|p|p]; cbn; [by do 2 eexists| |by do 2 eexists].
  destruct (to_uint_head p) as (c & t & -> & Hc). do 2 eexists. split; [done|]. rw /is_ws. lia.
Qed.

Lemma scan_dispatch c : c ≠ 34 → c ≠ 91 → c ≠ 123 → ∀ f s,
  scan (S f) (c :: s) = match scan_const constants (c :: s) with Some vr => Ok vr | None => scan_number (c :: s) end.
Proof.
  intros. cbn [scan]. replace (c =? 34) with false by lia. replace (c =? 91) with false by lia.
  replace (c =? 123) with false by lia. by destruct (scan_const constants (c :: s)) as [[]|].
Qed.

Lemma scan_const_digit c t : 48 ≤ c ≤ 57 → scan_const constants (c :: t) = None.
Proof.
  intros Hc. rw /constants. cbn -[Z.eqb].
  replace (110 =? c) with false by lia. replace (116 =? c) with false by lia.
  replace (102 =? c) with false by lia. replace (78 =? c) with false by lia.
  replace (73 =? c) with false by lia. by replace (45 =? c) with false by lia.
Qed.

Lemma reads_int z : reads (dump_int z) (JInt z).
Proof.
  intros rest Hr. exists 1%nat. intros [|f] Hf; [lia|]. pose proof (scan_dump_int z rest Hr) as Hn.
  assert (∃ c t, dump_int z ++ rest = c :: t ∧ (49 ≤ c ≤ 57 ∨ c = 48 ∨ c = 45 ∧ ∃ c' t', t = c' :: t' ∧ c' ≠ 73))
    as (c & t & Hc & Hd).
  { destruct z as [|p|p]; cbn [dump_int Z.to_int]; [by do 2 eexists; split; [done|]; lia| |];
      destruct (to_uint_head p) as (c & t & -> & Hc); do 2 eexists; (split; [done|]); [lia|].
    right. right. split; [done|]. do 2 eexists. split; [done|]. lia. }
  assert (45 ≤ c ≤ 57) as Hr' by (destruct Hd as [?|[?|[? _]]]; lia).
  rw Hc in Hn |- *. rw scan_dispatch; [lia..|].
  replace (scan_const constants (c :: t)) with (@None (json * pystr)); [done|].
  destruct Hd as [Hd|[->|[-> (c' & t' & -> & Hc')]]]; [|done|].
  - by rw scan_const_digit; [lia|].
  - assert ((73 =? c') = false) as E by lia. rw /constants. cbn -[Z.eqb]. by rw E.
Qed.

Lemma reads_str s : str_ok s = true → reads (dump_str s) (JStr s).
Proof.
  intros Hs rest _. exists 1%nat. intros [|f] Hf; [lia|]. rw /dump_str. cbn [app scan].
  rw -app_assoc scan_dump_str //.
Qed.

(** Reading the rest of an array or of an object. *)
Lemma reads_items l rest : l ≠ [] → Forall (λ j, reads (dumps j) j ∧ json_ok j = true) l → ∃ f0, ∀ f,
  (f0 ≤ f)%nat → scan_items f (join 44 (map dumps l) ++ 93 :: rest) = Ok (l, rest).
Proof.
  intros Hne Hl. induction Hl as [|j l [Hj Hok] Hl IH]; [done|]. destruct l as [|j' l].
  - destruct (Hj (93 :: rest) eq_refl) as (f0 & Hf). exists (S f0). intros [|f] Hf0; [lia|].
    cbn [map join scan_items]. rw Hf; [lia|]. done.
  - destruct IH as (f1 & Hf1); [done|].
    set (tl := join 44 (map dumps (j' :: l)) ++ 93 :: rest) in *.
    destruct (Hj (44 :: tl) eq_refl) as (f0 & Hf).
    exists (S (Nat.max f0 f1)). intros [|f] Hf0; [lia|]. cbn [map join scan_items]. rw -app_assoc.
    change ((44 :: join 44 (dumps j' :: map dumps l)) ++ 93 :: rest) with (44 :: tl).
    rw Hf; [lia|]. cbn [res_bind skip_ws is_ws Z.eqb Pos.eqb orb].
    assert (skip_ws tl = tl) as ->; [|by rw Hf1; [lia|]].
    apply Forall_cons in Hl as [[_ Hok'] _]. destruct (dumps_head j' Hok') as (c & t & Hc & Hw & _).
    subst tl. cbn [map join]. destruct l; cbn [map]; rw Hc; by apply skip_ws_head.
Qed.

Definition dump_pair (kv : pystr * json) : pystr := let '(k, v) := kv in dump_str k ++ 58 :: dumps v.
Lemma reads_pairs d rest : d ≠ [] →
  Forall (λ kv, reads (dumps kv.2) kv.2 ∧ str_ok kv.1 = true ∧ json_ok kv.2 = true) d → ∃ f0, ∀ f,
  (f0 ≤ f)%nat → scan_pairs f (join 44 (map dump_pair d) ++ 125 :: rest) = Ok (d, rest).
Proof.
  intros Hne Hd. induction Hd as [|[k v] d (Hv & Hk & Hok) Hd IH]; [done|]. simpl in Hv, Hk, Hok.
  assert (∀ r, stop r = true → ∃ f0, ∀ f, (f0 ≤ f)%nat → scan f (skip_ws (dumps v ++ r)) = Ok (v, r)) as Hv'.
  { intros r Hr. destruct (Hv r Hr) as (f0 & Hf). exists f0. intros f Hf0.
    destruct (dumps_head v Hok) as (c & t & Hc & Hw & _). specialize (Hf f Hf0). rw Hc in Hf |- *.
    cbn [app] in *. by rw skip_ws_head. }
  destruct d as [|kv' d].
  - destruct (Hv' (125 :: rest) eq_refl) as (f0 & Hf). exists (S f0). intros [|f] Hf0; [lia|].
    cbn [map join dump_pair dump_str app scan_pairs negb Z.eqb Pos.eqb]. rw -!app_assoc scan_dump_str //.
    cbn [res_bind skip_ws is_ws Z.eqb Pos.eqb orb app negb]. rw Hf; [lia|]. done.
  - destruct IH as (f1 & Hf1); [done|].
    set (tl := join 44 (map dump_pair (kv' :: d)) ++ 125 :: rest) in *.
    destruct (Hv' (44 :: tl) eq_refl) as (f0 & Hf). exists (S (Nat.max f0 f1)). intros [|f] Hf0; [lia|].
    assert (skip_ws tl = tl) as Htl.
    { subst tl. destruct kv' as [k' v']. cbn [map join]. destruct d; done. }
    replace (join 44 (map dump_pair ((k, v) :: kv' :: d)) ++ 125 :: rest)
      with (34 :: escape_all k ++ 34 :: 58 :: dumps v ++ 44 :: tl); last first.
    { subst tl. cbn [map join dump_pair]. rw /dump_str -!app_assoc. cbn [app]. by rw -?app_assoc. }
    cbn [scan_pairs negb Z.eqb Pos.eqb]. rw scan_dump_str //.
    cbn [res_bind skip_ws is_ws Z.eqb Pos.eqb orb negb]. rw Hf; [lia|].
    cbn [res_bind skip_ws is_ws Z.eqb Pos.eqb orb negb]. rw Htl Hf1; [lia|done].
Qed.

Lemma dict_set_fresh k v acc : k ∉ map fst acc → dict_set k v acc = acc ++ [(k, v)].
Proof.
  induction acc as [|[k' v'] acc IH]; simpl; [done|]. intros [Hk Hn]%not_elem_of_cons.
  rw bool_decide_false // IH //.
Qed.
Lemma dict_of_distinct acc d : NoDup (map fst (acc ++ d)) → dict_of acc d = acc ++ d.
Proof.
  revert acc. induction d as [|[k v] d IH]; intros acc Hd; simpl; [by rw app_nil_r|].
  assert (k ∉ map fst acc) as Hk.
  { rw map_app in Hd. apply NoDup_app in Hd as (_ & Hd & _). intros Hin. apply (Hd k Hin). by left. }
  rw dict_set_fresh // IH -?app_assoc //.
Qed.

Lemma reads_dumps j : json_ok j = true → reads (dumps j) j.
Proof.
  induction j as [|b|z|t|s|l IH|d IH] using json_nested_ind; intros Hok.
  - intros rest _. exists 1%nat. by intros [|f] Hf; [lia|].
  - intros rest _. exists 1%nat. intros [|f] Hf; [lia|]. by destruct b.
  - apply reads_int.
  - done.
  - by apply reads_str.
  - cbn [json_ok] in Hok. assert (Forall (λ j, reads (dumps j) j ∧ json_ok j = true) l) as Hl.
    { apply Forall_forall. intros x Hx. rw Forall_forall in IH.
      assert (json_ok x = true) by (by eapply forallb_forall in Hok; [|by apply list_elem_of_In]). auto. }
    intros rest _. destruct l as [|x l]; [exists 1%nat; by intros [|f] Hf; [lia|]|].
    destruct (reads_items (x :: l) rest) as (f0 & Hf0); [done..|]. exists (S f0). intros [|f] Hf; [lia|].
    specialize (Hf0 f ltac:(lia)). cbn [dumps app scan Z.eqb Pos.eqb]. rw -app_assoc. cbn [app].
    apply Forall_cons in Hl as [[_ Hx] _]. destruct (dumps_head x Hx) as (c & t & Hc & Hw & Hn).
    assert (∃ t', join 44 (map dumps (x :: l)) ++ 93 :: rest = c :: t') as (t' & Ht').
    { cbn [map join]. destruct (map dumps l); rw Hc; by eexists. }
    rw Ht' in Hf0 |- *. rw skip_ws_head //. replace (c =? 93) with false by lia. by rw Hf0.
  - cbn [json_ok] in Hok. apply andb_prop in Hok as [Hnd%bool_decide_eq_true_1 Hok].
    assert (Forall (λ kv, reads (dumps kv.2) kv.2 ∧ str_ok kv.1 = true ∧ json_ok kv.2 = true) d) as Hd.
    { apply Forall_forall. intros [k v] Hx. rw Forall_forall in IH.
      assert (str_ok k && json_ok v = true) as [Hk Hv]%andb_prop
        by (by eapply forallb_forall in Hok; [|by apply list_elem_of_In]).
      split; [by apply (IH (k, v))|done]. }
    intros rest _. destruct d as [|[k v] d]; [exists 1%nat; by intros [|f] Hf; [lia|]|].
    destruct (reads_pairs ((k, v) :: d) rest) as (f0 & Hf0); [done..|]. exists (S f0). intros [|f] Hf; [lia|].
    specialize (Hf0 f ltac:(lia)). cbn [dumps app scan Z.eqb Pos.eqb]. rw -app_assoc. cbn [app].
    change (map _ ((k, v) :: d)) with (map dump_pair ((k, v) :: d)).
    assert (∃ t', join 44 (map dump_pair ((k, v) :: d)) ++ 125 :: rest = 34 :: t') as (t' & Ht').
    { cbn [map join dump_pair dump_str]. destruct (map dump_pair d); by eexists. }
    rw Ht' in Hf0 |- *. rw skip_ws_head //. cbn [Z.eqb Pos.eqb]. rw Hf0. cbn.
    by rw -/(dict_of [] ((k, v) :: d)) dict_of_distinct.
Qed.

Lemma loads_dumps j : json_ok j = true → loads (dumps j) = Ok j.
Proof.
  intros Hok. rw /loads. destruct (reads_dumps j Hok [] eq_refl) as (f0 & Hf). rw app_nil_r in Hf.
  destruct (dumps_head j Hok) as (c & t & Hc & Hw & _). rw Hc in Hf |- *. rw skip_ws_head //.
  rw -(scan_enough (Nat.max f0 (S (2 * length (c :: t))))); [lia|]. by rw Hf; [lia|].
Qed.

(** ** The bytes of a document: printable ASCII *)
Definition printable (c : Z) : bool := (32 <=? c) && (c <=? 126).

Lemma hex_digit_printable d : 0 ≤ d < 16 → printable (hex_digit d) = true.
Proof. intros. rw /hex_digit /printable. destruct (Z.ltb_spec d 10); lia. Qed.
Lemma u4_printable n : 0 ≤ n < 65536 → forallb printable (u4 n) = true.
Proof. intros. cbn [u4 forallb]. rw !hex_digit_printable; [div_lia..|done]. Qed.
Lemma escape_printable c : scalar c = true → forallb printable (escape c) = true.
Proof.
  rw /scalar /surrogate. intros Hc. rw /escape. repeat (case_match; [done|]).
  case_match; [by rw /= /printable andb_true_r|]. case_match; [apply u4_printable; lia|].
  rw forallb_app !u4_printable; [div_lia..|done].
Qed.
Lemma dump_str_printable s : str_ok s = true → forallb printable (dump_str s) = true.
Proof.
  intros Hs. rw /dump_str !forallb_app. cbn. rw andb_true_r.
  induction s as [|c s IH]; [done|]. cbn [str_ok forallb] in Hs. apply andb_prop in Hs as [Hc Hs].
  cbn [escape_all]. rw forallb_app escape_printable //= IH //.
Qed.
Lemma uint_printable u : forallb printable (uint_codes u) = true.
Proof. induction u as [|u IH|u IH|u IH|u IH|u IH|u IH|u IH|u IH|u IH|u IH]; cbn; done. Qed.
Lemma dump_int_printable z : forallb printable (dump_int z) = true.
Proof. rw /dump_int. case_match; cbn; apply uint_printable. Qed.
Lemma join_printable l : Forall (λ s, forallb printable s = true) l → forallb printable (join 44 l) = true.
Proof.
  induction 1 as [|s l Hs Hl IH]; [done|]. cbn [join]. destruct l; [done|].
  rw forallb_app Hs. cbn [forallb]. by rw IH.
Qed.

Lemma dumps_printable j : json_ok j = true → forallb printable (dumps j) = true.
Proof.
  induction j as [|[]|z|t|s|l IH|d IH] using json_nested_ind; cbn [dumps json_ok]; intros Hok; try done.
  - apply dump_int_printable.
  - by apply dump_str_printable.
  - rw !forallb_app /= andb_true_r. apply join_printable. apply Forall_forall. intros s Hs.
    apply list_elem_of_In, in_map_iff in Hs as (x & <- & Hx). rw Forall_forall in IH.
    apply IH; [by apply list_elem_of_In|]. by eapply forallb_forall in Hok.
  - apply andb_prop in Hok as [_ Hok]. rw !forallb_app /= andb_true_r. apply join_printable.
    apply Forall_forall. intros s Hs. apply list_elem_of_In, in_map_iff in Hs as ([k v] & <- & Hx).
    rw Forall_forall in IH. pose proof (proj1 (forallb_forall _ _) Hok _ Hx) as [Hk Hv]%andb_prop.
    change (forallb printable (dump_str k ++ 58 :: dumps v) = true). rw forallb_app dump_str_printable //. cbn.
    apply (IH (k, v)); [by apply list_elem_of_In|done].
Qed.

Lemma decode_ascii s : forallb printable s = true → decode (ascii_encode s) = Ok s.
Proof.
  rw /decode /ascii_encode. intros Hs. induction s as [|c s IH]; [done|]. cbn [forallb] in Hs.
  apply andb_prop in Hs as [Hc Hs]. rw /printable in Hc. cbn [fmap list_fmap utf8].
  rw byte_to_of_Z Z.mod_small; [lia|]. replace (c <? 128) with true by lia. by rw IH.
Qed.

(** ** What is refused: every failure is a [ValueError] *)
Lemma utf8_raises b e : utf8 b = Raise e → e = ValueError.
Proof.
  remember (length b) as n eqn:Hn. revert b Hn e. induction (lt_wf n) as [n _ IH]. intros b Hn e.
  assert (∀ b' c, (length b' < n)%nat → (let? s := utf8 b' in Ok (c :: s)) = Raise e → e = ValueError) as Hrec.
  { intros b' c Hb. destruct (utf8 b') as [s|e'] eqn:Hu; [done|]. intros [= <-]. by eapply IH. }
  destruct b as [|a b]; [done|]. cbn [utf8]. simpl in Hn. case_match; [by apply Hrec; lia|].
  destruct b as [|x b]; [congruence|]. simpl in Hn. case_match; [congruence|].
  case_match; [by apply Hrec; lia|]. destruct b as [|y b]; [congruence|]. simpl in Hn.
  case_match; [congruence|]. case_match; [case_match; [congruence|by apply Hrec; lia]|].
  destruct b as [|z b]; [congruence|]. simpl in Hn. case_match; [congruence|].
  case_match; [congruence|by apply Hrec; lia].
Qed.

Lemma scan_str_raises s e : scan_str s = Raise e → e = ValueError.
Proof.
  remember (length s) as n eqn:Hn. revert s Hn e. induction (lt_wf n) as [n _ IH].
  assert (∀ s c e, (length s < n)%nat → push c (scan_str s) = Raise e → e = ValueError) as Hrec.
  { intros s c e Hs. destruct (scan_str s) as [[t r]|e'] eqn:E; [done|]. intros [= <-]. by eapply IH. }
  intros s Hn e. destruct s as [|c s]; [by intros [= <-]|]. cbn [scan_str]. simpl in Hn.
  case_match; [done|]. case_match; [by intros [= <-]|].
  case_match; [by apply Hrec; lia|]. destruct s as [|x s]; [by intros [= <-]|]. simpl in Hn.
  case_match; [case_match; [by apply Hrec; lia|by intros [= <-]]|].
  destruct s as [|h1 [|h2 [|h3 [|h4 s]]]]; try by intros [= <-]. simpl in Hn.
  case_match; [|by intros [= <-]]. case_match; [by apply Hrec; lia|].
  repeat (case_match; try (by apply Hrec; simpl in *; lia)); by intros [= <-].
Qed.

Lemma scan_number_raises s e : scan_number s = Raise e → e = ValueError.
Proof.
  rw /scan_number. do 2 (set (p := match _ with [] => _ | _ => _ end) at 1; destruct p).
  case_bool_decide; [congruence|]. destruct (scan_frac _). destruct (scan_exp _). by case_bool_decide.
Qed.

Lemma scans_raise f : (∀ s e, scan f s = Raise e → e = ValueError) ∧
  (∀ s e, scan_items f s = Raise e → e = ValueError) ∧ (∀ s e, scan_pairs f s = Raise e → e = ValueError).
Proof.
  induction f as [|f (IHv & IHi & IHp)]; [by split_and!; intros s e [= <-]|]. split_and!.
  - intros [|c s] e; [by intros [= <-]|]. cbn [scan]. destruct (c =? 34).
    { destruct (scan_str s) as [[t r]|] eqn:Es; [done|]. intros [= <-]. by apply scan_str_raises in Es. }
    destruct (c =? 91).
    { destruct (skip_ws s) as [|x r]; [by intros [= <-]|]. destruct (x =? 93); [done|].
      destruct (scan_items f (x :: r)) as [[l r']|] eqn:Es; [done|]. intros [= <-]. by apply IHi in Es. }
    destruct (c =? 123).
    { destruct (skip_ws s) as [|x r]; [by intros [= <-]|]. destruct (x =? 125); [done|].
      destruct (scan_pairs f (x :: r)) as [[l r']|] eqn:Es; [done|]. intros [= <-]. by apply IHp in Es. }
    destruct (scan_const constants (c :: s)) as [[v r]|]; [done|apply scan_number_raises].
  - intros s e. cbn [scan_items]. destruct (scan f s) as [[v r]|] eqn:Es; [|intros [= <-]; by apply IHv in Es].
    cbn. destruct (skip_ws r) as [|x r']; [by intros [= <-]|]. case_match; [done|].
    case_match; [|by intros [= <-]].
    destruct (scan_items f (skip_ws r')) as [[l r2]|] eqn:Ei; [done|]. intros [= <-]. by apply IHi in Ei.
  - intros [|q s] e; [by intros [= <-]|]. cbn [scan_pairs]. case_match; [by intros [= <-]|].
    destruct (scan_str s) as [[k r]|] eqn:Es; [|intros [= <-]; by apply scan_str_raises in Es].
    cbn. destruct (skip_ws r) as [|x r']; [by intros [= <-]|]. case_match; [by intros [= <-]|].
    destruct (scan f (skip_ws r')) as [[v r2]|] eqn:Ev; [|intros [= <-]; by apply IHv in Ev].
    cbn. destruct (skip_ws r2) as [|y r3]; [by intros [= <-]|]. case_match; [done|].
    case_match; [|by intros [= <-]].
    destruct (scan_pairs f (skip_ws r3)) as [[l r4]|] eqn:Ei; [done|]. intros [= <-]. by apply IHp in Ei.
Qed.

Lemma loads_raises s e : loads s = Raise e → e = ValueError.
Proof.
  rw /loads. destruct (scan _ _) as [[v r]|e'] eqn:Es; [cbn; case_match; congruence|].
  intros [= <-]. by apply scans_raise in Es.
Qed.

(** ** Documents *)
Example json_doc : loads (codes "[1, -20 ,{ } , [true,null], 0]") =
  Ok (JList [JInt 1; JInt (-20); JObj []; JList [JBool true; JNull]; JInt 0]).
Proof. by vm_compute. Qed.
Example json_leading_zero : loads (codes "[01]") = Raise ValueError.
Proof. by vm_compute. Qed.
Example json_trailing_comma : loads (codes "[1,]") = Raise ValueError.
Proof. by vm_compute. Qed.
Example json_pair_of_surrogates :
  loads (34 :: codes "\ud83d\ude00" ++ [34]) = Ok (JStr [128512]).
Proof. by vm_compute. Qed.

Lemma digit_run_raises need acc s e : digit_run need acc s = Raise e → e = ValueError.
Proof.
  revert need acc. induction s as [|c s IH]; intros need acc; cbn; [destruct need; congruence|].
  repeat case_match; eauto; congruence.
Qed.
Lemma py_int_raises s e : py_int s = Raise e → e = ValueError.
Proof.
  rw /py_int. destruct (strip s) as [|c s']; [congruence|]. case_match.
  - destruct (digit_run true 0 s') eqn:E; [done|]. intros [= <-]. by apply digit_run_raises in E.
  - case_match; apply digit_run_raises.
Qed.
Example py_ints : py_int <$> (codes <$> [" -1_000 "; "+7"; "007"; "1__0"; "_1"; ""; "-"; "8x"]%string) =
  [Ok (-1000); Ok 7; Ok 7; Raise ValueError; Raise ValueError; Raise ValueError; Raise ValueError; Raise ValueError].
Proof. by vm_compute. Qed.

(** ** Lengths of the texts *)
Lemma of_uint_acc_lower d acc : Z.pos acc * 10 ^ len (uint_codes d) ≤ Z.pos (Pos.of_uint_acc d acc).
Proof.
  revert acc. induction d as [|d IH|d IH|d IH|d IH|d IH|d IH|d IH|d IH|d IH|d IH]; intros acc;
    cbn [Pos.of_uint_acc uint_codes]; [rw /len /=; lia|..];
    (etrans; [|apply IH]); unfold len; cbn [length]; rw Nat2Z.inj_succ;
    (assert (0 < 10 ^ Z.of_nat (length (uint_codes d))) by (apply Z.pow_pos_nonneg; lia));
    (rw Z.pow_succ_r; [lia|]); nia.
Qed.

(** A positive number has no more digits than a power of ten above it. *)
Lemma length_digits p k : Z.pos p < 10 ^ k → 0 ≤ k → len (uint_codes (Pos.to_uint p)) ≤ k.
Proof.
  intros Hp Hk. destruct (to_uint_head p) as (c & t & Hu & Hc). pose proof (Unsigned.of_to p) as Hv.
  assert (∃ a d, t = uint_codes d ∧ Pos.of_uint (Pos.to_uint p) = N.pos (Pos.of_uint_acc d a)) as (a & d & -> & Ha).
  { destruct (Pos.to_uint p) as [|d|d|d|d|d|d|d|d|d|d]; cbn in Hu; try done; injection Hu as <- <-;
      [lia|by do 2 eexists..]. }
  rw Hu. rw Ha in Hv. injection Hv as Hv. pose proof (of_uint_acc_lower d a) as Hl. rw Hv in Hl.
  change (len (c :: uint_codes d)) with (Z.of_nat (S (length (uint_codes d)))). rw Nat2Z.inj_succ.
  destruct (Z.le_gt_cases (Z.succ (len (uint_codes d))) k) as [|Hgt]; [done|].
  exfalso. assert (10 ^ k ≤ 10 ^ len (uint_codes d)) by (apply Z.pow_le_mono_r; lia). nia.
Qed.
Lemma length_dump_int z k : 0 ≤ z < 10 ^ k → 1 ≤ k → len (dump_int z) ≤ k.
Proof.
  intros Hz Hk. destruct z as [|p|p]; [rw /len /=; lia| |lia]. apply length_digits; lia.
Qed.

Definition sum_len (l : list pystr) : Z := foldr (λ s n, len s + n) 0 l.
Lemma length_join c l : len (join c l) ≤ sum_len l + len l.
Proof.
  induction l as [|s l IH]; [done|]. cbn [join sum_len foldr]. rw -/(sum_len l). destruct l as [|s' l].
  - rw /sum_len /len /=. lia.
  - rw len_app. unfold len in *. cbn [length] in *. lia.
Qed.
Lemma sum_len_bound l n : Forall (λ s, len s ≤ n) l → sum_len l ≤ n * len l.
Proof. induction 1 as [|s l Hs Hl IH]; cbn; [rw /len /=; lia|]. rw -/(sum_len l). unfold len in *. cbn [length]. lia. Qed.
