(* ===== verification/Serde.v ===== *)
(** * v1 object layout: [serde.py]

    One DFS file per chunk: an 8-byte prefix with the two lengths, the opaque
    metadata, the payload. *)
From S2P Require Import Prelude PyStruct.
Open Scope Z_scope.
Open Scope py_scope.

(** [_PREFIX = struct.Struct("<II")] *)
Definition prefix_fmt : list field := [FI; FI].
Definition prefix_size : Z := Z.of_nat (calcsize prefix_fmt).

Definition parse_prefix (prefix : bytes) : res (Z * Z) :=
  if negb (len prefix =? prefix_size) then Raise ValueError else
  let? vs := struct_unpack prefix_fmt prefix in
  match vs with
  | [VInt meta_len; VInt payload_len] => Ok (meta_len, payload_len)
  | _ => Raise StructError
  end.

Definition prefix_pack (meta_len payload_len : Z) : res bytes :=
  struct_pack prefix_fmt [VInt meta_len; VInt payload_len].

Definition pack (meta payload : bytes) : res bytes :=
  let? p := struct_pack prefix_fmt [VInt (len meta); VInt (len payload)] in
  Ok (p ++ meta ++ payload).

Definition unpack (blob : bytes) : res (bytes * bytes) :=
  let? (meta_len, payload_len) := parse_prefix (slice blob 0 prefix_size) in
  let mstart := prefix_size in
  let pstart := mstart + meta_len in
  Ok (slice blob mstart pstart, slice blob pstart (pstart + payload_len)).

(** ** Lemmas shared with the connector *)

Lemma prefix_size_8 : prefix_size = 8.
Proof. done. Qed.

(** A pair of lengths that the prefix can carry. *)
Definition lens_fit (m p : Z) : Prop := 0 ≤ m < 2 ^ 32 ∧ 0 ≤ p < 2 ^ 32.

#[export] Instance lens_fit_dec m p : Decision (lens_fit m p).
Proof. rw /lens_fit. apply _. Defined.

Lemma prefix_pack_ok m p : lens_fit m p → ∃ b,
  prefix_pack m p = Ok b ∧ len b = prefix_size ∧ parse_prefix b = Ok (m, p).
Proof.
  intros [Hm Hp].
  assert (Forall2 fits prefix_fmt [VInt m; VInt p]) as HF by (repeat apply Forall2_cons_2 || apply Forall2_nil_2; done).
  destruct (pack_fits _ _ HF) as (b & Hb & Hl & Hu).
  exists b. split; [done|]. assert (len b = prefix_size) as Hlen by (rw /len Hl //).
  split; [done|]. rw /parse_prefix Hlen Z.eqb_refl /=.
  by rw (unpack_pack _ _ _ HF Hb).
Qed.

Lemma prefix_pack_fail m p : ¬ lens_fit m p → prefix_pack m p = Raise StructError.
Proof.
  rw /lens_fit /prefix_pack. cbn [struct_pack prefix_fmt]. rw /pack1. intros H.
  repeat case_bool_decide; try done. tauto.
Qed.

Lemma parse_prefix_lens b m p : parse_prefix b = Ok (m, p) → lens_fit m p.
Proof.
  rw /parse_prefix. destruct (Z.eqb_spec (len b) prefix_size) as [Hl|]; [|done]. simpl.
  rw /struct_unpack. case_bool_decide as Hn; [|done]. simpl. intros [= <- <-].
  assert (length b = 8%nat) as H8 by done.
  split.
  - pose proof (le_val_bound (take 4 b)) as Hb. rw /len length_take H8 in Hb. exact Hb.
  - pose proof (le_val_bound (take 4 (drop 4 b))) as Hb.
    rw /len length_take length_drop H8 in Hb. exact Hb.
Qed.

(** The prefix is canonical: the only bytes that parse to [(m, p)] are the
    ones [prefix_pack] writes for them. *)
Lemma parse_prefix_canonical b m p : parse_prefix b = Ok (m, p) → prefix_pack m p = Ok b.
Proof.
  rw /parse_prefix. destruct (negb _); [done|].
  destruct (struct_unpack prefix_fmt b) as [vs|] eqn:Hu; [|done]. simpl.
  destruct vs as [|[] [|[] [|]]]; try done. intros [= -> ->].
  by apply pack_unpack in Hu.
Qed.

(** ** Properties *)

(** Splitting a packed object gives back exactly the metadata and the
    payload that were packed, whatever bytes follow the object in the file. *)
Theorem unpack_pack_roundtrip meta payload blob tail :
  pack meta payload = Ok blob → unpack (blob ++ tail) = Ok (meta, payload).
Proof.
  rw /pack. destruct (decide (lens_fit (len meta) (len payload))) as [Hf|Hf].
  - destruct (prefix_pack_ok _ _ Hf) as (p & Hp & Hl & Hpp). rw /prefix_pack in Hp.
    rw Hp /=. intros [= <-]. rw -!app_assoc /unpack slice_app_l // Hpp /=.
    rw slice_app_mid //; [lia|]. rw app_assoc slice_app_mid //; rw len_app; lia.
  - pose proof (prefix_pack_fail _ _ Hf) as Hp. rw /prefix_pack in Hp. by rw Hp.
Qed.

Lemma unpack_pack_roundtrip_witness :
  ∃ blob, pack [Byte.x01; Byte.x02] [Byte.x03; Byte.x04; Byte.x05] = Ok blob ∧
    unpack (blob ++ [Byte.xff]) =
      Ok ([Byte.x01; Byte.x02], [Byte.x03; Byte.x04; Byte.x05]).
Proof. eexists. split; [vm_compute; reflexivity|]. apply unpack_pack_roundtrip. reflexivity. Defined.

(** packing succeeds exactly when both lengths fit their 32-bit field;
    an object of 4 GiB or more raises [struct.error] rather than wrapping. *)
Theorem pack_bounds meta payload :
  (lens_fit (len meta) (len payload) ∧
   ∃ p, prefix_pack (len meta) (len payload) = Ok p ∧
        pack meta payload = Ok (p ++ meta ++ payload) ∧
        len (p ++ meta ++ payload) = 8 + len meta + len payload)
  ∨ (¬ lens_fit (len meta) (len payload) ∧ pack meta payload = Raise StructError).
Proof.
  destruct (decide (lens_fit (len meta) (len payload))) as [Hf|Hf]; [left|right].
  - split; [done|]. destruct (prefix_pack_ok _ _ Hf) as (p & Hp & Hl & _).
    exists p. split; [done|]. rw /pack. rw /prefix_pack in Hp. rw Hp /=.
    split; [done|]. rw !len_app Hl prefix_size_8. lia.
  - split; [done|]. pose proof (prefix_pack_fail _ _ Hf) as Hp. rw /prefix_pack in Hp.
    by rw /pack Hp.
Qed.
