(* ===== verification/SerdeV2.v ===== *)
(** * v2 object layout: [serde_v2.py]

    A 4096-byte header page (magic, version, state, lengths, CRC, metadata,
    zero fill) followed by the payload.  The names are those of the module;
    the path helpers [key_to_path] and [temp_path] are in [Keys]. *)
From S2P Require Import Prelude PyStruct Crc32.
Open Scope Z_scope.
Open Scope py_scope.

Definition MAGIC : bytes := encode "LMDGDS2" ++ [Byte.x00].
Definition VERSION : Z := 2.
Definition HEADER_SIZE : Z := 4096.
Definition STATE_WRITING : Z := 0.
Definition STATE_COMMITTED : Z := 1.

(** [_FIXED = struct.Struct("<8sIIIIQI")] *)
Definition fixed_fmt : list field := [Fs 8; FI; FI; FI; FI; FQ; FI].
Definition FIXED_SIZE : Z := Z.of_nat (calcsize fixed_fmt).
Definition MAX_META : Z := HEADER_SIZE - FIXED_SIZE.

Record Header := mkHeader { state : Z; meta : bytes; payload_len : Z }.

Definition committed (h : Header) : bool := state h =? STATE_COMMITTED.
Definition total_len (h : Header) : Z := HEADER_SIZE + payload_len h.

(** [_crc(state, meta, payload_len)] *)
Definition _crc (st : Z) (mt : bytes) (pl : Z) : res Z :=
  let? fixed := struct_pack [Fs 8; FI; FI; FI; FI; FQ]
    [VBytes MAGIC; VInt VERSION; VInt st; VInt (len mt); VInt 0; VInt pl] in
  Ok (Z.land (crc32 mt (crc32 fixed 0)) u32_max).

(** The checks [pack_header] and [serde_v3.pack_meta] share, then the packed
    fixed part followed by the metadata. *)
Definition pack_fixed_meta (mt : bytes) (pl st : Z) : res bytes :=
  if MAX_META <? len mt then Raise ValueError else
  if pl <? 0 then Raise ValueError else
  if negb ((st =? STATE_WRITING) || (st =? STATE_COMMITTED)) then Raise ValueError else
  let? crc := _crc st mt pl in
  let? fixed := struct_pack fixed_fmt
    [VBytes MAGIC; VInt VERSION; VInt st; VInt (len mt); VInt 0; VInt pl; VInt crc] in
  Ok (fixed ++ mt).

Definition pack_header (mt : bytes) (pl st : Z) : res bytes :=
  let? page := pack_fixed_meta mt pl st in
  Ok (page ++ zeros (Z.to_nat (HEADER_SIZE - len page))).

Definition parse_header (page : bytes) (require_committed : bool) : res Header :=
  if len page <? FIXED_SIZE then Raise (BadHeader ShortHeader) else
  let? vs := struct_unpack fixed_fmt (slice page 0 FIXED_SIZE) in
  match vs with
  | [VBytes magic; VInt version; VInt st; VInt meta_len; VInt _; VInt pl; VInt crc] =>
      if negb (bool_decide (magic = MAGIC)) then Raise (BadHeader BadMagic) else
      if negb (version =? VERSION) then Raise (BadHeader BadVersion) else
      if MAX_META <? meta_len then Raise (BadHeader MetaTooLong) else
      if len page <? FIXED_SIZE + meta_len then Raise (BadHeader MetaTruncated) else
      let mt := slice page FIXED_SIZE (FIXED_SIZE + meta_len) in
      let? c := _crc st mt pl in
      if negb (c =? crc) then Raise (BadHeader CrcMismatch) else
      if require_committed && negb (st =? STATE_COMMITTED)
      then Raise (BadHeader NotCommitted)
      else Ok (mkHeader st mt pl)
  | _ => Raise StructError
  end.

Definition payload_offset : Z := HEADER_SIZE.
Definition check_payload_len (h : Header) (got : Z) : bool := got =? payload_len h.

(** ** The fixed part, byte by byte *)
Definition crc_input (st : Z) (mt : bytes) (pl : Z) : bytes :=
  MAGIC ++ le_bytes 4 VERSION ++ le_bytes 4 st ++ le_bytes 4 (len mt) ++
  le_bytes 4 0 ++ le_bytes 8 pl ++ mt.

Definition fixed_bytes (magic : bytes) (v st ml rs pl crc : Z) : bytes :=
  magic ++ le_bytes 4 v ++ le_bytes 4 st ++ le_bytes 4 ml ++ le_bytes 4 rs ++
  le_bytes 8 pl ++ le_bytes 4 crc.

Definition u64 (z : Z) : Prop := 0 ≤ z < 2 ^ 64.

Lemma length_fixed_bytes magic v st ml rs pl crc :
  length magic = 8%nat → length (fixed_bytes magic v st ml rs pl crc) = 36%nat.
Proof. intros H. rw /fixed_bytes. autorewrite with len. lia. Qed.

Lemma FIXED_SIZE_36 : FIXED_SIZE = 36.
Proof. done. Qed.

Lemma pack_fixed magic v st ml rs pl crc :
  length magic = 8%nat → u32 v → u32 st → u32 ml → u32 rs → u64 pl → u32 crc →
  struct_pack fixed_fmt [VBytes magic; VInt v; VInt st; VInt ml; VInt rs; VInt pl; VInt crc]
  = Ok (fixed_bytes magic v st ml rs pl crc) ∧
  struct_unpack fixed_fmt (fixed_bytes magic v st ml rs pl crc)
  = Ok [VBytes magic; VInt v; VInt st; VInt ml; VInt rs; VInt pl; VInt crc].
Proof.
  rw /u32 /u64. intros Hm ??????.
  assert (struct_pack fixed_fmt
    [VBytes magic; VInt v; VInt st; VInt ml; VInt rs; VInt pl; VInt crc]
    = Ok (fixed_bytes magic v st ml rs pl crc)) as Hp.
  { rw /fixed_fmt. cbn [struct_pack]. rw pack1_s // !pack1_I // pack1_Q //. }
  split; [done|]. eapply unpack_pack, Hp.
  repeat (apply Forall2_cons_2; [done|]). apply Forall2_nil_2.
Qed.

Lemma _crc_ok st mt pl : u32 st → u32 (len mt) → u64 pl →
  _crc st mt pl = Ok (crc32 (crc_input st mt pl) 0).
Proof.
  rw /u32 /u64. intros. rw /_crc. cbn [struct_pack]. rw pack1_s // !pack1_I // pack1_Q //.
  cbn [res_bind]. rw crc32_app app_nil_r -!app_assoc.
  assert (u32 (crc32 (crc_input st mt pl) 0)) as Hc by (apply u32_crc32; done).
  f_equal. change u32_max with (Z.ones 32). rw Z.land_ones //. by apply Z.mod_small.
Qed.

Lemma u32_crc_input st mt pl : u32 (crc32 (crc_input st mt pl) 0).
Proof. by apply u32_crc32. Qed.

(** [parse_header] of a page split into its fields, check by check. *)
Lemma parse_header_fields magic v st ml rs pl crc rest rc :
  length magic = 8%nat → u32 v → u32 st → u32 ml → u32 rs → u64 pl → u32 crc →
  parse_header (fixed_bytes magic v st ml rs pl crc ++ rest) rc =
    if negb (bool_decide (magic = MAGIC)) then Raise (BadHeader BadMagic) else
    if negb (v =? VERSION) then Raise (BadHeader BadVersion) else
    if MAX_META <? ml then Raise (BadHeader MetaTooLong) else
    if len rest <? ml then Raise (BadHeader MetaTruncated) else
    let mt := take (Z.to_nat ml) rest in
    if negb (crc32 (crc_input st mt pl) 0 =? crc) then Raise (BadHeader CrcMismatch) else
    if rc && negb (st =? STATE_COMMITTED) then Raise (BadHeader NotCommitted)
    else Ok (mkHeader st mt pl).
Proof.
  intros Hm Hv Hst Hml Hrs Hpl Hcrc. rw /parse_header.
  pose proof (length_fixed_bytes magic v st ml rs pl crc Hm) as Hl.
  assert (len (fixed_bytes magic v st ml rs pl crc) = FIXED_SIZE) as Hlen by (rw /len Hl //).
  rw len_app Hlen. pose proof (len_nonneg rest).
  destruct (Z.ltb_spec (FIXED_SIZE + len rest) FIXED_SIZE); [lia|].
  rw slice_app_l //. destruct (pack_fixed magic v st ml rs pl crc) as [_ ->]; [done..|].
  simpl. destruct (negb (bool_decide (magic = MAGIC))); [done|].
  destruct (negb (v =? VERSION)); [done|]. destruct (MAX_META <? ml) eqn:Hmax; [done|].
  replace (FIXED_SIZE + len rest <? FIXED_SIZE + ml) with (len rest <? ml) by lia.
  destruct (Z.ltb_spec (len rest) ml) as [|Hle]; [done|].
  assert (slice (fixed_bytes magic v st ml rs pl crc ++ rest) FIXED_SIZE (FIXED_SIZE + ml)
    = take (Z.to_nat ml) rest) as ->.
  { rw /slice Z.add_simpl_l drop_app_length' // Hl //. }
  destruct Hml as [Hml0 Hml1]. rw _crc_ok //.
  rw /u32 /len length_take. rw /len in Hle. lia.
Qed.

(** Every page of at least [FIXED_SIZE] bytes has such fields. *)
Lemma page_fields page : FIXED_SIZE ≤ len page →
  ∃ magic v st ml rs pl crc rest,
    page = fixed_bytes magic v st ml rs pl crc ++ rest ∧
    length magic = 8%nat ∧ u32 v ∧ u32 st ∧ u32 ml ∧ u32 rs ∧ u64 pl ∧ u32 crc.
Proof.
  rw FIXED_SIZE_36 /len. intros Hlen.
  set (f i n := take n (drop i page)).
  assert (∀ i n, (i + n ≤ 36)%nat → length (f i n) = n) as Hf.
  { intros i n Hin. rw /f length_take length_drop. lia. }
  assert (∀ i, (i + 4 ≤ 36)%nat → u32 (le_val (f i 4%nat)) ∧ le_bytes 4 (le_val (f i 4%nat)) = f i 4%nat) as H4.
  { intros i Hi. split; [|rw -{1}(Hf i 4%nat Hi); apply le_bytes_val].
    pose proof (le_val_bound (f i 4%nat)) as Hb. rw /len Hf // in Hb. }
  assert (u64 (le_val (f 24%nat 8%nat)) ∧ le_bytes 8 (le_val (f 24%nat 8%nat)) = f 24%nat 8%nat) as H8.
  { split; [|rw -{1}(Hf 24%nat 8%nat ltac:(lia)); apply le_bytes_val].
    pose proof (le_val_bound (f 24%nat 8%nat)) as Hb. rw /len Hf in Hb; [lia|exact Hb]. }
  exists (f 0%nat 8%nat), (le_val (f 8%nat 4%nat)), (le_val (f 12%nat 4%nat)),
    (le_val (f 16%nat 4%nat)), (le_val (f 20%nat 4%nat)), (le_val (f 24%nat 8%nat)),
    (le_val (f 32%nat 4%nat)), (drop 36 page).
  split; [|split; [apply Hf; lia|]; split_and!; first [apply H4; lia | apply H8]].
  rw /fixed_bytes. rw !(proj2 (H4 _ _)); [lia..|]. rw (proj2 H8).
  rw /f. rw -!app_assoc.
  assert (∀ i n, take n (drop i page) ++ drop (i + n) page = drop i page) as Htd.
  { intros i n. by rw -drop_drop take_drop. }
  rw (Htd 32 4)%nat (Htd 24 8)%nat (Htd 20 4)%nat (Htd 16 4)%nat (Htd 12 4)%nat (Htd 8 4)%nat.
  by rw (Htd 0 8)%nat.
Qed.

(** Whatever the bytes, [parse_header] raises nothing but [BadHeader]. *)
Lemma parse_header_raises page rc e : parse_header page rc = Raise e → ∃ why, e = BadHeader why.
Proof.
  destruct (Z.ltb_spec (len page) FIXED_SIZE) as [Hs|Hl].
  { rw /parse_header. destruct (Z.ltb_spec (len page) FIXED_SIZE); [|lia]. intros [= <-]. by eexists. }
  destruct (page_fields _ Hl) as (mg & v & st & ml & rs & pl & crc & rest & -> & Hmg & Hv & Hst & Hml & Hrs & Hpl & Hcrc).
  rw parse_header_fields //. cbn zeta.
  repeat match goal with |- (if ?b then _ else _) = _ → _ => destruct b; [intros [= <-]; by eexists|] end.
  intros [=].
Qed.

(** ** What the writer produces *)
Definition header_args (mt : bytes) (pl st : Z) : Prop :=
  len mt ≤ MAX_META ∧ u64 pl ∧ (st = STATE_WRITING ∨ st = STATE_COMMITTED).

Definition header_crc (mt : bytes) (pl st : Z) : Z := crc32 (crc_input st mt pl) 0.

Definition header_body (mt : bytes) (pl st : Z) : bytes :=
  fixed_bytes MAGIC VERSION st (len mt) 0 pl (header_crc mt pl st) ++ mt.

#[global] Arguments fixed_bytes : simpl never.
#[global] Arguments header_body : simpl never.
#[global] Arguments crc_input : simpl never.

Lemma MAX_META_4060 : MAX_META = 4060.
Proof. done. Qed.

Lemma header_args_fields mt pl st :
  header_args mt pl st → u32 VERSION ∧ u32 st ∧ u32 (len mt) ∧ u32 0 ∧ u64 pl ∧
  u32 (header_crc mt pl st).
Proof.
  rw /header_args MAX_META_4060 /STATE_WRITING /STATE_COMMITTED.
  intros (Hm & Hp & Hs). pose proof (len_nonneg mt).
  split_and!; try done; try apply u32_crc_input; rw /u32; destruct Hs; subst; lia.
Qed.

Lemma length_header_body mt pl st : length (header_body mt pl st) = (36 + length mt)%nat.
Proof. by rw /header_body length_app length_fixed_bytes. Qed.

Lemma len_header_body mt pl st : len (header_body mt pl st) = 36 + len mt.
Proof. rw /len length_header_body. lia. Qed.

Lemma pack_fixed_meta_ok mt pl st :
  header_args mt pl st → pack_fixed_meta mt pl st = Ok (header_body mt pl st).
Proof.
  intros Ha. destruct (header_args_fields _ _ _ Ha) as (Hv & Hst & Hml & H0 & Hpl & Hc).
  destruct Ha as (Hm & _ & Hs). rw /pack_fixed_meta.
  destruct (Z.ltb_spec MAX_META (len mt)); [lia|].
  destruct (Z.ltb_spec pl 0); [destruct Hpl; lia|].
  replace (negb _) with false by (destruct Hs; subst; done).
  rw _crc_ok //. cbn [res_bind]. rw -/(header_crc mt pl st).
  destruct (pack_fixed MAGIC VERSION st (len mt) 0 pl (header_crc mt pl st)) as [Hf _]; [done..|].
  by rw Hf.
Qed.

Lemma pack_fixed_meta_inv mt pl st page :
  pack_fixed_meta mt pl st = Ok page → header_args mt pl st ∧ page = header_body mt pl st.
Proof.
  intros Hp. assert (header_args mt pl st) as Ha.
  { move: Hp. rw /pack_fixed_meta.
    destruct (Z.ltb_spec MAX_META (len mt)) as [|Hm]; [done|].
    destruct (Z.ltb_spec pl 0) as [|Hpl]; [done|].
    destruct ((st =? STATE_WRITING) || (st =? STATE_COMMITTED)) eqn:Hs; [|done]. cbn [negb].
    apply orb_prop in Hs. rw !Z.eqb_eq in Hs.
    rw /_crc. cbn [struct_pack].
    destruct (decide (0 ≤ pl < 2 ^ 64)) as [Hu|Hu]; [done|].
    rw pack1_s // pack1_Q_fail //.
    by repeat (destruct (pack1 FI _); cbn [res_bind]; [|done]). }
  split; [done|]. rw pack_fixed_meta_ok // in Hp. congruence.
Qed.

Lemma pack_header_ok mt pl st : header_args mt pl st →
  pack_header mt pl st = Ok (header_body mt pl st ++ zeros (4060 - length mt)).
Proof.
  intros Ha. rw /pack_header pack_fixed_meta_ok //. cbn [res_bind].
  assert (Z.to_nat (HEADER_SIZE - len (header_body mt pl st)) = (4060 - length mt)%nat) as ->; [|done].
  rw len_header_body /HEADER_SIZE /len. lia.
Qed.

Lemma pack_header_inv mt pl st page : pack_header mt pl st = Ok page →
  header_args mt pl st ∧ page = header_body mt pl st ++ zeros (4060 - length mt).
Proof.
  intros Hp. assert (header_args mt pl st) as Ha.
  { move: Hp. rw /pack_header. destruct (pack_fixed_meta mt pl st) eqn:He; [|done].
    by apply pack_fixed_meta_inv in He as [??]. }
  split; [done|]. rw pack_header_ok // in Hp. congruence.
Qed.

(** What a reader makes of a written header followed by anything. *)
Lemma parse_header_body mt pl st rest rc : header_args mt pl st →
  parse_header (header_body mt pl st ++ rest) rc =
    if rc && negb (st =? STATE_COMMITTED) then Raise (BadHeader NotCommitted)
    else Ok (mkHeader st mt pl).
Proof.
  intros Ha. destruct (header_args_fields _ _ _ Ha) as (Hv & Hst & Hml & H0 & Hpl & Hc).
  rw /header_body -app_assoc parse_header_fields //. rw bool_decide_true //=.
  destruct Ha as (Hm & _ & _). destruct (Z.ltb_spec MAX_META (len mt)); [lia|].
  rw len_app. destruct (Z.ltb_spec (len mt + len rest) (len mt)) as [Hlt|].
  { pose proof (len_nonneg rest). lia. }
  by rw len_to_nat take_app_length Z.eqb_refl.
Qed.

(** ** Properties *)

(** C7: the header page is exactly one 4096-byte page, so the payload that
    follows it starts page-aligned, and a reader gets back the state, the
    metadata and the payload length that were packed; a page still in the
    WRITING state is refused unless the caller asks for it. *)
Theorem header_roundtrip mt pl st page rc :
  pack_header mt pl st = Ok page →
  len page = payload_offset ∧ payload_offset mod 4096 = 0 ∧
  parse_header page rc =
    if rc && (st =? STATE_WRITING) then Raise (BadHeader NotCommitted)
    else Ok (mkHeader st mt pl).
Proof.
  intros [Ha ->]%pack_header_inv. destruct Ha as (Hm & Hp & Hs).
  rw len_app len_header_body MAX_META_4060 in Hm |- *.
  split; [rw /payload_offset /HEADER_SIZE /len /zeros length_replicate; rw /len in Hm; lia|].
  split; [done|]. rw parse_header_body //. by destruct Hs; subst.
Qed.

Lemma header_roundtrip_witness : ∃ page,
  pack_header (encode "kv") 3 STATE_COMMITTED = Ok page ∧
  parse_header page true = Ok (mkHeader STATE_COMMITTED (encode "kv") 3).
Proof.
  eexists. split; [vm_compute; reflexivity|].
  eapply (header_roundtrip (encode "kv") 3 STATE_COMMITTED). vm_compute. reflexivity.
Defined.

(** A header page cut anywhere is refused: within the fixed part as
    short, within the metadata as truncated; only a cut in the zero fill,
    which loses nothing, is accepted. *)
Theorem truncated_header_rejected mt pl page k rc :
  pack_header mt pl STATE_COMMITTED = Ok page →
  parse_header (take k page) rc =
    if bool_decide (k < 36)%nat then Raise (BadHeader ShortHeader) else
    if bool_decide (k < 36 + length mt)%nat then Raise (BadHeader MetaTruncated)
    else Ok (mkHeader STATE_COMMITTED mt pl).
Proof.
  intros [Ha ->]%pack_header_inv.
  destruct (header_args_fields _ _ _ Ha) as (Hv & Hst & Hml & H0 & Hpl & Hc).
  case_bool_decide as Hk.
  { rw /parse_header FIXED_SIZE_36. destruct (Z.ltb_spec (len (take k
      (header_body mt pl STATE_COMMITTED ++ zeros (4060 - length mt)))) 36); [done|].
    rw /len length_take in H. lia. }
  case_bool_decide as Hk'.
  - rw /header_body -app_assoc take_app_ge length_fixed_bytes //; [lia|].
    rw parse_header_fields // bool_decide_true //=.
    destruct Ha as (Hm & _ & _). destruct (Z.ltb_spec MAX_META (len mt)); [lia|].
    destruct (Z.ltb_spec (len (take (k - 36) (mt ++ zeros (4060 - length mt)))) (len mt)); [done|].
    rw /len length_take in H1. lia.
  - rw take_app_ge ?length_header_body //; [lia|]. rw parse_header_body //. by destruct rc.
Qed.

Lemma truncated_header_rejected_witness : ∃ page,
  pack_header (encode "kv") 3 STATE_COMMITTED = Ok page ∧
  parse_header (take 37 page) true = Raise (BadHeader MetaTruncated).
Proof.
  eexists. split; [vm_compute; reflexivity|].
  rw (truncated_header_rejected (encode "kv") 3); [vm_compute; reflexivity|]. reflexivity.
Defined.

(** ** Corruption *)

(** Changing one byte of the middle segment. *)
Lemma seg_insert (a : nat) (A F : bytes) i b :
  length A = a → (a ≤ i < a + length F)%nat →
  (∀ B, <[i:=b]> (A ++ F ++ B) = A ++ <[(i - a)%nat:=b]> F ++ B) ∧
  (∀ B, (A ++ F ++ B) !! i = F !! (i - a)%nat).
Proof.
  intros <- Hi. split; intros B.
  - rw insert_app_r_alt; [lia|]. by rw insert_app_l; [lia|].
  - rw lookup_app_r; [lia|]. by rw lookup_app_l; [lia|].
Qed.

Lemma crc_seg (A F B : bytes) j b :
  (j < length F)%nat → F !! j ≠ Some b →
  crc32 (A ++ <[j:=b]> F ++ B) 0 ≠ crc32 (A ++ F ++ B) 0.
Proof.
  intros Hj Hne Hcrc.
  destruct (seg_insert (length A) A F (length A + j) b) as [Hi Hl]; [done|lia|].
  replace (length A + j - length A)%nat with j in Hi, Hl by lia.
  rw -Hi in Hcrc. apply crc32_insert in Hcrc; [|done|autorewrite with len; lia].
  congruence.
Qed.

(** A reader whose recomputed CRC disagrees with the stored one refuses. *)
Lemma parse_header_crc_mismatch st mt pl crc rest rc :
  len mt ≤ MAX_META → u32 st → u64 pl → u32 crc →
  crc32 (crc_input st mt pl) 0 ≠ crc →
  parse_header (fixed_bytes MAGIC VERSION st (len mt) 0 pl crc ++ mt ++ rest) rc
  = Raise (BadHeader CrcMismatch).
Proof.
  intros Hm Hst Hpl Hcrc Hne. pose proof (len_nonneg mt). pose proof (len_nonneg rest).
  rw parse_header_fields //; [rw /u32; rw MAX_META_4060 in Hm; lia|].
  rw bool_decide_true //=. destruct (Z.ltb_spec MAX_META (len mt)); [lia|].
  rw len_app. destruct (Z.ltb_spec (len mt + len rest) (len mt)); [lia|].
  rw len_to_nat take_app_length. by destruct (Z.eqb_spec (crc32 (crc_input st mt pl) 0) crc).
Qed.

Section Corrupt.
Context (mt : bytes) (pl st : Z) (tl : bytes) (rc : bool).
Hypothesis Hargs : header_args mt pl st.
Let crc := header_crc mt pl st.
Let body := fixed_bytes MAGIC VERSION st (len mt) 0 pl crc ++ mt ++ tl.
Let rejected (page : bytes) : Prop := ∃ why, parse_header page rc = Raise (BadHeader why).

Lemma corrupt_magic i b :
  (i < 8)%nat → body !! i ≠ Some b → rejected (<[i:=b]> body).
Proof using Hargs.
  intros Hi. destruct (header_args_fields _ _ _ Hargs) as (Hv & Hst & Hml & H0 & Hpl & Hc).
  rw /body /fixed_bytes -!app_assoc.
  destruct (seg_insert 0 [] MAGIC i b) as [Hin Hl]; [done|simpl; lia|].
  rw Nat.sub_0_r in Hin, Hl. cbn [app] in Hin, Hl. rw Hin Hl. intros Hb. exists BadMagic.
  pose proof (parse_header_fields (<[i:=b]> MAGIC) VERSION st (len mt) 0 pl crc (mt ++ tl) rc) as Hp.
  rw /fixed_bytes -!app_assoc in Hp. rw Hp //; [by rw length_insert|].
  rw bool_decide_false //. intros Heq. apply Hb. rw -Heq. by apply list_lookup_insert_eq.
Qed.

Lemma corrupt_version i b :
  (8 ≤ i < 12)%nat → body !! i ≠ Some b → rejected (<[i:=b]> body).
Proof using Hargs.
  intros Hi. destruct (header_args_fields _ _ _ Hargs) as (Hv & Hst & Hml & H0 & Hpl & Hc).
  destruct (le_bytes_insert 4 VERSION (i - 8) b) as (v' & Hv' & Heq & Hne); [lia|done|].
  rw /body /fixed_bytes -!app_assoc.
  destruct (seg_insert 8 MAGIC (le_bytes 4 VERSION) i b) as [Hin Hl];
    [done| |rw Hin Hl Heq]; [rw length_le_bytes; lia|].
  intros Hb. exists BadVersion.
  pose proof (parse_header_fields MAGIC v' st (len mt) 0 pl crc (mt ++ tl) rc) as Hp.
  rw /fixed_bytes -!app_assoc in Hp. rw Hp //. rw bool_decide_true //=.
  destruct (Z.eqb_spec v' VERSION) as [->|]; [|done]. destruct Hb. by apply Hne.
Qed.

Lemma corrupt_state i b :
  (12 ≤ i < 16)%nat → body !! i ≠ Some b → rejected (<[i:=b]> body).
Proof using Hargs.
  intros Hi. destruct (header_args_fields _ _ _ Hargs) as (Hv & Hst & Hml & H0 & Hpl & Hc).
  destruct (le_bytes_insert 4 st (i - 12) b) as (st' & Hst' & Heq & _); [lia|done|].
  set (A := MAGIC ++ le_bytes 4 VERSION).
  assert (∀ s c, fixed_bytes MAGIC VERSION s (len mt) 0 pl c ++ mt ++ tl =
    A ++ le_bytes 4 s ++ le_bytes 4 (len mt) ++ le_bytes 4 0 ++ le_bytes 8 pl ++ le_bytes 4 c ++ mt ++ tl)
    as HA by (intros; rw /fixed_bytes /A -!app_assoc //).
  assert (∀ s, crc_input s mt pl =
    A ++ le_bytes 4 s ++ le_bytes 4 (len mt) ++ le_bytes 4 0 ++ le_bytes 8 pl ++ mt)
    as HC by (intros; rw /crc_input /A -!app_assoc //).
  rw /body HA. destruct (seg_insert 12 A (le_bytes 4 st) i b) as [Hin Hl];
    [done| |rw Hin Hl]; [rw length_le_bytes; lia|].
  intros Hb. exists CrcMismatch. rw Heq -HA.
  apply parse_header_crc_mismatch; [apply Hargs|assumption..|].
  rw /crc /header_crc !HC -Heq. apply crc_seg; [|done]. rw length_le_bytes; lia.
Qed.

Lemma corrupt_payload_len i b :
  (24 ≤ i < 32)%nat → body !! i ≠ Some b → rejected (<[i:=b]> body).
Proof using Hargs.
  intros Hi. destruct (header_args_fields _ _ _ Hargs) as (Hv & Hst & Hml & H0 & Hpl & Hc).
  destruct (le_bytes_insert 8 pl (i - 24) b) as (pl' & Hpl' & Heq & _); [lia|done|].
  set (A := MAGIC ++ le_bytes 4 VERSION ++ le_bytes 4 st ++ le_bytes 4 (len mt) ++ le_bytes 4 0).
  assert (∀ p c, fixed_bytes MAGIC VERSION st (len mt) 0 p c ++ mt ++ tl =
    A ++ le_bytes 8 p ++ le_bytes 4 c ++ mt ++ tl) as HA by (intros; rw /fixed_bytes /A -!app_assoc //).
  assert (∀ p, crc_input st mt p = A ++ le_bytes 8 p ++ mt) as HC
    by (intros; rw /crc_input /A -!app_assoc //).
  assert (length A = 24%nat) as HlA by (rw /A; by autorewrite with len).
  rw /body HA. destruct (seg_insert 24 A (le_bytes 8 pl) i b) as [Hin Hl];
    [done| |rw Hin Hl]; [rw length_le_bytes; lia|].
  intros Hb. exists CrcMismatch. rw Heq -HA.
  apply parse_header_crc_mismatch; [apply Hargs|assumption..|].
  rw /crc /header_crc !HC -Heq. apply crc_seg; [|done]. rw length_le_bytes; lia.
Qed.

Lemma corrupt_crc i b :
  (32 ≤ i < 36)%nat → body !! i ≠ Some b → rejected (<[i:=b]> body).
Proof using Hargs.
  intros Hi. destruct (header_args_fields _ _ _ Hargs) as (Hv & Hst & Hml & H0 & Hpl & Hc).
  destruct (le_bytes_insert 4 crc (i - 32) b) as (c' & Hc' & Heq & Hne); [lia|done|].
  set (A := MAGIC ++ le_bytes 4 VERSION ++ le_bytes 4 st ++ le_bytes 4 (len mt) ++ le_bytes 4 0 ++ le_bytes 8 pl).
  assert (∀ c, fixed_bytes MAGIC VERSION st (len mt) 0 pl c ++ mt ++ tl =
    A ++ le_bytes 4 c ++ mt ++ tl) as HA by (intros; rw /fixed_bytes /A -!app_assoc //).
  assert (length A = 32%nat) as HlA by (rw /A; by autorewrite with len).
  rw /body HA. destruct (seg_insert 32 A (le_bytes 4 crc) i b) as [Hin Hl];
    [done| |rw Hin Hl]; [rw length_le_bytes; lia|].
  intros Hb. exists CrcMismatch. rw Heq -HA.
  apply parse_header_crc_mismatch; [apply Hargs|assumption..|].
  intros Hx. apply Hb, Hne. by rw -Hx.
Qed.

Lemma corrupt_meta i b :
  (36 ≤ i < 36 + length mt)%nat → body !! i ≠ Some b → rejected (<[i:=b]> body).
Proof using Hargs.
  intros Hi. destruct (header_args_fields _ _ _ Hargs) as (Hv & Hst & Hml & H0 & Hpl & Hc).
  rw /body. destruct (seg_insert 36 (fixed_bytes MAGIC VERSION st (len mt) 0 pl crc) mt i b) as [Hin Hl];
    [by apply length_fixed_bytes|lia|rw Hin Hl].
  intros Hb. exists CrcMismatch.
  assert (len (<[(i - 36)%nat:=b]> mt) = len mt) as Hlm by (rw /len length_insert //).
  rw -{1}Hlm. apply parse_header_crc_mismatch; [rw Hlm; apply Hargs|assumption..|].
  rw /crc /header_crc /crc_input Hlm.
  set (A := MAGIC ++ le_bytes 4 VERSION ++ le_bytes 4 st ++ le_bytes 4 (len mt) ++ le_bytes 4 0 ++ le_bytes 8 pl).
  assert (∀ m, MAGIC ++ le_bytes 4 VERSION ++ le_bytes 4 st ++ le_bytes 4 (len mt) ++ le_bytes 4 0 ++
    le_bytes 8 pl ++ m = A ++ m ++ []) as HA by (intros; rw /A -!app_assoc app_nil_r //).
  rw !HA. apply crc_seg; [lia|done].
Qed.
End Corrupt.

(** C36: a header in which any single byte of the magic, version, state,
    payload length, CRC or metadata has been changed is refused, whatever the
    change: the CRC catches it when no earlier check does.  (The two fields
    left out are [meta_len], whose change also changes how many bytes the CRC
    covers, and [reserved], which is not covered at all.) *)
Theorem corrupted_byte_rejected mt pl st page i b rc :
  pack_header mt pl st = Ok page →
  (i < 16 ∨ 24 ≤ i < 36 + length mt)%nat →
  page !! i ≠ Some b →
  ∃ why, parse_header (<[i:=b]> page) rc = Raise (BadHeader why).
Proof.
  intros [Ha ->]%pack_header_inv. rw /header_body -app_assoc. intros Hi Hb.
  destruct (decide (i < 8)%nat); [by apply corrupt_magic|].
  destruct (decide (i < 12)%nat); [by apply corrupt_version; [..|lia|]|].
  destruct (decide (i < 16)%nat); [by apply corrupt_state; [..|lia|]|].
  destruct (decide (i < 32)%nat); [by apply corrupt_payload_len; [..|lia|]|].
  destruct (decide (i < 36)%nat); [by apply corrupt_crc; [..|lia|]|].
  by apply corrupt_meta; [..|lia|].
Qed.

Lemma corrupted_byte_rejected_witness : ∃ page,
  pack_header (encode "kv") 3 STATE_COMMITTED = Ok page ∧
  ∃ why, parse_header (<[36%nat:=Byte.x00]> page) true = Raise (BadHeader why).
Proof.
  eexists. split; [vm_compute; reflexivity|].
  eapply (corrupted_byte_rejected (encode "kv") 3 STATE_COMMITTED);
    [vm_compute; reflexivity | right; split; simpl; lia | vm_compute; discriminate].
Defined.

(** Whatever bytes are in the file, a header that is accepted is the one
    a writer packs for the values returned: committed, metadata within the
    page, and byte for byte equal to it up to the reserved field. *)
Theorem accepted_header_is_canonical page h :
  parse_header page true = Ok h →
  committed h = true ∧ header_args (meta h) (payload_len h) (state h) ∧
  ∃ canon rs rest, pack_fixed_meta (meta h) (payload_len h) (state h) = Ok canon ∧
    length rs = 4%nat ∧ page = take 20 canon ++ rs ++ drop 24 canon ++ rest.
Proof.
  intros Hp. assert (FIXED_SIZE ≤ len page) as Hl.
  { move: Hp. rw /parse_header. destruct (Z.ltb_spec (len page) FIXED_SIZE); [done|lia]. }
  destruct (page_fields _ Hl) as (mg & v & st & ml & rs & pl & crc & rest & -> & Hmg & Hv & Hst & Hml & Hrs & Hpl & Hcrc).
  rw parse_header_fields // in Hp.
  case_bool_decide as Hm; [subst mg|done]. cbn [negb] in Hp.
  destruct (Z.eqb_spec v VERSION) as [->|]; [|done]. cbn [negb] in Hp.
  destruct (Z.ltb_spec MAX_META ml) as [|Hmax]; [done|].
  destruct (Z.ltb_spec (len rest) ml) as [|Hrest]; [done|].
  set (mt := take (Z.to_nat ml) rest) in *. cbn zeta in Hp.
  destruct (Z.eqb_spec (crc32 (crc_input st mt pl) 0) crc) as [Hc|]; [|done]. cbn [negb andb] in Hp.
  destruct (Z.eqb_spec st STATE_COMMITTED) as [->|]; [|done]. injection Hp as <-.
  assert (len mt = ml) as Hlm.
  { rw /mt /len length_take. rw /len in Hrest. destruct Hml. lia. }
  cbn [meta payload_len state]. assert (header_args mt pl STATE_COMMITTED) as Ha.
  { split; [lia|]. split; [done|by right]. }
  split; [done|]. split; [done|].
  exists (header_body mt pl STATE_COMMITTED), (le_bytes 4 rs), (drop (Z.to_nat ml) rest).
  split; [by apply pack_fixed_meta_ok|]. split; [by rw length_le_bytes|].
  rw -{1}(take_drop (Z.to_nat ml) rest) -/mt.
  set (A := MAGIC ++ le_bytes 4 VERSION ++ le_bytes 4 STATE_COMMITTED ++ le_bytes 4 (len mt)).
  set (B := le_bytes 8 pl ++ le_bytes 4 crc ++ mt).
  assert (header_body mt pl STATE_COMMITTED = A ++ le_bytes 4 0 ++ B) as ->.
  { rw /header_body /fixed_bytes /header_crc Hc /A /B -!app_assoc //. }
  assert (length A = 20%nat) as HA by (rw /A; by autorewrite with len).
  rw take_app_length' //. rw (app_assoc A (le_bytes 4 0) B) drop_app_length'; [by rw length_app HA length_le_bytes|].
  rw /fixed_bytes /A /B Hlm -!app_assoc //.
Qed.

Lemma accepted_header_is_canonical_witness : ∃ h,
  parse_header (match pack_header (encode "kv") 3 STATE_COMMITTED with Ok p => p | _ => [] end) true = Ok h ∧
  committed h = true.
Proof.
  eexists. split; [vm_compute; reflexivity|].
  eapply (accepted_header_is_canonical
    (match pack_header (encode "kv") 3 STATE_COMMITTED with Ok p => p | _ => [] end)).
  vm_compute. reflexivity.
Defined.

(** The CRC does not cover the reserved field as it is stored: a header
    whose reserved bytes were overwritten with anything is still accepted, with
    the same contents, although the module says the CRC covers the header
    fields. *)
Theorem reserved_field_unchecked mt pl rs rest rc :
  header_args mt pl STATE_COMMITTED → u32 rs →
  parse_header (fixed_bytes MAGIC VERSION STATE_COMMITTED (len mt) rs pl
    (header_crc mt pl STATE_COMMITTED) ++ mt ++ rest) rc
  = Ok (mkHeader STATE_COMMITTED mt pl).
Proof.
  intros Ha Hrs. destruct (header_args_fields _ _ _ Ha) as (Hv & Hst & Hml & H0 & Hpl & Hc).
  rw parse_header_fields // bool_decide_true //=.
  destruct Ha as (Hm & _ & _). destruct (Z.ltb_spec MAX_META (len mt)); [lia|].
  rw len_app. pose proof (len_nonneg rest).
  destruct (Z.ltb_spec (len mt + len rest) (len mt)); [lia|].
  rw len_to_nat take_app_length -/(header_crc mt pl STATE_COMMITTED) Z.eqb_refl /=.
  by destruct rc.
Qed.

Lemma reserved_field_unchecked_witness :
  parse_header (fixed_bytes MAGIC VERSION STATE_COMMITTED 2 77 3
    (header_crc (encode "kv") 3 STATE_COMMITTED) ++ encode "kv" ++ []) true
  = Ok (mkHeader STATE_COMMITTED (encode "kv") 3).
Proof.
  apply (reserved_field_unchecked (encode "kv") 3 77 [] true).
  - split; [vm_compute; discriminate|]. split; [split; vm_compute; congruence|by right].
  - split; vm_compute; congruence.
Defined.
