(* ===== verification/SerdeV3.v ===== *)
(** * v3 layout: [serde_v3.py]

    One dkey per chunk; metadata and payload in separate akeys.  The metadata
    akey holds a v2 header without its zero fill. *)
From S2P Require Import Prelude PyStruct Crc32 Sha256 SerdeV2.
Open Scope Z_scope.
Open Scope py_scope.

Definition AKEY_META : bytes := encode "M".
Definition AKEY_PAYLOAD : bytes := encode "P".
Definition _MAX_LAYER : Z := 999.

Definition dkey_for_str (s : string) : bytes := sha256 (encode s).

(** [b"%03d" % i] for [0 <= i <= 999] *)
Definition dec3 (i : Z) : bytes :=
  [byte_of_Z (48 + i / 100); byte_of_Z (48 + i / 10 mod 10); byte_of_Z (48 + i mod 10)].

Definition akey_layer (i : Z) : res bytes :=
  if (0 <=? i) && (i <=? _MAX_LAYER) then Ok (encode "L" ++ dec3 i) else Raise ValueError.
Definition akey_meta_layer (i : Z) : res bytes :=
  if (0 <=? i) && (i <=? _MAX_LAYER) then Ok (encode "M" ++ dec3 i) else Raise ValueError.

Definition meta_akeys (n_layers : Z) : res (list bytes) :=
  if n_layers <=? 0 then Ok [AKEY_META] else res_map akey_meta_layer (seqZ 0 n_layers).
Definition payload_akeys (n_layers : Z) : res (list bytes) :=
  if n_layers <=? 0 then Ok [AKEY_PAYLOAD] else res_map akey_layer (seqZ 0 n_layers).

Definition pack_meta (mt : bytes) (pl st : Z) : res bytes := pack_fixed_meta mt pl st.
Definition parse_meta (buf : bytes) (require_committed : bool) : res Header :=
  parse_header buf require_committed.
Definition meta_len_for (mt : bytes) : Z := FIXED_SIZE + len mt.

(** ** Lemmas *)
Definition layer_ok (i : Z) : Prop := 0 ≤ i ≤ _MAX_LAYER.
#[export] Instance layer_ok_dec i : Decision (layer_ok i) := _.

Lemma akey_layer_ok i : layer_ok i → akey_layer i = Ok (encode "L" ++ dec3 i).
Proof. rw /layer_ok /akey_layer /_MAX_LAYER. intros. by rw !(proj2 (Z.leb_le _ _)); [lia..|]. Qed.
Lemma akey_meta_layer_ok i : layer_ok i → akey_meta_layer i = Ok (encode "M" ++ dec3 i).
Proof. rw /layer_ok /akey_meta_layer /_MAX_LAYER. intros. by rw !(proj2 (Z.leb_le _ _)); [lia..|]. Qed.
Lemma akey_layer_bad i : ¬ layer_ok i → akey_layer i = Raise ValueError.
Proof.
  rw /layer_ok /akey_layer. intros. destruct ((0 <=? i) && (i <=? _MAX_LAYER)) eqn:E; [|done].
  apply andb_prop in E. lia.
Qed.
Lemma akey_meta_layer_bad i : ¬ layer_ok i → akey_meta_layer i = Raise ValueError.
Proof.
  rw /layer_ok /akey_meta_layer. intros. destruct ((0 <=? i) && (i <=? _MAX_LAYER)) eqn:E; [|done].
  apply andb_prop in E. lia.
Qed.

Lemma dec3_inj i j : layer_ok i → layer_ok j → dec3 i = dec3 j → i = j.
Proof.
  rw /layer_ok /_MAX_LAYER /dec3. intros Hi Hj [= H1 H2 H3].
  apply (f_equal byte_to_Z) in H1, H2, H3. rw !byte_to_of_Z in H1, H2, H3.
  revert H1 H2 H3. div_lia.
Qed.

Lemma dec3_nonempty i : dec3 i ≠ [].
Proof. done. Qed.

Lemma pack_meta_ok mt pl st : header_args mt pl st → pack_meta mt pl st = Ok (header_body mt pl st).
Proof. apply pack_fixed_meta_ok. Qed.

Lemma parse_meta_body mt pl : header_args mt pl STATE_COMMITTED →
  parse_meta (header_body mt pl STATE_COMMITTED) true = Ok (mkHeader STATE_COMMITTED mt pl).
Proof.
  intros Ha. rw /parse_meta -(app_nil_r (header_body _ _ _)) parse_header_body //.
Qed.

(** ** Properties *)

(** The metadata akey holds exactly the v2 header page without its zero
    fill: the page starts with it, its length is what [meta_len_for] says, and
    both are read back to the same header. *)
Theorem v3_meta_is_unpadded_v2_header mt pl st buf rc :
  pack_meta mt pl st = Ok buf →
  len buf = meta_len_for mt ∧
  (∃ page fill, pack_header mt pl st = Ok page ∧ page = buf ++ zeros fill ∧
     parse_meta buf rc = parse_header page rc) ∧
  parse_meta buf rc =
    if rc && (st =? STATE_WRITING) then Raise (BadHeader NotCommitted)
    else Ok (mkHeader st mt pl).
Proof.
  intros [Ha ->]%pack_fixed_meta_inv.
  assert (∀ rest, parse_header (header_body mt pl st ++ rest) rc =
    if rc && (st =? STATE_WRITING) then Raise (BadHeader NotCommitted)
    else Ok (mkHeader st mt pl)) as Hp.
  { intros rest. rw parse_header_body //. destruct Ha as (_ & _ & [-> | ->]); done. }
  pose proof (Hp []) as Hp0. rw app_nil_r in Hp0.
  split; [by rw len_header_body|]. split; [|by apply Hp0]. eexists _, (4060 - length mt)%nat. rw pack_header_ok //.
  split; [done|]. split; [done|]. by rw /parse_meta Hp0 Hp.
Qed.

Lemma v3_meta_is_unpadded_v2_header_witness : ∃ buf,
  pack_meta (encode "kv") 3 STATE_COMMITTED = Ok buf ∧
  parse_meta buf true = Ok (mkHeader STATE_COMMITTED (encode "kv") 3).
Proof.
  eexists. split; [vm_compute; reflexivity|].
  eapply (v3_meta_is_unpadded_v2_header (encode "kv") 3 STATE_COMMITTED _ true).
  vm_compute. reflexivity.
Defined.

(** the akeys under one dkey never collide: layer names are pairwise
    distinct, a payload akey is never a metadata akey, and neither is one of
    the whole-chunk akeys; a layer outside 0..999 is refused. *)
Theorem akeys_distinct i j :
  (layer_ok i → layer_ok j →
     (akey_layer i = akey_layer j → i = j) ∧
     (akey_meta_layer i = akey_meta_layer j → i = j) ∧
     akey_layer i ≠ akey_meta_layer j ∧
     akey_layer i ≠ Ok AKEY_PAYLOAD ∧ akey_layer i ≠ Ok AKEY_META ∧
     akey_meta_layer i ≠ Ok AKEY_PAYLOAD ∧ akey_meta_layer i ≠ Ok AKEY_META) ∧
  (¬ layer_ok i → akey_layer i = Raise ValueError ∧ akey_meta_layer i = Raise ValueError).
Proof.
  split; [|by split; [apply akey_layer_bad|apply akey_meta_layer_bad]].
  intros Hi Hj. rw !akey_layer_ok // !akey_meta_layer_ok //.
  split_and!; try done; intros [= H1 H2 H3]; apply dec3_inj; try done; by rw /dec3 H1 H2 H3.
Qed.

(** for up to 1000 layers the payload and metadata akey tuples list one
    distinct akey per layer in layer order; one layer more is refused with
    ValueError rather than colliding. *)
Theorem layer_akeys_complete n :
  (0 < n ≤ 1000 →
     payload_akeys n = Ok ((λ i, encode "L" ++ dec3 i) <$> seqZ 0 n) ∧
     meta_akeys n = Ok ((λ i, encode "M" ++ dec3 i) <$> seqZ 0 n) ∧
     NoDup ((λ i, encode "L" ++ dec3 i) <$> seqZ 0 n)) ∧
  (1000 < n → payload_akeys n = Raise ValueError ∧ meta_akeys n = Raise ValueError) ∧
  (n ≤ 0 → payload_akeys n = Ok [AKEY_PAYLOAD] ∧ meta_akeys n = Ok [AKEY_META]).
Proof.
  rw /payload_akeys /meta_akeys. split_and!; intros Hn; destruct (Z.leb_spec n 0); try lia; try done.
  - assert (∀ i, i ∈ seqZ 0 n → layer_ok i) as Hl.
    { intros i Hi%elem_of_seqZ. rw /layer_ok /_MAX_LAYER. lia. }
    split_and!.
    + apply res_map_total, Forall_forall. intros i Hi%Hl. by apply akey_layer_ok.
    + apply res_map_total, Forall_forall. intros i Hi%Hl. by apply akey_meta_layer_ok.
    + apply NoDup_fmap_2_strong; [|apply NoDup_seqZ].
      intros i j Hi%Hl Hj%Hl [= H1 H2 H3]. apply dec3_inj; try done. by rw /dec3 H1 H2 H3.
  - assert (seqZ 0 n = seqZ 0 1000 ++ 1000 :: seqZ 1001 (n - 1001)) as ->.
    { replace n with (1000 + (n - 1000)) at 1 by lia.
      rw (seqZ_app 0 1000 (n - 1000)); [lia..|]. rw (seqZ_cons (0 + 1000)); [lia|].
      by replace (Z.pred (n - 1000)) with (n - 1001) by lia. }
    assert (∀ i, i ∈ seqZ 0 1000 → layer_ok i) as Hl.
    { intros i Hi%elem_of_seqZ. rw /layer_ok /_MAX_LAYER. lia. }
    split; eapply res_map_raise; try apply Forall_forall.
    + intros i Hi%Hl. by apply akey_layer_ok.
    + by apply akey_layer_bad; rw /layer_ok /_MAX_LAYER; lia.
    + intros i Hi%Hl. by apply akey_meta_layer_ok.
    + by apply akey_meta_layer_bad; rw /layer_ok /_MAX_LAYER; lia.
Qed.
