(* ===== verification/DfsBinding.v ===== *)
(** * The DFS binding: [dfs_binding.py]

    [DfsSys] is a thin ctypes wrapper over libdfs.  libdfs itself is outside
    the repository: it is the class [LibDfs] of C entry points over an abstract
    world, and what the code relies on is the class [LibDfsLaws], stated on a
    ghost view of that world (the files, the open handles, and whether the
    backend answers at all).  The methods of [DfsSys] are defined on any
    [LibDfs]; their specifications, proved here from the laws, are what the
    connector, the MP adapter and the GDS backend build on.  [MemDfs] is a
    concrete instance that satisfies the laws. *)
From S2P Require Import Prelude.
Open Scope Z_scope.
Open Scope py_scope.

(** ** Constants *)
Definition DFS_RDONLY : Z := 0.
Definition DFS_RDWR : Z := 2.
Definition O_CREAT : Z := 64.
Definition _S_IFREG : Z := 32768.
Definition OC_SX : Z := Z.lor (Z.shiftl 1 24) 0xFFFF.

(** [write(2)] at an offset: a gap is filled with zeros, an empty write does
    nothing. *)
Definition write_at (c : bytes) (off : Z) (d : bytes) : bytes :=
  match d with
  | [] => c
  | _ => let o := Z.to_nat off in
         take o (c ++ zeros (o - length c)) ++ d ++ drop (o + length d) c
  end.

(** ** libdfs *)
Class LibDfs (W : Type) := {
  dfs_sys_open : string → Z → Z → Z → W → Z * Z * W;   (* path mode flags cid: rc, handle *)
  dfs_sys_close : Z → W → Z * W;
  dfs_sys_read : Z → Z → Z → W → Z * bytes * W;         (* obj off size: rc, bytes produced *)
  dfs_sys_write : Z → Z → bytes → W → Z * Z * W;        (* obj off data: rc, size written *)
  dfs_sys_stat : string → W → Z * Z * W;                (* path: rc, st_size *)
  dfs_sys_mkdir_p : string → W → Z * W;
  dfs_sys_remove_type : string → W → Z * W;
  dfs_sys_opendir : string → W → Z * Z * W;
  dfs_sys_readdir : Z → W → Z * option string * W;      (* None: the NULL entry *)
  dfs_sys_closedir : Z → W → Z * W;
  dfs_lookup : string → Z → W → Z * Z * W;
  dfs_release : Z → W → Z * W;
  dfs_move : Z → string → Z → string → W → Z * W;
}.

(** ** [DfsSys] *)
Section DfsSys.
Context {W : Type} `{LibDfs W}.

(** [rc != 0] raises [DaosError(func, rc)]. *)
Definition checked {A} (r : Z * A * W) : res A * W :=
  let '(rc, a, w) := r in
  if negb (rc =? 0) then (Raise (DaosError rc), w) else (Ok a, w).

Definition _open (path : string) (flags : Z) (create : bool) (cid : Z) : M W Z := λ w,
  let mode := if create then Z.lor _S_IFREG 420 else 0 in
  checked (dfs_sys_open path mode flags cid w).

Definition open_rdwr_create (path : string) (oclass : Z) : M W Z :=
  _open path (Z.lor DFS_RDWR O_CREAT) true oclass.
Definition open_rdonly (path : string) : M W Z := _open path DFS_RDONLY false 0.

Definition close_obj (obj : Z) : W → W := λ w, snd (dfs_sys_close obj w).

Definition write_obj_from (obj offset : Z) (src : bytes) : M W Z := λ w,
  checked (dfs_sys_write obj offset src w).

(** [write(path, data)] *)
Definition write (path : string) (data : bytes) : M W unit :=
  let! obj := _open path (Z.lor DFS_RDWR O_CREAT) true 0 in
  try_finally
    (let! _ := write_obj_from obj 0 data in ret tt)
    (close_obj obj).

(** [read_obj] returns [buf.raw[:size.value]]. *)
Definition read_obj (obj offset length : Z) : M W bytes := λ w,
  checked (dfs_sys_read obj offset length w).
(** [read_obj_into]: the bytes DAOS stores in the caller's buffer; their
    number is the value the method returns. *)
Definition read_obj_into (obj offset length : Z) : M W bytes := λ w,
  checked (dfs_sys_read obj offset length w).

Definition read (path : string) (offset length : Z) : M W bytes :=
  let! obj := _open path DFS_RDONLY false 0 in
  try_finally (read_obj obj offset length) (close_obj obj).

Definition exists_ (path : string) : M W bool :=
  try_except
    (let! obj := _open path DFS_RDONLY false 0 in
     λ w, (Ok true, close_obj obj w))
    (λ e, match daos_rc e with
          | Some rc => if rc =? ENOENT then Some (ret false) else None
          | None => None
          end).

Definition stat_size (path : string) : M W (option Z) := λ w,
  let '(rc, size, w') := dfs_sys_stat path w in
  if rc =? ENOENT then (Ok None, w') else
  if negb (rc =? 0) then (Raise (DaosError rc), w') else (Ok (Some size), w').

Definition mkdir_p (path : string) : M W unit := λ w,
  let '(rc, w') := dfs_sys_mkdir_p path w in
  if negb ((rc =? 0) || (rc =? EEXIST)) then (Raise (DaosError rc), w') else (Ok tt, w').

Definition remove (path : string) : M W bool := λ w,
  let '(rc, w') := dfs_sys_remove_type path w in
  if rc =? ENOENT then (Ok false, w') else
  if negb (rc =? 0) then (Raise (DaosError rc), w') else (Ok true, w').

(** [iterdir] under [listdir]: entries are collected until the directory is
    drained, [limit] is reached or an error comes; the directory handle is
    closed on every way out.  [fuel] bounds the entries returned by readdir. *)
Fixpoint listdir_loop (fuel : nat) (dirp : Z) (limit : option Z) (out : list string)
  : M W (list string) :=
  match fuel with
  | O => raise OtherError
  | S fuel => λ w,
      let '(rc, ent, w') := dfs_sys_readdir dirp w in
      if negb (rc =? 0) then (Raise (DaosError rc), w') else
      match ent with
      | None => (Ok out, w')
      | Some name =>
          if bool_decide (name = "."%string ∨ name = ".."%string)
          then listdir_loop fuel dirp limit out w'
          else
            let out := out ++ [name] in
            if match limit with Some l => l <=? len out | None => false end
            then (Ok out, w')
            else listdir_loop fuel dirp limit out w'
      end
  end.

Definition listdir (fuel : nat) (path : string) (limit : option Z) : M W (list string) := λ w,
  let '(rc, dirp, w') := dfs_sys_opendir path w in
  if negb (rc =? 0) then (Raise (DaosError rc), w') else
  try_finally (listdir_loop fuel dirp limit []) (λ w, snd (dfs_sys_closedir dirp w)) w'.

(** [lookup], [release], [move]: the v2 writer's publish step. *)
Definition lookup_ (path : string) (flags : Z) : M W Z := λ w, checked (dfs_lookup path flags w).
Definition release (obj : Z) : W → W := λ w, snd (dfs_release obj w).
Definition move (parent : Z) (name : string) (new_parent : Z) (new_name : string) : M W unit := λ w,
  let '(rc, w') := dfs_move parent name new_parent new_name w in
  if negb (rc =? 0) then (Raise (DaosError rc), w') else (Ok tt, w').

(** [list(executor.map(f, items))]: every item runs; the first exception in
    item order is raised.  The items run here in order, one after another. *)
Fixpoint pool_run {A B} (f : A → M W B) (l : list A) (w : W) : list (res B) * W :=
  match l with
  | [] => ([], w)
  | x :: l => let '(r, w1) := f x w in let '(rs, w2) := pool_run f l w1 in (r :: rs, w2)
  end.
Definition pool_map {A B} (f : A → M W B) (l : list A) : M W (list B) := λ w,
  let '(rs, w') := pool_run f l w in (res_map id rs, w').

Lemma keeps_pool_run {A B} (R : W → W → Prop) `{!PreOrder R} (f : A → M W B) l w :
  (∀ x, keeps R (f x)) → R w (snd (pool_run f l w)).
Proof.
  intros Hf. revert w. induction l as [|x l IH]; intros w; simpl; [done|].
  pose proof (Hf x w) as Hx. destruct (f x w) as [r w1]. specialize (IH w1).
  destruct (pool_run f l w1) as [rs w2]. simpl in *. by etrans.
Qed.
Lemma keeps_pool_map {A B} (R : W → W → Prop) `{!PreOrder R} (f : A → M W B) l :
  (∀ x, keeps R (f x)) → keeps R (pool_map f l).
Proof.
  intros Hf w. rw /pool_map. pose proof (keeps_pool_run R f l w Hf) as Hr.
  by destruct (pool_run f l w) as [rs w'].
Qed.

(** [warm_up_all_targets], without the clock: the result is the number of
    chunks read back complete and the object class of the probe. *)
Definition warm_up_all_targets (probe_path : string) (nchunks chunk : Z) : M W (Z * Z) :=
  let tiny := replicate 4096 (byte_of_Z 0x5a) in
  let! (oclass, h) :=
    try_except (let! h := open_rdwr_create probe_path OC_SX in ret (OC_SX, h))
      (λ e, match os_errno e with
            | Some n => if n =? EINVAL
                        then Some (let! h := open_rdwr_create probe_path 0 in ret (0, h))
                        else None
            | None => None
            end) in
  let! _ :=
    try_finally
      (let! _ := mapM (λ i, write_obj_from h (i * chunk) tiny) (seqZ 0 nchunks) in
       let src := replicate (Z.to_nat chunk) (byte_of_Z 0xa5) in
       pool_map (λ i, write_obj_from h (i * chunk) src) (seqZ 0 nchunks))
      (close_obj h) in
  let! got := pool_map (λ i,
      let! hh := open_rdonly probe_path in
      try_finally (let! d := read_obj_into hh (i * chunk) chunk in ret (len d)) (close_obj hh))
    (seqZ 0 nchunks) in
  let! _ := try_except (let! _ := remove probe_path in ret tt)
              (λ e, if is_exception e then Some (ret tt) else None) in
  ret (len (filter (λ g, g = chunk) got), oclass).
End DfsSys.

(** ** What libdfs documents

    [fs] are the files of the namespace, [hs] the open object handles, and
    [up] says that the backend answers: a call on a backend that is up fails
    only for the documented reason. *)
Class LibDfsLaws (W : Type) `{LibDfs W} := {
  fs : W → gmap string bytes;
  hs : W → gmap Z string;
  up : W → Prop;

  open_law path mode flags cid w rc h w' :
    dfs_sys_open path mode flags cid w = (rc, h, w') →
    (up w → up w') ∧
    (rc = 0 → hs w !! h = None ∧ hs w' = <[h := path]> (hs w) ∧
       ((is_Some (fs w !! path) ∧ fs w' = fs w) ∨
        (fs w !! path = None ∧ Z.land flags O_CREAT ≠ 0 ∧ fs w' = <[path := []]> (fs w)))) ∧
    (rc ≠ 0 → fs w' = fs w ∧ hs w' = hs w) ∧
    (rc = ENOENT → fs w !! path = None ∧ Z.land flags O_CREAT = 0) ∧
    (up w → rc = 0 ∨ rc = ENOENT ∨ (rc = EINVAL ∧ cid ≠ 0));
  close_law h w rc w' :
    dfs_sys_close h w = (rc, w') →
    (up w → up w') ∧ fs w' = fs w ∧ hs w' = delete h (hs w);
  read_law h off size w rc b w' p c :
    dfs_sys_read h off size w = (rc, b, w') →
    hs w !! h = Some p → fs w !! p = Some c → 0 ≤ off → 0 ≤ size →
    (up w → up w') ∧ fs w' = fs w ∧ hs w' = hs w ∧
    (rc = 0 → b = slice c off (off + size)) ∧ rc ≠ ENOENT ∧ (up w → rc = 0);
  write_law h off d w rc n w' p c :
    dfs_sys_write h off d w = (rc, n, w') →
    hs w !! h = Some p → fs w !! p = Some c → 0 ≤ off →
    (up w → up w') ∧ hs w' = hs w ∧
    (rc = 0 → n = len d ∧ fs w' = <[p := write_at c off d]> (fs w)) ∧
    (rc ≠ 0 → ∃ k, fs w' = <[p := write_at c off (take k d)]> (fs w)) ∧
    (up w → rc = 0);
  stat_law path w rc size w' :
    dfs_sys_stat path w = (rc, size, w') →
    (up w → up w') ∧ fs w' = fs w ∧ hs w' = hs w ∧
    (rc = 0 → ∃ c, fs w !! path = Some c ∧ size = len c) ∧
    (rc = ENOENT → fs w !! path = None) ∧
    (up w → rc = 0 ∨ rc = ENOENT);
  remove_law path w rc w' :
    dfs_sys_remove_type path w = (rc, w') →
    (up w → up w') ∧ hs w' = hs w ∧
    (rc = 0 → is_Some (fs w !! path) ∧ fs w' = delete path (fs w)) ∧
    (rc ≠ 0 → fs w' = fs w) ∧
    (rc = ENOENT → fs w !! path = None) ∧
    (up w → rc = 0 ∨ rc = ENOENT);
}.

(** ** Specifications of the methods *)
Lemma write_at_nil_0 d : write_at [] 0 d = d.
Proof. destruct d; [done|]. rw /write_at drop_nil app_nil_r //. Qed.

Lemma len_write_at c off d : 0 ≤ off →
  len (write_at c off d) = if bool_decide (d = []) then len c else Z.max (len c) (off + len d).
Proof.
  intros Ho. destruct d as [|b d]; [done|]. rw bool_decide_false //.
  rw /write_at /len. rw !length_app length_take !length_drop length_app /zeros length_replicate. simpl. lia.
Qed.

Lemma write_at_end c d : write_at c (len c) d = c ++ d.
Proof.
  destruct d as [|b d]; [by rw app_nil_r|]. rw /write_at len_to_nat Nat.sub_diag /zeros /=.
  rw app_nil_r take_ge // drop_ge ?app_nil_r //. simpl. lia.
Qed.

Lemma write_at_over c d : write_at c 0 d = d ++ drop (length d) c.
Proof. destruct d; [done|]. by rw /write_at take_0. Qed.

(** Two adjacent writes are one. *)
Lemma write_at_two c a d : write_at (write_at c 0 a) (len a) d = write_at c 0 (a ++ d).
Proof.
  rw !write_at_over. destruct d as [|x d]; [by rw !app_nil_r|].
  rw /write_at len_to_nat -(app_assoc a) take_app_length -(app_assoc a). f_equal. f_equal.
  rw length_app -drop_drop drop_app_length drop_drop //.
Qed.

Section Specs.
Context {W : Type} `{LibDfsLaws W}.
Implicit Types w : W.

(** Nothing observable changed, and an answering backend still answers. *)
Definition frame w w' : Prop := fs w' = fs w ∧ hs w' = hs w ∧ (up w → up w').

Lemma frame_refl w : frame w w.
Proof. done. Qed.
Lemma frame_trans w1 w2 w3 : frame w1 w2 → frame w2 w3 → frame w1 w3.
Proof. rw /frame. intros (->&->&?) (->&->&?). auto. Qed.
#[export] Instance frame_preorder : PreOrder frame.
Proof. split; [intros w; apply frame_refl|intros w1 w2 w3; apply frame_trans]. Qed.

Lemma _open_spec p flags create cid w :
  wp (_open p flags create cid) w
    (λ h w', hs w !! h = None ∧ hs w' = <[h := p]> (hs w) ∧ (up w → up w') ∧
       ((is_Some (fs w !! p) ∧ fs w' = fs w) ∨
        (fs w !! p = None ∧ Z.land flags O_CREAT ≠ 0 ∧ fs w' = <[p := []]> (fs w))))
    (λ e w', frame w w' ∧ ∃ rc, e = DaosError rc ∧
       (rc = ENOENT → fs w !! p = None ∧ Z.land flags O_CREAT = 0) ∧
       (up w → rc = ENOENT ∨ (rc = EINVAL ∧ cid ≠ 0))).
Proof.
  rw /wp /_open /checked. destruct (dfs_sys_open _ _ _ _ w) as [[rc h] w'] eqn:E.
  apply open_law in E as (Hup & Hz & Hn & Henoent & Hfail).
  destruct (Z.eqb_spec rc 0) as [->|Hrc]; simpl; [naive_solver|].
  destruct (Hn Hrc) as [Hf Hh]. split; [done|]. exists rc. naive_solver.
Qed.

Lemma open_rdonly_spec p w :
  wp (open_rdonly p) w
    (λ h w', ∃ c, fs w !! p = Some c ∧ fs w' = fs w ∧ hs w !! h = None ∧
       hs w' = <[h := p]> (hs w) ∧ (up w → up w'))
    (λ e w', frame w w' ∧ ∃ rc, e = DaosError rc ∧
       (rc = ENOENT → fs w !! p = None) ∧ (up w → rc = ENOENT)).
Proof.
  wp_use _open_spec.
  - intros h w' (Hh & Hhs & Hup & [[[c Hc] Hf]|(_ & Hbad & _)]); [|done]. eauto 10.
  - intros e w' (Hfr & rc & -> & He & Hup). naive_solver.
Qed.

Lemma open_rdwr_create_spec p cid w :
  wp (open_rdwr_create p cid) w
    (λ h w', fs w' = <[p := default [] (fs w !! p)]> (fs w) ∧ hs w !! h = None ∧
       hs w' = <[h := p]> (hs w) ∧ (up w → up w'))
    (λ e w', frame w w' ∧ ∃ rc, e = DaosError rc ∧ rc ≠ ENOENT ∧ (up w → rc = EINVAL ∧ cid ≠ 0)).
Proof.
  wp_use _open_spec.
  - intros h w' (Hh & Hhs & Hup & [[[c Hc] Hf]|(Hnone & _ & Hf)]); rw Hf; split_and!; try done.
    + rw Hc /= insert_id //.
    + by rw Hnone.
  - intros e w' (Hfr & rc & -> & He & Hup). split; [done|]. exists rc.
    assert (rc ≠ ENOENT) by (intros ->; by destruct He). naive_solver.
Qed.

Lemma read_obj_spec h off n w p c :
  hs w !! h = Some p → fs w !! p = Some c → 0 ≤ off → 0 ≤ n →
  wp (read_obj h off n) w
    (λ b w', b = slice c off (off + n) ∧ frame w w')
    (λ e w', frame w w' ∧ ¬ up w ∧ ∃ rc, e = DaosError rc ∧ rc ≠ ENOENT).
Proof.
  intros Hh Hc Ho Hn. rw /wp /read_obj /checked.
  destruct (dfs_sys_read h off n w) as [[rc b] w'] eqn:E.
  eapply read_law in E as (Hup & Hf & Hhs & Hb & Hne & Hok); try done.
  destruct (Z.eqb_spec rc 0) as [->|]; simpl; [by rw Hb|].
  split; [done|]. split; [naive_solver|]. by exists rc.
Qed.

Lemma read_obj_into_spec h off n w p c :
  hs w !! h = Some p → fs w !! p = Some c → 0 ≤ off → 0 ≤ n →
  wp (read_obj_into h off n) w
    (λ b w', b = slice c off (off + n) ∧ frame w w')
    (λ e w', frame w w' ∧ ¬ up w ∧ ∃ rc, e = DaosError rc ∧ rc ≠ ENOENT).
Proof. apply read_obj_spec. Qed.

Lemma write_obj_from_spec h off d w p c :
  hs w !! h = Some p → fs w !! p = Some c → 0 ≤ off →
  wp (write_obj_from h off d) w
    (λ n w', n = len d ∧ fs w' = <[p := write_at c off d]> (fs w) ∧
       hs w' = hs w ∧ (up w → up w'))
    (λ e w', hs w' = hs w ∧ ¬ up w ∧ (∃ rc, e = DaosError rc) ∧
       ∃ k, fs w' = <[p := write_at c off (take k d)]> (fs w)).
Proof.
  intros Hh Hc Ho. rw /wp /write_obj_from /checked.
  destruct (dfs_sys_write h off d w) as [[rc n] w'] eqn:E.
  eapply write_law in E as (Hup & Hhs & Hz & Hn & Hok); try done.
  destruct (Z.eqb_spec rc 0) as [->|]; simpl; [naive_solver|].
  split; [done|]. split; [naive_solver|]. split; [by exists rc|]. by apply Hn.
Qed.

Lemma close_obj_spec h w :
  fs (close_obj h w) = fs w ∧ hs (close_obj h w) = delete h (hs w) ∧
  (up w → up (close_obj h w)).
Proof.
  rw /close_obj. destruct (dfs_sys_close h w) as [rc w'] eqn:E.
  by apply close_law in E as (? & ? & ?).
Qed.

(** Opening and closing a fresh handle leaves the handle table as it was. *)
Lemma close_fresh h p w w' :
  hs w !! h = None → hs w' = <[h := p]> (hs w) → hs (close_obj h w') = hs w.
Proof.
  intros Hn Heq. destruct (close_obj_spec h w') as (_ & -> & _).
  by rw Heq delete_insert_id.
Qed.

Lemma stat_size_spec p w :
  wp (stat_size p) w
    (λ r w', frame w w' ∧ r = len <$> fs w !! p)
    (λ e w', frame w w' ∧ ¬ up w ∧ ∃ rc, e = DaosError rc).
Proof.
  rw /wp /stat_size. destruct (dfs_sys_stat p w) as [[rc size] w'] eqn:E.
  apply stat_law in E as (Hup & Hf & Hhs & Hz & He & Hok).
  destruct (Z.eqb_spec rc ENOENT) as [->|]; simpl; [by rw He|].
  destruct (Z.eqb_spec rc 0) as [->|]; simpl.
  - destruct Hz as (c & -> & ->); done.
  - split; [done|]. split; [naive_solver|]. by exists rc.
Qed.

Lemma remove_spec p w :
  wp (remove p) w
    (λ r w', hs w' = hs w ∧ (up w → up w') ∧ r = bool_decide (is_Some (fs w !! p)) ∧
       fs w' = delete p (fs w))
    (λ e w', frame w w' ∧ ¬ up w ∧ ∃ rc, e = DaosError rc).
Proof.
  rw /wp /remove. destruct (dfs_sys_remove_type p w) as [rc w'] eqn:E.
  apply remove_law in E as (Hup & Hhs & Hz & Hn & He & Hok).
  destruct (Z.eqb_spec rc ENOENT) as [->|]; simpl.
  { rw He //. rw (Hn ltac:(done)) delete_id // He //. }
  destruct (Z.eqb_spec rc 0) as [->|]; simpl.
  - destruct Hz as [Hs ->]; [done|]. rw bool_decide_true //.
  - split; [by rw /frame Hn|]. split; [naive_solver|]. by exists rc.
Qed.
End Specs.

(** ** An in-memory libdfs

    A concrete world: a flat namespace, a handle table, and a script of faults
    consumed one per call.  A fault fails the call with a negative DER code; a
    faulty write leaves the first [f_landed] bytes behind. *)
Module MemDfs.
Record fault := mkFault { f_rc : positive; f_landed : nat }.
Record mem := mkMem {
  m_files : gmap string bytes;
  m_handles : gmap Z string;
  m_dirs : gmap Z (list string);
  m_redundant : bool;               (* the container was created with rd_fac >= 1 *)
  m_faults : list (option fault) }.

Definition set_files (f : gmap string bytes) (w : mem) : mem :=
  mkMem f (m_handles w) (m_dirs w) (m_redundant w) (m_faults w).
Definition set_handles (h : gmap Z string) (w : mem) : mem :=
  mkMem (m_files w) h (m_dirs w) (m_redundant w) (m_faults w).
Definition set_dirs (d : gmap Z (list string)) (w : mem) : mem :=
  mkMem (m_files w) (m_handles w) d (m_redundant w) (m_faults w).
Definition pop (w : mem) : option fault * mem :=
  match m_faults w with
  | [] => (None, w)
  | f :: l => (f, mkMem (m_files w) (m_handles w) (m_dirs w) (m_redundant w) l)
  end.
Definition frc (f : fault) : Z := Zneg (f_rc f).

Definition opens (path : string) (w : mem) : Z * Z * mem :=
  let h := fresh (dom (m_handles w)) in (0, h, set_handles (<[h := path]> (m_handles w)) w).

Definition m_open (path : string) (mode flags cid : Z) (w : mem) : Z * Z * mem :=
  match pop w with
  | (Some f, w) => (frc f, 0, w)
  | (None, w) =>
      match m_files w !! path with
      | Some _ => opens path w
      | None =>
          if Z.land flags O_CREAT =? 0 then (ENOENT, 0, w)
          else if m_redundant w && (cid =? OC_SX) then (EINVAL, 0, w)
          else opens path (set_files (<[path := []]> (m_files w)) w)
      end
  end.
Definition m_close (h : Z) (w : mem) : Z * mem :=
  (0, set_handles (delete h (m_handles w)) w).
Definition m_read (h off size : Z) (w : mem) : Z * bytes * mem :=
  match pop w with
  | (Some f, w) => (frc f, [], w)
  | (None, w) =>
      match m_handles w !! h ≫= λ p, m_files w !! p with
      | Some c => (0, slice c off (off + size), w)
      | None => (9, [], w)
      end
  end.
Definition m_write (h off : Z) (d : bytes) (w : mem) : Z * Z * mem :=
  let '(f, w) := pop w in
  match m_handles w !! h with
  | Some p =>
      match m_files w !! p with
      | Some c =>
          let put d := set_files (<[p := write_at c off d]> (m_files w)) w in
          match f with
          | Some f => (frc f, 0, put (take (f_landed f) d))
          | None => (0, len d, put d)
          end
      | None => (9, 0, w)
      end
  | None => (9, 0, w)
  end.
Definition m_stat (path : string) (w : mem) : Z * Z * mem :=
  match pop w with
  | (Some f, w) => (frc f, 0, w)
  | (None, w) => match m_files w !! path with Some c => (0, len c, w) | None => (ENOENT, 0, w) end
  end.
Definition m_remove (path : string) (w : mem) : Z * mem :=
  match pop w with
  | (Some f, w) => (frc f, w)
  | (None, w) =>
      match m_files w !! path with
      | Some _ => (0, set_files (delete path (m_files w)) w)
      | None => (ENOENT, w)
      end
  end.
Definition m_opendir (path : string) (w : mem) : Z * Z * mem :=
  let d := fresh (dom (m_dirs w)) in
  (0, d, set_dirs (<[d := ["."%string; ".."%string] ++ (fst <$> map_to_list (m_files w))]> (m_dirs w)) w).
Definition m_readdir (d : Z) (w : mem) : Z * option string * mem :=
  match m_dirs w !! d with
  | Some (n :: l) => (0, Some n, set_dirs (<[d := l]> (m_dirs w)) w)
  | Some [] => (0, None, w)
  | None => (9, None, w)
  end.
Definition join (d n : string) : string := (d +:+ "/" +:+ n)%string.
Definition m_move (d : Z) (n : string) (d' : Z) (n' : string) (w : mem) : Z * mem :=
  match pop w with
  | (Some f, w) => (frc f, w)
  | (None, w) =>
      match m_handles w !! d, m_handles w !! d' with
      | Some p, Some p' =>
          match m_files w !! join p n with
          | Some c => (0, set_files (<[join p' n' := c]> (delete (join p n) (m_files w))) w)
          | None => (ENOENT, w)
          end
      | _, _ => (9, w)
      end
  end.

#[global] Instance lib : LibDfs mem := {|
  dfs_sys_open := m_open; dfs_sys_close := m_close; dfs_sys_read := m_read;
  dfs_sys_write := m_write; dfs_sys_stat := m_stat;
  dfs_sys_mkdir_p := λ _ w, (0, w); dfs_sys_remove_type := m_remove;
  dfs_sys_opendir := m_opendir; dfs_sys_readdir := m_readdir;
  dfs_sys_closedir := λ d w, (0, set_dirs (delete d (m_dirs w)) w);
  dfs_lookup := λ p _ w, opens p w;
  dfs_release := λ h w, (0, set_handles (delete h (m_handles w)) w);
  dfs_move := m_move |}.

Definition m_up (w : mem) : Prop := m_faults w = [].

Lemma pop_spec w f w' : pop w = (f, w') →
  m_files w' = m_files w ∧ m_handles w' = m_handles w ∧ m_dirs w' = m_dirs w ∧
  m_redundant w' = m_redundant w ∧ (m_up w → w' = w ∧ f = None).
Proof. rw /pop /m_up. destruct (m_faults w) eqn:E; intros [= <- <-]; simpl; naive_solver. Qed.

Lemma fresh_handle (m : gmap Z string) : m !! fresh (dom m) = None.
Proof. apply not_elem_of_dom. apply is_fresh. Qed.

#[global] Program Instance laws : LibDfsLaws mem :=
  {| fs := m_files; hs := m_handles; up := m_up |}.
Next Obligation.
  intros path mode flags cid w rc h w'. simpl. rw /m_open.
  destruct (pop w) as [f w1] eqn:E. apply pop_spec in E as (Ef & Eh & _ & Er & Eu).
  destruct f as [f|].
  { intros [= <- <- <-]. rw Ef Eh. split_and!; try done; intros Hu; by apply Eu in Hu as []. }
  rw Ef Er. destruct (m_files w !! path) as [c|] eqn:Ec.
  { intros [= <- <- <-]. simpl. rw Ef Eh. split_and!; try done.
    - intros Hu. destruct (Eu Hu) as [-> _]. exact Hu.
    - intros _. split_and!; [apply fresh_handle|done|by left; eauto].
    - by left. }
  destruct (Z.eqb_spec (Z.land flags O_CREAT) 0) as [Hz|Hz].
  { intros [= <- <- <-]. rw Ef Eh. split_and!; try done; intros Hu; [destruct (Eu Hu) as [-> _]; exact Hu|by right; left]. }
  destruct (m_redundant w && (cid =? OC_SX)) eqn:Hr.
  { intros [= <- <- <-]. rw Ef Eh. split_and!; try done; intros Hu; [destruct (Eu Hu) as [-> _]; exact Hu|].
    right; right. split; [done|]. intros ->. by rw andb_false_r in Hr. }
  intros [= <- <- <-]. simpl. rw Eh. split_and!; try done.
  - intros Hu. destruct (Eu Hu) as [-> _]. exact Hu.
  - intros _. split_and!; [apply fresh_handle|done|by right].
  - by left.
Qed.
Next Obligation. intros h w rc w'. simpl. by intros [= <- <-]. Qed.
Next Obligation.
  intros h off size w rc b w' p c. simpl. rw /m_read.
  destruct (pop w) as [f w1] eqn:E. apply pop_spec in E as (Ef & Eh & _ & Er & Eu).
  intros Hr Hp Hc. rw Ef Eh Hp /= Hc in Hr. intros _ _.
  destruct f as [f|]; injection Hr as <- <- <-; rw Ef Eh.
  - split_and!; try done; intros Hu; by apply Eu in Hu as [].
  - split_and!; try done. intros Hu. destruct (Eu Hu) as [-> _]. exact Hu.
Qed.
Next Obligation.
  intros h off d w rc n w' p c. simpl. rw /m_write.
  destruct (pop w) as [f w1] eqn:E. apply pop_spec in E as (Ef & Eh & _ & Er & Eu).
  intros Hr Hp Hc. rw Ef Eh Hp Hc in Hr. intros _.
  destruct f as [f|]; injection Hr as <- <- <-; simpl; rw ?Eh.
  - split_and!; try done; try (intros Hu; by apply Eu in Hu as []). intros _. by eexists.
  - split_and!; try done; intros Hu; destruct (Eu Hu) as [-> _]; exact Hu.
Qed.
Next Obligation.
  intros path w rc size w'. simpl. rw /m_stat.
  destruct (pop w) as [f w1] eqn:E. apply pop_spec in E as (Ef & Eh & _ & Er & Eu).
  destruct f as [f|].
  { intros [= <- <- <-]. rw Ef Eh. split_and!; try done; intros Hu; by apply Eu in Hu as []. }
  rw Ef. destruct (m_files w !! path) as [c|] eqn:Ec; intros [= <- <- <-]; rw Ef Eh.
  - split_and!; try done; [intros Hu; destruct (Eu Hu) as [-> _]; exact Hu|by eexists|by left].
  - split_and!; try done; [intros Hu; destruct (Eu Hu) as [-> _]; exact Hu|by right].
Qed.
Next Obligation.
  intros path w rc w'. simpl. rw /m_remove.
  destruct (pop w) as [f w1] eqn:E. apply pop_spec in E as (Ef & Eh & _ & Er & Eu).
  destruct f as [f|].
  { intros [= <- <-]. rw Ef Eh. split_and!; try done; intros Hu; by apply Eu in Hu as []. }
  rw Ef. destruct (m_files w !! path) as [c|] eqn:Ec; intros [= <- <-]; simpl; rw ?Ef Eh.
  - split_and!; try done; [intros Hu; destruct (Eu Hu) as [-> _]; exact Hu|..]; try (intros _; by left).
    all: intros _; by split; [eexists|].
  - split_and!; try done; [intros Hu; destruct (Eu Hu) as [-> _]; exact Hu|by right].
Qed.

(** A healthy world with the given files. *)
Definition healthy (f : gmap string bytes) : mem := mkMem f ∅ ∅ false [].
End MemDfs.

(** ** Properties of the binding *)

(** Loops whose body keeps an invariant. *)
Lemma wp_mapM_inv {S A B} (f : A → M S B) l s (I : S → Prop) (E : exn → S → Prop) :
  I s → (∀ x s, x ∈ l → I s → wp (f x) s (λ _ s', I s') E) →
  wp (mapM f l) s (λ _ s', I s') E.
Proof.
  revert s. induction l as [|x l IH]; intros s HI Hf; [done|]. simpl.
  apply wp_bind. eapply wp_mono; [apply Hf; [set_solver|done]| |done].
  intros y s1 H1. apply wp_bind. eapply wp_mono; [apply IH; [done|]| |done].
  - intros z s2 Hy H2. apply Hf; [set_solver|done].
  - intros ys s2 H2. by apply wp_ret.
Qed.

Section Binding.
Context {W : Type} `{LibDfsLaws W}.
Implicit Types w : W.

(** Item [i] takes the state from [I i] to [I (i + 1)] with a value in [P]:
    then the pool map succeeds. *)
Lemma pool_map_ok {A B} (f : A → M W B) (l : list A) w (I : nat → W → Prop) (P : B → Prop) :
  I 0%nat w →
  (∀ i x w, l !! i = Some x → I i w → wp (f x) w (λ y w', P y ∧ I (S i) w') (λ _ _, False)) →
  wp (pool_map f l) w (λ ys w', I (length l) w' ∧ length ys = length l ∧ Forall P ys) (λ _ _, False).
Proof.
  intros HI Hf.
  assert (∃ ys w', pool_run f l w = (Ok <$> ys, w') ∧ I (length l) w' ∧
    length ys = length l ∧ Forall P ys) as (ys & w' & Hr & HI' & Hl & HF).
  { revert w I HI Hf. induction l as [|x l IH]; intros w I HI Hf; simpl; [by exists [], w|].
    pose proof (Hf 0%nat x w eq_refl HI) as Hx. rw /wp in Hx.
    destruct (f x w) as [[y|e] w1]; [|done]. destruct Hx as [HP HI1].
    destruct (IH w1 (λ i, I (S i)) HI1) as (ys & w2 & Hys & HI2 & Hl & HF).
    { intros i. apply (Hf (S i)). }
    exists (y :: ys), w2. rw Hys /= Hl. split_and!; [done|done|done|by constructor]. }
  rw /wp /pool_map Hr. assert (res_map id (Ok <$> ys) = Ok ys) as ->; [|done].
  clear. induction ys as [|y ys IH]; simpl; [done|]. by rw IH.
Qed.

(** The same with the value of each item: the results are those values, in
    the order of the items. *)
Lemma pool_map_vals {A B} (f : A → M W B) (g : A → B) (l : list A) w (I : nat → W → Prop) :
  I 0%nat w →
  (∀ i x w, l !! i = Some x → I i w → wp (f x) w (λ y w', y = g x ∧ I (S i) w') (λ _ _, False)) →
  wp (pool_map f l) w (λ ys w', ys = g <$> l ∧ I (length l) w') (λ _ _, False).
Proof.
  intros HI Hf.
  assert (∃ w', pool_run f l w = (Ok <$> (g <$> l), w') ∧ I (length l) w') as (w' & Hr & HI').
  { revert w I HI Hf. induction l as [|x l IH]; intros w I HI Hf; simpl; [by exists w|].
    pose proof (Hf 0%nat x w eq_refl HI) as Hx. rw /wp in Hx.
    destruct (f x w) as [[y|e] w1]; [|done]. destruct Hx as [-> HI1].
    destruct (IH w1 (λ i, I (S i)) HI1) as (w2 & Hys & HI2); [intros i; apply (Hf (S i))|].
    exists w2. by rw Hys. }
  rw /wp /pool_map Hr. assert (res_map id (Ok <$> (g <$> l)) = Ok (g <$> l)) as ->; [|done].
  generalize (g <$> l). clear. intros ys. induction ys as [|y ys IH]; simpl; [done|]. by rw IH.
Qed.

(** [exists] answers exactly whether the file is there; the only error
    it lets through is one other than ENOENT from a backend that does not
    answer, and in every case the files and the open handles are unchanged. *)
Theorem exists_decides p w :
  wp (exists_ p) w
    (λ b w', b = bool_decide (is_Some (fs w !! p)) ∧ frame w w')
    (λ e w', frame w w' ∧ ¬ up w ∧ ∃ rc, e = DaosError rc ∧ rc ≠ ENOENT).
Proof.
  rw /exists_. apply wp_except, wp_bind. wp_use (open_rdonly_spec p w).
  - intros h w' (c & Hc & Hf & Hn & Hh & Hu).
    destruct (close_obj_spec h w') as (Hf' & _ & Hu'). rw /wp Hc bool_decide_true //.
    split; [done|]. rw /frame Hf' Hf (close_fresh h p w w') //; naive_solver.
  - intros e w' (Hfr & rc & -> & He & Hu). simpl.
    destruct (Z.eqb_spec rc ENOENT) as [->|Hne].
    + apply wp_ret. rw He // bool_decide_false //; by intros [].
    + split; [done|]. split; [naive_solver|]. by exists rc.
Qed.

(** On a backend that answers, [write] succeeds and leaves the file with
    the new bytes in front of whatever it held past them (no truncation),
    no handle open and every other file untouched; a read of that length
    then returns the bytes written. *)
Theorem write_then_read p d w :
  up w →
  wp (bind (write p d) (λ _, read p 0 (len d))) w
    (λ b w', b = d ∧ up w' ∧ hs w' = hs w ∧
       fs w' = <[p := d ++ drop (length d) (default [] (fs w !! p))]> (fs w))
    (λ _ _, False).
Proof.
  intros Hup. apply wp_bind, wp_bind. wp_use (open_rdwr_create_spec p 0 w); last first.
  { intros e w' (_ & rc & _ & _ & Hbad). naive_solver. }
  intros h w1 (Hf1 & Hn & Hh1 & Hu1). apply wp_finally, wp_bind.
  wp_use (write_obj_from_spec h 0 d w1 p); [by rw Hh1 lookup_insert_eq|by rw Hf1 lookup_insert_eq|done| |naive_solver].
  intros n w2 (_ & Hf2 & Hh2 & Hu2). apply wp_ret. rw write_at_over in Hf2.
  destruct (close_obj_spec h w2) as (Hf3 & Hh3 & Hu3).
  rw Hh2 Hh1 delete_insert_id // in Hh3.
  set (w3 := close_obj h w2) in *. rw Hf2 Hf1 insert_insert_eq in Hf3.
  apply wp_bind. wp_use (open_rdonly_spec p w3); last first.
  { intros e w' (_ & rc & -> & He & Hu). rw Hf3 lookup_insert_eq in He. naive_solver. }
  intros h' w4 (c & Hc & Hf4 & Hn' & Hh4 & Hu4). rw Hf3 lookup_insert_eq in Hc. injection Hc as <-.
  apply wp_finally. wp_use (read_obj_spec h' 0 (len d) w4 p);
    [by rw Hh4 lookup_insert_eq|by rw Hf4 Hf3 lookup_insert_eq|done|apply len_nonneg| |naive_solver].
  intros b w5 (-> & Hf5 & Hh5 & Hu5). destruct (close_obj_spec h' w5) as (Hf6 & Hh6 & Hu6).
  split; [by apply slice_app_l|]. split; [naive_solver|].
  rw Hh6 Hh5 Hh4 delete_insert_id // Hf6 Hf5 Hf4 //.
Qed.

(** Every chunk write of the warm-up keeps the probe open and only makes it
    longer. *)
Definition probing (p : string) (h : Z) (n : Z) w0 w : Prop :=
  up w ∧ hs w0 !! h = None ∧ hs w = <[h := p]> (hs w0) ∧
  ∃ c, n ≤ len c ∧ fs w = <[p := c]> (fs w0).

Lemma probing_write p h n m off d w0 w :
  probing p h n w0 w → 0 ≤ off → d ≠ [] → m ≤ n ∨ m ≤ off + len d →
  wp (write_obj_from h off d) w (λ _ w', probing p h m w0 w') (λ _ _, False).
Proof.
  intros (Hup & Hn & Hh & c & Hc & Hf) Ho Hd Hm.
  wp_use (write_obj_from_spec h off d w p c);
    [by rw Hh lookup_insert_eq|by rw Hf lookup_insert_eq|done| |naive_solver].
  intros k w' (_ & Hf' & Hh' & Hu'). rw /probing Hh' Hh. split_and!; try done; [by apply Hu'|].
  exists (write_at c off d). rw Hf' Hf insert_insert_eq len_write_at // bool_decide_false //.
  split; [|done]. lia.
Qed.

Lemma probing_open p w :
  up w →
  wp (try_except (let! h := open_rdwr_create p OC_SX in ret (OC_SX, h))
      (λ e, match os_errno e with
            | Some n => if n =? EINVAL
                        then Some (let! h := open_rdwr_create p 0 in ret (0, h))
                        else None
            | None => None
            end)) w
    (λ r w', (r.1 = OC_SX ∨ r.1 = 0) ∧ probing p r.2 0 w w') (λ _ _, False).
Proof.
  intros Hup. apply wp_except, wp_bind. wp_use (open_rdwr_create_spec p OC_SX w).
  - intros h w' (Hf & Hn & Hh & Hu). apply wp_ret. split; [by left|].
    split_and!; [auto..|]. eexists. split; [apply len_nonneg|done].
  - intros e w' ((Hff & Hfh & Hfu) & rc & -> & _ & Hrc). destruct (Hrc Hup) as [-> _]. simpl.
    apply wp_bind. wp_use (open_rdwr_create_spec p 0 w').
    + intros h w'' (Hf & Hn & Hh & Hu). apply wp_ret. split; [by right|].
      rw Hff Hfh in Hf, Hh, Hn. split_and!; [auto..|]. eexists. split; [apply len_nonneg|done].
    + intros e w'' (_ & rc & _ & _ & Hbad). naive_solver.
Qed.

Lemma probing_read p c i chunk w0 w :
  up w → hs w = hs w0 → fs w = <[p := c]> (fs w0) → 0 ≤ i → 0 < chunk → (i + 1) * chunk ≤ len c →
  wp (let! hh := open_rdonly p in
      try_finally (let! d := read_obj_into hh (i * chunk) chunk in ret (len d)) (close_obj hh)) w
    (λ y w', y = chunk ∧ up w' ∧ hs w' = hs w0 ∧ fs w' = <[p := c]> (fs w0)) (λ _ _, False).
Proof.
  intros Hup Hh Hf Hi Hc Hl. apply wp_bind. wp_use (open_rdonly_spec p w); last first.
  { intros e w' (_ & rc & _ & He & Hu). rw Hf lookup_insert_eq in He. naive_solver. }
  intros h w1 (c' & Hc' & Hf1 & Hn & Hh1 & Hu1). rw Hf lookup_insert_eq in Hc'. injection Hc' as <-.
  apply wp_finally, wp_bind. wp_use (read_obj_into_spec h (i * chunk) chunk w1 p c);
    [by rw Hh1 lookup_insert_eq|by rw Hf1 Hf lookup_insert_eq|lia|lia| |naive_solver].
  intros d w2 (-> & Hf2 & Hh2 & Hu2). apply wp_ret.
  destruct (close_obj_spec h w2) as (Hf3 & Hh3 & Hu3).
  rw Hf3 Hf2 Hf1 Hf Hh3 Hh2 Hh1 delete_insert_id // Hh.
  split_and!; [rw len_slice; lia|auto..].
Qed.

(** On a backend that answers, the warm-up completes whatever the
    container's redundancy (an EINVAL for class SX falls back to the
    container's default class), reads every probe chunk back complete, and
    removes the probe: no other file and no handle is left changed. *)
Theorem warm_up_completes p n chunk w :
  up w → 0 ≤ n → 0 < chunk →
  wp (warm_up_all_targets p n chunk) w
    (λ r w', r.1 = n ∧ (r.2 = OC_SX ∨ r.2 = 0) ∧
       up w' ∧ hs w' = hs w ∧ fs w' = delete p (fs w))
    (λ _ _, False).
Proof.
  intros Hup Hn Hc. rw /warm_up_all_targets. apply wp_bind.
  wp_use (probing_open p w Hup); [|by intros]. intros [oc h] w1 [Hoc Hpr]. simpl in Hoc, Hpr.
  apply wp_bind, wp_finally, wp_bind. eapply (wp_mono _ _ _ _ (λ _ _, False)); [|simpl|done].
  { apply (wp_mapM_inv _ _ _ (probing p h 0 w) (λ _ _, False)); [done|]. intros i w' Hi%elem_of_seqZ Hp.
    eapply (probing_write p h 0 0); [done|lia|done|by left]. }
  intros ? w2 Hp2. eapply (wp_mono _ _ _ _ (λ _ _, False)); [|simpl|done].
  { apply (pool_map_ok _ _ _ (λ i, probing p h (Z.of_nat i * chunk) w) (λ _, True)); [done|].
    intros i x w' [-> Hx]%lookup_seqZ Hp. wp_use (probing_write p h _ (Z.of_nat (S i) * chunk)); try done.
    - lia.
    - destruct (Z.to_nat chunk) eqn:E; [lia|done].
    - right. rw /len length_replicate. lia. }
  rw length_seqZ Z2Nat.id //. intros ? w3 ((Hup3 & Hnh & Hh3 & c & Hlc & Hf3) & _ & _).
  destruct (close_obj_spec h w3) as (Hf4 & Hh4 & Hu4). rw Hh3 delete_insert_id // in Hh4.
  rw Hf3 in Hf4. specialize (Hu4 Hup3). set (w4 := close_obj h w3) in *.
  apply wp_bind. eapply (wp_mono _ _ _ _ (λ _ _, False)); [|simpl|done].
  { apply (pool_map_ok _ _ _ (λ _ w', up w' ∧ hs w' = hs w ∧ fs w' = <[p := c]> (fs w)) (λ y, y = chunk)); [done|].
    intros i x w' [-> Hx]%lookup_seqZ (Hu & Hh & Hf). apply (probing_read p c); try done; nia. }
  rw length_seqZ. intros got w5 ((Hup5 & Hh5 & Hf5) & Hlen & Hall).
  apply wp_bind, wp_except, wp_bind. wp_use (remove_spec p w5); [|naive_solver].
  intros r w6 (Hh6 & Hu6 & _ & Hf6). apply wp_ret, wp_ret. simpl.
  rw Hh6 Hh5 Hf6 Hf5 delete_insert_eq. split_and!; [|done|auto..].
  assert (filter (λ g, g = chunk) got = got) as ->; [|rw /len Hlen; lia].
  clear -Hall. induction Hall as [|y l -> _ IH]; [done|]. by rw filter_cons_True // IH.
Qed.
End Binding.

(** ** Listing a directory

    [entries] is what a directory holds, [dirs] the open directory handles with
    what they have still to return. *)
Class DirLaws (W : Type) `{LibDfs W} := {
  entries : W → string → list string;
  dirs : W → gmap Z (list string);
  opendir_law p w rc d w' : dfs_sys_opendir p w = (rc, d, w') →
    (rc = 0 → dirs w !! d = None ∧ dirs w' = <[d := entries w p]> (dirs w)) ∧ (rc ≠ 0 → dirs w' = dirs w);
  readdir_law d l w rc e w' : dirs w !! d = Some l → dfs_sys_readdir d w = (rc, e, w') →
    (rc = 0 → match l with
              | [] => e = None ∧ dirs w' = dirs w
              | n :: l => e = Some n ∧ dirs w' = <[d := l]> (dirs w)
              end) ∧ (rc ≠ 0 → dirs w' = dirs w);
  closedir_law d w rc w' : dfs_sys_closedir d w = (rc, w') → dirs w' = delete d (dirs w);
}.

(** The names a listing yields: not the two dot entries, and with a limit the
    first ones (one at least, as the limit is compared after the append). *)
Definition names (l : list string) : list string := filter (λ n, ¬ (n = "."%string ∨ n = ".."%string)) l.
Definition limited (limit : option Z) (l : list string) : list string :=
  match limit with None => l | Some n => take (Z.to_nat (Z.max 1 n)) l end.

Section Listing.
Context {W : Type} `{DirLaws W}.
Implicit Types w : W.

Lemma listdir_loop_spec fuel d limit l out w :
  dirs w !! d = Some l → (length l < fuel)%nat → match limit with Some n => len out < Z.max 1 n | None => True end →
  wp (listdir_loop fuel d limit out) w
    (λ r w', r = limited limit (out ++ names l) ∧ delete d (dirs w') = delete d (dirs w))
    (λ e w', (∃ rc, e = DaosError rc) ∧ delete d (dirs w') = delete d (dirs w)).
Proof.
  revert l out w. induction fuel as [|fuel IH]; intros l out w Hd Hf Hlim; [lia|].
  rw /wp. cbn [listdir_loop]. destruct (dfs_sys_readdir d w) as [[rc e] w1] eqn:E.
  apply (readdir_law d l) in E as [Hz Hn]; [|done].
  destruct (Z.eqb_spec rc 0) as [->|Hrc]; cbn [negb]; [|split; [by eexists|by rw Hn]].
  specialize (Hz eq_refl). clear Hn. destruct l as [|n l]; destruct Hz as [-> Hw].
  - rw Hw. split; [|done]. rw /names filter_nil app_nil_r /limited. destruct limit as [m|]; [|done].
    rw take_ge //. unfold len in Hlim. lia.
  - assert (dirs w1 !! d = Some l) as Hd1 by by rw Hw lookup_insert_eq.
    assert (delete d (dirs w1) = delete d (dirs w)) as Hdel by by rw Hw delete_insert_eq.
    assert (length l < fuel)%nat as Hf1 by (simpl in Hf; lia).
    case_bool_decide as Hdot.
    + rw -Hdel. rw /names filter_cons_False; [by intros Hnn|]. apply IH; [exact Hd1|exact Hf1|exact Hlim].
    + rw /names filter_cons_True // -/(names l). replace (out ++ n :: names l) with ((out ++ [n]) ++ names l) by by rw -app_assoc.
      assert (len (out ++ [n]) = len out + 1) as Hlen by (rw /len length_app /=; lia).
      destruct limit as [m|]; [|rw -Hdel; by apply (IH l (out ++ [n]) w1)].
      destruct (Z.leb_spec m (len (out ++ [n]))).
      * split; [|exact Hdel]. rw /limited take_app_le; [unfold len in *; lia|]. rw take_ge //. unfold len in *; lia.
      * rw -Hdel. apply (IH l (out ++ [n]) w1); [done|done|lia].
Qed.

(** Listing a directory ends, with the names of its entries in order (the
    first [limit] of them) or with the DAOS error of a call, and closes the
    directory in either case; one step per entry and one for the end is fuel
    enough. *)
Theorem listdir_lists_the_directory fuel path limit w :
  (length (entries w path) < fuel)%nat →
  wp (listdir fuel path limit) w
    (λ r w', r = limited limit (names (entries w path)) ∧ dirs w' = dirs w)
    (λ e w', (∃ rc, e = DaosError rc) ∧ dirs w' = dirs w).
Proof.
  intros Hf. rw /wp /listdir. destruct (dfs_sys_opendir path w) as [[rc d] w1] eqn:E.
  apply opendir_law in E as [Hz Hn].
  destruct (Z.eqb_spec rc 0) as [->|Hrc]; cbn [negb]; [|split; [by eexists|by apply Hn]].
  destruct (Hz eq_refl) as [Hfr Hw]. clear Hz Hn.
  assert (match limit with Some n => len (@nil string) < Z.max 1 n | None => True end) as Hl.
  { destruct limit; [|done]. rw /len /=. lia. }
  assert (dirs w1 !! d = Some (entries w path)) as Hd1 by by rw Hw lookup_insert_eq.
  pose proof (listdir_loop_spec fuel d limit (entries w path) [] w1 Hd1 Hf Hl) as Hloop.
  assert (delete d (dirs w1) = dirs w) as Hdel by by rw Hw delete_insert_eq delete_id.
  rw Hdel in Hloop. rw /wp /try_finally in Hloop |- *.
  destruct (listdir_loop fuel d limit [] w1) as [r w2].
  destruct (dfs_sys_closedir d w2) as [rc2 w3] eqn:Ec. apply closedir_law in Ec. cbn [snd].
  destruct r as [names'|e]; cbn in *; rw Ec; exact Hloop.
Qed.
End Listing.

#[global] Program Instance memdfs_dirs : DirLaws MemDfs.mem := {|
  entries w _ := ["."%string; ".."%string] ++ (fst <$> map_to_list (MemDfs.m_files w)); dirs := MemDfs.m_dirs |}.
Next Obligation.
  intros p w rc d w' [= <- <- <-]. split; [|done]. intros _. split; [|done].
  apply not_elem_of_dom, is_fresh.
Qed.
Next Obligation.
  intros d l w rc e w' Hd E. change (MemDfs.m_readdir d w = (rc, e, w')) in E. unfold MemDfs.m_readdir in E.
  rw Hd in E. destruct l as [|n l]; injection E as <- <- <-; by split.
Qed.
Next Obligation. by intros d w rc w' [= <- <-]. Qed.

Lemma listdir_lists_the_directory_witness :
  wp (listdir 5 "/" (Some 1)) (MemDfs.healthy {["a"%string := encode "x"; "b"%string := encode "y"]})
    (λ r _, length r = 1%nat) (λ _ _, True).
Proof.
  eapply wp_mono; [apply (listdir_lists_the_directory 5 "/" (Some 1)
    (MemDfs.healthy {["a"%string := encode "x"; "b"%string := encode "y"]})); vm_compute; lia| |done].
  intros r w' [-> _]. vm_compute. reflexivity.
Defined.

Lemma exists_decides_witness :
  let w := MemDfs.healthy {["/a"%string := encode "x"]} in
  wp (exists_ "/a") w (λ b w', b = true ∧ frame w w') (λ _ _, False).
Proof.
  simpl. eapply wp_mono; [apply (exists_decides "/a" (MemDfs.healthy {["/a"%string := encode "x"]}))| |].
  - intros b w' [-> Hf]. split; [reflexivity|exact Hf].
  - intros e w' (_ & Hbad & _). apply Hbad. reflexivity.
Defined.

Lemma write_then_read_witness :
  wp (bind (write "/a" (encode "new")) (λ _, read "/a" 0 3))
    (MemDfs.healthy {["/a"%string := encode "older"]})
    (λ b w', b = encode "new" ∧ fs w' = {["/a"%string := encode "newer"]}) (λ _ _, False).
Proof.
  eapply wp_mono; [apply (write_then_read "/a" (encode "new")
    (MemDfs.healthy {["/a"%string := encode "older"]})); reflexivity| |done].
  intros b w' (-> & _ & _ & ->). split; reflexivity.
Defined.

Lemma warm_up_completes_witness :
  wp (warm_up_all_targets "/.daos-probe.1" 2 8) (MemDfs.mkMem ∅ ∅ ∅ true [])
    (λ r w', r.1 = 2 ∧ fs w' = ∅) (λ _ _, False).
Proof.
  eapply wp_mono; [apply (warm_up_completes "/.daos-probe.1" 2 8 (MemDfs.mkMem ∅ ∅ ∅ true []));
    [reflexivity|lia|lia]| |done].
  intros r w' (-> & _ & _ & _ & ->). split; reflexivity.
Defined.
