(* ===== verification/ObjBinding.v ===== *)
(** * The object-API binding: [obj_binding.py]

    The structure builders ([build_key], [build_iod], [build_sgl],
    [build_vectors]) are records built field by field as the code fills the
    ctypes structures; a pointer to a buffer is the buffer's contents.  libdaos
    is outside the repository: its entry points are the classes [LibDaosObj]
    (transfers) and [LibDaosConn] (handles), and what the code relies on are
    [LibDaosObjLaws] and [LibDaosConnLaws], stated on ghost views: the values by
    (dkey, akey), and the set of open handles.  [MemObj] is a concrete instance
    of both. *)
From S2P Require Import Prelude DfsBinding.
Open Scope Z_scope.
Open Scope py_scope.

Definition DAOS_IOD_SINGLE : Z := 1.
Definition DAOS_IOD_ARRAY : Z := 2.
Definition DAOS_OO_RW : Z := Z.shiftl 1 2.
Definition DAOS_PC_RO : Z := Z.shiftl 1 0.
Definition DAOS_PC_RW : Z := Z.shiftl 1 1.
Definition DAOS_COO_RO : Z := Z.shiftl 1 0.
Definition DAOS_COO_RW : Z := Z.shiftl 1 1.
Definition OC_UNKNOWN : Z := 0.
Definition DAOS_PROP_CO_LAYOUT_TYPE : Z := 0x1002.
Definition DAOS_PROP_CO_LAYOUT_POSIX : Z := 1.
Definition DER_REC2BIG : Z := -2013.
Definition ENOMEM : Z := 12.

(** ** Structures *)
Record DIov := mkIov { iov_buf : bytes; iov_buf_len : Z; iov_len : Z }.
Record DSgList := mkSgl { sg_nr : Z; sg_nr_out : Z; sg_iov : DIov }.
Record DaosRecx := mkRecx { rx_idx : Z; rx_nr : Z }.
Record DaosIod := mkIod {
  iod_name : DIov; iod_type : Z; iod_size : Z; iod_flags : Z; iod_nr : Z;
  iod_recxs : option DaosRecx }.

Definition set_iov (buf : bytes) (nbytes : Z) : DIov := mkIov buf nbytes nbytes.
Definition build_key (name : bytes) : DIov := set_iov name (len name).
Definition build_iod (akey : bytes) (nbytes : Z) (single : bool) : DaosIod :=
  let recx := mkRecx 0 nbytes in
  if single then mkIod (build_key akey) DAOS_IOD_SINGLE nbytes 0 1 None
  else mkIod (build_key akey) DAOS_IOD_ARRAY 1 0 1 (Some recx).
Definition build_sgl (buf : bytes) (nbytes : Z) : DSgList := mkSgl 1 0 (set_iov buf nbytes).

(** An item of [update] and [fetch]: (akey, buffer, nbytes). *)
Record item := mkItem { it_akey : bytes; it_buf : bytes; it_n : Z }.
#[export] Instance item_eq_dec : EqDecision item.
Proof. solve_decision. Defined.

Definition build_vectors (items : list item) (single : bool) : list DaosIod * list DSgList * Z :=
  ((λ it, build_iod (it_akey it) (it_n it) single) <$> items,
   (λ it, build_sgl (it_buf it) (it_n it)) <$> items,
   len items).

(** ** libdaos: transfers *)
Class LibDaosObj (W : Type) := {
  daos_obj_update : DIov → Z → list DaosIod → list DSgList → W → Z * W;
  daos_obj_fetch : DIov → Z → list DaosIod → list DSgList → W → Z * list DSgList * W;
  daos_obj_punch_dkeys : list DIov → W → Z * W;
  daos_obj_punch_akeys : DIov → list DIov → W → Z * W;
}.

Section Transfers.
Context {W : Type} `{LibDaosObj W}.

Definition _chk (r : Z * W) : res unit * W :=
  let '(rc, w) := r in if negb (rc =? 0) then (Raise (DaosError rc), w) else (Ok tt, w).

Definition update (dkey : bytes) (items : list item) (single : bool) : M W unit := λ w,
  let dk_iov := build_key dkey in
  let '(iods, sgls, n) := build_vectors items single in
  _chk (daos_obj_update dk_iov n iods sgls w).

(** The length [fetch] reports for one akey: [iov_len] only past the
    [sg_nr_out] gate. *)
Definition got_of (s : DSgList) : Z := if negb (sg_nr_out s =? 0) then iov_len (sg_iov s) else 0.

(** [fetch]: the lengths it returns, and the buffers as DAOS leaves them. *)
Definition fetch (dkey : bytes) (items : list item) (single : bool) : M W (list (Z * bytes)) := λ w,
  let dk_iov := build_key dkey in
  let '(iods, sgls, n) := build_vectors items single in
  let '(rc, sgls', w') := daos_obj_fetch dk_iov n iods sgls w in
  if negb (rc =? 0) then (Raise (DaosError rc), w') else
  (Ok ((λ s, (got_of s, iov_buf (sg_iov s))) <$> sgls'), w').

Definition punch (dkey : bytes) : M W unit := λ w,
  _chk (daos_obj_punch_dkeys [build_key dkey] w).

Definition punch_akeys (dkey : bytes) (akeys : list bytes) : M W unit := λ w,
  match akeys with
  | [] => (Ok tt, w)
  | _ => _chk (daos_obj_punch_akeys (build_key dkey) (build_key <$> akeys) w)
  end.
End Transfers.

(** ** What libdaos documents of transfers

    A value is a SINGLE value, written and read whole, or an ARRAY of bytes.
    [update] of an array writes the extent from 0 and keeps what lies past it. *)
Inductive dval := VSingle (b : bytes) | VArray (b : bytes).
Abbreviation kvmap := (gmap (bytes * bytes) dval).

#[export] Instance dval_eq_dec : EqDecision dval.
Proof. solve_decision. Defined.

(** A well-formed request: the iod and the sgl describe [nbytes] of one buffer. *)
Definition is_key (i : DIov) (k : bytes) : Prop := i = mkIov k (len k) (len k).
Definition describes (single : bool) (it : item) (i : DaosIod) (s : DSgList) : Prop :=
  is_key (iod_name i) (it_akey it) ∧ iod_flags i = 0 ∧ iod_nr i = 1 ∧
  (if single then iod_type i = DAOS_IOD_SINGLE ∧ iod_size i = it_n it ∧ iod_recxs i = None
   else iod_type i = DAOS_IOD_ARRAY ∧ iod_size i = 1 ∧ iod_recxs i = Some (mkRecx 0 (it_n it))) ∧
  sg_nr s = 1 ∧ sg_iov s = mkIov (it_buf it) (it_n it) (it_n it).
Definition requests (single : bool) (items : list item) (n : Z)
    (iods : list DaosIod) (sgls : list DSgList) : Prop :=
  n = len items ∧ length iods = length items ∧
  Forall2 (λ it x, describes single it x.1 x.2) items (zip iods sgls).
(** The buffers hold at least the bytes asked for, and no akey comes twice. *)
Definition valid_items (items : list item) : Prop :=
  NoDup (it_akey <$> items) ∧ Forall (λ it, 0 < it_n it ≤ len (it_buf it)) items.

Definition item_data (it : item) : bytes := slice (it_buf it) 0 (it_n it).
(** The value an akey holds after [d] is written to it. *)
Definition put_val (single : bool) (old : option dval) (d : bytes) : dval :=
  if single then VSingle d
  else VArray (write_at (match old with Some (VArray b) => b | _ => [] end) 0 d).
Definition same_kind (single : bool) (v : option dval) : bool :=
  match v with None => true | Some (VSingle _) => single | Some (VArray _) => negb single end.
Definition put_item (dk : bytes) (single : bool) (m : kvmap) (it : item) : kvmap :=
  <[(dk, it_akey it) := put_val single (m !! (dk, it_akey it)) (item_data it)]> m.
(** One item of a failed update: a SINGLE value is written whole or not at
    all, an array is left as it was or in any state. *)
Definition maybe_put (dk : bytes) (single : bool) (m m' : kvmap) (it : item) : Prop :=
  let k := (dk, it_akey it) in
  if single then m' !! k = m !! k ∨ m' !! k = Some (VSingle (item_data it))
  else m' !! k = m !! k ∨ ∃ b, m' !! k = Some (VArray b).

(** What a fetch that returned 0 left in one sgl. *)
Definition fetched (m : kvmap) (dk : bytes) (single : bool) (it : item) (s : DSgList) : Prop :=
  match m !! (dk, it_akey it) with
  | None => sg_nr_out s = 0 ∧ sg_iov s = mkIov (it_buf it) (it_n it) (it_n it)
  | Some (VSingle b) => single = true ∧ len b ≤ it_n it ∧ sg_nr_out s = 1 ∧
      sg_iov s = mkIov (b ++ drop (length b) (it_buf it)) (it_n it) (len b)
  | Some (VArray b) => single = false ∧ sg_nr_out s = 1 ∧
      let d := slice b 0 (it_n it) in
      sg_iov s = mkIov (d ++ drop (length d) (it_buf it)) (it_n it) (len d)
  end.
(** DAOS refuses a SINGLE value larger than the buffer. *)
Definition fetchable (m : kvmap) (dk : bytes) (single : bool) (it : item) : Prop :=
  same_kind single (m !! (dk, it_akey it)) = true ∧
  ∀ b, m !! (dk, it_akey it) = Some (VSingle b) → len b ≤ it_n it.

Class LibDaosObjLaws (W : Type) `{LibDaosObj W} := {
  kv : W → kvmap;
  oup : W → Prop;

  update_law single items dk dkey n iods sgls w rc w' :
    daos_obj_update dk n iods sgls w = (rc, w') →
    is_key dk dkey → requests single items n iods sgls → valid_items items →
    (oup w → oup w') ∧
    (rc = 0 → kv w' = fold_left (put_item dkey single) items (kv w)) ∧
    (rc ≠ 0 → Forall (maybe_put dkey single (kv w) (kv w')) items ∧
       ∀ k, k ∉ (λ it, (dkey, it_akey it)) <$> items → kv w' !! k = kv w !! k) ∧
    (oup w → Forall (λ it, same_kind single (kv w !! (dkey, it_akey it)) = true) items → rc = 0);
  fetch_law single items dk dkey n iods sgls w rc out w' :
    daos_obj_fetch dk n iods sgls w = (rc, out, w') →
    is_key dk dkey → requests single items n iods sgls → valid_items items →
    (oup w → oup w') ∧ kv w' = kv w ∧
    (rc = 0 → Forall2 (fetched (kv w) dkey single) items out) ∧
    (oup w → Forall (fetchable (kv w) dkey single) items → rc = 0) ∧
    (oup w → Forall (λ it, same_kind single (kv w !! (dkey, it_akey it)) = true) items →
       rc = 0 ∨ rc = DER_REC2BIG);
  punch_dkeys_law dk dkey w rc w' :
    daos_obj_punch_dkeys [dk] w = (rc, w') → is_key dk dkey →
    (oup w → oup w') ∧
    (rc = 0 → kv w' = filter (λ x, x.1.1 ≠ dkey) (kv w)) ∧
    (rc ≠ 0 → ∀ k, k.1 ≠ dkey → kv w' !! k = kv w !! k) ∧
    (oup w → rc = 0);
  punch_akeys_law dk dkey aks akeys w rc w' :
    daos_obj_punch_akeys dk aks w = (rc, w') → is_key dk dkey → Forall2 is_key aks akeys →
    (oup w → oup w') ∧
    (rc = 0 → kv w' = filter (λ x, ¬ (x.1.1 = dkey ∧ x.1.2 ∈ akeys)) (kv w)) ∧
    (rc ≠ 0 → ∀ k, ¬ (k.1 = dkey ∧ k.2 ∈ akeys) → kv w' !! k = kv w !! k) ∧
    (oup w → rc = 0);
}.

(** ** Specifications of the transfers *)
Lemma build_key_is_key k : is_key (build_key k) k.
Proof. done. Qed.
Lemma build_keys_are_keys ks : Forall2 is_key (build_key <$> ks) ks.
Proof. induction ks; constructor; done. Qed.

(** The builders describe the transfer the caller asked for. *)
Lemma build_vectors_requests items single iods sgls n :
  build_vectors items single = (iods, sgls, n) → requests single items n iods sgls.
Proof.
  intros [= <- <- <-]. rw /requests length_fmap. split_and!; try done.
  induction items as [|it items IH]; simpl; [constructor|]. constructor; [|done].
  by destruct single.
Qed.

(** What [fetch] reports for one item. *)
Definition fetch_val (m : kvmap) (dk : bytes) (it : item) : Z * bytes :=
  match m !! (dk, it_akey it) with
  | None => (0, it_buf it)
  | Some (VSingle b) => (len b, b ++ drop (length b) (it_buf it))
  | Some (VArray b) => let d := slice b 0 (it_n it) in (len d, d ++ drop (length d) (it_buf it))
  end.

Lemma fold_put_other (dk : bytes) (single : bool) (items : list item) (m : kvmap) (k : bytes * bytes) :
  k ∉ (λ it, (dk, it_akey it)) <$> items →
  fold_left (put_item dk single) items m !! k = m !! k.
Proof.
  revert m. induction items as [|it items IH]; intros m Hk; simpl; [done|].
  rw fmap_cons not_elem_of_cons in Hk. destruct Hk as [Hne Hk].
  rw IH // /put_item lookup_insert_ne //.
Qed.

Lemma fold_put_in (dk : bytes) (single : bool) (items : list item) (m : kvmap) it :
  NoDup (it_akey <$> items) → it ∈ items →
  fold_left (put_item dk single) items m !! (dk, it_akey it) =
  Some (put_val single (m !! (dk, it_akey it)) (item_data it)).
Proof.
  revert m. induction items as [|i items IH]; intros m Hnd Hin; [by apply elem_of_nil in Hin|].
  rw fmap_cons NoDup_cons in Hnd. destruct Hnd as [Hni Hnd].
  apply elem_of_cons in Hin as [->|Hin]; simpl.
  - rw fold_put_other; [|by rw /put_item lookup_insert_eq].
    intros (j & [= Heq] & Hj)%list_elem_of_fmap. apply Hni. rw Heq. by apply list_elem_of_fmap_2.
  - rw IH //. do 2 f_equal. rw /put_item lookup_insert_ne //.
    intros [= Heq]. apply Hni. rw Heq. by apply list_elem_of_fmap_2.
Qed.

Section TransferSpecs.
Context {W : Type} `{LibDaosObjLaws W}.
Implicit Types w : W.

Lemma update_spec dk items single w :
  valid_items items →
  wp (update dk items single) w
    (λ _ w', kv w' = fold_left (put_item dk single) items (kv w) ∧ (oup w → oup w'))
    (λ e w', (∃ rc, e = DaosError rc) ∧ (oup w → oup w') ∧
       Forall (maybe_put dk single (kv w) (kv w')) items ∧
       (∀ k, k ∉ (λ it, (dk, it_akey it)) <$> items → kv w' !! k = kv w !! k) ∧
       (oup w → ¬ Forall (λ it, same_kind single (kv w !! (dk, it_akey it)) = true) items)).
Proof.
  intros Hv. rw /wp /update /_chk. destruct (build_vectors items single) as [[iods sgls] n] eqn:B.
  apply build_vectors_requests in B. destruct (daos_obj_update _ n iods sgls w) as [rc w'] eqn:E.
  eapply update_law in E as (Hup & Hz & Hn & Hok); [|apply build_key_is_key|done|done].
  destruct (Z.eqb_spec rc 0) as [->|Hrc]; simpl; [naive_solver|].
  destruct (Hn Hrc). split_and!; try done; [by eexists|naive_solver].
Qed.

Lemma fetch_spec dk items single w :
  valid_items items →
  wp (fetch dk items single) w
    (λ r w', kv w' = kv w ∧ (oup w → oup w') ∧ r = fetch_val (kv w) dk <$> items ∧
       Forall (fetchable (kv w) dk single) items)
    (λ e w', kv w' = kv w ∧ (oup w → oup w') ∧ (∃ rc, e = DaosError rc) ∧
       (oup w → ¬ Forall (fetchable (kv w) dk single) items) ∧
       (oup w → Forall (λ it, same_kind single (kv w !! (dk, it_akey it)) = true) items →
         e = DaosError DER_REC2BIG)).
Proof.
  intros Hv. rw /wp /fetch. destruct (build_vectors items single) as [[iods sgls] n] eqn:B.
  apply build_vectors_requests in B. destruct (daos_obj_fetch _ n iods sgls w) as [[rc out] w'] eqn:E.
  eapply fetch_law in E as (Hup & Hkv & Hz & Hok & Hbig); [|apply build_key_is_key|done|done].
  destruct (Z.eqb_spec rc 0) as [->|Hrc]; simpl.
  - specialize (Hz eq_refl). split_and!; try done.
    + clear -Hz. induction Hz as [|it s items out Hf _ IH]; [done|]. rw !fmap_cons IH. f_equal.
      rw /fetched in Hf. rw /fetch_val /got_of.
      destruct (_ !! _) as [[b|b]|]; destruct_and!; simplify_eq/=;
        repeat match goal with E : sg_nr_out _ = _ |- _ => rw E | E : sg_iov _ = _ |- _ => rw E end; done.
    + clear -Hz. induction Hz as [|it s items out Hf _ IH]; [by constructor|]. constructor; [|done].
      rw /fetched in Hf. rw /fetchable /same_kind.
      destruct (_ !! _) as [[b|b]|]; naive_solver.
  - split_and!; try done; naive_solver.
Qed.

Lemma punch_spec dk w :
  wp (punch dk) w
    (λ _ w', kv w' = filter (λ x, x.1.1 ≠ dk) (kv w) ∧ (oup w → oup w'))
    (λ e w', (∃ rc, e = DaosError rc) ∧ ¬ oup w ∧ ∀ k, k.1 ≠ dk → kv w' !! k = kv w !! k).
Proof.
  rw /wp /punch /_chk. destruct (daos_obj_punch_dkeys _ w) as [rc w'] eqn:E.
  eapply punch_dkeys_law in E as (Hup & Hz & Hn & Hok); [|apply build_key_is_key].
  destruct (Z.eqb_spec rc 0) as [->|Hrc]; simpl; [naive_solver|].
  split_and!; [by eexists|naive_solver|by apply Hn].
Qed.

Lemma punch_akeys_spec dk akeys w :
  wp (punch_akeys dk akeys) w
    (λ _ w', kv w' = filter (λ x, ¬ (x.1.1 = dk ∧ x.1.2 ∈ akeys)) (kv w) ∧ (oup w → oup w'))
    (λ e w', (∃ rc, e = DaosError rc) ∧ ¬ oup w ∧
       ∀ k, ¬ (k.1 = dk ∧ k.2 ∈ akeys) → kv w' !! k = kv w !! k).
Proof.
  rw /wp /punch_akeys. destruct akeys as [|ak akeys].
  { rw map_filter_id //. intros k v _ [_ Hin]. by apply elem_of_nil in Hin. }
  rw /_chk. destruct (daos_obj_punch_akeys _ _ w) as [rc w'] eqn:E.
  eapply punch_akeys_law in E as (Hup & Hz & Hn & Hok);
    [|apply build_key_is_key|apply build_keys_are_keys].
  destruct (Z.eqb_spec rc 0) as [->|Hrc]; simpl; [naive_solver|].
  split_and!; [by eexists|naive_solver|by apply Hn].
Qed.
End TransferSpecs.

(** ** libdaos: handles

    A [daos_handle_t] is its cookie; 0 is the invalid handle. *)
Class LibDaosConn (W : Type) := {
  daos_init : W → Z * W;
  daos_pool_connect : bytes → option bytes → Z → W → Z * Z * W;
  daos_cont_open : Z → bytes → Z → W → Z * Z * W;
  daos_obj_generate_oid : Z → Z * Z → Z → W → Z * (Z * Z) * W;
  daos_obj_open : Z → Z * Z → Z → W → Z * Z * W;
  daos_obj_close : Z → W → Z * W;
  daos_cont_close : Z → W → Z * W;
  daos_pool_disconnect : Z → W → Z * W;
  daos_prop_alloc : Z → W → Z * W;                 (* 0: the NULL pointer *)
  daos_cont_query : Z → Z → Z → W → Z * Z * W;     (* coh prop dpe_type: rc, dpe_val *)
  daos_prop_free : Z → W → W;
}.

Definition valid (cookie : Z) : bool := negb (cookie =? 0).

(** The attributes of an [ObjSys]. *)
Record ObjSys := mkObjSys { _poh : Z; _coh : Z; _oh : Z; _is_open : bool; oid : Z * Z }.

Section Handles.
Context {W : Type} `{LibDaosConn W}.

(** A C call inside a method with local or attribute state [L]. *)
Definition ccall {L A} (f : W → Z * A * W) (set : A → L → L) : M (L * W) unit := λ s,
  let '(l, w) := s in
  let '(rc, a, w') := f w in
  let l' := set a l in
  if negb (rc =? 0) then (Raise (DaosError rc), (l', w')) else (Ok tt, (l', w')).

Definition sys_arg (sys : option string) : option bytes :=
  match sys with
  | Some s => if bool_decide (s = ""%string) then None else Some (encode s)
  | None => None
  end.

Definition close (s : ObjSys * W) : ObjSys * W :=
  let '(o, w) := s in
  let '(o, w) := if _is_open o
    then (mkObjSys (_poh o) (_coh o) (_oh o) false (oid o), snd (daos_obj_close (_oh o) w))
    else (o, w) in
  let '(o, w) := if valid (_coh o)
    then (mkObjSys (_poh o) 0 (_oh o) (_is_open o) (oid o), snd (daos_cont_close (_coh o) w))
    else (o, w) in
  if valid (_poh o)
  then (mkObjSys 0 (_coh o) (_oh o) (_is_open o) (oid o), snd (daos_pool_disconnect (_poh o) w))
  else (o, w).

(** [ObjSys.__init__], after [_load()]. *)
Definition objsys_body (pool cont : string) (sys : option string) (oid_lo oid_hi : Z)
  : M (ObjSys * W) unit :=
  let! _ := ccall (daos_pool_connect (encode pool) (sys_arg sys) DAOS_PC_RW)
    (λ h o, mkObjSys h (_coh o) (_oh o) (_is_open o) (oid o)) in
  let! _ := (λ s, ccall (daos_cont_open (_poh s.1) (encode cont) DAOS_COO_RW)
    (λ h o, mkObjSys (_poh o) h (_oh o) (_is_open o) (oid o)) s) in
  let! _ := (λ s, ccall (daos_obj_generate_oid (_coh s.1) (oid_lo, oid_hi) OC_UNKNOWN)
    (λ i o, mkObjSys (_poh o) (_coh o) (_oh o) (_is_open o) i) s) in
  let! _ := (λ s, ccall (daos_obj_open (_coh s.1) (oid s.1) DAOS_OO_RW)
    (λ h o, mkObjSys (_poh o) (_coh o) h (_is_open o) (oid o)) s) in
  λ s, (Ok tt, (mkObjSys (_poh s.1) (_coh s.1) (_oh s.1) true (oid s.1), s.2)).

Definition objsys_init (pool cont : string) (sys : option string) (oid_lo oid_hi : Z) : M W ObjSys := λ w,
  let '(rc, w) := daos_init w in
  if negb (rc =? 0) then (Raise (DaosError rc), w) else
  match objsys_body pool cont sys oid_lo oid_hi (mkObjSys 0 0 0 false (0, 0), w) with
  | (Ok _, (o, w')) => (Ok o, w')
  | (Raise e, s) => (Raise e, snd (if is_exception e then close s else s))
  end.

(** The locals of [container_layout]. *)
Record layout_locals := mkLocals { l_poh : Z; l_coh : Z; l_prop : Z; l_val : Z }.

Definition layout_body (pool cont : string) (sys : option string) : M (layout_locals * W) Z :=
  let! _ := ccall (daos_pool_connect (encode pool) (sys_arg sys) DAOS_PC_RO)
    (λ h l, mkLocals h (l_coh l) (l_prop l) (l_val l)) in
  let! _ := (λ s, ccall (daos_cont_open (l_poh s.1) (encode cont) DAOS_COO_RO)
    (λ h l, mkLocals (l_poh l) h (l_prop l) (l_val l)) s) in
  let! p := (λ s, let '(p, w) := daos_prop_alloc 1 s.2 in
    (Ok p, (mkLocals (l_poh s.1) (l_coh s.1) p (l_val s.1), w))) in
  if p =? 0 then raise (DaosError ENOMEM) else
  let! _ := (λ s, ccall (daos_cont_query (l_coh s.1) (l_prop s.1) DAOS_PROP_CO_LAYOUT_TYPE)
    (λ v l, mkLocals (l_poh l) (l_coh l) (l_prop l) v) s) in
  λ s, (Ok (l_val s.1), s).

Definition layout_cleanup (s : layout_locals * W) : layout_locals * W :=
  let '(l, w) := s in
  let w := if valid (l_prop l) then daos_prop_free (l_prop l) w else w in
  let w := if valid (l_coh l) then snd (daos_cont_close (l_coh l) w) else w in
  let w := if valid (l_poh l) then snd (daos_pool_disconnect (l_poh l) w) else w in
  (l, w).

Definition container_layout (pool cont : string) (sys : option string) : M W Z := λ w,
  let '(rc, w) := daos_init w in
  if negb (rc =? 0) then (Raise (DaosError rc), w) else
  let '(r, (_, w')) := try_finally (layout_body pool cont sys) layout_cleanup
    (mkLocals 0 0 0 0, w) in (r, w').
End Handles.

(** What libdaos documents of handles: a call that succeeds returns a fresh
    valid handle, a call that fails leaves the caller's handle at 0. *)
Inductive hkind := HPool | HCont | HObj | HProp.
#[export] Instance hkind_eq_dec : EqDecision hkind.
Proof. solve_decision. Defined.
Definition hkind_code (k : hkind) : nat :=
  match k with HPool => 0 | HCont => 1 | HObj => 2 | HProp => 3 end%nat.
Definition hkind_decode (n : nat) : option hkind :=
  match n with 0 => Some HPool | 1 => Some HCont | 2 => Some HObj | _ => Some HProp end%nat.
#[export] Instance hkind_countable : Countable hkind.
Proof. refine (inj_countable hkind_code hkind_decode _). by intros []. Defined.

Definition opens {W} (hset : W → gset (hkind * Z)) (k : hkind) (rc h : Z) (w w' : W) : Prop :=
  (rc = 0 → h ≠ 0 ∧ ((k, h) ∉ hset w) ∧ hset w' = {[(k, h)]} ∪ (hset w)) ∧
  (rc ≠ 0 → h = 0 ∧ hset w' = hset w).

Class LibDaosConnLaws (W : Type) `{LibDaosConn W} := {
  hset : W → gset (hkind * Z);
  init_law w rc w' : daos_init w = (rc, w') → hset w' = hset w;
  pool_connect_law p s f w rc h w' :
    daos_pool_connect p s f w = (rc, h, w') → opens hset HPool rc h w w';
  cont_open_law poh c f w rc h w' :
    daos_cont_open poh c f w = (rc, h, w') → opens hset HCont rc h w w';
  generate_oid_law coh i c w rc i' w' :
    daos_obj_generate_oid coh i c w = (rc, i', w') → hset w' = hset w;
  obj_open_law coh i f w rc h w' :
    daos_obj_open coh i f w = (rc, h, w') → opens hset HObj rc h w w';
  obj_close_law h w rc w' : daos_obj_close h w = (rc, w') → hset w' = hset w ∖ {[(HObj, h)]};
  cont_close_law h w rc w' : daos_cont_close h w = (rc, w') → hset w' = hset w ∖ {[(HCont, h)]};
  pool_disconnect_law h w rc w' :
    daos_pool_disconnect h w = (rc, w') → hset w' = hset w ∖ {[(HPool, h)]};
  prop_alloc_law n w p w' :
    daos_prop_alloc n w = (p, w') →
    (p ≠ 0 → ((HProp, p) ∉ hset w) ∧ hset w' = {[(HProp, p)]} ∪ hset w) ∧ (p = 0 → hset w' = hset w);
  cont_query_law c p t w rc v w' : daos_cont_query c p t w = (rc, v, w') → hset w' = hset w;
  prop_free_law p w : hset (daos_prop_free p w) = hset w ∖ {[(HProp, p)]};
}.

Section HandleSpecs.
Context {W : Type} `{LibDaosConnLaws W}.
Implicit Types w : W.

(** The handle a local or attribute of the code owns. *)
Definition own (k : hkind) (h : Z) : gset (hkind * Z) := if valid h then {[(k, h)]} else ∅.
(** Exactly the handles [x] were opened since [w0]. *)
Definition owns (x : gset (hkind * Z)) w0 w : Prop := hset w = x ∪ hset w0 ∧ x ## hset w0.

Lemma own_0 k : own k 0 = ∅.
Proof. done. Qed.
Lemma own_valid k h : h ≠ 0 → own k h = {[(k, h)]}.
Proof. intros Hh. rw /own /valid. by destruct (Z.eqb_spec h 0). Qed.

Lemma owns_opens x k rc h w0 w w' :
  owns x w0 w → opens hset k rc h w w' → owns (own k h ∪ x) w0 w'.
Proof.
  intros [Hx Hd] [Hz Hn]. destruct (decide (rc = 0)) as [E|E].
  - destruct (Hz E) as (Hh & Hni & Hs). rw own_valid // /owns Hs. set_solver.
  - destruct (Hn E) as (-> & Hs). rw own_0 /owns Hs. set_solver.
Qed.

(** Closing a handle the code owns gives it back. *)
Lemma owns_close x y w0 w w' :
  owns (y ∪ x) w0 w → y ## x → hset w' = hset w ∖ y → owns x w0 w'.
Proof. rw /owns. intros [-> Hd] Hx ->. split; set_solver. Qed.

Lemma wp_ccall {L A} (f : W → Z * A * W) (set : A → L → L) l w Q E :
  (∀ rc a w', f w = (rc, a, w') →
     if rc =? 0 then Q tt (set a l, w') else E (DaosError rc) (set a l, w')) →
  wp (ccall f set) (l, w) Q E.
Proof.
  rw /wp /ccall. intros Hf. destruct (f w) as [[rc a] w'] eqn:Ef. specialize (Hf rc a w' eq_refl).
  by destruct (rc =? 0).
Qed.

(** One handle released by a cleanup branch [if valid h: close(h)]. *)
Lemma owns_release x k h (f : W → W) w0 w :
  (∀ w, hset (f w) = hset w ∖ {[(k, h)]}) →
  owns (own k h ∪ x) w0 w → own k h ## x →
  owns x w0 (if valid h then f w else w).
Proof.
  intros Hf Ho Hd. rw /own in Ho, Hd. destruct (valid h) eqn:Hv.
  - by eapply owns_close.
  - by rw left_id_L in Ho.
Qed.
Lemma own_disjoint k k' h h' : k ≠ k' → own k h ## own k' h'.
Proof. intros Hk. rw /own. destruct (valid h), (valid h'); set_solver. Qed.

Lemma hset_obj_close h w : hset (snd (daos_obj_close h w)) = hset w ∖ {[(HObj, h)]}.
Proof. destruct (daos_obj_close h w) eqn:E. by apply obj_close_law in E. Qed.
Lemma hset_cont_close h w : hset (snd (daos_cont_close h w)) = hset w ∖ {[(HCont, h)]}.
Proof. destruct (daos_cont_close h w) eqn:E. by apply cont_close_law in E. Qed.
Lemma hset_pool_disconnect h w : hset (snd (daos_pool_disconnect h w)) = hset w ∖ {[(HPool, h)]}.
Proof. destruct (daos_pool_disconnect h w) eqn:E. by apply pool_disconnect_law in E. Qed.

(** The handles of [container_layout]'s locals, and of an [ObjSys]. *)
Definition locals_own (l : layout_locals) : gset (hkind * Z) :=
  own HProp (l_prop l) ∪ (own HCont (l_coh l) ∪ (own HPool (l_poh l) ∪ ∅)).
Definition objsys_own (o : ObjSys) : gset (hkind * Z) :=
  (if _is_open o then {[(HObj, _oh o)]} else ∅) ∪ (own HCont (_coh o) ∪ (own HPool (_poh o) ∪ ∅)).

Lemma layout_cleanup_spec l w0 w :
  owns (locals_own l) w0 w → owns ∅ w0 (snd (layout_cleanup (l, w))).
Proof.
  intros Ho. rw /layout_cleanup /=.
  apply (owns_release _ _ _ (daos_prop_free (l_prop l))) in Ho; [|apply prop_free_law|].
  2:{ rw !disjoint_union_r. split_and!; [by apply own_disjoint..|by apply disjoint_empty_r]. }
  eapply (owns_release _ _ _ (λ w, snd (daos_cont_close (l_coh l) w))) in Ho; [|apply hset_cont_close|].
  2:{ rw disjoint_union_r. split; [by apply own_disjoint|by apply disjoint_empty_r]. }
  by eapply (owns_release _ _ _ (λ w, snd (daos_pool_disconnect (l_poh l) w))) in Ho;
    [|apply hset_pool_disconnect|by apply disjoint_empty_r].
Qed.

Lemma layout_body_spec pool cont sys w :
  let I := λ s, owns (locals_own s.1) w s.2 in
  wp (layout_body pool cont sys) (mkLocals 0 0 0 0, w) (λ _ s, I s)
    (λ e s, is_daos_error e = true ∧ I s).
Proof.
  intros I. rw /layout_body. apply wp_bind, wp_ccall. intros rc h w1 Hc%pool_connect_law.
  assert (owns ∅ w w) as Ho by (rw /owns; set_solver).
  eapply owns_opens in Ho; [|exact Hc].
  assert (I (mkLocals h 0 0 0, w1)) as HI1 by (rw /I /locals_own /= !own_0 !left_id_L //).
  destruct (rc =? 0); [|done]. apply wp_bind, wp_ccall. simpl. intros rc2 h2 w2 Hc2%cont_open_law.
  eapply owns_opens in Ho; [|exact Hc2].
  assert (I (mkLocals h h2 0 0, w2)) as HI2 by (rw /I /locals_own /= !own_0 !left_id_L //).
  destruct (rc2 =? 0); [|done]. apply wp_bind. rw /wp. simpl.
  destruct (daos_prop_alloc 1 w2) as [p w3] eqn:Hp. apply prop_alloc_law in Hp as [Hnz Hz].
  assert (opens hset HProp (if p =? 0 then 1 else 0) p w2 w3) as Hp.
  { rw /opens. destruct (Z.eqb_spec p 0); naive_solver. }
  eapply owns_opens in Ho; [|exact Hp]. destruct (p =? 0); [done|].
  apply wp_bind, wp_ccall. simpl. intros rc4 v w4 Hq%cont_query_law.
  assert (I (mkLocals h h2 p v, w4)) by (rw /I /owns /= Hq; exact Ho). by destruct (rc4 =? 0).
Qed.

(** The layout probe gives back every handle it takes: whatever call
    fails (pool connect, container open, property allocation, query), and on
    success, the pool, container and property handles open afterwards are
    those open before. *)
Lemma container_layout_balanced pool cont sys w :
  wp (container_layout pool cont sys) w
    (λ _ w', hset w' = hset w) (λ e w', hset w' = hset w ∧ is_daos_error e = true).
Proof.
  rw /wp /container_layout. destruct (daos_init w) as [rc w1] eqn:Hi. apply init_law in Hi.
  destruct (negb (rc =? 0)); [done|]. rw /try_finally.
  pose proof (layout_body_spec pool cont sys w1) as Hb. rw /wp in Hb.
  destruct (layout_body _ _ _ _) as [r [l w2]].
  assert (owns ∅ w1 (snd (layout_cleanup (l, w2)))) as [Hs _].
  { apply layout_cleanup_spec. destruct r; naive_solver. }
  rw -Hi. destruct (layout_cleanup (l, w2)) as [l' w3]. simpl in Hs. rw left_id_L in Hs. destruct r; naive_solver.
Qed.

Lemma close_spec o w0 w :
  owns (objsys_own o) w0 w →
  let s := close (o, w) in
  hset s.2 = hset w0 ∧ _is_open s.1 = false ∧ valid (_coh s.1) = false ∧ valid (_poh s.1) = false.
Proof.
  intros Ho. rw /objsys_own in Ho.
  assert (owns (own HCont (_coh o) ∪ (own HPool (_poh o) ∪ ∅)) w0
    (if _is_open o then snd (daos_obj_close (_oh o) w) else w)) as Ho1.
  { destruct (_is_open o); [|by rw left_id_L in Ho].
    eapply owns_close; [exact Ho| |apply hset_obj_close].
    rw /own. destruct (valid (_coh o)), (valid (_poh o)); set_solver. }
  eapply (owns_release _ _ _ (λ w, snd (daos_cont_close (_coh o) w))) in Ho1; [|apply hset_cont_close|].
  2:{ rw disjoint_union_r. split; [by apply own_disjoint|by apply disjoint_empty_r]. }
  eapply (owns_release _ _ _ (λ w, snd (daos_pool_disconnect (_poh o) w))) in Ho1 as [Hs _];
    [|apply hset_pool_disconnect|by apply disjoint_empty_r].
  rw left_id_L in Hs. rw /close -Hs.
  destruct (_is_open o) eqn:Eo, (valid (_coh o)) eqn:Ec, (valid (_poh o)) eqn:Ep; simpl;
    rw ?Ec ?Ep /= ?Eo ?Ec ?Ep; done.
Qed.

Lemma objsys_body_spec pool cont sys lo hi w :
  wp (objsys_body pool cont sys lo hi) (mkObjSys 0 0 0 false (0, 0), w)
    (λ _ s, owns (objsys_own s.1) w s.2 ∧ _is_open s.1 = true ∧
       valid (_poh s.1) = true ∧ valid (_coh s.1) = true)
    (λ e s, is_exception e = true ∧ owns (objsys_own s.1) w s.2).
Proof.
  assert (owns ∅ w w) as Ho by (rw /owns; set_solver).
  rw /objsys_body. apply wp_bind, wp_ccall. intros rc h w1 Hc%pool_connect_law.
  eapply owns_opens in Ho; [|exact Hc].
  destruct (Z.eqb_spec rc 0) as [->|]; [|by rw /objsys_own /= own_0 !left_id_L].
  destruct Hc as [(Hh & _) _]; [done|].
  apply wp_bind, wp_ccall. simpl. intros rc2 h2 w2 Hc2%cont_open_law.
  eapply owns_opens in Ho; [|exact Hc2].
  destruct (Z.eqb_spec rc2 0) as [->|]; [|by rw /objsys_own /= left_id_L].
  destruct Hc2 as [(Hh2 & _) _]; [done|].
  apply wp_bind, wp_ccall. simpl. intros rc3 i w3 Hc3%generate_oid_law.
  assert (owns (own HCont h2 ∪ (own HPool h ∪ ∅)) w w3) as Ho3 by by rw /owns Hc3.
  destruct (rc3 =? 0); [|by rw /objsys_own /= left_id_L].
  apply wp_bind, wp_ccall. simpl. intros rc4 h4 w4 Hc4%obj_open_law.
  eapply owns_opens in Ho3; [|exact Hc4].
  destruct (Z.eqb_spec rc4 0) as [->|Hrc].
  - destruct Hc4 as [(Hh4 & _) _]; [done|]. rw /wp /= /objsys_own /= -(own_valid HObj h4) //.
    split; [done|]. rw /valid. by destruct (Z.eqb_spec h 0), (Z.eqb_spec h2 0).
  - destruct Hc4 as [_ (-> & _)]; [done|]. by rw own_0 in Ho3.
Qed.

(** Connecting to the object store is all or nothing: a constructor that
    raises has given back every handle it took, and one that returns holds an
    open object, container and pool, which [close] gives back; a second
    [close] does nothing. *)
Theorem objsys_lifecycle pool cont sys lo hi w :
  wp (objsys_init pool cont sys lo hi) w
    (λ o w', _is_open o = true ∧ valid (_poh o) = true ∧ valid (_coh o) = true ∧
       hset w ⊂ hset w' ∧
       hset (snd (close (o, w'))) = hset w ∧ close (close (o, w')) = close (o, w'))
    (λ _ w', hset w' = hset w).
Proof.
  rw /wp /objsys_init. destruct (daos_init w) as [rc w1] eqn:Hi. apply init_law in Hi.
  destruct (negb (rc =? 0)); [done|]. rw -Hi.
  pose proof (objsys_body_spec pool cont sys lo hi w1) as Hb. rw /wp in Hb.
  destruct (objsys_body _ _ _ _ _ _) as [[[]|e] [o w2]]; simpl in Hb.
  - destruct Hb as (Ho & Hop & Hp & Hc).
    destruct (close_spec o w1 w2 Ho) as (Hs & H1 & H2 & H3). split_and!; try done.
    + destruct Ho as [-> Hd]. rw /objsys_own Hop in Hd |- *. set_solver.
    + destruct (close (o, w2)) as [o' w3] eqn:E. simpl in *. by rw /close H1 H2 H3.
  - destruct Hb as [-> Ho]. by destruct (close_spec o w1 w2 Ho) as (Hs & _).
Qed.
End HandleSpecs.

(** ** An in-memory libdaos

    Values, open handles, the container's layout, and a script of faults
    consumed one per transfer; a failed update leaves its first [of_landed]
    items written. *)
Module MemObj.
Record ofault := mkOFault { of_rc : positive; of_landed : nat }.
Record mem := mkMem {
  o_kv : kvmap; o_handles : gset (hkind * Z); o_layout : Z; o_faults : list (option ofault) }.

Definition set_kv (m : kvmap) (w : mem) : mem := mkMem m (o_handles w) (o_layout w) (o_faults w).
Definition set_handles (h : gset (hkind * Z)) (w : mem) : mem :=
  mkMem (o_kv w) h (o_layout w) (o_faults w).
Definition pop (w : mem) : option ofault * mem :=
  match o_faults w with
  | [] => (None, w)
  | f :: l => (f, mkMem (o_kv w) (o_handles w) (o_layout w) l)
  end.
Definition frc (f : ofault) : Z := Zneg (of_rc f).

Definition decode1 (i : DaosIod) (s : DSgList) : item :=
  mkItem (iov_buf (iod_name i)) (iov_buf (sg_iov s)) (iov_buf_len (sg_iov s)).
Definition is_single (iods : list DaosIod) : bool :=
  match iods with i :: _ => iod_type i =? DAOS_IOD_SINGLE | [] => false end.
Definition kinds_ok (m : kvmap) (dk : bytes) (single : bool) (items : list item) : bool :=
  forallb (λ it, same_kind single (m !! (dk, it_akey it))) items.
Definition sizes_ok (m : kvmap) (dk : bytes) (items : list item) : bool :=
  forallb (λ it, match m !! (dk, it_akey it) with
                 | Some (VSingle b) => len b <=? it_n it
                 | _ => true
                 end) items.
Definition fetch1 (m : kvmap) (dk : bytes) (it : item) : DSgList :=
  match m !! (dk, it_akey it) with
  | None => mkSgl 1 0 (mkIov (it_buf it) (it_n it) (it_n it))
  | Some _ => let r := fetch_val m dk it in mkSgl 1 1 (mkIov r.2 (it_n it) r.1)
  end.
Definition o_up (w : mem) : Prop := o_faults w = [].

Definition m_update (dk : DIov) (n : Z) (iods : list DaosIod) (sgls : list DSgList) (w : mem) : Z * mem :=
  let items := zip_with decode1 iods sgls in
  let put its w := set_kv (fold_left (put_item (iov_buf dk) (is_single iods)) its (o_kv w)) w in
  match pop w with
  | (Some f, w) => (frc f, put (take (of_landed f) items) w)
  | (None, w) => if kinds_ok (o_kv w) (iov_buf dk) (is_single iods) items then (0, put items w) else (-1003, w)
  end.
Definition m_fetch (dk : DIov) (n : Z) (iods : list DaosIod) (sgls : list DSgList) (w : mem)
  : Z * list DSgList * mem :=
  let items := zip_with decode1 iods sgls in
  match pop w with
  | (Some f, w) => (frc f, sgls, w)
  | (None, w) =>
      if negb (kinds_ok (o_kv w) (iov_buf dk) (is_single iods) items) then (-1003, sgls, w) else
      if sizes_ok (o_kv w) (iov_buf dk) items then (0, fetch1 (o_kv w) (iov_buf dk) <$> items, w)
      else (DER_REC2BIG, sgls, w)
  end.
Definition m_punch_dkeys (dks : list DIov) (w : mem) : Z * mem :=
  match pop w with
  | (Some f, w) => (frc f, w)
  | (None, w) => (0, set_kv (filter (λ x, x.1.1 ∉ iov_buf <$> dks) (o_kv w)) w)
  end.
Definition m_punch_akeys (dk : DIov) (aks : list DIov) (w : mem) : Z * mem :=
  match pop w with
  | (Some f, w) => (frc f, w)
  | (None, w) => (0, set_kv (filter (λ x, ¬ (x.1.1 = iov_buf dk ∧ x.1.2 ∈ iov_buf <$> aks)) (o_kv w)) w)
  end.

#[global] Instance lib : LibDaosObj mem := {|
  daos_obj_update := m_update; daos_obj_fetch := m_fetch;
  daos_obj_punch_dkeys := m_punch_dkeys; daos_obj_punch_akeys := m_punch_akeys |}.

Definition new_handle (k : hkind) (w : mem) : Z * Z * mem :=
  match pop w with
  | (Some f, w) => (frc f, 0, w)
  | (None, w) =>
      let h := fresh ({[0]} ∪ set_map snd (o_handles w) : gset Z) in
      (0, h, set_handles ({[(k, h)]} ∪ o_handles w) w)
  end.
Definition drop_handle (k : hkind) (h : Z) (w : mem) : Z * mem :=
  (0, set_handles (o_handles w ∖ {[(k, h)]}) w).

#[global] Instance conn : LibDaosConn mem := {|
  daos_init := λ w, (0, w);
  daos_pool_connect := λ _ _ _, new_handle HPool;
  daos_cont_open := λ _ _ _, new_handle HCont;
  daos_obj_generate_oid := λ _ i _ w, (0, i, w);
  daos_obj_open := λ _ _ _, new_handle HObj;
  daos_obj_close := drop_handle HObj;
  daos_cont_close := drop_handle HCont;
  daos_pool_disconnect := drop_handle HPool;
  daos_prop_alloc := λ _ w, let '(_, h, w') := new_handle HProp w in (h, w');
  daos_cont_query := λ _ _ _ w, match pop w with (Some f, w) => (frc f, 0, w) | (None, w) => (0, o_layout w, w) end;
  daos_prop_free := λ p w, snd (drop_handle HProp p w) |}.

Lemma opop_spec w f w' : pop w = (f, w') →
  o_kv w' = o_kv w ∧ o_handles w' = o_handles w ∧ (o_up w → w' = w ∧ f = None).
Proof. rw /pop /o_up. destruct (o_faults w) eqn:E; intros [= <- <-]; simpl; naive_solver. Qed.

Lemma decode_requests single items n iods sgls :
  requests single items n iods sgls →
  zip_with decode1 iods sgls = items ∧ (items ≠ [] → is_single iods = single).
Proof.
  intros (_ & Hl & HF). revert iods sgls Hl HF.
  induction items as [|it items IH]; intros [|i iods] sgls Hl HF; try done.
  destruct sgls as [|s sgls]; [by inversion HF|]. simpl in HF. apply Forall2_cons in HF as [Hd HF].
  destruct (IH iods sgls) as [IHz _]; [by injection Hl|done|].
  destruct Hd as (Hk & _ & _ & Ht & _ & Hs). split.
  - simpl. rw IHz /decode1 Hk Hs. by destruct it.
  - intros _. rw /is_single. by destruct single; destruct Ht as (Ht & _); simpl in Ht; rw Ht.
Qed.

Lemma new_handle_opens k w rc h w' : new_handle k w = (rc, h, w') → opens o_handles k rc h w w'.
Proof.
  rw /new_handle. destruct (pop w) as [f w1] eqn:E. apply opop_spec in E as (_ & Eh & _).
  destruct f as [f|]; intros [= <- <- <-]; rw /opens Eh; [done|].
  pose proof (is_fresh ({[0]} ∪ set_map snd (o_handles w) : gset Z)) as Hf.
  set (x := fresh _) in *. split; [|done]. intros _. split_and!; [set_solver| |done].
  intros Hin. apply Hf. apply elem_of_union_r, elem_of_map. by exists (k, x).
Qed.

#[global] Program Instance conn_laws : LibDaosConnLaws mem := {| hset := o_handles |}.
Next Obligation. by intros w rc w' [= <- <-]. Qed.
Next Obligation. intros p s f w rc h w'. apply new_handle_opens. Qed.
Next Obligation. intros p s f w rc h w'. apply new_handle_opens. Qed.
Next Obligation. by intros c i o w rc i' w' [= <- <- <-]. Qed.
Next Obligation. intros p s f w rc h w'. apply new_handle_opens. Qed.
Next Obligation. by intros h w rc w' [= <- <-]. Qed.
Next Obligation. by intros h w rc w' [= <- <-]. Qed.
Next Obligation. by intros h w rc w' [= <- <-]. Qed.
Next Obligation.
  intros n w p w'. simpl. destruct (new_handle HProp w) as [[rc h] w1] eqn:E. intros [= <- <-].
  apply new_handle_opens in E as [Hz Hn]. destruct (decide (rc = 0)) as [Er|Er].
  - destruct (Hz Er) as (Hh & ? & ?). naive_solver.
  - destruct (Hn Er) as [-> ?]. naive_solver.
Qed.
Next Obligation.
  intros c p t w rc v w'. simpl. destruct (pop w) as [[f|] w1] eqn:E;
    apply opop_spec in E as (_ & Eh & _); by intros [= <- <- <-].
Qed.
Next Obligation. done. Qed.

Lemma forallb_Forall {A} (f : A → bool) l : forallb f l = true ↔ Forall (λ x, f x = true) l.
Proof. rw -Is_true_true forallb_True. apply Forall_iff. intros x. by rw Is_true_true. Qed.

Lemma kinds_ok_spec m dk single items :
  kinds_ok m dk single items = true ↔ Forall (λ it, same_kind single (m !! (dk, it_akey it)) = true) items.
Proof. apply forallb_Forall. Qed.

Lemma fetchable_spec m dk single items :
  Forall (fetchable m dk single) items ↔ kinds_ok m dk single items = true ∧ sizes_ok m dk items = true.
Proof.
  rw /kinds_ok /sizes_ok !forallb_Forall -Forall_and. apply Forall_iff. intros it. rw /fetchable.
  destruct (m !! _) as [[b|b]|]; simpl; rw ?Z.leb_le; naive_solver.
Qed.

Lemma fetch1_fetched m dk single items :
  Forall (fetchable m dk single) items →
  Forall2 (fetched m dk single) items (fetch1 m dk <$> items).
Proof.
  induction 1 as [|it items Hf _ IH]; [constructor|]. constructor; [|done].
  destruct Hf as [Hk Hs]. rw /fetched /fetch1 /fetch_val.
  destruct (m !! _) as [[b|b]|]; simpl in *; [|by destruct single|done].
  split_and!; [done|by apply Hs|done|done].
Qed.

(** Only a prefix of the items landed. *)
Lemma maybe_put_prefix dk single m items k :
  NoDup (it_akey <$> items) →
  Forall (maybe_put dk single m (fold_left (put_item dk single) (take k items) m)) items.
Proof.
  intros Hnd. apply Forall_forall. intros it Hin. rw /maybe_put.
  destruct (decide (it ∈ take k items)) as [Ht|Ht].
  - rw fold_put_in //; [|by destruct single; right; eauto].
    rw fmap_take. eapply sublist_NoDup; [done|apply sublist_take].
  - rw fold_put_other; [|by destruct single; left].
    intros (j & [= Heq] & Hj)%list_elem_of_fmap. apply Ht.
    assert (it = j) as ->; [|done]. apply list_elem_of_lookup in Hin as [a Ha].
    assert (j ∈ items) as [b Hb]%list_elem_of_lookup.
    { eapply elem_of_sublist; [done|apply sublist_take]. }
    assert (a = b) as ->; [|by simplify_eq].
    eapply (NoDup_lookup (it_akey <$> items)); [done|rw list_lookup_fmap Ha //|].
    by rw list_lookup_fmap Hb /= Heq.
Qed.

#[global] Program Instance laws : LibDaosObjLaws mem := {| kv := o_kv; oup := o_up |}.
Next Obligation.
  intros single items dk dkey n iods sgls w rc w'. simpl. rw /m_update.
  intros Hm Hk Hr [Hnd _]. apply decode_requests in Hr as [Hd Hs]. rw Hd Hk /= in Hm.
  destruct (decide (items = [])) as [->|Hne].
  { clear Hs. destruct (pop w) as [[f|] w1] eqn:E; apply opop_spec in E as (Ek & Eh & Eu);
      simpl in Hm; rw ?take_nil in Hm; injection Hm as <- <-; simpl; rw Ek; (split_and!; try done);
      intros Hu; destruct (Eu Hu) as [-> ?]; done. }
  rw (Hs Hne) in Hm. destruct (pop w) as [[f|] w1] eqn:E; apply opop_spec in E as (Ek & Eh & Eu).
  - injection Hm as <- <-. simpl. rw Ek. split_and!; try done; try (intros Hu; by destruct (Eu Hu)).
    intros _. split; [by apply maybe_put_prefix|]. intros k Hni. apply fold_put_other.
    intros Hin. apply Hni. apply list_elem_of_fmap in Hin as (j & -> & Hj).
    apply (list_elem_of_fmap_2 (λ it, (dkey, it_akey it))).
    eapply elem_of_sublist; [done|apply sublist_take].
  - rw Ek in Hm. destruct (kinds_ok _ _ _ _) eqn:Ek'; injection Hm as <- <-; simpl; rw ?Ek.
    + split_and!; try done. intros Hu. by destruct (Eu Hu) as [-> _].
    + split_and!; try done.
      * intros Hu. by destruct (Eu Hu) as [-> _].
      * intros _. split; [|done]. apply Forall_forall. intros it _. rw /maybe_put. destruct single; by left.
      * intros _ HF%kinds_ok_spec. by rw HF in Ek'.
Qed.
Next Obligation.
  intros single items dk dkey n iods sgls w rc out w'. simpl. rw /m_fetch.
  intros Hm Hk Hr [Hnd _]. apply decode_requests in Hr as [Hd Hs]. rw Hd Hk /= in Hm.
  assert (kinds_ok (o_kv w) dkey (is_single iods) items = kinds_ok (o_kv w) dkey single items) as Hks.
  { destruct items; [done|]. by rw Hs. }
  rw fetchable_spec -kinds_ok_spec.
  destruct (pop w) as [[f|] w1] eqn:E; apply opop_spec in E as (Ek & Eh & Eu).
  - injection Hm as <- <- <-. rw Ek. split_and!; try done; intros Hu; by destruct (Eu Hu).
  - rw Ek Hks in Hm. assert (o_up w → o_up w1) as Hup by (intros Hu; by destruct (Eu Hu) as [-> _]).
    assert (kinds_ok (o_kv w) dkey single items = true → sizes_ok (o_kv w) dkey items = true →
      Forall2 (fetched (o_kv w) dkey single) items (fetch1 (o_kv w) dkey <$> items)) as HF.
    { intros. by apply fetch1_fetched, fetchable_spec. }
    clear Hks. revert Hm HF. destruct (kinds_ok _ _ _ _); simpl;
      [destruct (sizes_ok _ _ _)|]; intros [= <- <- <-] HF; rw ?Ek; split_and!; naive_solver.
Qed.
Next Obligation.
  intros dk dkey w rc w'. simpl. rw /m_punch_dkeys. intros Hm Hk.
  destruct (pop w) as [[f|] w1] eqn:E; apply opop_spec in E as (Ek & Eh & Eu); injection Hm as <- <-; simpl;
    rw ?Ek; split_and!; try done; try (intros Hu; destruct (Eu Hu) as [-> ?]; done).
  intros _. apply map_filter_ext. intros k v _. rw Hk /=. set_solver.
Qed.
Next Obligation.
  intros dk dkey aks akeys w rc w'. simpl. rw /m_punch_akeys. intros Hm Hk Hks.
  assert (iov_buf <$> aks = akeys) as Ha.
  { clear -Hks. induction Hks as [|i k aks akeys Hk _ IH]; [done|]. by rw fmap_cons IH Hk. }
  rw Hk /= Ha in Hm.
  destruct (pop w) as [[f|] w1] eqn:E; apply opop_spec in E as (Ek & Eh & Eu); injection Hm as <- <-; simpl;
    rw ?Ek; split_and!; try done; intros Hu; destruct (Eu Hu) as [-> ?]; done.
Qed.

Definition healthy (m : kvmap) : mem := mkMem m ∅ 0 [].
End MemObj.

(** ** Properties of the transfers *)
Definition val_bytes (v : dval) : bytes := match v with VSingle b | VArray b => b end.

(** What the caller of [fetch] learns of one akey. *)
Definition fetch_answer (m : kvmap) (dk : bytes) (it : item) (g : Z * bytes) : Prop :=
  len g.2 = len (it_buf it) ∧
  match m !! (dk, it_akey it) with
  | None => g.1 = 0
  | Some v => g.1 = Z.min (it_n it) (len (val_bytes v)) ∧ slice g.2 0 g.1 = slice (val_bytes v) 0 g.1
  end.

Lemma fetch_val_answer m dk single it :
  0 < it_n it ≤ len (it_buf it) → fetchable m dk single it → fetch_answer m dk it (fetch_val m dk it).
Proof.
  intros Hn [_ Hs]. rw /fetch_answer /fetch_val.
  destruct (m !! _) as [[b|b]|] eqn:E; simpl; [| |done].
  - specialize (Hs b eq_refl). rw !slice_app_l // slice_full //.
    split; [solve_len|]. split; [lia|done].
  - set (d := slice b 0 (it_n it)). pose proof (len_nonneg b).
    assert (len d = Z.min (it_n it) (len b)) as Hd by (rw len_slice; lia).
    rw !slice_app_l // Hd. split; [solve_len|]. split; [done|].
    rw /d /slice !drop_0 !Z.sub_0_r. destruct (Z.min_spec (it_n it) (len b)) as [[? ->]|[? ->]]; [done|].
    rw len_to_nat take_ge; [|by rw firstn_all]. rw /len in H0. lia.
Qed.

(** A fetch that succeeds tells the truth about every akey it asked for:
    an absent akey reports 0 bytes (although DAOS leaves the request size in
    [iov_len]), a present one the number of stored bytes the buffer could take,
    which are the first bytes of the buffer; no buffer changes its length and
    the store is not touched.  It fails only if the backend does not answer or
    a SINGLE value is larger than its buffer. *)
Theorem fetch_tells_the_truth {W : Type} `{LibDaosObjLaws W} dk items single (w : W) :
  valid_items items →
  wp (fetch dk items single) w
    (λ r w', kv w' = kv w ∧ Forall2 (fetch_answer (kv w) dk) items r)
    (λ e w', kv w' = kv w ∧ (∃ rc, e = DaosError rc) ∧
       (oup w → ¬ Forall (fetchable (kv w) dk single) items)).
Proof.
  intros Hv. eapply wp_mono; [by apply fetch_spec|simpl|naive_solver].
  intros r w' (Hkv & _ & -> & HF). split; [done|]. destruct Hv as [_ Hn].
  apply Forall2_fmap_r. induction Hn as [|it items Hi Hn IH]; [constructor|].
  apply Forall_cons in HF as [Hf HF]. constructor; [by eapply fetch_val_answer|by apply IH].
Qed.

Lemma fetch_tells_the_truth_witness :
  let items := [mkItem (encode "M") (zeros 8) 8; mkItem (encode "absent") (zeros 4) 4] in
  let w := MemObj.healthy {[(encode "d", encode "M") := VSingle (encode "meta")]} in
  wp (fetch (encode "d") items true) w
    (λ r w', Forall2 (fetch_answer (kv w) (encode "d")) items r) (λ _ _, False).
Proof.
  simpl. eapply wp_mono; [apply (fetch_tells_the_truth (encode "d")
    [mkItem (encode "M") (zeros 8) 8; mkItem (encode "absent") (zeros 4) 4] true
    (MemObj.healthy {[(encode "d", encode "M") := VSingle (encode "meta")]}))| |].
  - split; [by apply (bool_decide_unpack _); vm_compute|].
    repeat constructor; simpl; vm_compute; done.
  - by intros r w' [_ HF].
  - intros e w' (_ & _ & Hbad). apply Hbad; [reflexivity|]. apply MemObj.fetchable_spec. by vm_compute.
Defined.

Lemma objsys_lifecycle_witness :
  wp (objsys_init "pool" "cont" None 1 0) (MemObj.healthy ∅)
    (λ o w', _is_open o = true ∧ hset (snd (close (o, w'))) = ∅) (λ _ w', hset w' = ∅).
Proof.
  eapply wp_mono; [apply (objsys_lifecycle "pool" "cont" None 1 0 (MemObj.healthy ∅))| |].
  - intros o w' (Ho & _ & _ & _ & Hc & _). split; [exact Ho|exact Hc].
  - intros e w' Hw. exact Hw.
Defined.
