(* ===== verification/Keys.v ===== *)
(** * Names and addresses: the key functions of [connector.py] and the path
    functions of [serde_v2.py], and the choice of the backend.

    A cache key is an LMCache object the code only duck-types; [pykey] records
    what the code reads of it. *)
From Stdlib Require Import Ascii.
From S2P Require Import Prelude Sha256 Serde SerdeV2 SerdeV3 DfsBinding ObjBinding.
Open Scope Z_scope.
Open Scope py_scope.

(** ** Keys *)
Record pykey := mkKey {
  layer_id : option Z;                   (* getattr(key, "layer_id", None) *)
  to_string : option string;             (* key.to_string(), if it has one *)
  str_key : string;                      (* str(key) *)
  mro_to_string : list (option string);  (* each later class of the MRO: its own to_string, applied *)
}.

Definition _layer_of (key : pykey) : option Z := layer_id key.

Definition own_string (key : pykey) : string := default (str_key key) (to_string key).

Fixpoint first_some {A} (l : list (option A)) : option A :=
  match l with
  | [] => None
  | Some a :: _ => Some a
  | None :: l => first_some l
  end.

Definition _chunk_str (key : pykey) : string :=
  match _layer_of key with
  | Some _ => match first_some (mro_to_string key) with Some s => s | None => own_string key end
  | None => own_string key
  end.

Definition raddr : Type := bytes * option Z.
Definition _raw_addr (key : pykey) : raddr := (dkey_for_str (_chunk_str key), _layer_of key).

Definition _akeys_for (layer : option Z) : res (bytes * bytes) :=
  match layer with
  | None => Ok (AKEY_PAYLOAD, AKEY_META)
  | Some l => let? p := akey_layer l in let? m := akey_meta_layer l in Ok (p, m)
  end.

Definition _key_to_path (key : pykey) : string :=
  ("/" +:+ hexdigest (encode (own_string key)))%string.
Definition _PING_PATH : string := "/.daos-ping".
Definition _PING_DKEY : bytes := encode "ping".

(** v1 header to v3 metadata value. *)
Definition _repack_header (header : bytes) : res bytes :=
  let ps := prefix_size in
  let? (meta_len, pl) := parse_prefix (slice header 0 ps) in
  pack_meta (slice header ps (ps + meta_len)) pl STATE_COMMITTED.

(** ** serde_v2 paths *)
Definition V2_PREFIX : string := "/v2".
Definition key_to_path (key : pykey) : string :=
  (V2_PREFIX +:+ "/" +:+ hexdigest (encode (own_string key)))%string.

(** [s.rpartition(c)], without the separator. *)
Fixpoint rpart (c : Ascii.ascii) (s : string) : option (string * string) :=
  match s with
  | EmptyString => None
  | String a s =>
      match rpart c s with
      | Some (d, n) => Some (String a d, n)
      | None => if bool_decide (a = c) then Some (EmptyString, s) else None
      end
  end.
Definition rpartition (c : Ascii.ascii) (s : string) : string * string :=
  default (EmptyString, s) (rpart c s).
Definition temp_path (final nonce : string) : string :=
  let '(d, name) := rpartition "/"%char final in
  (d +:+ "/.tmp-" +:+ name +:+ "-" +:+ nonce)%string.
Definition split_v1_blob (blob : bytes) : res (bytes * bytes) := Serde.unpack blob.

(** ** The choice of the backend *)
Definition is_space (c : Ascii.ascii) : bool :=
  let n := Ascii.nat_of_ascii c in ((9 <=? n) && (n <=? 13) || (28 <=? n) && (n <=? 32))%nat.
Fixpoint lstrip (s : string) : string :=
  match s with String c s' => if is_space c then lstrip s' else s | EmptyString => s end.
Definition rstrip (s : string) : string := String.rev (lstrip (String.rev s)).
Definition lower_char (c : Ascii.ascii) : Ascii.ascii :=
  let n := Ascii.nat_of_ascii c in if ((65 <=? n) && (n <=? 90))%nat then Ascii.ascii_of_nat (n + 32) else c.
Fixpoint lower (s : string) : string :=
  match s with String c s => String (lower_char c) (lower s) | EmptyString => EmptyString end.
(** [env] is [os.environ.get("DAOS_FORCE_LAYOUT", "")]. *)
Definition forced_layout (env : string) : string := lower (rstrip (lstrip env)).

Definition _choose_backend {W} `{LibDaosConn W} (env pool cont : string) (sysname : option string)
  : M W bool :=
  let forced := forced_layout env in
  if negb (bool_decide (forced = ""%string)) && negb (bool_decide (forced = "posix"%string ∨ forced = "raw"%string))
  then raise ValueError else
  let! probe :=
    try_except (let! l := container_layout pool cont sysname in
                ret (inl (negb (l =? DAOS_PROP_CO_LAYOUT_POSIX))))
      (λ e, if is_exception e
            then Some (if bool_decide (forced = ""%string) then raise e
                       else ret (inr (bool_decide (forced = "raw"%string))))
            else None) in
  match probe with
  | inr forced_raw => ret forced_raw
  | inl raw =>
      if negb (bool_decide (forced = ""%string)) && negb (Bool.eqb (bool_decide (forced = "raw"%string)) raw)
      then raise ValueError
      else ret raw
  end.

(** ** Lemmas *)
Lemma hexdigest_hex m : all_hex (hexdigest m) = true.
Proof. apply all_hex_string. Qed.

(** The strings without a given character. *)
Fixpoint no_char (c : Ascii.ascii) (s : string) : bool :=
  match s with EmptyString => true | String a s => negb (bool_decide (a = c)) && no_char c s end.

Lemma no_char_app c a b : no_char c (a +:+ b)%string = no_char c a && no_char c b.
Proof. induction a as [|x a IH]; simpl; [done|]. by rw IH andb_assoc. Qed.

Lemma all_hex_no_char c s : is_hex c = false → all_hex s = true → no_char c s = true.
Proof.
  intros Hc. induction s as [|a s IH]; simpl; [done|]. intros [Ha Hs]%andb_prop.
  rw IH // andb_true_r bool_decide_false //. intros ->. congruence.
Qed.

Lemma rpart_none c s : no_char c s = true → rpart c s = None.
Proof.
  induction s as [|a s IH]; [done|]. cbn. intros [Ha Hs]%andb_prop. rw IH //. by destruct (bool_decide (a = c)).
Qed.
Lemma rpart_last d s : no_char "/" s = true → rpart "/"%char (d +:+ String "/" s)%string = Some (d, s).
Proof. intros Hs. induction d as [|a d IH]; simpl; [by rw rpart_none|by rw IH]. Qed.
Lemma rpart_hex d s : all_hex s = true → rpart "/"%char (d +:+ String "/" s)%string = Some (d, s).
Proof. intros Hs. apply rpart_last. by apply all_hex_no_char. Qed.

Lemma hexdigest_cons m : ∃ c s, hexdigest m = String c s ∧ is_hex c = true.
Proof.
  pose proof (length_hexdigest m) as Hl. pose proof (hexdigest_hex m) as Hh.
  destruct (hexdigest m) as [|c s]; [done|]. simpl in Hh. apply andb_prop in Hh as [Hc _]. eauto.
Qed.

Lemma temp_of_published k nonce :
  temp_path (key_to_path k) nonce =
  ("/v2/.tmp-" +:+ hexdigest (encode (own_string k)) +:+ "-" +:+ nonce)%string.
Proof.
  rw /temp_path /key_to_path /V2_PREFIX /rpartition.
  replace ("/v2" +:+ "/" +:+ hexdigest (encode (own_string k)))%string
    with ("/v2" +:+ String "/" (hexdigest (encode (own_string k))))%string by done.
  by rw rpart_hex; [apply hexdigest_hex|].
Qed.

Lemma string_app_inj (a b c d : string) :
  String.length a = String.length b → (a +:+ c = b +:+ d)%string → a = b ∧ c = d.
Proof.
  revert b. induction a as [|x a IH]; intros [|y b] Hl Heq; simplify_eq/=; [done|].
  by destruct (IH b) as [-> ->].
Qed.

(** The names [/<hex>] and [/v2/<hex>] by their first characters. *)
Lemma v1_name_head k : ∃ c s, _key_to_path k = String "/" (String c s) ∧ is_hex c = true.
Proof. destruct (hexdigest_cons (encode (own_string k))) as (c & s & E & Hc). exists c, s. by rw /_key_to_path E. Qed.
Lemma v2_name_head k : ∃ c s, key_to_path k = ("/v2/" +:+ String c s)%string ∧ is_hex c = true.
Proof. destruct (hexdigest_cons (encode (own_string k))) as (c & s & E & Hc). exists c, s. by rw /key_to_path E. Qed.

(** ** Properties *)

(** No two name spaces meet: the ping path, the warm-up probe of any
    process and every temporary name stay outside the names of published
    objects, v1 and v2 objects have different names, and the ping dkey is no
    key's dkey.  Temporary names of different digests or nonces differ. *)
Theorem names_never_collide k k' nonce nonce' pid :
  _key_to_path k ≠ _PING_PATH ∧
  _key_to_path k ≠ ("/.daos-probe." +:+ pid)%string ∧
  key_to_path k ≠ _key_to_path k' ∧
  temp_path (key_to_path k) nonce ≠ key_to_path k' ∧
  temp_path (key_to_path k) nonce ≠ _key_to_path k' ∧
  fst (_raw_addr k) ≠ _PING_DKEY ∧
  (temp_path (key_to_path k) nonce = temp_path (key_to_path k') nonce' →
     key_to_path k = key_to_path k' ∧ nonce = nonce').
Proof.
  destruct (v1_name_head k) as (c & s & E & Hc), (v1_name_head k') as (c' & s' & E' & Hc').
  destruct (v2_name_head k') as (d & t & Ed & Hd). rw !temp_of_published E E' Ed.
  split_and!.
  - intros [= ->]. done.
  - intros [= ->]. done.
  - intros [= <-]. done.
  - intros [= <-]. done.
  - intros [= <-]. done.
  - intros Heq. apply (f_equal length) in Heq. rw /= length_sha256 in Heq. done.
  - rw -Ed. intros [= Heq]. apply (string_app_inj (hexdigest _) (hexdigest _)) in Heq as [Hh Hn].
    + rw /key_to_path Hh. by injection Hn.
    + by rw !length_hexdigest.
Qed.

(** Keys of the same chunk (same string from the parent class) share a
    dkey whatever their layers, so a batch can be folded into one transfer;
    two of them with different layers in range have four different akeys. *)
Theorem layers_of_a_chunk_share_a_dkey k1 k2 l1 l2 p1 m1 p2 m2 :
  layer_id k1 = Some l1 → layer_id k2 = Some l2 →
  first_some (mro_to_string k1) = first_some (mro_to_string k2) →
  is_Some (first_some (mro_to_string k1)) →
  _akeys_for (Some l1) = Ok (p1, m1) → _akeys_for (Some l2) = Ok (p2, m2) →
  fst (_raw_addr k1) = fst (_raw_addr k2) ∧
  (l1 ≠ l2 → NoDup [p1; m1; p2; m2]) ∧ (l1 = l2 → p1 = p2 ∧ m1 = m2).
Proof.
  intros H1 H2 Hp [s Hs] Ha1 Ha2. split.
  { rw /_raw_addr /_chunk_str /_layer_of H1 H2 -Hp Hs //. }
  split; [|intros <-; rw Ha1 in Ha2; by injection Ha2].
  intros Hne. rw /_akeys_for in Ha1, Ha2.
  destruct (decide (layer_ok l1)) as [O1|B]; [|by rw akey_layer_bad in Ha1].
  destruct (decide (layer_ok l2)) as [O2|B]; [|by rw akey_layer_bad in Ha2].
  rw akey_layer_ok // akey_meta_layer_ok // in Ha1. rw akey_layer_ok // akey_meta_layer_ok // in Ha2.
  simplify_eq/=. assert (dec3 l1 ≠ dec3 l2) as Hd by (intros ?%dec3_inj; done).
  repeat constructor; rw ?elem_of_cons ?elem_of_nil; naive_solver.
Qed.

Lemma layers_of_a_chunk_share_a_dkey_witness :
  let k l := mkKey (Some l) None "layer" [None; Some "chunk"%string] in
  fst (_raw_addr (k 0)) = fst (_raw_addr (k 7)) ∧
  NoDup [encode "L000"; encode "M000"; encode "L007"; encode "M007"].
Proof.
  destruct (layers_of_a_chunk_share_a_dkey
    (mkKey (Some 0) None "layer" [None; Some "chunk"%string])
    (mkKey (Some 7) None "layer" [None; Some "chunk"%string]) 0 7
    (encode "L000") (encode "M000") (encode "L007") (encode "M007")) as (Ha & Hb & _);
    [reflexivity|reflexivity|reflexivity|by exists "chunk"%string|reflexivity|reflexivity|].
  split; [exact Ha|by apply Hb].
Defined.

(** The backend always agrees with the container: whenever the layout can
    be read, the object API is chosen exactly for a non-POSIX container, and
    an override that says otherwise is refused with ValueError; the override
    decides only when the probe failed, and without one the probe's own error
    goes out.  No handle is left open in any case. *)
Theorem backend_agrees_with_container {W : Type} `{LibDaosConnLaws W} env pool cont sys (w : W) :
  let forced := forced_layout env in
  let probed := fst (container_layout pool cont sys w) in
  wp (_choose_backend env pool cont sys) w
    (λ raw w', hset w' = hset w ∧
       match probed with
       | Ok l => raw = negb (l =? DAOS_PROP_CO_LAYOUT_POSIX)
       | Raise _ => forced = (if raw then "raw" else "posix")%string
       end)
    (λ e w', hset w' = hset w ∧
       (((forced ∉ [""; "posix"; "raw"]%string) ∧ e = ValueError) ∨
        (∃ l, probed = Ok l ∧ e = ValueError ∧
           forced = if l =? DAOS_PROP_CO_LAYOUT_POSIX then "raw"%string else "posix"%string) ∨
        (forced = ""%string ∧ probed = Raise e))).
Proof.
  intros forced probed. rw /_choose_backend -/forced. clearbody forced.
  destruct (negb (bool_decide (forced = ""%string)) && _) eqn:Ef.
  { apply wp_raise. split; [done|]. left. split; [|done].
    repeat case_bool_decide; simplify_eq/=. set_solver. }
  assert (forced = "" ∨ forced = "posix" ∨ forced = "raw")%string as Hforced.
  { repeat case_bool_decide; naive_solver. }
  clear Ef. pose proof (container_layout_balanced pool cont sys w) as Hb. rw /wp in Hb.
  apply wp_bind, wp_except, wp_bind. rw {1}/wp. unfold probed in *.
  destruct (container_layout pool cont sys w) as [[l|e] w1]; simpl.
  - apply wp_ret. simpl.
    destruct (negb (bool_decide (forced = ""%string)) && _) eqn:Ed; [apply wp_raise|by apply wp_ret].
    split; [done|]. right; left. exists l. split_and!; [done..|].
    destruct (l =? DAOS_PROP_CO_LAYOUT_POSIX); repeat case_bool_decide; naive_solver.
  - destruct Hb as [Hb He]. assert (is_exception e = true) as -> by (by destruct e).
    case_bool_decide as E1; [apply wp_raise|apply wp_ret, wp_ret].
    + split; [done|]. right; by right.
    + split; [done|]. case_bool_decide; naive_solver.
Qed.

(** A forced layout that contradicts the container is refused. *)
Lemma backend_agrees_with_container_witness :
  wp (_choose_backend " POSIX " "pool" "cont" None) (MemObj.healthy ∅)
    (λ raw _, raw = true) (λ e w', e = ValueError ∧ hset w' = ∅).
Proof.
  eapply wp_mono; [apply (backend_agrees_with_container " POSIX " "pool" "cont" None (MemObj.healthy ∅))| |].
  - intros raw w' [_ Hr]. exact Hr.
  - intros e w' [Hw [[_ ->]|[(l & _ & -> & _)|[Hbad _]]]]; [by split..|]. discriminate Hbad.
Defined.
