(* ===== verification/ConnBase.v ===== *)
(** * What the connector builds on: LMCache's memory objects and metadata, and
    the connector's state.

    LMCache is outside the repository.  [MetaCodec] is its RemoteMetadata
    serialisation and [LocalCpu] its CPU allocator; the laws state what the
    connector relies on.  A memory object is an id; its bytes, reference count
    and tensor layout are in the allocator's state, so that two users of one
    object share it.  The state of a connector is the storage it talks to (a
    DFS namespace or an object store) and the allocator. *)
From S2P Require Import Prelude PyStruct.
Open Scope Z_scope.
Open Scope py_scope.

(** ** RemoteMetadata *)
Class LMTypes := { Shapes : Type; Dtypes : Type; Fmt : Type }.

Record RemoteMetadata `{LMTypes} := mkMeta {
  md_length : Z; md_shapes : Shapes; md_dtypes : Dtypes; md_fmt : Fmt }.
Arguments mkMeta {_} _ _ _ _.

Class MetaCodec `{LMTypes} := {
  serialize : RemoteMetadata → bytes;
  deserialize : bytes → res RemoteMetadata;
}.
Class MetaCodecLaws `{MetaCodec} := {
  meta_ok : RemoteMetadata → Prop;       (* what the codec's fields can hold *)
  deserialize_serialize m : meta_ok m → deserialize (serialize m) = Ok m;
  deserialize_raises b e : deserialize b = Raise e → is_exception e = true;
}.

(** ** Memory objects *)
Record mobj `{LMTypes} := mkMobj {
  mo_bytes : bytes; mo_refs : Z; mo_shapes : Shapes; mo_dtypes : Dtypes; mo_fmt : Fmt }.
Arguments mkMobj {_} _ _ _ _ _.

Class LocalCpu (A : Type) `{LMTypes} := {
  allocate : Shapes → Dtypes → Fmt → A → option Z * A;
  byte_array : Z → A → bytes;
  get_shapes : Z → A → Shapes;
  get_dtypes : Z → A → Dtypes;
  get_memory_format : Z → A → Fmt;
  poke : Z → bytes → A → A;              (* bytes stored at the start of the object's memory *)
  ref_count_down : Z → A → A;
}.

Class LocalCpuLaws (A : Type) `{LocalCpu A} := {
  live : A → gmap Z mobj;
  size_of : Shapes → Dtypes → Fmt → Z;   (* bytes of a tensor group *)

  allocate_law sh dt fm a r a' :
    allocate sh dt fm a = (r, a') →
    match r with
    | None => live a' = live a
    | Some m => live a !! m = None ∧ ∃ b, len b = size_of sh dt fm ∧
                live a' = <[m := mkMobj b 1 sh dt fm]> (live a)
    end;
  byte_array_law m a o : live a !! m = Some o → byte_array m a = mo_bytes o;
  layout_law m a o : live a !! m = Some o →
    get_shapes m a = mo_shapes o ∧ get_dtypes m a = mo_dtypes o ∧ get_memory_format m a = mo_fmt o;
  poke_law m d a o :
    live a !! m = Some o → len d ≤ len (mo_bytes o) →
    live (poke m d a) = <[m := mkMobj (d ++ drop (length d) (mo_bytes o)) (mo_refs o)
                                 (mo_shapes o) (mo_dtypes o) (mo_fmt o)]> (live a);
  ref_count_down_law m a o :
    live a !! m = Some o →
    live (ref_count_down m a) =
      if mo_refs o =? 1 then delete m (live a)
      else <[m := mkMobj (mo_bytes o) (mo_refs o - 1) (mo_shapes o) (mo_dtypes o) (mo_fmt o)]> (live a);
}.

(** ** The connector's state *)
Record conn (D O A : Type) := mkConn { c_dfs : D; c_obj : O; c_mem : A }.
Arguments mkConn {D O A} _ _ _.
Arguments c_dfs {D O A} _.
Arguments c_obj {D O A} _.
Arguments c_mem {D O A} _.

Section Lifts.
Context {D O A : Type}.
Implicit Types s : conn D O A.

Definition onD {X} (m : M D X) : M (conn D O A) X := λ s,
  let '(r, d) := m (c_dfs s) in (r, mkConn d (c_obj s) (c_mem s)).
Definition onO {X} (m : M O X) : M (conn D O A) X := λ s,
  let '(r, o) := m (c_obj s) in (r, mkConn (c_dfs s) o (c_mem s)).
Definition onA {X} (f : A → X * A) : M (conn D O A) X := λ s,
  let '(x, a) := f (c_mem s) in (Ok x, mkConn (c_dfs s) (c_obj s) a).
(** Read the allocator without changing it. *)
Definition asks {X} (f : A → X) : M (conn D O A) X := λ s, (Ok (f (c_mem s)), s).
Definition modD (f : D → D) s : conn D O A := mkConn (f (c_dfs s)) (c_obj s) (c_mem s).

Lemma wp_onD {X} (m : M D X) s (Q : X → conn D O A → Prop) E :
  wp m (c_dfs s) (λ x d, Q x (mkConn d (c_obj s) (c_mem s)))
    (λ e d, E e (mkConn d (c_obj s) (c_mem s))) → wp (onD m) s Q E.
Proof. rw /wp /onD. by destruct (m (c_dfs s)) as [[x|e] d]. Qed.
Lemma wp_onO {X} (m : M O X) s (Q : X → conn D O A → Prop) E :
  wp m (c_obj s) (λ x o, Q x (mkConn (c_dfs s) o (c_mem s)))
    (λ e o, E e (mkConn (c_dfs s) o (c_mem s))) → wp (onO m) s Q E.
Proof. rw /wp /onO. by destruct (m (c_obj s)) as [[x|e] o]. Qed.
Lemma wp_onA {X} (f : A → X * A) s (Q : X → conn D O A → Prop) E :
  (∀ x a, f (c_mem s) = (x, a) → Q x (mkConn (c_dfs s) (c_obj s) a)) → wp (onA f) s Q E.
Proof. rw /wp /onA. intros HQ. destruct (f (c_mem s)) as [x a]. by apply HQ. Qed.
Lemma wp_asks {X} (f : A → X) s (Q : X → conn D O A → Prop) E :
  Q (f (c_mem s)) s → wp (asks f) s Q E.
Proof. done. Qed.
End Lifts.

(** ** Reference counting helpers of the connector *)
Section Refs.
Context {D O A : Type} `{LocalCpuLaws A}.
Implicit Types s : conn D O A.

(** [_release]: the first of [ref_count_down], [release], [free] the object
    has; LMCache's objects have [ref_count_down]. *)
Definition _release (m : Z) : M (conn D O A) unit := onA (λ a, (tt, ref_count_down m a)).
(** [_drop_put_ref]: the wrapper above the connector owns that reference. *)
Definition _drop_put_ref (m : Z) : M (conn D O A) unit := ret tt.
Definition alloc (md : RemoteMetadata) : M (conn D O A) (option Z) :=
  onA (allocate (md_shapes md) (md_dtypes md) (md_fmt md)).

(** An object allocated and then released leaves no trace. *)
Lemma release_fresh m o (a a' : A) :
  live a !! m = None → live a' = <[m := o]> (live a) → mo_refs o = 1 →
  live (ref_count_down m a') = live a.
Proof.
  intros Hn Ha Hr. rw (ref_count_down_law m a' o); [by rw Ha lookup_insert_eq|].
  by rw Hr Ha /= delete_insert_id.
Qed.
End Refs.

(** ** An in-memory LMCache

    A tensor group is its size in bytes; the metadata string is the length and
    that size, as two little-endian words.  The allocator has a budget. *)
Module MemLM.
#[global] Instance types : LMTypes := {| Shapes := Z; Dtypes := unit; Fmt := unit |}.

Definition fmt16 : list field := [FQ; FQ].
Definition ser (m : RemoteMetadata) : bytes :=
  match struct_pack fmt16 [VInt (md_length m); VInt (md_shapes m)] with Ok b => b | Raise _ => [] end.
Definition deser (b : bytes) : res RemoteMetadata :=
  match struct_unpack fmt16 b with
  | Ok [VInt n; VInt z] => Ok (mkMeta n z tt tt)
  | _ => Raise StructError
  end.
#[global] Instance codec : MetaCodec := {| serialize := ser; deserialize := deser |}.

Definition fits_u64 (z : Z) : Prop := fits FQ (VInt z).
#[global] Program Instance codec_laws : MetaCodecLaws :=
  {| meta_ok m := fits_u64 (md_length m) ∧ fits_u64 (md_shapes m) |}.
Next Obligation.
  intros [n z [] []] [Hn Hz]. cbn [serialize deserialize codec]. rw /deser /ser. cbn [md_length md_shapes].
  assert (Forall2 fits fmt16 [VInt n; VInt z]) as HF.
  { constructor; [exact Hn|]. constructor; [exact Hz|constructor]. }
  destruct (pack_fits _ _ HF) as (b & Hb & _). rw Hb (unpack_pack _ _ _ HF Hb) //.
Qed.
Next Obligation. intros b e. simpl. rw /deser. repeat case_match; by intros [= <-]. Qed.

Record mem := mkMem { m_objs : gmap Z mobj; m_budget : Z }.
Definition m_alloc (sz : Z) (dt fm : unit) (a : mem) : option Z * mem :=
  if m_budget a <? sz then (None, a) else
  let m := fresh (dom (m_objs a)) in
  (Some m, mkMem (<[m := mkMobj (zeros (Z.to_nat sz)) 1 sz dt fm]> (m_objs a)) (m_budget a - sz)).
Definition m_get (m : Z) (a : mem) : mobj := default (mkMobj [] 0 0 tt tt) (m_objs a !! m).
Definition m_set (m : Z) (o : mobj) (a : mem) : mem := mkMem (<[m := o]> (m_objs a)) (m_budget a).
Definition m_poke (m : Z) (d : bytes) (a : mem) : mem :=
  let o := m_get m a in
  m_set m (mkMobj (d ++ drop (length d) (mo_bytes o)) (mo_refs o) (mo_shapes o) (mo_dtypes o) (mo_fmt o)) a.
Definition m_down (m : Z) (a : mem) : mem :=
  let o := m_get m a in
  if mo_refs o =? 1 then mkMem (delete m (m_objs a)) (m_budget a + mo_shapes o)
  else m_set m (mkMobj (mo_bytes o) (mo_refs o - 1) (mo_shapes o) (mo_dtypes o) (mo_fmt o)) a.

#[global] Instance cpu : LocalCpu mem := {|
  allocate := m_alloc; byte_array m a := mo_bytes (m_get m a);
  get_shapes m a := mo_shapes (m_get m a); get_dtypes m a := mo_dtypes (m_get m a);
  get_memory_format m a := mo_fmt (m_get m a); poke := m_poke; ref_count_down := m_down |}.
#[global] Program Instance cpu_laws : LocalCpuLaws mem :=
  {| live := m_objs; size_of sz _ _ := Z.max 0 sz |}.
Next Obligation.
  intros sz dt fm a r a'. simpl. rw /m_alloc. destruct (m_budget a <? sz); intros [= <- <-]; [done|].
  split; [apply not_elem_of_dom, is_fresh|]. eexists. split; [|done].
  rw /len /zeros length_replicate. lia.
Qed.
Next Obligation. intros m a o Ho. by rw /= /m_get Ho. Qed.
Next Obligation. intros m a o Ho. by rw /= /m_get Ho. Qed.
Next Obligation. intros m d a o Ho _. by rw /= /m_poke /m_get Ho. Qed.
Next Obligation. intros m a o Ho. rw /= /m_down /m_get Ho /=. by destruct (mo_refs o =? 1). Qed.
End MemLM.
