(* ===== verification/ConnDfs.v ===== *)
(** * The connector on a POSIX container: [connector.py], DFS branches

    An object is one file: the v1 prefix, the metadata, the payload.  Writing
    takes two offset writes through one handle; reading takes one small read
    for prefix and metadata and one read of the payload straight into the
    memory object.  [dfs_decode] is the specification: what complete object a
    file holds, if any. *)
From S2P Require Import Prelude Serde DfsBinding ConnBase.
Open Scope Z_scope.
Open Scope py_scope.

Definition _HDR_CAP : Z := 512.

(** [l[:n]] for any integer [n]. *)
Definition py_upto {X} (l : list X) (n : Z) : list X :=
  if n <? 0 then take (Z.to_nat (len l + n)) l else take (Z.to_nat n) l.

(** The buffer a write reads from: a private copy, or the object's own memory. *)
Inductive src := Copied (b : bytes) | Aliased (m : Z).

Section Defs.
Context {D O A : Type} `{LibDfs D} `{MetaCodec} `{!LocalCpu A}.

Definition src_bytes (x : src) : M (conn D O A) bytes :=
  match x with Copied b => ret b | Aliased m => asks (byte_array m) end.

(** [_prep_write]; [alias] is [_ALIAS_STORE]. *)
Definition _prep_write (alias : bool) (m : Z) : M (conn D O A) (bytes * src * Z) :=
  let! view := asks (byte_array m) in
  let n := len view in
  let! sh := asks (get_shapes m) in
  let! dt := asks (get_dtypes m) in
  let! fm := asks (get_memory_format m) in
  let meta_bytes := serialize (mkMeta n sh dt fm) in
  let! prefix := lift (prefix_pack (len meta_bytes) n) in
  let header := prefix ++ meta_bytes in
  ret (header, if alias then Aliased m else Copied view, n).

(** What C reads of a buffer [b] when it is told that there are [n] bytes; past
    the end of the buffer its behaviour is undefined. *)
Definition c_bytes (b : bytes) (n : Z) : M (conn D O A) bytes :=
  if (n <? 0) || (len b <? n) then raise (Overflow (n - len b)) else ret (py_upto b n).

(** [_put_sync] on a DFS container. *)
Definition _put_dfs (path : string) (header : bytes) (x : src) (n : Z) : M (conn D O A) unit :=
  let! obj := onD (open_rdwr_create path 0) in
  try_finally
    (let! _ := onD (write_obj_from obj 0 header) in
     let! buf := src_bytes x in
     let! b := c_bytes buf n in
     let! _ := onD (write_obj_from obj (len header) b) in
     ret tt)
    (modD (close_obj obj)).

(** The payload read of [_get_sync], default path: DAOS writes into [n] bytes
    of the object's memory, but is asked for [pl]. *)
Definition read_payload (obj : Z) (m : Z) (n off pl : Z) : M (conn D O A) (option Z) :=
  let! view := asks (byte_array m) in
  if (n <? 0) || (len (py_upto view n) <? n) then raise ValueError else
  let! d := onD (read_obj_into obj off pl) in
  if n <? len d then raise (Overflow (len d - n)) else
  let! _ := onA (λ a, (tt, poke m d a)) in
  if negb (len d =? pl) then let! _ := _release m in ret None else ret (Some m).

(** The same with [_READ_VIA_BYTEARRAY]: a private buffer of [pl] bytes, then
    a copy. *)
Definition read_payload_copy (obj : Z) (m : Z) (n off pl : Z) : M (conn D O A) (option Z) :=
  let! view := asks (byte_array m) in
  let! d := onD (read_obj_into obj off pl) in
  if negb (len d =? pl) then let! _ := _release m in ret None else
  if negb (len (py_upto view n) =? len (py_upto d n)) then raise ValueError else
  let! _ := onA (λ a, (tt, poke m (py_upto d n) a)) in
  ret (Some m).

(** [_get_sync] on a DFS container, after the open. *)
Definition get_body (via_bytearray : bool) (obj : Z) : M (conn D O A) (option Z) :=
  let ps := prefix_size in
  let! hdr := onD (read_obj obj 0 (ps + _HDR_CAP)) in
  if len hdr <? ps then ret None else
  let! (meta_len, pl) := lift (parse_prefix (slice hdr 0 ps)) in
  let! meta_bytes :=
    (if meta_len <=? len hdr - ps then ret (slice hdr ps (ps + meta_len))
     else onD (read_obj obj ps meta_len)) in
  if negb (len meta_bytes =? meta_len) then ret None else
  match deserialize meta_bytes with
  | Raise e => if is_exception e then ret None else raise e
  | Ok metadata =>
      if pl <? md_length metadata then ret None else
      let! mo := alloc metadata in
      match mo with
      | None => ret None
      | Some m =>
          let n := md_length metadata in
          let off := prefix_size + meta_len in
          if via_bytearray then read_payload_copy obj m n off pl else read_payload obj m n off pl
      end
  end.

Definition _get_dfs (via_bytearray : bool) (path : string) : M (conn D O A) (option Z) :=
  let! o := try_except (let! obj := onD (open_rdonly path) in ret (Some obj))
    (λ e, match daos_rc e with
          | Some rc => if rc =? ENOENT then Some (ret None) else None
          | None => None
          end) in
  match o with
  | None => ret None
  | Some obj => try_finally (get_body via_bytearray obj) (modD (close_obj obj))
  end.
End Defs.

(** ** Specification: what a file holds *)
Section Decode.
Context `{MetaCodec}.

(** The header of a file: metadata length, payload length, metadata. *)
Definition dfs_header (c : bytes) : option (Z * Z * RemoteMetadata) :=
  match parse_prefix (slice c 0 prefix_size) with
  | Ok (ml, pl) =>
      let mb := slice c prefix_size (prefix_size + ml) in
      if negb (len mb =? ml) then None else
      match deserialize mb with
      | Ok md => if pl <? md_length md then None else Some (ml, pl, md)
      | Raise _ => None
      end
  | Raise _ => None
  end.

(** The complete object of a file: header and every promised payload byte. *)
Definition dfs_decode (c : bytes) : option (RemoteMetadata * bytes) :=
  match dfs_header c with
  | Some (ml, pl, md) =>
      let off := prefix_size + ml in
      let p := slice c off (off + pl) in
      if len p =? pl then Some (md, p) else None
  | None => None
  end.

(** The bytes [_prep_write] and [_put_dfs] produce for a metadata and payload. *)
Definition dfs_encode (md : RemoteMetadata) (payload : bytes) : res bytes :=
  let mb := serialize md in
  let? pre := prefix_pack (len mb) (len payload) in Ok (pre ++ mb ++ payload).
End Decode.

(** ** Lemmas *)
Section HeaderLemmas.
Context `{MetaCodec}.

Lemma py_upto_all {X} (l : list X) n : n = len l → py_upto l n = l.
Proof. intros ->. rw /py_upto. pose proof (len_nonneg l). destruct (Z.ltb_spec (len l) 0); [lia|]. by rw len_to_nat take_ge. Qed.
Lemma py_upto_len {X} (l : list X) n : 0 ≤ n → len (py_upto l n) = Z.min n (len l).
Proof. intros. rw /py_upto. destruct (Z.ltb_spec n 0); [lia|]. rw /len length_take. lia. Qed.
Lemma py_upto_le {X} (l : list X) n : len (py_upto l n) ≤ len l.
Proof. rw /py_upto /len. destruct (n <? 0); rw length_take; lia. Qed.

Lemma parse_prefix_short b : len b ≠ prefix_size → parse_prefix b = Raise ValueError.
Proof. intros Hn. rw /parse_prefix. by destruct (Z.eqb_spec (len b) prefix_size). Qed.

(** The first read of [_get_sync] holds the whole prefix or the file is shorter. *)
Lemma first_read_short c :
  len (slice c 0 (prefix_size + _HDR_CAP)) < prefix_size → dfs_header c = None.
Proof.
  intros Hl. rw /dfs_header parse_prefix_short //.
  rw prefix_size_8 /_HDR_CAP in Hl |- *. pose proof (len_slice c 0 (8 + 512)).
  pose proof (len_slice c 0 8). lia.
Qed.

Lemma first_read_prefix (c : bytes) :
  prefix_size ≤ len (slice c 0 (prefix_size + _HDR_CAP)) →
  slice (slice c 0 (prefix_size + _HDR_CAP)) 0 prefix_size = slice c 0 prefix_size.
Proof. intros. apply slice_slice; [done|]. lia. Qed.

(** A prefix of eight bytes always parses. *)
Lemma parse_prefix_total b : len b = prefix_size → ∃ ml pl, parse_prefix b = Ok (ml, pl).
Proof.
  intros Hl. rw /parse_prefix Hl Z.eqb_refl /= /PyStruct.struct_unpack bool_decide_true.
  - rw prefix_size_8 /len in Hl. change (PyStruct.calcsize prefix_fmt) with 8%nat. lia.
  - simpl. eauto.
Qed.
End HeaderLemmas.

Section Get.
Context {D O A : Type} `{LibDfsLaws D} `{MetaCodecLaws} `{!LocalCpu A} `{!LocalCpuLaws A}.
Implicit Types s : conn D O A.

(** The object [m] is the one just allocated over [a0], with memory [b]. *)
Definition allocated (a0 : A) (m : Z) (md : RemoteMetadata) (b : bytes) (a : A) : Prop :=
  live a0 !! m = None ∧
  live a = <[m := mkMobj b 1 (md_shapes md) (md_dtypes md) (md_fmt md)]> (live a0).

Lemma allocated_bytes a0 m md b a : allocated a0 m md b a → byte_array m a = b.
Proof. intros [_ Ha]. erewrite byte_array_law; [|by rw Ha lookup_insert_eq]. done. Qed.

Lemma allocated_poke a0 m md b a d :
  allocated a0 m md b a → len d ≤ len b → allocated a0 m md (d ++ drop (length d) b) (poke m d a).
Proof.
  intros [Hn Ha] Hl. split; [done|].
  rw (poke_law m d a (mkMobj b 1 (md_shapes md) (md_dtypes md) (md_fmt md))) //; [by rw Ha lookup_insert_eq|].
  by rw Ha insert_insert_eq.
Qed.

Lemma allocated_release a0 m md b a :
  allocated a0 m md b a → live (ref_count_down m a) = live a0.
Proof. intros [Hn Ha]. by eapply release_fresh. Qed.

(** Why a payload read raises: the backend does not answer, the object is
    smaller than its metadata's length, or the header promises more bytes than
    the metadata (and they are there). *)
Definition read_error (via : bool) (d0 : D) (e : exn) (n pl size : Z) : Prop :=
  (¬ up d0 ∧ ∃ rc, e = DaosError rc ∧ rc ≠ ENOENT) ∨
  (e = ValueError ∧ ¬ (0 ≤ n ≤ size)) ∨
  (via = false ∧ n < pl ∧ ∃ k, e = Overflow k).

Lemma read_payload_spec a0 md b h p c m n off pl s :
  hs (c_dfs s) !! h = Some p → fs (c_dfs s) !! p = Some c → 0 ≤ off → 0 ≤ pl →
  allocated a0 m md b (c_mem s) →
  wp (read_payload h m n off pl) s
    (λ r s', frame (c_dfs s) (c_dfs s') ∧ c_obj s' = c_obj s ∧
       let d := slice c off (off + pl) in
       match r with
       | Some m' => m' = m ∧ len d = pl ∧ (false = false → len d ≤ n) ∧ len (py_upto d n) ≤ len b ∧
           allocated a0 m md (py_upto d n ++ drop (length (py_upto d n)) b) (c_mem s')
       | None => len d ≠ pl ∧ live (c_mem s') = live a0
       end)
    (λ e s', frame (c_dfs s) (c_dfs s') ∧ c_obj s' = c_obj s ∧ c_mem s' = c_mem s ∧
       read_error false (c_dfs s) e n pl (len b)).
Proof.
  intros Hh Hc Ho Hp Ha. rw /read_payload. apply wp_bind, wp_asks. rw (allocated_bytes _ _ _ _ _ Ha).
  destruct (Z.ltb_spec n 0) as [Hn|Hn]; simpl.
  { apply wp_raise. split; [reflexivity|]. split_and!; [done..|]. right; left. split; [done|]. lia. }
  rw py_upto_len //. destruct (Z.ltb_spec (Z.min n (len b)) n) as [Hs|Hs].
  { apply wp_raise. split; [reflexivity|]. split_and!; [done..|]. right; left. split; [done|]. lia. }
  apply wp_bind, wp_onD. wp_use (read_obj_into_spec h off pl (c_dfs s) p c); try done.
  2:{ intros e w' (Hf & Hu & He). split_and!; try done. by left. }
  intros d w' [-> Hf]. set (d := slice c off (off + pl)).
  assert (len d ≤ pl) as Hd by (pose proof (slice_short c off (off + pl)); rw /d; lia).
  destruct (Z.ltb_spec n (len d)) as [Hnd|Hnd].
  { apply wp_raise. split_and!; try done. right; right. split_and!; [done|lia|]. by eexists. }
  apply wp_bind, wp_onA. intros [] a [= <-].
  pose proof (allocated_poke _ _ _ _ _ d Ha ltac:(lia)) as Ha'.
  destruct (Z.eqb_spec (len d) pl) as [Heq|Hne]; simpl.
  - apply wp_ret. assert (py_upto d n = d) as ->; [|split_and!; try done; lia].
    rw /py_upto. destruct (Z.ltb_spec n 0); [lia|]. apply take_ge. rw /len in Hnd. lia.
  - apply wp_bind, wp_onA. intros [] a' [= <-]. apply wp_ret. split_and!; try done.
    by eapply allocated_release.
Qed.

Lemma read_payload_copy_spec a0 md b h p c m n off pl s :
  hs (c_dfs s) !! h = Some p → fs (c_dfs s) !! p = Some c → 0 ≤ off → 0 ≤ pl → n ≤ pl →
  allocated a0 m md b (c_mem s) →
  wp (read_payload_copy h m n off pl) s
    (λ r s', frame (c_dfs s) (c_dfs s') ∧ c_obj s' = c_obj s ∧
       let d := slice c off (off + pl) in
       match r with
       | Some m' => m' = m ∧ len d = pl ∧ (true = false → len d ≤ n) ∧ len (py_upto d n) ≤ len b ∧
           allocated a0 m md (py_upto d n ++ drop (length (py_upto d n)) b) (c_mem s')
       | None => len d ≠ pl ∧ live (c_mem s') = live a0
       end)
    (λ e s', frame (c_dfs s) (c_dfs s') ∧ c_obj s' = c_obj s ∧ c_mem s' = c_mem s ∧
       read_error true (c_dfs s) e n pl (len b)).
Proof.
  intros Hh Hc Ho Hp Hn Ha. rw /read_payload_copy. apply wp_bind, wp_asks. rw (allocated_bytes _ _ _ _ _ Ha).
  apply wp_bind, wp_onD. wp_use (read_obj_into_spec h off pl (c_dfs s) p c); try done.
  2:{ intros e w' (Hf & Hu & He). split_and!; try done. by left. }
  intros d w' [-> Hf]. set (d := slice c off (off + pl)).
  destruct (Z.eqb_spec (len d) pl) as [Heq|Hne]; simpl.
  - destruct (Z.eqb_spec (len (py_upto b n)) (len (py_upto d n))) as [Hl|Hl]; simpl.
    + apply wp_bind, wp_onA. intros [] a [= <-]. apply wp_ret.
      assert (len (py_upto d n) ≤ len b) by (rw -Hl; apply py_upto_le).
      split_and!; try done. by apply allocated_poke.
    + apply wp_raise. split_and!; try done. right; left. split; [done|]. intros Hs. apply Hl.
      rw !py_upto_len; lia.
  - apply wp_bind, wp_onA. intros [] a' [= <-]. apply wp_ret. split_and!; try done.
    by eapply allocated_release.
Qed.

(** What [_get_sync] promises for a file with contents [c]. *)
Definition get_result (via : bool) (c : bytes) (r : option Z) s s' : Prop :=
  match r with
  | Some m => ∃ md payload rest, dfs_decode c = Some (md, payload) ∧
      (via = false → len payload ≤ md_length md) ∧
      len (py_upto payload (md_length md) ++ rest) = size_of (md_shapes md) (md_dtypes md) (md_fmt md) ∧
      allocated (c_mem s) m md (py_upto payload (md_length md) ++ rest) (c_mem s')
  | None => live (c_mem s') = live (c_mem s) ∧
      (dfs_decode c = None ∨
       ∃ md payload, dfs_decode c = Some (md, payload) ∧
         fst (allocate (md_shapes md) (md_dtypes md) (md_fmt md) (c_mem s)) = None)
  end.
(** Nothing was allocated, or one object was and is still held. *)
Definition maybe_leaked s s' : Prop :=
  live (c_mem s') = live (c_mem s) ∨ ∃ m md b, allocated (c_mem s) m md b (c_mem s').
(** Why it raises. *)
Definition get_error (via : bool) (c : bytes) (e : exn) s : Prop :=
  (¬ up (c_dfs s) ∧ ∃ rc, e = DaosError rc ∧ rc ≠ ENOENT) ∨
  ∃ ml pl md, dfs_header c = Some (ml, pl, md) ∧
    read_error via (c_dfs s) e (md_length md) pl (size_of (md_shapes md) (md_dtypes md) (md_fmt md)).

(** From the allocation on. *)
Lemma get_body_payload via h p c ml pl md s s2 :
  hs (c_dfs s) !! h = Some p → fs (c_dfs s) !! p = Some c → 0 ≤ ml → 0 ≤ pl →
  dfs_header c = Some (ml, pl, md) → md_length md ≤ pl →
  frame (c_dfs s) (c_dfs s2) → c_obj s2 = c_obj s → c_mem s2 = c_mem s →
  wp (bind (alloc md) (λ mo, match mo with
      | None => ret None
      | Some m =>
          if via then read_payload_copy h m (md_length md) (prefix_size + ml) pl
          else read_payload h m (md_length md) (prefix_size + ml) pl
      end)) s2
    (λ r s', frame (c_dfs s) (c_dfs s') ∧ c_obj s' = c_obj s ∧ get_result via c r s s')
    (λ e s', frame (c_dfs s) (c_dfs s') ∧ c_obj s' = c_obj s ∧ maybe_leaked s s' ∧ get_error via c e s).
Proof.
  intros Hh Hc Hml Hpl Hhd Hle Hf Ho Hm. apply wp_bind, wp_onA. intros mo a Hal.
  rw Hm in Hal. pose proof (allocate_law _ _ _ _ _ _ Hal) as Hl. rw prefix_size_8.
  set (d := slice c (8 + ml) (8 + ml + pl)).
  assert (dfs_decode c = if len d =? pl then Some (md, d) else None) as Hdec.
  { by rw /dfs_decode Hhd prefix_size_8. }
  destruct mo as [m|].
  - destruct Hl as (Hn & b & Hlb & Hlive). set (s3 := mkConn (c_dfs s2) (c_obj s2) a).
    assert (allocated (c_mem s) m md b (c_mem s3)) as Hall by done.
    destruct Hf as (Hff & Hfh & Hfu).
    eapply (wp_mono _ _ (λ r s', frame (c_dfs s3) (c_dfs s') ∧ c_obj s' = c_obj s3 ∧
       match r with
       | Some m' => m' = m ∧ len d = pl ∧ (via = false → len d ≤ md_length md) ∧ len (py_upto d (md_length md)) ≤ len b ∧
           allocated (c_mem s) m md (py_upto d (md_length md) ++ drop (length (py_upto d (md_length md))) b) (c_mem s')
       | None => len d ≠ pl ∧ live (c_mem s') = live (c_mem s)
       end) _ (λ e s', frame (c_dfs s3) (c_dfs s') ∧ c_obj s' = c_obj s3 ∧ c_mem s' = c_mem s3 ∧
       read_error via (c_dfs s3) e (md_length md) pl (len b))).
    + destruct via; [eapply read_payload_copy_spec|eapply read_payload_spec]; try done; try lia.
      1,3: by rw /s3 /= Hfh. all: by rw /s3 /= Hff.
    + intros r s' (Hf' & Ho' & Hr). split; [by transitivity (c_dfs s3)|]. split; [by rw Ho' -Ho|].
      destruct r as [m'|]; simpl.
      * destruct Hr as (-> & Hlen & Hov & Hfit & Ha'). exists md, d, (drop (length (py_upto d (md_length md))) b).
        rw Hdec Hlen Z.eqb_refl. split; [done|]. split; [intros Hv; specialize (Hov Hv); lia|]. split; [|done]. rw -Hlb. solve_len.
      * destruct Hr as [Hne Hlv]. split; [done|]. left. rw Hdec. by destruct (Z.eqb_spec (len d) pl).
    + intros e s' (Hf' & Ho' & Hm' & He). split; [by transitivity (c_dfs s3)|]. split; [by rw Ho' -Ho|].
      split; [right; exists m, md, b; by rw Hm'|]. right. exists ml, pl, md. split; [done|].
      rw -Hlb. destruct He as [[Hu He]|[He|He]]; [left|by right; left|by right; right].
      split; [naive_solver|done].
  - apply wp_ret. split; [done|]. split; [done|]. split; [done|]. rw Hdec.
    destruct (len d =? pl); [right|by left]. exists md, d. by rw Hal.
Qed.

Lemma get_body_spec via h p c s :
  hs (c_dfs s) !! h = Some p → fs (c_dfs s) !! p = Some c →
  wp (get_body via h) s
    (λ r s', frame (c_dfs s) (c_dfs s') ∧ c_obj s' = c_obj s ∧ get_result via c r s s')
    (λ e s', frame (c_dfs s) (c_dfs s') ∧ c_obj s' = c_obj s ∧ maybe_leaked s s' ∧ get_error via c e s).
Proof.
  intros Hh Hc. rw /get_body. apply wp_bind, wp_onD.
  wp_use (read_obj_spec h 0 (prefix_size + _HDR_CAP) (c_dfs s) p c); try done.
  2:{ intros e w' (Hf & Hu & He). split; [done|]. split; [done|]. split; by left. }
  intros hdr w1 [-> Hf1]. set (hdr := slice c 0 (0 + (prefix_size + _HDR_CAP))).
  destruct (Z.ltb_spec (len hdr) prefix_size) as [Hs|Hs].
  { apply wp_ret. split; [done|]. split; [done|]. split; [done|]. left. by rw /dfs_decode first_read_short. }
  assert (slice hdr 0 prefix_size = slice c 0 prefix_size) as Hpre by by apply first_read_prefix.
  rw Hpre. assert (len (slice c 0 prefix_size) = prefix_size) as Hlp.
  { rw -Hpre len_slice // prefix_size_8 in Hs |- *. lia. }
  destruct (parse_prefix_total _ Hlp) as (ml & pl & Hpp). pose proof (parse_prefix_lens _ _ _ Hpp) as [Hml Hpl].
  apply wp_bind. rw Hpp. apply wp_lift. simpl. set (s1 := mkConn w1 (c_obj s) (c_mem s)).
  set (mb := slice c prefix_size (prefix_size + ml)).
  assert (wp (if ml <=? len hdr - prefix_size then ret (slice hdr prefix_size (prefix_size + ml))
     else onD (read_obj h prefix_size ml)) s1
    (λ b s', b = mb ∧ frame (c_dfs s) (c_dfs s') ∧ c_obj s' = c_obj s ∧ c_mem s' = c_mem s)
    (λ e s', frame (c_dfs s) (c_dfs s') ∧ c_obj s' = c_obj s ∧ c_mem s' = c_mem s ∧
       ¬ up (c_dfs s) ∧ ∃ rc, e = DaosError rc ∧ rc ≠ ENOENT)) as Hmb.
  { destruct (Z.leb_spec ml (len hdr - prefix_size)) as [Hin|Hout].
    - apply wp_ret. split; [|by split]. apply slice_slice; [done|]. rw /hdr in Hin. lia.
    - apply wp_onD. destruct Hf1 as (Hff & Hfh & Hfu). wp_use (read_obj_spec h prefix_size ml w1 p c);
        [by rw Hfh|by rw Hff|done|lia| |].
      + intros b w' [-> Hf]. split; [done|]. split; [|done]. by transitivity w1.
      + intros e w' (Hf & Hu & He). split; [by transitivity w1|]. naive_solver. }
  apply wp_bind. eapply wp_mono; [exact Hmb| |]; clear Hmb.
  2:{ intros e s' (Hf & Ho & Hm & He). split; [done|]. split; [done|]. split; left; [by rw Hm|done]. }
  intros b s2 (-> & Hf2 & Ho2 & Hm2).
  assert (dfs_header c = if negb (len mb =? ml) then None else
      match deserialize mb with
      | Ok md => if pl <? md_length md then None else Some (ml, pl, md)
      | Raise _ => None
      end) as Hhd by by rw /dfs_header Hpp.
  destruct (negb (len mb =? ml)).
  { apply wp_ret. split; [done|]. split; [done|]. split; [by rw Hm2|]. left. by rw /dfs_decode Hhd. }
  destruct (deserialize mb) as [md|e] eqn:Hde.
  2:{ rw (deserialize_raises _ _ Hde). apply wp_ret. split; [done|]. split; [done|].
      split; [by rw Hm2|]. left. by rw /dfs_decode Hhd. }
  destruct (Z.ltb_spec pl (md_length md)) as [Hsh|Hsh].
  { apply wp_ret. split; [done|]. split; [done|]. split; [by rw Hm2|]. left. by rw /dfs_decode Hhd. }
  eapply get_body_payload; try done; lia.
Qed.

(** The whole [_get_sync] on a DFS container. *)
Lemma get_dfs_spec via path s :
  wp (_get_dfs via path) s
    (λ r s', frame (c_dfs s) (c_dfs s') ∧ c_obj s' = c_obj s ∧
       match fs (c_dfs s) !! path with
       | Some c => get_result via c r s s'
       | None => r = None ∧ c_mem s' = c_mem s
       end)
    (λ e s', frame (c_dfs s) (c_dfs s') ∧ c_obj s' = c_obj s ∧ maybe_leaked s s' ∧
       match fs (c_dfs s) !! path with
       | Some c => get_error via c e s
       | None => ¬ up (c_dfs s) ∧ ∃ rc, e = DaosError rc
       end).
Proof.
  rw /_get_dfs. apply wp_bind, wp_except, wp_bind, wp_onD. wp_use (open_rdonly_spec path (c_dfs s)).
  2:{ intros e w (Hf & rc & -> & He & Hu). simpl. destruct (Z.eqb_spec rc ENOENT) as [->|Hrc].
      - do 2 apply wp_ret. by rw He.
      - split; [done|]. split; [done|]. split; [by left|].
        assert (¬ up (c_dfs s)) by naive_solver.
        destruct (fs (c_dfs s) !! path); [left|]; eauto. }
  intros h w (c & Hc & Hf & Hn & Hh & Hu). apply wp_ret, wp_finally. rw Hc.
  set (s1 := mkConn w (c_obj s) (c_mem s)).
  assert (∀ s', frame (c_dfs s1) (c_dfs s') → frame (c_dfs s) (c_dfs (modD (close_obj h) s'))) as Hcl.
  { intros s' (Hff & Hfh & Hfu). destruct (close_obj_spec h (c_dfs s')) as (Hcf & Hch & Hcu).
    rw /frame /= Hcf Hch Hff Hfh /= Hf Hh delete_insert_id //. split_and!; auto. }
  wp_use (get_body_spec via h path c s1); [by rw /= Hh lookup_insert_eq|by rw /= Hf| |].
  - intros r s' (Hf' & Ho & Hr). split; [by apply Hcl|]. done.
  - intros e s' (Hf' & Ho & Hm & He). split; [by apply Hcl|]. split; [done|]. split; [done|].
    destruct He as [[Hd He]|(ml & pl & md & Hhd & He)]; [left; naive_solver|right].
    exists ml, pl, md. split; [done|]. destruct He as [[Hd He]|He]; [left; naive_solver|by right].
Qed.
End Get.

(** ** Writing *)
Section Put.
Context {D O A : Type} `{LibDfsLaws D} `{MetaCodecLaws} `{!LocalCpu A} `{!LocalCpuLaws A}.
Implicit Types s : conn D O A.

Lemma prep_write_spec alias m o s :
  live (c_mem s) !! m = Some o →
  let md := mkMeta (len (mo_bytes o)) (mo_shapes o) (mo_dtypes o) (mo_fmt o) in
  wp (_prep_write alias m) s
    (λ r s', s' = s ∧ ∃ pre, prefix_pack (len (serialize md)) (len (mo_bytes o)) = Ok pre ∧
       r = (pre ++ serialize md, if alias then Aliased m else Copied (mo_bytes o), len (mo_bytes o)))
    (λ e s', s' = s ∧ e = StructError ∧ ¬ lens_fit (len (serialize md)) (len (mo_bytes o))).
Proof.
  intros Ho md. rw /_prep_write. do 4 apply wp_bind, wp_asks. simpl.
  rw (byte_array_law _ _ _ Ho). destruct (layout_law _ _ _ Ho) as (-> & -> & ->).
  apply wp_bind, wp_lift. fold md.
  destruct (decide (lens_fit (len (serialize md)) (len (mo_bytes o)))) as [Hfit|Hfit].
  - destruct (prefix_pack_ok _ _ Hfit) as (pre & Hp & _). rw Hp. apply wp_ret. split; [done|]. by exists pre.
  - by rw prefix_pack_fail.
Qed.

Definition src_val (x : src) (a : A) : bytes :=
  match x with Copied b => b | Aliased m => byte_array m a end.
Lemma wp_c_bytes b n s (Q : bytes → conn D O A → Prop) E :
  n = len b → Q b s → wp (c_bytes b n) s Q E.
Proof.
  intros -> HQ. rw /c_bytes py_upto_all //. destruct (Z.ltb_spec (len b) 0) as [|_], (Z.ltb_spec (len b) (len b)) as [|_];
    try lia; [|by apply wp_ret]. pose proof (len_nonneg b). lia.
Qed.
Lemma wp_src_bytes x s (Q : bytes → conn D O A → Prop) E :
  Q (src_val x (c_mem s)) s → wp (src_bytes x) s Q E.
Proof. by destruct x. Qed.

(** [_put_sync] writes the header at 0 and the payload right after it; if a
    write fails, what is left is the old file under a prefix of the new one. *)
Lemma put_dfs_spec path header x n s :
  let b := src_val x (c_mem s) in
  let old := default [] (fs (c_dfs s) !! path) in
  let new k := write_at old 0 (take k (header ++ b)) in
  n = len b →
  wp (_put_dfs path header x n) s
    (λ _ s', fs (c_dfs s') = <[path := write_at old 0 (header ++ b)]> (fs (c_dfs s)) ∧
       hs (c_dfs s') = hs (c_dfs s) ∧ (up (c_dfs s) → up (c_dfs s')) ∧
       c_obj s' = c_obj s ∧ c_mem s' = c_mem s)
    (λ e s', ¬ up (c_dfs s) ∧ (∃ rc, e = DaosError rc) ∧
       (fs (c_dfs s') = fs (c_dfs s) ∨ ∃ k, fs (c_dfs s') = <[path := new k]> (fs (c_dfs s))) ∧
       hs (c_dfs s') = hs (c_dfs s) ∧ c_obj s' = c_obj s ∧ c_mem s' = c_mem s).
Proof.
  intros b old new Hlen. rw /_put_dfs. apply wp_bind, wp_onD.
  wp_use (open_rdwr_create_spec path 0 (c_dfs s)).
  2:{ intros e w ((Hf & Hh & Hu) & rc & -> & _ & Hup). split; [naive_solver|].
      split_and!; [by eexists|by left|done..]. }
  intros h w1 (Hf1 & Hn & Hh1 & Hu1). apply wp_finally, wp_bind, wp_onD. simpl. fold old in Hf1.
  assert (∀ w, hs w = hs w1 → hs (close_obj h w) = hs (c_dfs s)) as Hcl.
  { intros w Hw. destruct (close_obj_spec h w) as (_ & -> & _). by rw Hw Hh1 delete_insert_id. }
  assert (∀ w, fs (close_obj h w) = fs w) as Hcf by (intros w; apply close_obj_spec).
  wp_use (write_obj_from_spec h 0 header w1 path old);
    [by rw Hh1 lookup_insert_eq|by rw Hf1 lookup_insert_eq|done| |].
  2:{ intros e w (Hh2 & Hu2 & He & k & Hf2). split; [naive_solver|]. split; [done|].
      rw /= Hcf Hcl // Hf2 Hf1 insert_insert_eq. split_and!; try done. right.
      exists (k `min` length header)%nat. rw /new take_app_le; [lia|]. by rw -take_take firstn_all. }
  intros n1 w2 (_ & Hf2 & Hh2 & Hu2). apply wp_bind, wp_src_bytes, wp_bind, wp_c_bytes; [done|].
  apply wp_bind, wp_onD. simpl. fold b.
  wp_use (write_obj_from_spec h (len header) b w2 path (write_at old 0 header));
    [by rw Hh2 Hh1 lookup_insert_eq|by rw Hf2 lookup_insert_eq|apply len_nonneg| |].
  2:{ intros e w (Hh3 & Hu3 & He & k & Hf3). split; [naive_solver|]. split; [done|].
      rw /= Hcf Hcl; [by rw Hh3 Hh2|]. rw Hf3 Hf2 Hf1 !insert_insert_eq write_at_two.
      split_and!; try done. right. exists (length header + k)%nat. by rw /new take_app_add. }
  intros n2 w3 (_ & Hf3 & Hh3 & Hu3). apply wp_ret. rw /= Hcf Hcl; [by rw Hh3 Hh2|].
  rw Hf3 Hf2 Hf1 !insert_insert_eq write_at_two. split_and!; try done.
  intros Hu. apply close_obj_spec. auto.
Qed.
End Put.

(** ** Encoding and decoding *)
Section Codec.
Context `{MetaCodecLaws}.

(** The header bytes for a metadata record and a payload length. *)
Definition v1_header (md : RemoteMetadata) (pl : Z) (h : bytes) : Prop :=
  ∃ pre, prefix_pack (len (serialize md)) pl = Ok pre ∧ h = pre ++ serialize md.

Lemma v1_header_prefix md pl h :
  v1_header md pl h → ∃ pre, h = pre ++ serialize md ∧ len pre = prefix_size ∧
    parse_prefix pre = Ok (len (serialize md), pl).
Proof.
  intros (pre & Hp & ->). exists pre. split; [done|].
  destruct (decide (lens_fit (len (serialize md)) pl)) as [Hf|Hf]; [|by rw prefix_pack_fail in Hp].
  destruct (prefix_pack_ok _ _ Hf) as (b & Hb & Hl & Hpp). rw Hp in Hb. by injection Hb as <-.
Qed.

Lemma header_of_encoded md pl h tail :
  v1_header md pl h → meta_ok md → md_length md ≤ pl →
  dfs_header (h ++ tail) = Some (len (serialize md), pl, md).
Proof.
  intros (pre & -> & Hl & Hpp)%v1_header_prefix Hok Hle. rw /dfs_header -app_assoc slice_app_l // Hpp.
  rw slice_app_mid //; [lia|]. rw Z.eqb_refl /= deserialize_serialize //.
  destruct (Z.ltb_spec pl (md_length md)); [lia|done].
Qed.

Lemma decode_of_encoded md h payload tail :
  v1_header md (len payload) h → meta_ok md → md_length md ≤ len payload →
  dfs_decode (h ++ payload ++ tail) = Some (md, payload).
Proof.
  intros Hh Hok Hle. rw /dfs_decode (header_of_encoded _ _ _ _ Hh Hok Hle).
  destruct (v1_header_prefix _ _ _ Hh) as (pre & -> & Hl & _).
  rw slice_app_mid; [rw len_app; lia|rw len_app; lia|]. by rw Z.eqb_refl.
Qed.

(** Every strict prefix of an object's bytes decodes to nothing. *)
Lemma decode_of_truncated md h payload k :
  v1_header md (len payload) h → meta_ok md → md_length md = len payload →
  (k < length (h ++ payload))%nat →
  dfs_decode (take k (h ++ payload)) = None ∧
  ∀ ml pl md', dfs_header (take k (h ++ payload)) = Some (ml, pl, md') →
    md' = md ∧ pl = md_length md.
Proof.
  intros Hh Hok Hlen Hk. destruct (v1_header_prefix _ _ _ Hh) as (pre & Hhe & Hl & Hpp).
  destruct (decide (length h ≤ k)%nat) as [Hkh|Hkh].
  - assert (take k (h ++ payload) = h ++ take (k - length h) payload) as Ht.
    { rw take_app. by rw (take_ge h). }
    rw Ht. rw /dfs_decode (header_of_encoded _ _ _ _ Hh Hok); [lia|]. split; [|naive_solver].
    assert (len h = 8 + len (serialize md)) as Hlh by (rw Hhe len_app Hl prefix_size_8 //).
    assert (len (slice (h ++ take (k - length h) payload)
      (prefix_size + len (serialize md)) (prefix_size + len (serialize md) + len payload)) ≠ len payload) as Hne.
    { pose proof (len_nonneg (serialize md)). pose proof (len_nonneg payload).
      rw prefix_size_8 len_slice; [lia|lia|]. rw len_app Hlh.
      rw length_app in Hk. rw /len length_take in Hlh |- *. lia. }
    by rw (proj2 (Z.eqb_neq _ _) Hne).
  - assert (take k (h ++ payload) = take k h) as -> by (apply take_app_le; lia).
    assert (dfs_header (take k h) = None) as Hnone; [|by rw /dfs_decode Hnone].
    rw /dfs_header. destruct (decide (8 ≤ k)%nat) as [H8|H8].
    + assert (take k h = pre ++ take (k - 8) (serialize md)) as ->.
      { rw Hhe take_app. rw prefix_size_8 /len in Hl. rw (take_ge pre); [lia|]. do 2 f_equal. lia. }
      rw slice_app_l // Hpp. assert (len (slice (pre ++ take (k - 8) (serialize md)) prefix_size
        (prefix_size + len (serialize md))) ≠ len (serialize md)) as Hne.
      { pose proof (len_nonneg (serialize md)). rw prefix_size_8 in Hl |- *.
        rw len_slice; [lia|lia|]. rw len_app Hl. rw Hhe length_app in Hkh. rw /len length_take.
        rw /len in Hl. lia. }
      by rw (proj2 (Z.eqb_neq _ _) Hne).
    + rw parse_prefix_short //. rw prefix_size_8 len_slice; [lia|lia|]. rw /len length_take. lia.
Qed.
End Codec.

(** ** Properties of the DFS store *)
Section Claims.
Context {D O A : Type} `{LibDfsLaws D} `{MetaCodecLaws} `{!LocalCpu A} `{!LocalCpuLaws A}.
Implicit Types s : conn D O A.

Definition obj_meta (o : mobj) : RemoteMetadata :=
  mkMeta (len (mo_bytes o)) (mo_shapes o) (mo_dtypes o) (mo_fmt o).
(** An object the formats can carry: its metadata is in the codec's range,
    its lengths in the prefix's, and its memory is what its layout needs. *)
Definition storable (o : mobj) : Prop :=
  meta_ok (obj_meta o) ∧ lens_fit (len (serialize (obj_meta o))) (len (mo_bytes o)) ∧
  size_of (mo_shapes o) (mo_dtypes o) (mo_fmt o) = len (mo_bytes o).

(** A load that found the object [o]: a copy of it in fresh memory, or a miss
    because the allocator had no room. *)
Definition loaded (o : mobj) (r : option Z) s s' : Prop :=
  match r with
  | Some m => live (c_mem s) !! m = None ∧
      live (c_mem s') = <[m := mkMobj (mo_bytes o) 1 (mo_shapes o) (mo_dtypes o) (mo_fmt o)]> (live (c_mem s))
  | None => live (c_mem s') = live (c_mem s) ∧
      fst (allocate (mo_shapes o) (mo_dtypes o) (mo_fmt o) (c_mem s)) = None
  end.

(** Loading a file that starts with the bytes of [o]. *)
Lemma load_encoded via path o h tail s :
  storable o → v1_header (obj_meta o) (len (mo_bytes o)) h →
  fs (c_dfs s) !! path = Some (h ++ mo_bytes o ++ tail) →
  wp (_get_dfs via path) s
    (λ r s', frame (c_dfs s) (c_dfs s') ∧ c_obj s' = c_obj s ∧ loaded o r s s')
    (λ e s', frame (c_dfs s) (c_dfs s') ∧ maybe_leaked s s' ∧ ¬ up (c_dfs s) ∧ ∃ rc, e = DaosError rc).
Proof.
  intros (Hok & _ & Hsz) Hh Hc. assert (md_length (obj_meta o) ≤ len (mo_bytes o)) as Hle by done.
  pose proof (decode_of_encoded _ _ _ tail Hh Hok Hle) as Hdec.
  pose proof (header_of_encoded _ _ _ (mo_bytes o ++ tail) Hh Hok Hle) as Hhd.
  wp_use (get_dfs_spec via path s); rw Hc.
  - intros r s' (Hf & Ho & Hr). split; [done|]. split; [done|]. rw /get_result Hdec in Hr.
    destruct r as [m|].
    + destruct Hr as (md & p & rest & [= <- <-] & _ & Hl & Hn & Ha). split; [done|].
      rw py_upto_all // in Hl, Ha. simpl in Hl. rw Hsz len_app in Hl.
      assert (rest = []) as -> by (apply len_zero_inv; lia). by rw app_nil_r in Ha.
    + destruct Hr as [Hl [?|(md & p & [= <- <-] & Hal)]]; done.
  - intros e s' (Hf & Ho & Hlk & He). split; [done|]. split; [done|].
    destruct He as [[Hu (rc & -> & _)]|(ml & pl & md & Heq & He)]; [by eauto|].
    rw Hhd in Heq. simplify_eq/=. pose proof (len_nonneg (mo_bytes o)).
    destruct He as [[Hu (rc & -> & _)]|[[_ Hbad]|(_ & Hbad & _)]]; [by eauto|rw Hsz in Hbad|]; lia.
Qed.

(** C8: what is stored comes back: on a backend that answers, storing a
    memory object and loading its key gives a fresh object with exactly the
    same bytes and layout, whatever the file held before (or a miss, if the
    allocator is out of memory); the file starts with the object, no handle
    stays open, no other file changes, and nothing else is allocated. *)
Theorem dfs_store_then_load via path m o s :
  up (c_dfs s) → live (c_mem s) !! m = Some o → storable o →
  wp (let! (h, x, n) := _prep_write false m in
      let! _ := _put_dfs path h x n in
      _get_dfs via path) s
    (λ r s', (∃ h tail, v1_header (obj_meta o) (len (mo_bytes o)) h ∧
        fs (c_dfs s') = <[path := h ++ mo_bytes o ++ tail]> (fs (c_dfs s))) ∧
       hs (c_dfs s') = hs (c_dfs s) ∧ up (c_dfs s') ∧ loaded o r s s')
    (λ _ _, False).
Proof.
  intros Hup Ho Hst. apply wp_bind. eapply wp_mono; [by apply prep_write_spec|simpl|].
  2:{ intros e s' (_ & _ & Hbad). destruct Hst as (_ & Hfit & _). done. }
  intros r s' (-> & pre & Hp & ->). apply wp_bind.
  assert (v1_header (obj_meta o) (len (mo_bytes o)) (pre ++ serialize (obj_meta o))) as Hh by (by exists pre).
  eapply wp_mono; [by apply put_dfs_spec|simpl|naive_solver].
  intros _ s1 (Hf & Hhs & Hu & Hob & Hm). rw write_at_over in Hf.
  set (h := pre ++ serialize (obj_meta o)) in *.
  set (tail := drop (length (h ++ mo_bytes o)) (default [] (fs (c_dfs s) !! path))) in *.
  fold (obj_meta o) in *. fold h in Hf.
  assert (fs (c_dfs s1) = <[path := h ++ mo_bytes o ++ tail]> (fs (c_dfs s))) as Hf'.
  { rw app_assoc. exact Hf. }
  eapply wp_mono; [apply (load_encoded via path o h tail s1 Hst Hh); by rw Hf' lookup_insert_eq|simpl|naive_solver].
  intros r s' (Hfr & _ & Hr). destruct Hfr as (Hff & Hfh & Hfu). rw Hff Hfh Hhs.
  split; [by exists h, tail|]. split; [done|]. split; [auto|]. rw /loaded Hm in Hr. exact Hr.
Qed.


(** Storing works on a private copy: if LMCache recycles the object's
    memory for [d] between the moment the store is prepared and the moment it
    is written, the file still gets the bytes the object had; only with
    DAOS_UNSAFE_ALIAS_STORE does it get the foreign bytes, under the header of
    the original. *)
Theorem store_survives_recycling alias path m o d s :
  up (c_dfs s) → live (c_mem s) !! m = Some o → storable o → len d = len (mo_bytes o) →
  wp (let! (h, x, n) := _prep_write alias m in
      let! _ := onA (λ a, (tt, poke m d a)) in
      _put_dfs path h x n) s
    (λ _ s', ∃ h tail, v1_header (obj_meta o) (len (mo_bytes o)) h ∧
       fs (c_dfs s') !! path = Some (h ++ (if alias then d else mo_bytes o) ++ tail))
    (λ _ _, False).
Proof.
  intros Hup Ho Hst Hd. apply wp_bind. eapply wp_mono; [by apply prep_write_spec|simpl|].
  2:{ intros e s' (_ & _ & Hbad). destruct Hst as (_ & Hfit & _). done. }
  intros r s' (-> & pre & Hp & ->). apply wp_bind, wp_onA. intros [] a [= <-].
  eapply wp_mono; [apply put_dfs_spec|simpl|naive_solver].
  { destruct alias; [|done]. simpl. erewrite byte_array_law; [|rw (poke_law m d _ o) //; [lia|apply lookup_insert_eq]].
    simpl. rw drop_ge; [rw /len in Hd; lia|]. by rw app_nil_r. }
  intros _ s1 (Hf & _). rw Hf lookup_insert_eq write_at_over -app_assoc.
  exists (pre ++ serialize (obj_meta o)). eexists. split; [by exists pre|]. do 3 f_equal.
  destruct alias; [|done]. simpl.
  erewrite byte_array_law; [|rw (poke_law m d _ o) //; [lia|apply lookup_insert_eq]]. simpl.
  rw drop_ge; [rw /len in Hd; lia|]. by rw app_nil_r.
Qed.

(** The default read path trusts the payload length of the file over the
    length of the metadata: for a complete file whose header promises more
    payload bytes than the metadata's length, DAOS writes past the end of the
    destination, where the private-buffer path returns the object. *)
Theorem long_payload_overruns_the_buffer path c md payload s :
  up (c_dfs s) → fs (c_dfs s) !! path = Some c → dfs_decode c = Some (md, payload) →
  0 ≤ md_length md < len payload →
  md_length md ≤ size_of (md_shapes md) (md_dtypes md) (md_fmt md) →
  is_Some (fst (allocate (md_shapes md) (md_dtypes md) (md_fmt md) (c_mem s))) →
  wp (_get_dfs false path) s (λ _ _, False) (λ e _, ∃ k, e = Overflow k) ∧
  wp (_get_dfs true path) s (λ r _, is_Some r) (λ _ _, False).
Proof.
  intros Hup Hc Hdec Hn Hsz [m0 Hal]. split; wp_use (get_dfs_spec _ path s); rw Hc.
  - intros [m|] s' (_ & _ & Hr); rw /get_result Hdec in Hr.
    + destruct Hr as (md' & p & rest & [= <- <-] & Hov & _). specialize (Hov eq_refl). lia.
    + destruct Hr as [_ [?|(md' & p & [= <- <-] & Hno)]]; [done|]. by rw Hal in Hno.
  - intros e s' (_ & _ & _ & He). destruct He as [[Hd _]|(ml & pl & md' & Hhd & He)]; [done|].
    rw /dfs_decode Hhd in Hdec. case_match; [|done]. simplify_eq.
    destruct He as [[Hd _]|[[_ Hbad]|(_ & _ & Hk)]]; [done|lia|done].
  - intros [m|] s' (_ & _ & Hr); [by eauto|]. rw /get_result Hdec in Hr.
    destruct Hr as [_ [?|(md' & p & [= <- <-] & Hno)]]; [done|]. by rw Hal in Hno.
  - intros e s' (_ & _ & _ & He). destruct He as [[Hd _]|(ml & pl & md' & Hhd & He)]; [done|].
    rw /dfs_decode Hhd in Hdec. case_match; [|done]. simplify_eq.
    destruct He as [[Hd _]|[[_ Hbad]|(? & _)]]; [done|lia|done].
Qed.
End Claims.

(** ** Concrete runs *)
Module DemoDfs.
Definition obj : mobj := mkMobj (encode "kvkv") 1 4 tt tt.
Definition file (md : RemoteMetadata) (payload : bytes) : bytes :=
  match dfs_encode md payload with Ok b => b | Raise _ => [] end.
Definition meta (n size : Z) : RemoteMetadata := @mkMeta MemLM.types n size tt tt.
(** Object 7 in memory, room for [budget] more bytes. *)
Definition mem (budget : Z) : MemLM.mem := MemLM.mkMem {[7 := obj]} budget.
Definition world (files : gmap string bytes) (faults : list (option MemDfs.fault))
  : conn MemDfs.mem unit MemLM.mem :=
  mkConn (MemDfs.mkMem files ∅ ∅ false faults) tt (mem 100).

Lemma storable_obj : storable (A := MemLM.mem) obj.
Proof.
  split; [|split].
  - split; by vm_compute.
  - apply (bool_decide_unpack _). by vm_compute.
  - done.
Qed.
Lemma header_obj : v1_header (obj_meta obj) (len (mo_bytes obj))
  (take 24 (file (obj_meta obj) (mo_bytes obj))).
Proof. eexists. split; vm_compute; reflexivity. Qed.
End DemoDfs.

Lemma dfs_store_then_load_witness :
  wp (let! (h, x, n) := _prep_write false 7 in
      let! _ := _put_dfs "/k" h x n in
      _get_dfs false "/k") (DemoDfs.world ∅ [])
    (λ r s', loaded DemoDfs.obj r (DemoDfs.world ∅ []) s') (λ _ _, False).
Proof.
  eapply wp_mono; [apply (dfs_store_then_load false "/k" 7 DemoDfs.obj (DemoDfs.world ∅ []));
    [reflexivity|reflexivity|apply DemoDfs.storable_obj]| |by intros].
  intros r s' (_ & _ & _ & Hr). exact Hr.
Defined.


Lemma store_survives_recycling_witness :
  wp (let! (h, x, n) := _prep_write false 7 in
      let! _ := onA (λ a, (tt, poke 7 (encode "evil") a)) in
      _put_dfs "/k" h x n) (DemoDfs.world ∅ [])
    (λ _ s', ∃ h tail, fs (c_dfs s') !! "/k"%string = Some (h ++ encode "kvkv" ++ tail))
    (λ _ _, False).
Proof.
  eapply wp_mono; [apply (store_survives_recycling false "/k" 7 DemoDfs.obj (encode "evil") (DemoDfs.world ∅ []));
    [reflexivity|reflexivity|apply DemoDfs.storable_obj|reflexivity]| |by intros].
  intros _ s' (h & tail & _ & Hf). exists h, tail. exact Hf.
Defined.

(** A header that promises four bytes with metadata for two. *)
Lemma long_payload_overruns_the_buffer_witness :
  let s := DemoDfs.world {["/k"%string := DemoDfs.file (DemoDfs.meta 2 2) (encode "kvkv")]} [] in
  wp (_get_dfs false "/k") s (λ _ _, False) (λ e _, ∃ k, e = Overflow k).
Proof.
  intros s.
  assert (0 ≤ 2 < len (encode "kvkv")) as Hn by (split; [done|vm_compute; reflexivity]).
  destruct (long_payload_overruns_the_buffer "/k" (DemoDfs.file (DemoDfs.meta 2 2) (encode "kvkv"))
    (DemoDfs.meta 2 2) (encode "kvkv") s) as [Hw _]; [reflexivity| | |exact Hn|vm_compute; intros [=]| |exact Hw].
  - apply lookup_singleton_eq.
  - vm_compute. reflexivity.
  - vm_compute. eauto.
Defined.

(** A payload read that fails leaves the destination allocated: the load
    of a complete object raises the DAOS error while one memory object more
    than before is live, which nobody holds. *)
Theorem failed_payload_read_leaks_the_buffer :
  let s := DemoDfs.world {["/k"%string := DemoDfs.file (obj_meta DemoDfs.obj) (encode "kvkv")]}
    [None; None; Some (MemDfs.mkFault 1011 0)] in
  ∃ s', _get_dfs false "/k" s = (Raise (DaosError (-1011)), s') ∧
    size (live (c_mem s)) = 1%nat ∧ size (live (c_mem s')) = 2%nat.
Proof.
  intros s. exists (snd (_get_dfs false "/k" s)).
  split; [|by split; vm_compute].
  apply run_of. vm_compute. reflexivity.
Qed.
