(* ===== verification/ConnRaw.v ===== *)
(** * The connector on a non-POSIX container: [connector.py], object-API branches

    A chunk is a dkey; a layer (or the whole chunk) is a payload akey and a
    metadata akey under it, the metadata written last.  [raw_view] is the
    specification: what complete object a (dkey, layer) holds, if any. *)
From S2P Require Import Prelude Crc32 Serde SerdeV2 SerdeV3 DfsBinding ObjBinding Keys ConnBase ConnDfs.
Open Scope Z_scope.
Open Scope py_scope.

Definition _META_CAP : Z := FIXED_SIZE + _HDR_CAP.

(** [{dkey: [(position, layer), ...]}] as an insertion-ordered dictionary. *)
Abbreviation groups := (list (bytes * list (nat * Z))).
Fixpoint group_add (dkey : bytes) (x : nat * Z) (g : groups) : groups :=
  match g with
  | [] => [(dkey, [x])]
  | (k, l) :: g => if bool_decide (k = dkey) then (k, l ++ [x]) :: g else (k, l) :: group_add dkey x g
  end.
Fixpoint group_from (i : nat) (addrs : list raddr) (g : groups) : option groups :=
  match addrs with
  | [] => Some g
  | (dkey, Some layer) :: addrs => group_from (S i) addrs (group_add dkey (i, layer) g)
  | (_, None) :: _ => None
  end.
Definition _group_layers (addrs : list raddr) : option groups := group_from 0 addrs [].

Section Defs.
Context {D O A : Type} `{LibDaosObj O} `{MetaCodec} `{!LocalCpu A}.
Abbreviation C := (conn D O A).

(** [_exists_sync]: the metadata akey is the commit record. *)
Definition _exists_raw (addr : raddr) : M C bool :=
  let '(dkey, layer) := addr in
  let! mak := lift (match layer with None => Ok AKEY_META | Some l => akey_meta_layer l end) in
  let! r := onO (fetch dkey [mkItem mak (zeros (Z.to_nat _META_CAP)) _META_CAP] true) in
  match r with
  | [(got, _)] => ret (0 <? got)
  | _ => raise ValueError
  end.

Definition _put_raw (addr : raddr) (header : bytes) (x : src) (n : Z) : M C unit :=
  let '(dkey, layer) := addr in
  let! (pak, mak) := lift (_akeys_for layer) in
  let! hdr := lift (_repack_header header) in
  let! b := src_bytes x in
  let! _ := onO (update dkey [mkItem pak b n] false) in
  onO (update dkey [mkItem mak hdr (len hdr)] true).

(** [_get_raw] from the metadata on. *)
Definition get_payload (dkey pak : bytes) (pl : Z) (metadata : RemoteMetadata) : M C (option Z) :=
  if pl <? md_length metadata then ret None else
  let! mo := alloc metadata in
  match mo with
  | None => ret None
  | Some m =>
      let! view := asks (byte_array m) in
      let n := md_length metadata in
      if (n <? 0) || (len view <? n) then raise ValueError else
      let! r := try_except (onO (fetch dkey [mkItem pak (slice view 0 n) n] false))
        (λ e, if is_exception e then Some (let! _ := _release m in raise e) else None) in
      match r with
      | [(readn, b)] =>
          let! _ := onA (λ a, (tt, poke m b a)) in
          if negb (readn =? n) then let! _ := _release m in ret None else ret (Some m)
      | _ => raise ValueError
      end
  end.

Definition _get_raw (addr : raddr) : M C (option Z) :=
  let '(dkey, layer) := addr in
  let! (pak, mak) := lift (_akeys_for layer) in
  let! r := onO (fetch dkey [mkItem mak (zeros (Z.to_nat _META_CAP)) _META_CAP] true) in
  match r with
  | [(got, buf)] =>
      if got =? 0 then ret None else
      match parse_meta (slice buf 0 got) true with
      | Raise (BadHeader _) => ret None
      | Raise e => raise e
      | Ok hdr =>
          match deserialize (meta hdr) with
          | Raise e => if is_exception e then ret None else raise e
          | Ok metadata => get_payload dkey pak (payload_len hdr) metadata
          end
      end
  | _ => raise ValueError
  end.

Definition _remove_raw (addr : raddr) : M C bool :=
  let '(dkey, layer) := addr in
  match layer with
  | Some l =>
      let! (pak, mak) := lift (_akeys_for (Some l)) in
      let! _ := onO (punch_akeys dkey [pak; mak]) in ret true
  | None => let! _ := onO (punch dkey) in ret true
  end.

(** ** Folding: every layer of a chunk in one transfer *)
Definition entry : Type := option Z * bytes * src * Z.

Definition prep_entry (e : entry) : M C (bytes * bytes * bytes) :=
  let '(layer, header, _, _) := e in
  let! (pak, mak) := lift (_akeys_for layer) in
  let! hdr := lift (_repack_header header) in
  ret (pak, mak, hdr).

Definition _put_raw_folded (dkey : bytes) (entries : list entry) : M C unit :=
  let! preps := mapM prep_entry entries in
  let! bufs := mapM (λ e : entry, src_bytes (e.1.2)) entries in
  let payloads := zip_with (λ p eb, mkItem p.1.1 eb.2 (snd eb.1)) preps (zip entries bufs) in
  let metas := (λ p, mkItem p.1.2 p.2 (len p.2)) <$> preps in
  let! _ := onO (update dkey payloads false) in
  onO (update dkey metas true).

(** One layer of the loop that stages destinations: the payload item to fetch
    and (position, object, n), or nothing for a miss. *)
Definition stage1 (i : nat) (layer : Z) (g : Z * bytes) : M C (option (item * (nat * Z * Z))) :=
  let '(n_meta, buf) := g in
  if n_meta =? 0 then ret None else
  match parse_meta (slice buf 0 n_meta) true with
  | Raise e => if is_exception e then ret None else raise e
  | Ok hdr =>
      match deserialize (meta hdr) with
      | Raise e => if is_exception e then ret None else raise e
      | Ok metadata =>
          if payload_len hdr <? md_length metadata then ret None else
          let! mo := alloc metadata in
          match mo with
          | None => ret None
          | Some m =>
              let! view := asks (byte_array m) in
              let n := md_length metadata in
              if (n <? 0) || (len view <? n) then raise ValueError else
              let! pak := lift (akey_layer layer) in
              ret (Some (mkItem pak (slice view 0 n) n, (i, m, n)))
          end
      end
  end.

Fixpoint stage (i : nat) (l : list (Z * (Z * bytes))) : M C (list (item * (nat * Z * Z))) :=
  match l with
  | [] => ret []
  | (layer, g) :: l =>
      let! x := stage1 i layer g in
      let! xs := stage (S i) l in
      ret (match x with Some x => x :: xs | None => xs end)
  end.

(** The loop over what the payload fetch produced: keep complete payloads,
    give the others back. *)
Fixpoint collect (staged : list (nat * Z * Z)) (readn : list (Z * bytes)) (out : list (option Z))
  : M C (list (option Z)) :=
  match staged, readn with
  | (i, m, n) :: staged, (got, b) :: readn =>
      let! _ := onA (λ a, (tt, poke m b a)) in
      if negb (got =? n) then let! _ := _release m in collect staged readn out
      else collect staged readn (<[i := Some m]> out)
  | _, _ => ret out
  end.

Definition _get_raw_folded (dkey : bytes) (layers : list Z) : M C (list (option Z)) :=
  let! maks := lift (res_map akey_meta_layer layers) in
  let! got := onO (fetch dkey ((λ k, mkItem k (zeros (Z.to_nat _META_CAP)) _META_CAP) <$> maks) true) in
  let out := replicate (length layers) None in
  let! st := stage 0 (zip layers got) in
  match st with
  | [] => ret out
  | _ =>
      let! readn := try_except (onO (fetch dkey (fst <$> st) false))
        (λ e, if is_exception e
              then Some (let! _ := mapM (λ x, _release (snd (fst (snd x)))) st in raise e)
              else None) in
      collect (snd <$> st) readn out
  end.
End Defs.

(** ** Specification: what a (dkey, layer) holds *)
Section View.
Context `{MetaCodec}.

(** The committed metadata under a metadata akey: payload length, metadata. *)
Definition meta_of (v : option dval) : option (Z * RemoteMetadata) :=
  match v with
  | Some (VSingle (b0 :: hb)) =>
      match parse_meta (b0 :: hb) true with
      | Ok hdr =>
          match deserialize (meta hdr) with
          | Ok md => if payload_len hdr <? md_length md then None else Some (payload_len hdr, md)
          | Raise _ => None
          end
      | Raise _ => None
      end
  | _ => None
  end.
(** The first [n] payload bytes, if they are all there. *)
Definition payload_of (v : option dval) (n : Z) : option bytes :=
  match v with
  | Some (VArray p) => if n <=? len p then Some (slice p 0 n) else None
  | _ => None
  end.
Definition raw_obj (m : kvmap) (dk pak mak : bytes) : option (RemoteMetadata * bytes) :=
  match meta_of (m !! (dk, mak)) with
  | Some (_, md) =>
      match payload_of (m !! (dk, pak)) (md_length md) with Some p => Some (md, p) | None => None end
  | None => None
  end.
Definition raw_view (m : kvmap) (addr : raddr) : option (RemoteMetadata * bytes) :=
  match _akeys_for addr.2 with
  | Ok (pak, mak) => raw_obj m addr.1 pak mak
  | Raise _ => None
  end.

(** The store as the connector leaves it under one address: SINGLE metadata
    that fits the read buffer, ARRAY payload, and no committed object of
    length zero. *)
Definition meta_readable (v : option dval) : Prop :=
  match v with None => True | Some (VSingle b) => len b ≤ _META_CAP | Some (VArray _) => False end.
Definition slot_wf (m : kvmap) (dk pak mak : bytes) : Prop :=
  meta_readable (m !! (dk, mak)) ∧ same_kind false (m !! (dk, pak)) = true ∧
  ∀ pl md, meta_of (m !! (dk, mak)) = Some (pl, md) → md_length md ≠ 0.
Definition addr_wf (m : kvmap) (addr : raddr) : Prop :=
  match _akeys_for addr.2 with Ok (pak, mak) => slot_wf m addr.1 pak mak | Raise _ => True end.
End View.

Section RawSpecs.
Context {D O A : Type} `{LibDaosObjLaws O} `{MetaCodecLaws} `{!LocalCpu A} `{!LocalCpuLaws A}.
Implicit Types s : conn D O A.

Definition md_size (md : RemoteMetadata) : Z := size_of (md_shapes md) (md_dtypes md) (md_fmt md).
Definition no_room (md : RemoteMetadata) s : Prop :=
  fst (allocate (md_shapes md) (md_dtypes md) (md_fmt md) (c_mem s)) = None.
(** Only the object store's progress and the allocator changed. *)
Definition same_store s s' : Prop :=
  c_dfs s' = c_dfs s ∧ kv (c_obj s') = kv (c_obj s) ∧ (oup (c_obj s) → oup (c_obj s')).

Lemma same_store_refl s : same_store s s.
Proof. done. Qed.

Lemma meta_item_valid mak : valid_items [mkItem mak (zeros (Z.to_nat _META_CAP)) _META_CAP].
Proof.
  split; [apply NoDup_singleton|]. constructor; [|constructor]. simpl. by vm_compute.
Qed.

Lemma payload_item_valid pak view n :
  0 < n ≤ len view → valid_items [mkItem pak (slice view 0 n) n].
Proof.
  intros Hn. split; [apply NoDup_singleton|]. constructor; [|constructor]. simpl.
  rw len_slice; lia.
Qed.

Lemma len_take_view {X} (view : list X) n : 0 ≤ n ≤ len view → len (slice view 0 n) = n.
Proof. intros. rw len_slice; lia. Qed.

(** What the payload fetch means for the object. *)
Lemma payload_fetched m dk pak view n :
  0 < n ≤ len view → fetchable m dk false (mkItem pak (slice view 0 n) n) →
  let r := fetch_val m dk (mkItem pak (slice view 0 n) n) in
  len r.2 = n ∧
  (r.1 = n → payload_of (m !! (dk, pak)) n = Some r.2) ∧
  (r.1 ≠ n → payload_of (m !! (dk, pak)) n = None).
Proof.
  intros Hn [Hk _]. rw /fetch_val /=. simpl in Hk. destruct (m !! (dk, pak)) as [[b|b]|]; simpl in *; [done| |].
  - set (d := slice b 0 n). assert (len d = Z.min n (len b)) as Hd.
    { pose proof (len_nonneg b). rw /d len_slice; lia. }
    assert (len (slice view 0 n) = n) as Hv by (apply len_take_view; lia).
    split; [rw len_app /len length_drop; rw /len in Hd, Hv; lia|].
    destruct (Z.leb_spec n (len b)) as [Hle|Hgt]; split; try lia; intros Heq; [|done].
    f_equal. rw drop_ge; [unfold len in *; lia|]. by rw app_nil_r.
  - split; [apply len_take_view; lia|]. split; [lia|done].
Qed.

(** The outcome of a load whose specification is [v]. *)
Definition raw_result (v : option (RemoteMetadata * bytes)) (r : option Z) s s' : Prop :=
  match r with
  | Some m => ∃ md p rest, v = Some (md, p) ∧ len (p ++ rest) = md_size md ∧
      allocated (c_mem s) m md (p ++ rest) (c_mem s')
  | None => live (c_mem s') = live (c_mem s) ∧
      (v = None ∨ ∃ md p, v = Some (md, p) ∧ no_room md s)
  end.

Lemma get_payload_spec dk pak pl md s :
  md_length md ≠ 0 → same_kind false (kv (c_obj s) !! (dk, pak)) = true →
  wp (get_payload dk pak pl md) s
    (λ r s', same_store s s' ∧
       raw_result (if pl <? md_length md then None else
                   match payload_of (kv (c_obj s) !! (dk, pak)) (md_length md) with
                   | Some p => Some (md, p) | None => None end) r s s')
    (λ e s', same_store s s' ∧
       ((¬ oup (c_obj s) ∧ live (c_mem s') = live (c_mem s) ∧ ∃ rc, e = DaosError rc) ∨
        (e = ValueError ∧ ¬ (0 ≤ md_length md ≤ md_size md)))).
Proof.
  intros Hn0 Hk. rw /get_payload. destruct (pl <? md_length md).
  { apply wp_ret. split; [done|]. split; [done|by left]. }
  apply wp_bind, wp_onA. intros mo a Hal. pose proof (allocate_law _ _ _ _ _ _ Hal) as Hl.
  set (n := md_length md) in *. destruct mo as [m|].
  2:{ apply wp_ret. split; [done|]. split; [done|].
      destruct (payload_of _ n) as [p|]; [right|by left]. exists md, p. split; [done|]. by rw /no_room Hal. }
  destruct Hl as (Hnone & view & Hlv & Hlive). fold (md_size md) in Hlv.
  set (s1 := mkConn (c_dfs s) (c_obj s) a). assert (allocated (c_mem s) m md view (c_mem s1)) as Hall by done.
  apply wp_bind, wp_asks. rw (allocated_bytes _ _ _ _ _ Hall).
  destruct ((n <? 0) || (len view <? n)) eqn:Hb.
  { apply wp_raise. split; [done|]. right. split; [done|]. apply orb_prop in Hb as [?%Z.ltb_lt|?%Z.ltb_lt]; lia. }
  apply orb_false_elim in Hb as [?%Z.ltb_ge Hnv%Z.ltb_ge].
  assert (0 < n ≤ len view) as Hn by lia.
  apply wp_bind, wp_except, wp_onO.
  wp_use (fetch_spec dk _ false (c_obj s1) (payload_item_valid pak view n Hn)).
  2:{ intros e w (Hkv & Hu & (rc & ->) & Hok & _). simpl. apply wp_bind, wp_onA. intros [] a' [= <-].
      apply wp_raise. split; [done|]. left. split; [|split; [by eapply allocated_release|by eexists]].
      intros Hup. apply (Hok Hup). constructor; [|constructor]. split; [done|]. simpl.
      intros b Hb. rw /s1 /= in Hb. rw Hb in Hk. done. }
  intros r w (Hkv & Hu & -> & HF). simpl. apply Forall_cons in HF as [Hf _].
  destruct (payload_fetched _ _ _ view n Hn Hf) as (Hlen & Hyes & Hno). simpl in Hlen, Hyes, Hno.
  set (r := fetch_val _ _ _) in *. destruct r as [got b] eqn:Er. simpl in *.
  apply wp_bind, wp_onA. intros [] a' [= <-].
  pose proof (allocated_poke _ _ _ _ _ b Hall ltac:(simpl; lia)) as Ha'. simpl in Ha'.
  destruct (Z.eqb_spec got n) as [->|Hne]; simpl.
  - apply wp_ret. split; [done|]. rw Hyes //. exists md, b, (drop (length b) view). split; [done|].
    split; [|done]. rw -Hlv len_app. unfold len in *. rw length_drop. lia.
  - apply wp_bind, wp_onA. intros [] a'' [= <-]. apply wp_ret. split; [done|]. rw Hno //.
    split; [by eapply allocated_release|by left].
Qed.

(** The metadata fetch: what the code sees is the metadata value itself. *)
Lemma meta_fetched m dk mak :
  meta_readable (m !! (dk, mak)) →
  let it := mkItem mak (zeros (Z.to_nat _META_CAP)) _META_CAP in
  fetchable m dk true it ∧
  let r := fetch_val m dk it in
  match m !! (dk, mak) with
  | Some (VSingle b) => r.1 = len b ∧ slice r.2 0 r.1 = b
  | _ => r.1 = 0
  end.
Proof.
  intros Hr it. rw /fetchable /fetch_val /=. destruct (m !! (dk, mak)) as [[b|b]|]; simpl in *; [|done|].
  - split; [split; [done|by intros b' [= <-]]|]. split; [done|]. by apply slice_app_l.
  - split; [split; [done|by intros b' [=]]|done].
Qed.

Lemma parse_meta_raises b rc e : parse_meta b rc = Raise e → ∃ why, e = BadHeader why.
Proof. apply parse_header_raises. Qed.

(** What one metadata fetch answer means. *)
Lemma meta_answer m dk mak :
  meta_readable (m !! (dk, mak)) →
  let r := fetch_val m dk (mkItem mak (zeros (Z.to_nat _META_CAP)) _META_CAP) in
  (r.1 = 0 ∧ meta_of (m !! (dk, mak)) = None) ∨
  (r.1 ≠ 0 ∧ meta_of (m !! (dk, mak)) =
     match parse_meta (slice r.2 0 r.1) true with
     | Ok hdr => match deserialize (meta hdr) with
                 | Ok md => if payload_len hdr <? md_length md then None else Some (payload_len hdr, md)
                 | Raise _ => None
                 end
     | Raise _ => None
     end).
Proof.
  intros Hr r. destruct (meta_fetched m dk mak Hr) as [_ Hf]. fold r in Hf.
  destruct (m !! (dk, mak)) as [[[|b0 b]|b]|]; [left|right|by left|by left].
  - by destruct Hf as [-> _].
  - destruct Hf as [Hl Hs]. split; [rw Hl /len /=; lia|]. rw Hs. done.
Qed.

(** The whole [_get_raw]. *)
Lemma get_raw_spec addr pak mak s :
  _akeys_for addr.2 = Ok (pak, mak) → slot_wf (kv (c_obj s)) addr.1 pak mak →
  wp (_get_raw addr) s
    (λ r s', same_store s s' ∧ raw_result (raw_view (kv (c_obj s)) addr) r s s')
    (λ e s', same_store s s' ∧
       ((¬ oup (c_obj s) ∧ live (c_mem s') = live (c_mem s) ∧ ∃ rc, e = DaosError rc) ∨
        (e = ValueError ∧ ∃ pl md, meta_of (kv (c_obj s) !! (addr.1, mak)) = Some (pl, md) ∧
           ¬ (0 ≤ md_length md ≤ md_size md)))).
Proof.
  destruct addr as [dk layer]. simpl. intros Hak (Hmr & Hpk & Hnz). rw /_get_raw /raw_view /= Hak.
  apply wp_bind, wp_lift, wp_bind, wp_onO. simpl.
  wp_use (fetch_spec dk _ true (c_obj s) (meta_item_valid mak)).
  2:{ intros e w (Hkv & Hu & He & Hok & _). split; [done|]. left. split; [|done].
      intros Hup. apply (Hok Hup). constructor; [by apply meta_fetched|constructor]. }
  intros r w (Hkv & Hu & -> & _). simpl. pose proof (meta_answer _ _ _ Hmr) as Ha. simpl in Ha.
  set (r := fetch_val _ _ _) in *. clearbody r. destruct r as [got buf]. simpl in *.
  set (s1 := mkConn (c_dfs s) w (c_mem s)). rw /raw_obj.
  destruct Ha as [[-> Hmo]|[Hg Hmo]].
  { rw Z.eqb_refl. apply wp_ret. rw Hmo. split; [done|]. split; [done|by left]. }
  destruct (Z.eqb_spec got 0) as [|_]; [done|]. rw Hmo in Hnz |- *. clear Hmo.
  destruct (parse_meta _ true) as [hdr|e] eqn:Hp.
  2:{ destruct (parse_meta_raises _ _ _ Hp) as [why ->]. apply wp_ret. split; [done|]. split; [done|by left]. }
  destruct (deserialize (meta hdr)) as [md|e] eqn:Hd.
  2:{ rw (deserialize_raises _ _ Hd). apply wp_ret. split; [done|]. split; [done|by left]. }
  destruct (payload_len hdr <? md_length md) eqn:El.
  { rw /get_payload El. apply wp_ret. split; [done|]. split; [done|by left]. }
  wp_use (get_payload_spec dk pak (payload_len hdr) md s1).
  - by eapply Hnz.
  - by rw /s1 /= Hkv.
  - intros r s' ((Hd1 & Hk1 & Hu1) & Hr). simpl in *. rw El Hkv in Hr. split; [|exact Hr].
    split; [done|]. split; [by rw Hk1|auto].
  - intros e s' ((Hd1 & Hk1 & Hu1) & Hr). simpl in *. split; [split_and!; [done|by rw Hk1|auto]|].
    destruct Hr as [(Hup & Hl & He)|[-> Hbad]]; [left; naive_solver|right]. split; [done|]. by eexists _, md.
Qed.

(** ** Writing *)
Lemma repack_v1 md pl h :
  v1_header md pl h → header_args (serialize md) pl STATE_COMMITTED →
  _repack_header h = Ok (header_body (serialize md) pl STATE_COMMITTED).
Proof.
  intros (pre & -> & Hl & Hpp)%v1_header_prefix Ha. rw /_repack_header slice_app_l //= Hpp /=.
  rw slice_app_end //; [by rw Hl|]. by apply pack_meta_ok.
Qed.

(** The metadata value of [md] reads back as [md]. *)
Lemma meta_of_body md pl :
  header_args (serialize md) pl STATE_COMMITTED → meta_ok md → md_length md ≤ pl →
  meta_of (Some (VSingle (header_body (serialize md) pl STATE_COMMITTED))) = Some (pl, md).
Proof.
  intros Ha Hok Hle. rw /meta_of. pose proof (len_header_body (serialize md) pl STATE_COMMITTED) as Hl.
  destruct (header_body _ _ _) as [|b0 hb] eqn:Eb.
  { pose proof (len_nonneg (serialize md)). rw /len /= in Hl. rw /len in Hl. lia. }
  rw -Eb parse_meta_body // /= deserialize_serialize //. by destruct (Z.ltb_spec pl (md_length md)); [lia|].
Qed.

Lemma akeys_for_ne layer pak mak : _akeys_for layer = Ok (pak, mak) → pak ≠ mak.
Proof.
  destruct layer as [l|]; rw /_akeys_for; [|by intros [= <- <-]].
  destruct (decide (layer_ok l)); [|by rw akey_layer_bad]. rw akey_layer_ok // akey_meta_layer_ok //=.
  by intros [= <- <-].
Qed.

Lemma put_item_valid ak b : b ≠ [] → valid_items [mkItem ak b (len b)].
Proof.
  intros Hb. split; [apply NoDup_singleton|]. constructor; [|constructor]. simpl.
  destruct b; [done|]. rw /len /=. lia.
Qed.

(** The two updates of one store, in the ghost view. *)
Definition with_payload (m : kvmap) (dk pak b : bytes) : kvmap :=
  <[(dk, pak) := put_val false (m !! (dk, pak)) b]> m.
Definition with_meta (m : kvmap) (dk mak hb : bytes) : kvmap := <[(dk, mak) := VSingle hb]> m.

Lemma put_raw_spec dk layer pak mak h hb x n s :
  let b := src_val x (c_mem s) in
  let m := kv (c_obj s) in
  _akeys_for layer = Ok (pak, mak) → _repack_header h = Ok hb → hb ≠ [] → b ≠ [] → n = len b →
  same_kind false (m !! (dk, pak)) = true → same_kind true (m !! (dk, mak)) = true →
  wp (_put_raw (dk, layer) h x n) s
    (λ _ s', c_dfs s' = c_dfs s ∧ c_mem s' = c_mem s ∧ (oup (c_obj s) → oup (c_obj s')) ∧
       kv (c_obj s') = with_meta (with_payload m dk pak b) dk mak hb)
    (λ e s', c_dfs s' = c_dfs s ∧ c_mem s' = c_mem s ∧ ¬ oup (c_obj s) ∧ (∃ rc, e = DaosError rc) ∧
       (∀ k, k ≠ (dk, pak) → k ≠ (dk, mak) → kv (c_obj s') !! k = m !! k) ∧
       (kv (c_obj s') !! (dk, mak) = m !! (dk, mak) ∨
        kv (c_obj s') = with_meta (with_payload m dk pak b) dk mak hb)).
Proof.
  intros b m Hak Hre Hhb Hb -> Hkp Hkm. rw /_put_raw. apply wp_bind. rw Hak. apply wp_lift. simpl.
  apply wp_bind. rw Hre. apply wp_lift. simpl. apply wp_bind, wp_src_bytes, wp_bind, wp_onO. fold b.
  pose proof (akeys_for_ne _ _ _ Hak) as Hne.
  wp_use (update_spec dk _ false (c_obj s) (put_item_valid pak b Hb)).
  2:{ intros e w (He & Hu & _ & Hoth & Hok). split; [done|]. split; [done|]. split.
      { intros Hup. apply (Hok Hup). by constructor. }
      split; [done|]. split; [|left; apply Hoth; set_solver].
      intros k Hkp' _. apply Hoth. set_solver. }
  intros _ w1 (Hk1 & Hu1). simpl in Hk1. rw /put_item /item_data /= slice_full // in Hk1.
  fold m in Hk1. change (kv w1 = with_payload m dk pak b) in Hk1.
  assert (kv w1 !! (dk, mak) = m !! (dk, mak)) as Hk1m.
  { rw Hk1 /with_payload lookup_insert_ne //. congruence. }
  apply wp_onO. simpl. wp_use (update_spec dk _ true w1 (put_item_valid mak hb Hhb)).
  - intros _ w2 (Hk2 & Hu2). simpl in Hk2. split_and!; try done; [auto|].
    rw Hk2 /put_item /item_data /= slice_full // Hk1 //.
  - intros e w2 (He & Hu2 & Hmp & Hoth & Hok). split; [done|]. split; [done|]. split.
    { intros Hup. apply (Hok (Hu1 Hup)). constructor; [|done]. by rw /= Hk1m. }
    split; [done|]. split.
    { intros k Hkp' Hkm'. rw Hoth; [set_solver|]. rw Hk1 /with_payload lookup_insert_ne //. }
    apply Forall_cons in Hmp as [[Hmp|Hmp] _]; simpl in Hmp; [left; by rw Hmp|right].
    apply map_eq. intros k. rw /item_data /= slice_full // in Hmp.
    destruct (decide (k = (dk, mak))) as [->|Hk].
    + by rw Hmp /with_meta lookup_insert_eq.
    + rw Hoth; [set_solver|]. by rw /with_meta lookup_insert_ne // Hk1.
Qed.
End RawSpecs.

(** ** Properties of the object store *)
Section RawClaims.
Context {D O A : Type} `{LibDaosObjLaws O} `{MetaCodecLaws} `{!LocalCpu A} `{!LocalCpuLaws A}.
Implicit Types s : conn D O A.

(** What the raw layout adds to [storable]: some payload, and metadata that a
    read of [_META_CAP] bytes can take. *)
Definition raw_storable (o : mobj) : Prop :=
  storable o ∧ mo_bytes o ≠ [] ∧ len (serialize (obj_meta o)) ≤ _HDR_CAP.

Lemma raw_storable_args o : raw_storable o → header_args (serialize (obj_meta o)) (len (mo_bytes o)) STATE_COMMITTED.
Proof.
  intros ((_ & [_ Hp] & _) & _ & Hm). rw /_HDR_CAP in Hm.
  split; [rw MAX_META_4060; lia|]. split; [rw /u64; lia|by right].
Qed.

Definition raw_meta (o : mobj) : bytes :=
  header_body (serialize (obj_meta o)) (len (mo_bytes o)) STATE_COMMITTED.

Lemma len_raw_meta o : len (raw_meta o) = 36 + len (serialize (obj_meta o)).
Proof. apply len_header_body. Qed.

(** A slot holding the object [o]. *)
Lemma stored_slot (m : kvmap) dk layer pak mak o :
  _akeys_for layer = Ok (pak, mak) → raw_storable o →
  same_kind false (m !! (dk, pak)) = true →
  let m' := with_meta (with_payload m dk pak (mo_bytes o)) dk mak (raw_meta o) in
  slot_wf m' dk pak mak ∧ raw_view m' (dk, layer) = Some (obj_meta o, mo_bytes o) ∧
  meta_of (m' !! (dk, mak)) = Some (len (mo_bytes o), obj_meta o).
Proof.
  intros Hak Hst Hk m'. pose proof (akeys_for_ne _ _ _ Hak) as Hne.
  pose proof (raw_storable_args o Hst) as Hargs. destruct Hst as ((Hok & _ & _) & Hb & Hcap).
  assert (m' !! (dk, mak) = Some (VSingle (raw_meta o))) as Hm by (rw /m' /with_meta lookup_insert_eq //).
  assert (m' !! (dk, pak) = Some (put_val false (m !! (dk, pak)) (mo_bytes o))) as Hp.
  { rw /m' /with_meta lookup_insert_ne; [congruence|]. by rw /with_payload lookup_insert_eq. }
  assert (meta_of (m' !! (dk, mak)) = Some (len (mo_bytes o), obj_meta o)) as Hmo.
  { rw Hm. by apply meta_of_body. }
  split; [|split; [|done]].
  - rw /slot_wf Hmo Hm Hp. split; [rw /= len_raw_meta /_META_CAP FIXED_SIZE_36; lia|]. split; [done|].
    intros pl md [= <- <-]. simpl. intros Hz. by apply Hb, len_zero_inv.
  - rw /raw_view /= Hak /raw_obj Hmo Hp /=. rw write_at_over len_app.
    pose proof (len_nonneg (drop (length (mo_bytes o)) match m !! (dk, pak) with Some (VArray b) => b | _ => [] end)).
    destruct (Z.leb_spec (len (mo_bytes o)) (len (mo_bytes o) + len (drop (length (mo_bytes o))
      match m !! (dk, pak) with Some (VArray b) => b | _ => [] end))); [|lia].
    by rw slice_app_l.
Qed.

(** Loading a slot that holds [o]. *)
Lemma load_stored dk layer pak mak o s :
  _akeys_for layer = Ok (pak, mak) → storable o → slot_wf (kv (c_obj s)) dk pak mak →
  raw_view (kv (c_obj s)) (dk, layer) = Some (obj_meta o, mo_bytes o) →
  meta_of (kv (c_obj s) !! (dk, mak)) = Some (len (mo_bytes o), obj_meta o) →
  wp (_get_raw (dk, layer)) s
    (λ r s', same_store s s' ∧ loaded o r s s')
    (λ e s', same_store s s' ∧ ¬ oup (c_obj s) ∧ live (c_mem s') = live (c_mem s) ∧ ∃ rc, e = DaosError rc).
Proof.
  intros Hak (_ & _ & Hsz) Hwf Hv Hmo. wp_use (get_raw_spec (dk, layer) pak mak s Hak Hwf).
  - intros r s' [Hs Hr]. split; [done|]. rw Hv /raw_result in Hr. destruct r as [m|].
    + destruct Hr as (md & p & rest & [= <- <-] & Hl & Hn & Ha). split; [done|].
      rw /md_size /= Hsz len_app in Hl. assert (rest = []) as -> by (apply len_zero_inv; lia).
      by rw app_nil_r in Ha.
    + destruct Hr as [Hl [?|(md & p & [= <- <-] & Hal)]]; done.
  - intros e s' [Hs [He|(-> & pl & md & Heq & Hbad)]]; [done|]. rw Hmo in Heq. simplify_eq.
    rw /md_size /= Hsz in Hbad. pose proof (len_nonneg (mo_bytes o)). lia.
Qed.

(** C9: what is stored comes back from the object store: on a backend that
    answers, storing an object whose payload is not empty and whose metadata
    takes at most 512 bytes (what a load reads of it: see
    [oversized_metadata_is_write_only]), with lengths that fit the header,
    under a (dkey, layer) whose akeys hold nothing of another kind, and loading
    it gives a fresh object with the same bytes and layout (or a miss if the
    allocator has no room), whatever object was stored there before, and every
    other (dkey, akey) is untouched. *)
Theorem raw_store_then_load dk layer pak mak m o s :
  oup (c_obj s) → live (c_mem s) !! m = Some o → raw_storable o →
  _akeys_for layer = Ok (pak, mak) →
  same_kind false (kv (c_obj s) !! (dk, pak)) = true → same_kind true (kv (c_obj s) !! (dk, mak)) = true →
  wp (let! (h, x, n) := _prep_write false m in
      let! _ := _put_raw (dk, layer) h x n in
      _get_raw (dk, layer)) s
    (λ r s', loaded o r s s' ∧ raw_view (kv (c_obj s')) (dk, layer) = Some (obj_meta o, mo_bytes o) ∧
       ∀ k, k ≠ (dk, pak) → k ≠ (dk, mak) → kv (c_obj s') !! k = kv (c_obj s) !! k)
    (λ _ _, False).
Proof.
  intros Hup Ho Hst Hak Hkp Hkm. pose proof Hst as (Hso & Hb & _). apply wp_bind.
  eapply wp_mono; [by apply prep_write_spec|simpl|].
  2:{ intros e s' (_ & _ & Hbad). destruct Hso as (_ & Hfit & _). done. }
  intros r s' (-> & pre & Hp & ->). apply wp_bind. fold (obj_meta o) in *.
  assert (v1_header (obj_meta o) (len (mo_bytes o)) (pre ++ serialize (obj_meta o))) as Hh by (by exists pre).
  eapply wp_mono; [apply (put_raw_spec dk layer pak mak _ (raw_meta o)); try done|simpl|naive_solver].
  { apply repack_v1; [done|]. by apply raw_storable_args. }
  intros _ s1 (Hd & Hm & Hu & Hkv).
  destruct (stored_slot (kv (c_obj s)) dk layer pak mak o Hak Hst Hkp) as (Hwf & Hv & Hmo).
  rw -Hkv in Hwf, Hv, Hmo.
  eapply wp_mono; [by apply (load_stored dk layer pak mak o s1)|simpl|naive_solver].
  intros r s' ((_ & Hk & _) & Hr). split; [by rw /loaded Hm in Hr|]. rw Hk. split; [done|].
  intros k Hkp' Hkm'. by rw Hkv /with_meta /with_payload !lookup_insert_ne.
Qed.

(** C3: the metadata akey is the commit record: if a store fails on an address
    that had no metadata (in the payload update, in the metadata update, or
    with the metadata update landed but unacknowledged), any later load of the
    address misses, or returns the complete object; it never returns a partial
    one, gives back the buffer of a torn payload, and raises only while the
    backend does not answer. *)
Theorem raw_torn_store_never_yields_a_partial_object dk layer pak mak o h s :
  raw_storable o → v1_header (obj_meta o) (len (mo_bytes o)) h →
  _akeys_for layer = Ok (pak, mak) →
  kv (c_obj s) !! (dk, mak) = None → same_kind false (kv (c_obj s) !! (dk, pak)) = true →
  wp (_put_raw (dk, layer) h (Copied (mo_bytes o)) (len (mo_bytes o))) s (λ _ _, True)
    (λ _ s1, ∀ s2, kv (c_obj s2) = kv (c_obj s1) → same_kind false (kv (c_obj s1) !! (dk, pak)) = true →
       wp (_get_raw (dk, layer)) s2
         (λ r s', kv (c_obj s') = kv (c_obj s2) ∧
            ((r = None ∧ live (c_mem s') = live (c_mem s2)) ∨ loaded o r s2 s'))
         (λ e s', live (c_mem s') = live (c_mem s2) ∧ ¬ oup (c_obj s2) ∧ ∃ rc, e = DaosError rc)).
Proof.
  intros Hst Hh Hak Hnone Hkp. pose proof Hst as (Hso & Hb & _).
  eapply wp_mono; [apply (put_raw_spec dk layer pak mak _ (raw_meta o)); try done|done|simpl].
  { apply repack_v1; [done|]. by apply raw_storable_args. }
  { by rw Hnone. }
  intros e s1 (_ & _ & _ & _ & _ & Hkv) s2 Hs2 Hk1. rw Hnone -Hs2 in Hkv. rw -Hs2 in Hk1.
  destruct Hkv as [Hmk|Hkv].
  - assert (slot_wf (kv (c_obj s2)) dk pak mak) as Hwf by (rw /slot_wf Hmk /=; naive_solver).
    wp_use (get_raw_spec (dk, layer) pak mak s2 Hak Hwf).
    + intros r s' ((_ & Hk & _) & Hr). split; [done|].
      assert (raw_view (kv (c_obj s2)) (dk, layer) = None) as Hv by by rw /raw_view /= Hak /raw_obj Hmk.
      rw Hv /raw_result in Hr. destruct r as [m|]; [naive_solver|]. left. by destruct Hr.
    + intros e' s' (_ & [(Hu & Hl & He)|(_ & pl & md & Hbad & _)]); [done|]. by rw /= Hmk in Hbad.
  - destruct (stored_slot (kv (c_obj s)) dk layer pak mak o Hak Hst Hkp) as (Hwf & Hv & Hmo).
    rw -Hkv in Hwf, Hv, Hmo.
    wp_use (load_stored dk layer pak mak o s2 Hak Hso Hwf Hv Hmo).
    + intros r s' ((_ & Hk & _) & Hr). split; [done|by right].
    + intros e' s' (_ & Hu & Hl & He). done.
Qed.

(** Different addresses have no akey in common. *)
Lemma akeys_for_disjoint l1 l2 p1 m1 p2 m2 :
  _akeys_for l1 = Ok (p1, m1) → _akeys_for l2 = Ok (p2, m2) → l1 ≠ l2 →
  p1 ≠ p2 ∧ p1 ≠ m2 ∧ m1 ≠ p2 ∧ m1 ≠ m2.
Proof.
  assert (∀ l p m, _akeys_for (Some l) = Ok (p, m) →
    layer_ok l ∧ p = encode "L" ++ dec3 l ∧ m = encode "M" ++ dec3 l) as Hs.
  { intros l p m. rw /_akeys_for. destruct (decide (layer_ok l)); [|by rw akey_layer_bad].
    rw akey_layer_ok // akey_meta_layer_ok //=. by intros [= <- <-]. }
  intros Ha Hb Hne. destruct l1 as [l1|], l2 as [l2|]; try done.
  - apply Hs in Ha as (O1 & -> & ->), Hb as (O2 & -> & ->).
    assert (dec3 l1 ≠ dec3 l2) as Hd by (intros ?%dec3_inj; naive_solver). naive_solver.
  - apply Hs in Ha as (O1 & -> & ->). by injection Hb as <- <-.
  - apply Hs in Hb as (O1 & -> & ->). by injection Ha as <- <-.
Qed.

(** An address whose two keys did not change holds what it held. *)
Lemma raw_view_same m m' addr pak mak :
  _akeys_for addr.2 = Ok (pak, mak) → m' !! (addr.1, pak) = m !! (addr.1, pak) →
  m' !! (addr.1, mak) = m !! (addr.1, mak) → raw_view m' addr = raw_view m addr.
Proof. intros Hak Hp Hm. by rw /raw_view Hak /raw_obj Hp Hm. Qed.

(** Removing one layer removes it and nothing else: it is absent
    afterwards, while every other address keeps its object, the other layers
    of the same chunk included; removing a whole chunk removes every akey of
    its dkey and leaves all other dkeys alone. *)
Theorem remove_keeps_siblings dk layer pak mak s :
  oup (c_obj s) → _akeys_for layer = Ok (pak, mak) →
  wp (_remove_raw (dk, layer)) s
    (λ r s', r = true ∧ c_mem s' = c_mem s ∧ raw_view (kv (c_obj s')) (dk, layer) = None ∧
       kv (c_obj s') !! (dk, mak) = None ∧
       ∀ dk' layer', (dk', layer') ≠ (dk, layer) → (layer = None → dk' ≠ dk) →
         raw_view (kv (c_obj s')) (dk', layer') = raw_view (kv (c_obj s)) (dk', layer'))
    (λ _ _, False).
Proof.
  intros Hup Hak. assert (∀ m', m' !! (dk, mak) = None → raw_view m' (dk, layer) = None) as Hnone.
  { intros m' Hm. by rw /raw_view /= Hak /raw_obj Hm. }
  destruct layer as [l|]; rw /_remove_raw.
  - apply wp_bind. rw Hak. apply wp_lift. simpl. apply wp_bind, wp_onO.
    wp_use (punch_akeys_spec dk [pak; mak] (c_obj s)); [|naive_solver].
    intros _ w (Hk & Hu). apply wp_ret. simpl.
    assert (kv w !! (dk, mak) = None) as Hm.
    { rw Hk map_lookup_filter_None. right. intros v _ Hn. apply Hn. split; [done|]. set_solver. }
    split_and!; try done; [by apply Hnone|]. intros dk' l' Hne _.
    destruct (_akeys_for l') as [[p' m']|] eqn:Hak'; [|by rw /raw_view /= Hak'].
    assert (∀ ak, ak = p' ∨ ak = m' → kv w !! (dk', ak) = kv (c_obj s) !! (dk', ak)) as Hsame.
    { intros ak Hin. rw Hk. destruct (kv (c_obj s) !! (dk', ak)) as [v|] eqn:E.
      - apply map_lookup_filter_Some. split; [done|]. simpl. intros [-> Hin'].
        assert (Some l ≠ l') as Hll by congruence.
        pose proof (akeys_for_disjoint _ _ _ _ _ _ Hak Hak' Hll) as (?&?&?&?).
        rw !elem_of_cons elem_of_nil in Hin'. naive_solver.
      - apply map_lookup_filter_None. by left. }
    apply (raw_view_same _ _ (dk', l') p' m' Hak'); apply Hsame; eauto.
  - apply wp_bind, wp_onO. wp_use (punch_spec dk (c_obj s)); [|naive_solver].
    intros _ w (Hk & Hu). apply wp_ret. simpl.
    assert (kv w !! (dk, mak) = None) as Hm.
    { rw Hk map_lookup_filter_None. right. naive_solver. }
    split_and!; try done; [by apply Hnone|]. intros dk' l' _ Hne. specialize (Hne eq_refl).
    destruct (_akeys_for l') as [[p' m']|] eqn:Hak'; [|by rw /raw_view /= Hak'].
    assert (∀ ak, kv w !! (dk', ak) = kv (c_obj s) !! (dk', ak)) as Hsame.
    { intros ak. rw Hk. destruct (kv (c_obj s) !! (dk', ak)) as [v|] eqn:E.
      - by apply map_lookup_filter_Some.
      - apply map_lookup_filter_None. by left. }
    by apply (raw_view_same _ _ (dk', l') p' m' Hak').
Qed.

(** The two size limits of the raw layout disagree: metadata of 513 to
    4060 bytes is accepted by the store, which then succeeds, but every load
    and every existence probe of that object raises DER_REC2BIG. *)
Theorem oversized_metadata_is_write_only dk layer pak mak m o s :
  oup (c_obj s) → live (c_mem s) !! m = Some o → storable o → mo_bytes o ≠ [] →
  _HDR_CAP < len (serialize (obj_meta o)) ≤ MAX_META →
  _akeys_for layer = Ok (pak, mak) →
  same_kind false (kv (c_obj s) !! (dk, pak)) = true → same_kind true (kv (c_obj s) !! (dk, mak)) = true →
  wp (let! (h, x, n) := _prep_write false m in _put_raw (dk, layer) h x n) s
    (λ _ s1,
       wp (_get_raw (dk, layer)) s1 (λ _ _, False) (λ e _, e = DaosError DER_REC2BIG) ∧
       wp (_exists_raw (dk, layer)) s1 (λ _ _, False) (λ e _, e = DaosError DER_REC2BIG))
    (λ _ _, False).
Proof.
  intros Hup Ho Hso Hb Hcap Hak Hkp Hkm. apply wp_bind.
  eapply wp_mono; [by apply prep_write_spec|simpl|].
  2:{ intros e s' (_ & _ & Hbad). destruct Hso as (_ & Hfit & _). done. }
  intros r s' (-> & pre & Hp & ->). fold (obj_meta o) in *.
  eapply wp_mono; [apply (put_raw_spec dk layer pak mak _ (raw_meta o)); try done|simpl|naive_solver].
  { apply repack_v1; [by exists pre|]. destruct Hso as (_ & [_ Hpl] & _).
    split; [lia|]. split; [rw /u64; lia|by right]. }
  intros _ s1 (Hd & Hm & Hu & Hkv).
  set (it := mkItem mak (zeros (Z.to_nat _META_CAP)) _META_CAP).
  assert (kv (c_obj s1) !! (dk, mak) = Some (VSingle (raw_meta o))) as Hmv.
  { by rw Hkv /with_meta lookup_insert_eq. }
  assert (wp (fetch dk [it] true) (c_obj s1) (λ _ _, False) (λ e _, e = DaosError DER_REC2BIG)) as Hf.
  { wp_use (fetch_spec dk _ true (c_obj s1) (meta_item_valid mak)).
    - intros r w (_ & _ & _ & HF). apply Forall_cons in HF as [[_ HF] _]. specialize (HF _ Hmv). simpl in HF.
      rw len_raw_meta /_META_CAP FIXED_SIZE_36 in HF. lia.
    - intros e w (_ & _ & _ & _ & He). apply He; [auto|]. constructor; [by rw /= Hmv|constructor]. }
  split.
  - rw /_get_raw. apply wp_bind. rw Hak. apply wp_lift, wp_bind, wp_onO.
    eapply wp_mono; [exact Hf|simpl|simpl]; done.
  - rw /_exists_raw. apply wp_bind, wp_lift.
    assert (match layer with None => Ok AKEY_META | Some l => akey_meta_layer l end = Ok mak) as ->.
    { move: Hak. rw /_akeys_for. destruct layer as [l|]; [|by intros [= _ <-]].
      destruct (akey_layer l), (akey_meta_layer l); simpl; try done. by intros [= _ <-]. }
    apply wp_bind, wp_onO. eapply wp_mono; [exact Hf|simpl|simpl]; done.
Qed.

(** ** Folded stores *)
Definition fentry : Type := Z * mobj * bytes.   (* layer, object, its v1 header *)
Definition f_layer (x : fentry) : Z := x.1.1.
Definition f_obj (x : fentry) : mobj := x.1.2.
Definition entry_of (x : fentry) : entry :=
  (Some (f_layer x), x.2, Copied (mo_bytes (f_obj x)), len (mo_bytes (f_obj x))).
Definition f_pak (x : fentry) : bytes := encode "L" ++ dec3 (f_layer x).
Definition f_mak (x : fentry) : bytes := encode "M" ++ dec3 (f_layer x).
Definition f_ok (m : kvmap) (dk : bytes) (x : fentry) : Prop :=
  layer_ok (f_layer x) ∧ raw_storable (f_obj x) ∧
  v1_header (obj_meta (f_obj x)) (len (mo_bytes (f_obj x))) x.2 ∧
  same_kind false (m !! (dk, f_pak x)) = true ∧ same_kind true (m !! (dk, f_mak x)) = true.
Definition f_payload (x : fentry) : item := mkItem (f_pak x) (mo_bytes (f_obj x)) (len (mo_bytes (f_obj x))).
Definition f_meta (x : fentry) : item := mkItem (f_mak x) (raw_meta (f_obj x)) (len (raw_meta (f_obj x))).

Lemma f_akeys x : layer_ok (f_layer x) → _akeys_for (Some (f_layer x)) = Ok (f_pak x, f_mak x).
Proof. intros Hl. by rw /_akeys_for akey_layer_ok // akey_meta_layer_ok. Qed.

Lemma folded_items_valid (f : fentry → item) (b0 : byte) xs m dk :
  Forall (f_ok m dk) xs → NoDup (f_layer <$> xs) →
  (∀ x, it_akey (f x) = [b0] ++ dec3 (f_layer x)) →
  (∀ x, f_ok m dk x → 0 < it_n (f x) ≤ len (it_buf (f x))) → valid_items (f <$> xs).
Proof.
  intros HF Hnd Hk Hn. split.
  - rw -list_fmap_compose. induction xs as [|x xs IH]; [constructor|].
    rw !fmap_cons in Hnd |- *. apply NoDup_cons in Hnd as [Hni Hnd].
    apply Forall_cons in HF as [Hx HF]. constructor; [|by apply IH].
    intros (y & Heq & Hy)%list_elem_of_fmap. apply Hni. apply list_elem_of_fmap. exists y. split; [|done].
    rw /= !Hk in Heq. injection Heq as Heq1 Heq2 Heq3. rw Forall_forall in HF. apply dec3_inj.
    + apply Hx.
    + apply (HF y Hy).
    + by rw /dec3 Heq1 Heq2 Heq3.
  - apply Forall_fmap. eapply Forall_impl; [exact HF|]. intros x Hx. by apply Hn.
Qed.

(** The loop of [_put_raw_folded] builds exactly these items. *)
Lemma folded_preps m dk xs s :
  Forall (f_ok m dk) xs →
  mapM prep_entry (entry_of <$> xs) s =
    (Ok ((λ x, (f_pak x, f_mak x, raw_meta (f_obj x))) <$> xs), s) ∧
  mapM (λ e : entry, src_bytes (e.1.2)) (entry_of <$> xs) s =
    (Ok ((λ x, mo_bytes (f_obj x)) <$> xs), s).
Proof.
  intros HF. induction HF as [|x xs Hx _ [IH1 IH2]]; [done|]. rw !fmap_cons.
  cbn [mapM]. destruct Hx as (Hl & Hst & Hh & _).
  assert (prep_entry (entry_of x) s = (Ok (f_pak x, f_mak x, raw_meta (f_obj x)), s)) as Hp.
  { rw /prep_entry /entry_of /bind /lift f_akeys // (repack_v1 _ _ _ Hh) //. by apply raw_storable_args. }
  split; [rw /bind Hp IH1 //|]. rw /bind {1}/entry_of /src_bytes /=. rw /bind /src_bytes /= in IH2. rw IH2 //.
Qed.

Lemma folded_zip xs :
  zip_with (λ p (eb : entry * bytes), mkItem p.1.1 eb.2 (snd eb.1))
    ((λ x, (f_pak x, f_mak x, raw_meta (f_obj x))) <$> xs)
    (zip (entry_of <$> xs) ((λ x, mo_bytes (f_obj x)) <$> xs)) = f_payload <$> xs ∧
  (λ p : bytes * bytes * bytes, mkItem p.1.2 p.2 (len p.2)) <$>
    ((λ x, (f_pak x, f_mak x, raw_meta (f_obj x))) <$> xs) = f_meta <$> xs.
Proof. induction xs as [|x xs [IH1 IH2]]; [done|]. by rw !fmap_cons /= IH1 IH2. Qed.

Lemma f_payload_data m dk x : f_ok m dk x → item_data (f_payload x) = mo_bytes (f_obj x).
Proof. intros _. by rw /item_data /= slice_full. Qed.
Lemma f_meta_data x : item_data (f_meta x) = raw_meta (f_obj x).
Proof. by rw /item_data /= slice_full. Qed.
Lemma f_mak_not_pak x y : f_mak x ≠ f_pak y.
Proof. done. Qed.

(** A layer whose payload akey and metadata akey hold its new values. *)
Lemma folded_slot m m' dk x :
  f_ok m dk x →
  m' !! (dk, f_pak x) = Some (put_val false (m !! (dk, f_pak x)) (mo_bytes (f_obj x))) →
  m' !! (dk, f_mak x) = Some (VSingle (raw_meta (f_obj x))) →
  raw_view m' (dk, Some (f_layer x)) = Some (obj_meta (f_obj x), mo_bytes (f_obj x)).
Proof.
  intros (Hl & Hst & _ & Hk & _) Hp Hm. pose proof (f_akeys x Hl) as Hak.
  destruct (stored_slot m dk (Some (f_layer x)) _ _ (f_obj x) Hak Hst Hk) as (_ & Hv & _). rw -Hv.
  apply (raw_view_same _ _ (dk, Some (f_layer x)) _ _ Hak); simpl.
  - by rw Hp /with_meta lookup_insert_ne // /with_payload lookup_insert_eq.
  - by rw Hm /with_meta lookup_insert_eq.
Qed.

(** The two requests of a folded store are well formed, and neither names an
    akey of the other. *)
Lemma folded_requests m dk xs :
  Forall (f_ok m dk) xs → NoDup (f_layer <$> xs) →
  valid_items (f_payload <$> xs) ∧ valid_items (f_meta <$> xs) ∧
  (∀ x, (dk, f_mak x) ∉ (λ it, (dk, it_akey it)) <$> (f_payload <$> xs)) ∧
  (∀ x, (dk, f_pak x) ∉ (λ it, (dk, it_akey it)) <$> (f_meta <$> xs)).
Proof.
  intros HF Hnd. split_and!.
  - eapply (folded_items_valid f_payload); [done|done|done|]. intros x (_ & (_ & Hb & _) & _).
    simpl. destruct (mo_bytes (f_obj x)); [done|]. rw /len /=. lia.
  - eapply (folded_items_valid f_meta); [done|done|done|]. intros x _. simpl. rw len_raw_meta.
    pose proof (len_nonneg (serialize (obj_meta (f_obj x)))). lia.
  - intros x (it & [= Heq] & (y & -> & _)%list_elem_of_fmap)%list_elem_of_fmap. done.
  - intros x (it & [= Heq] & (y & -> & _)%list_elem_of_fmap)%list_elem_of_fmap. done.
Qed.

(** C38: folding the layers of a chunk keeps the commit protocol layer by
    layer: when the folded store succeeds every layer holds exactly its
    object, and nothing else changes; when it fails at any point, each layer
    that had no metadata still reads as a miss or holds its complete object. *)
Theorem folded_store_commits_each_layer dk xs s :
  Forall (f_ok (kv (c_obj s)) dk) xs → NoDup (f_layer <$> xs) →
  wp (_put_raw_folded dk (entry_of <$> xs)) s
    (λ _ s', (∀ x, x ∈ xs → raw_view (kv (c_obj s')) (dk, Some (f_layer x)) =
                Some (obj_meta (f_obj x), mo_bytes (f_obj x))) ∧
       ∀ k, k ∉ (λ x, (dk, f_pak x)) <$> xs → k ∉ (λ x, (dk, f_mak x)) <$> xs →
         kv (c_obj s') !! k = kv (c_obj s) !! k)
    (λ e s', ¬ oup (c_obj s) ∧ ∀ x, x ∈ xs → kv (c_obj s) !! (dk, f_mak x) = None →
       kv (c_obj s') !! (dk, f_mak x) = None ∨
       raw_view (kv (c_obj s')) (dk, Some (f_layer x)) = Some (obj_meta (f_obj x), mo_bytes (f_obj x))).
Proof.
  intros HF Hnd. set (m := kv (c_obj s)) in *. destruct (folded_preps m dk xs s HF) as [Hp1 Hp2].
  destruct (folded_zip xs) as [Hz1 Hz2].
  destruct (folded_requests m dk xs HF Hnd) as (Hvp & Hvm & Hmp & Hpm).
  assert (∀ x, x ∈ xs → f_payload x ∈ f_payload <$> xs ∧ f_meta x ∈ f_meta <$> xs) as Hin.
  { intros x Hx. split; by apply list_elem_of_fmap_2. }
  rw Forall_forall in HF.
  rw /_put_raw_folded. apply wp_bind. rw {1}/wp Hp1. apply wp_bind. rw {1}/wp Hp2. rw Hz1 Hz2.
  apply wp_bind, wp_onO. wp_use (update_spec dk (f_payload <$> xs) false (c_obj s) Hvp).
  2:{ intros e w (_ & _ & _ & Hoth & Hok). split.
      { intros Hup. apply (Hok Hup), Forall_fmap, Forall_forall. intros x Hx. apply (HF x Hx). }
      intros x Hx Hn. left. by rw Hoth. }
  intros _ w1 (Hk1 & Hu1). fold m in Hk1. apply wp_onO. simpl.
  assert (∀ x, x ∈ xs → kv w1 !! (dk, f_pak x) = Some (put_val false (m !! (dk, f_pak x)) (mo_bytes (f_obj x)))) as Hpv.
  { intros x Hx. destruct (Hin x Hx) as [Hi _]. pose proof (fold_put_in dk false _ m _ (proj1 Hvp) Hi) as Hl.
    rw Hk1. rw (f_payload_data m dk) in Hl; [by apply HF|]. exact Hl. }
  assert (∀ x, kv w1 !! (dk, f_mak x) = m !! (dk, f_mak x)) as Hmv.
  { intros x. rw Hk1. by apply fold_put_other. }
  wp_use (update_spec dk (f_meta <$> xs) true w1 Hvm).
  - intros _ w2 (Hk2 & Hu2). split.
    + intros x Hx. destruct (Hin x Hx) as [_ Hi]. apply (folded_slot m); [by apply HF| |].
      * rw /= Hk2 fold_put_other //. by apply Hpv.
      * rw /= Hk2. rw (fold_put_in dk true _ (kv w1) _ (proj1 Hvm) Hi) f_meta_data //.
    + intros k Hkp Hkm. rw /= Hk2 fold_put_other; [by rw -list_fmap_compose|].
      rw Hk1 fold_put_other //; by rw -list_fmap_compose.
  - intros e w2 (_ & _ & Hmay & Hoth & Hok). split.
    { intros Hup. apply (Hok (Hu1 Hup)), Forall_fmap, Forall_forall. intros x Hx. simpl.
      rw Hmv. apply (HF x Hx). }
    intros x Hx Hn. rw Forall_fmap Forall_forall in Hmay. destruct (Hmay x Hx) as [Hold|Hnew]; simpl in *.
    + left. by rw Hold Hmv.
    + right. apply (folded_slot m); [by apply HF| |].
      * rw /= Hoth //. by apply Hpv.
      * rw /= Hnew f_meta_data //.
Qed.
End RawClaims.

(** ** Concrete runs *)
Module DemoRaw.
Definition world (m : kvmap) (faults : list (option MemObj.ofault)) : conn unit MemObj.mem MemLM.mem :=
  mkConn tt (MemObj.mkMem m ∅ 0 faults) (DemoDfs.mem 100).
Definition dk : bytes := encode "chunk".
Lemma raw_storable_obj : raw_storable (A := MemLM.mem) DemoDfs.obj.
Proof. split; [apply DemoDfs.storable_obj|]. split; [done|]. by vm_compute. Qed.
End DemoRaw.

Lemma raw_store_then_load_witness :
  wp (let! (h, x, n) := _prep_write false 7 in
      let! _ := _put_raw (DemoRaw.dk, Some 3) h x n in
      _get_raw (DemoRaw.dk, Some 3)) (DemoRaw.world ∅ [])
    (λ r s', loaded DemoDfs.obj r (DemoRaw.world ∅ []) s') (λ _ _, False).
Proof.
  eapply wp_mono; [apply (raw_store_then_load DemoRaw.dk (Some 3) (encode "L003") (encode "M003") 7
    DemoDfs.obj (DemoRaw.world ∅ []));
    [reflexivity|reflexivity|apply DemoRaw.raw_storable_obj|reflexivity|reflexivity|reflexivity]| |by intros].
  intros r s' [Hr _]. exact Hr.
Defined.

(** The metadata update fails, not landed. *)
Lemma raw_torn_store_never_yields_a_partial_object_witness :
  let s := DemoRaw.world ∅ [None; Some (MemObj.mkOFault 1011 0)] in
  let h := take 24 (DemoDfs.file (obj_meta DemoDfs.obj) (encode "kvkv")) in
  ∃ s1, _put_raw (DemoRaw.dk, None) h (Copied (encode "kvkv")) 4 s = (Raise (DaosError (-1011)), s1) ∧
    wp (_get_raw (DemoRaw.dk, None)) s1
      (λ r s', (r = None ∧ live (c_mem s') = live (c_mem s1)) ∨ loaded DemoDfs.obj r s1 s')
      (λ e s', ¬ oup (c_obj s1)).
Proof.
  set (s := DemoRaw.world ∅ [None; Some (MemObj.mkOFault 1011 0)]).
  set (h := take 24 (DemoDfs.file (obj_meta DemoDfs.obj) (encode "kvkv"))).
  exists (snd (_put_raw (DemoRaw.dk, None) h (Copied (encode "kvkv")) 4 s)).
  assert (_put_raw (DemoRaw.dk, None) h (Copied (encode "kvkv")) 4 s =
    (Raise (DaosError (-1011)), snd (_put_raw (DemoRaw.dk, None) h (Copied (encode "kvkv")) 4 s))) as Hrun.
  { apply run_of. vm_compute. reflexivity. }
  split; [exact Hrun|].
  pose proof (raw_torn_store_never_yields_a_partial_object DemoRaw.dk None AKEY_PAYLOAD AKEY_META DemoDfs.obj
    h s DemoRaw.raw_storable_obj DemoDfs.header_obj eq_refl eq_refl eq_refl) as Hw.
  pose proof (wp_run _ _ _ _ _ _ Hw Hrun) as Hget. cbn beta iota in Hget.
  assert (same_kind false (kv (c_obj (snd (_put_raw (DemoRaw.dk, None) h (Copied (encode "kvkv")) 4 s)))
    !! (DemoRaw.dk, AKEY_PAYLOAD)) = true) as Hk by (vm_compute; reflexivity).
  eapply wp_mono; [exact (Hget _ eq_refl Hk)| |].
  - intros r s' [_ Hr]. exact Hr.
  - intros e s' (_ & Hu & _). exact Hu.
Defined.

Lemma remove_keeps_siblings_witness :
  let m : kvmap := {[(DemoRaw.dk, encode "L001") := VArray (encode "a"); (DemoRaw.dk, encode "L002") := VArray (encode "b")]} in
  wp (_remove_raw (DemoRaw.dk, Some 1)) (DemoRaw.world m [])
    (λ r s', raw_view (kv (c_obj s')) (DemoRaw.dk, Some 2) = raw_view m (DemoRaw.dk, Some 2)) (λ _ _, False).
Proof.
  intros m. eapply wp_mono; [apply (remove_keeps_siblings DemoRaw.dk (Some 1) (encode "L001") (encode "M001")
    (DemoRaw.world m [])); reflexivity| |by intros].
  intros r s' (_ & _ & _ & _ & Hsib). apply Hsib; [intros [=]|intros [=]].
Defined.

Lemma folded_store_commits_each_layer_witness :
  let h := take 24 (DemoDfs.file (obj_meta DemoDfs.obj) (encode "kvkv")) in
  let xs := [(0, DemoDfs.obj, h); (5, DemoDfs.obj, h)] in
  wp (_put_raw_folded DemoRaw.dk (entry_of <$> xs)) (DemoRaw.world ∅ [])
    (λ _ s', raw_view (kv (c_obj s')) (DemoRaw.dk, Some 5) = Some (obj_meta DemoDfs.obj, encode "kvkv"))
    (λ _ _, False).
Proof.
  intros h xs. eapply wp_mono; [apply (folded_store_commits_each_layer DemoRaw.dk xs (DemoRaw.world ∅ []))| |].
  - assert (∀ l, layer_ok l → f_ok (kv (c_obj (DemoRaw.world ∅ []))) DemoRaw.dk (l, DemoDfs.obj, h)) as Hx.
    { intros l Hl. split; [exact Hl|]. split; [apply DemoRaw.raw_storable_obj|].
      split; [apply DemoDfs.header_obj|split; reflexivity]. }
    constructor; [|constructor; [|constructor]]; apply Hx; split; vm_compute; intros [=].
  - apply (bool_decide_unpack _). by vm_compute.
  - intros _ s' [Hv _]. apply (Hv (5, DemoDfs.obj, h)). set_solver.
  - intros e s' [Hu _]. apply Hu. reflexivity.
Defined.

(** A codec whose metadata strings are 616 bytes long. *)
Module DemoPad.
#[local] Instance padded : MetaCodec := {|
  serialize m := MemLM.ser m ++ zeros 600; deserialize b := MemLM.deser (take 16 b) |}.
#[local] Program Instance padded_laws : MetaCodecLaws := {| meta_ok m := md_length m = 4 ∧ md_shapes m = 4 |}.
Next Obligation. intros [n z [] []] [Hn Hz]. simpl in Hn, Hz. subst. vm_compute. reflexivity. Qed.
Next Obligation. intros b e. apply (@deserialize_raises _ MemLM.codec MemLM.codec_laws (take 16 b) e). Qed.

Lemma padded_storable_obj : storable (A := MemLM.mem) DemoDfs.obj.
Proof.
  split; [|split].
  - split; by vm_compute.
  - apply (bool_decide_unpack _). by vm_compute.
  - done.
Qed.

Lemma oversized_metadata_is_write_only_witness :
  wp (let! (h, x, n) := _prep_write false 7 in _put_raw (DemoRaw.dk, None) h x n) (DemoRaw.world ∅ [])
    (λ _ s1, wp (_get_raw (DemoRaw.dk, None)) s1 (λ _ _, False) (λ e _, e = DaosError DER_REC2BIG))
    (λ _ _, False).
Proof.
  eapply wp_mono; [apply (oversized_metadata_is_write_only DemoRaw.dk None AKEY_PAYLOAD AKEY_META 7
    DemoDfs.obj (DemoRaw.world ∅ []));
    [reflexivity|reflexivity|apply padded_storable_obj|intros [=]|split; vm_compute; [reflexivity|intros [=]]|
     reflexivity|reflexivity|reflexivity]| |by intros].
  intros _ s1 [Hg _]. exact Hg.
Defined.
End DemoPad.
