(* ===== verification/FoldedLoad.v ===== *)
(** * Folded loads: [_get_raw_folded] of [connector.py]

    The layers of a chunk are read in two transfers: all metadata, then the
    payloads of the layers whose metadata is good, each straight into a memory
    object staged for it.  [ConnRaw] has the definitions; here is what they do
    with the allocator.  [staged] is one staged destination as the proof sees
    it, [sg_map] the memory objects of a list of them; the two loops add them
    to the live objects and hand them out or give them back one by one. *)
From S2P Require Import Prelude Crc32 Serde SerdeV2 SerdeV3 DfsBinding ObjBinding Keys ConnBase ConnDfs ConnRaw.
Open Scope Z_scope.
Open Scope py_scope.

Section Folded.
Context {D O A : Type} `{LibDaosObjLaws O} `{MetaCodecLaws} `{!LocalCpu A} `{!LocalCpuLaws A}.
Implicit Types s : conn D O A.

(** What the code makes of the answer to one metadata fetch. *)
Definition decoded (g : Z * bytes) : option RemoteMetadata :=
  if g.1 =? 0 then None else
  match parse_meta (slice g.2 0 g.1) true with
  | Ok hdr =>
      match deserialize (meta hdr) with
      | Ok md => if payload_len hdr <? md_length md then None else Some md
      | Raise _ => None
      end
  | Raise _ => None
  end.

Definition mak_of (layer : Z) : bytes := encode "M" ++ dec3 layer.
Definition pak_of (layer : Z) : bytes := encode "L" ++ dec3 layer.
Definition meta_request (layer : Z) : item := mkItem (mak_of layer) (zeros (Z.to_nat _META_CAP)) _META_CAP.

(** A layer of the chunk as the connector leaves it: readable metadata of an
    object that has bytes and fits the memory its layout asks for. *)
Definition layer_wf (m : kvmap) (dk : bytes) (layer : Z) : Prop :=
  layer_ok layer ∧ slot_wf m dk (pak_of layer) (mak_of layer) ∧
  ∀ pl md, meta_of (m !! (dk, mak_of layer)) = Some (pl, md) → 0 < md_length md ≤ md_size md.

Record staged := mkStaged { sg_pos : nat; sg_layer : Z; sg_m : Z; sg_md : RemoteMetadata; sg_view : bytes }.
Definition sg_item (x : staged) : item :=
  mkItem (pak_of (sg_layer x)) (slice (sg_view x) 0 (md_length (sg_md x))) (md_length (sg_md x)).
Definition sg_entry (x : staged) : item * (nat * Z * Z) := (sg_item x, (sg_pos x, sg_m x, md_length (sg_md x))).
Definition sg_obj (x : staged) (b : bytes) : mobj :=
  mkMobj b 1 (md_shapes (sg_md x)) (md_dtypes (sg_md x)) (md_fmt (sg_md x)).
Definition sg_ok (x : staged) : Prop :=
  len (sg_view x) = md_size (sg_md x) ∧ 0 < md_length (sg_md x) ≤ md_size (sg_md x).

(** The live objects once the destinations [xs] are staged over [L]. *)
Fixpoint sg_map (xs : list staged) (L : gmap Z mobj) : gmap Z mobj :=
  match xs with
  | [] => L
  | x :: xs => <[sg_m x := sg_obj x (sg_view x)]> (sg_map xs L)
  end.
(** They are new and no two the same. *)
Definition sg_fresh (xs : list staged) (L : gmap Z mobj) : Prop :=
  NoDup (sg_m <$> xs) ∧ ∀ x, x ∈ xs → L !! sg_m x = None.

Lemma sg_map_other xs L m : m ∉ sg_m <$> xs → sg_map xs L !! m = L !! m.
Proof.
  induction xs as [|x xs IH]; simpl; [done|]. rw not_elem_of_cons. intros [Hne Hn].
  rw lookup_insert_ne; auto.
Qed.
Lemma sg_map_insert xs L m o : m ∉ sg_m <$> xs → sg_map xs (<[m := o]> L) = <[m := o]> (sg_map xs L).
Proof.
  induction xs as [|x xs IH]; simpl; [done|]. rw not_elem_of_cons. intros [Hne Hn].
  rw IH // insert_insert_ne //.
Qed.
Lemma sg_fresh_cons x xs L : sg_fresh (x :: xs) L →
  sg_fresh xs L ∧ L !! sg_m x = None ∧ (sg_m x ∉ sg_m <$> xs) ∧ sg_map xs L !! sg_m x = None.
Proof.
  intros [Hnd Hn]. apply NoDup_cons in Hnd as [Hni Hnd]. assert (L !! sg_m x = None) as HL by (apply Hn; by left).
  split_and!; try done; [split; [done|]; intros y Hy; apply Hn; by right|]. by rw sg_map_other.
Qed.

(** ** Staging one layer *)
Lemma stage1_spec i layer g s :
  layer_ok layer → (∀ md, decoded g = Some md → 0 < md_length md ≤ md_size md) →
  wp (stage1 i layer g) s
    (λ r s', c_dfs s' = c_dfs s ∧ c_obj s' = c_obj s ∧
       match r with
       | None => live (c_mem s') = live (c_mem s) ∧
           (decoded g = None ∨ ∃ md, decoded g = Some md ∧ no_room md s)
       | Some y => ∃ x, y = sg_entry x ∧ sg_pos x = i ∧ sg_layer x = layer ∧ decoded g = Some (sg_md x) ∧
           sg_ok x ∧ live (c_mem s) !! sg_m x = None ∧
           live (c_mem s') = <[sg_m x := sg_obj x (sg_view x)]> (live (c_mem s))
       end)
    (λ _ _, False).
Proof.
  destruct g as [n_meta buf]. intros Hl Hsz. rw /decoded /= in Hsz |- *. rw /stage1.
  destruct (n_meta =? 0); [by apply wp_ret; auto|].
  destruct (parse_meta _ true) as [hdr|e] eqn:Ep.
  2:{ destruct (parse_meta_raises _ _ _ Ep) as [why ->]. apply wp_ret. auto. }
  destruct (deserialize (meta hdr)) as [md|e] eqn:Ed.
  2:{ rw (deserialize_raises _ _ Ed). apply wp_ret. auto. }
  destruct (payload_len hdr <? md_length md); [by apply wp_ret; auto|]. specialize (Hsz md eq_refl).
  apply wp_bind, wp_onA. intros mo a Hal. pose proof (allocate_law _ _ _ _ _ _ Hal) as Hlaw.
  destruct mo as [m|].
  2:{ apply wp_ret. split_and!; try done. right. exists md. by rw /no_room Hal. }
  destruct Hlaw as (Hnone & view & Hlv & Hlive). fold (md_size md) in Hlv.
  apply wp_bind, wp_asks. erewrite byte_array_law; [|by rw Hlive lookup_insert_eq]. simpl.
  destruct ((md_length md <? 0) || (len view <? md_length md)) eqn:Hb.
  { apply orb_prop in Hb as [?%Z.ltb_lt|?%Z.ltb_lt]; lia. }
  rw akey_layer_ok //. apply wp_bind, wp_lift, wp_ret. split; [done|]. split; [done|].
  by exists (mkStaged i layer m md view).
Qed.

(** ** Staging them all *)
Definition stage_post (i : nat) (l : list (Z * (Z * bytes))) s (xs : list staged) s' : Prop :=
  c_dfs s' = c_dfs s ∧ c_obj s' = c_obj s ∧ live (c_mem s') = sg_map xs (live (c_mem s)) ∧
  sg_fresh xs (live (c_mem s)) ∧ NoDup (sg_pos <$> xs) ∧ Forall sg_ok xs ∧
  (∀ x, x ∈ xs → (i ≤ sg_pos x)%nat ∧ ∃ g, l !! (sg_pos x - i)%nat = Some (sg_layer x, g) ∧ decoded g = Some (sg_md x)) ∧
  (∀ j layer g, l !! j = Some (layer, g) → (i + j)%nat ∉ sg_pos <$> xs →
     decoded g = None ∨ ∃ md s1, decoded g = Some md ∧ no_room (D := D) (O := O) md s1).

Lemma stage_spec i l s :
  Forall (λ x, layer_ok x.1 ∧ ∀ md, decoded x.2 = Some md → 0 < md_length md ≤ md_size md) l →
  wp (stage i l) s (λ st s', ∃ xs, st = sg_entry <$> xs ∧ stage_post i l s xs s') (λ _ _, False).
Proof.
  revert i s. induction l as [|[layer g] l IH]; intros i s Hl; simpl.
  { apply wp_ret. exists []. split; [done|]. split_and!; try done; [split; [constructor|]|constructor|]; by intros ? ?%elem_of_nil. }
  apply Forall_cons in Hl as [[Hlo Hsz] Hl]. apply wp_bind.
  eapply wp_mono; [by apply (stage1_spec i layer g s)|simpl|done]. intros r s1 (Hd1 & Ho1 & Hr).
  apply wp_bind. eapply wp_mono; [by apply IH|simpl|done].
  intros st s2 (xs & -> & Hd2 & Ho2 & Hm2 & Hf2 & Hp2 & Hok2 & Hin2 & Hmiss2). apply wp_ret.
  assert (∀ x, x ∈ xs → (i ≤ sg_pos x)%nat ∧ ∃ g', ((layer, g) :: l) !! (sg_pos x - i)%nat = Some (sg_layer x, g') ∧
    decoded g' = Some (sg_md x)) as Hin.
  { intros x Hx. destruct (Hin2 x Hx) as (Hle & g' & Hg & Hdec). split; [lia|]. exists g'. split; [|done].
    by replace (sg_pos x - i)%nat with (Datatypes.S (sg_pos x - Datatypes.S i)) by lia. }
  assert (∀ j y g', l !! j = Some (y, g') → (i + Datatypes.S j)%nat ∉ sg_pos <$> xs →
    decoded g' = None ∨ ∃ md s1, decoded g' = Some md ∧ no_room (D := D) (O := O) md s1) as Hmiss.
  { intros j y g' Hj Hn. apply (Hmiss2 j y g' Hj). by replace (Datatypes.S i + j)%nat with (i + Datatypes.S j)%nat by lia. }
  destruct r as [y|].
  - destruct Hr as (x & -> & <- & <- & Hdec & Hok & Hn & Hm1). exists (x :: xs). split; [done|].
    assert (sg_m x ∉ sg_m <$> xs) as Hni.
    { intros (z & Heq & Hz)%list_elem_of_fmap. pose proof (proj2 Hf2 z Hz) as Hzn.
      by rw -Heq Hm1 lookup_insert_eq in Hzn. }
    split; [by rw Hd2|]. split; [by rw Ho2|]. split; [by rw Hm2 Hm1 sg_map_insert|]. split.
    { split; [by constructor; [|apply Hf2]|]. intros z [->|Hz]%elem_of_cons; [done|].
      pose proof (proj2 Hf2 z Hz) as Hzn. rw Hm1 in Hzn. apply lookup_insert_None in Hzn. by destruct Hzn. }
    split.
    { rw fmap_cons. constructor; [|done]. intros (z & Heq & Hz)%list_elem_of_fmap. destruct (Hin2 z Hz) as [Hle _]. lia. }
    split; [by constructor|]. split.
    + intros z [->|Hz]%elem_of_cons; [|by apply Hin]. split; [done|]. exists g. by rw Nat.sub_diag.
    + intros [|j] y g' Hj Hnj; simpl in Hj.
      * rw Nat.add_0_r /= not_elem_of_cons in Hnj. by destruct Hnj.
      * apply (Hmiss j y g' Hj). intros Hin'. apply Hnj. rw fmap_cons. by right.
  - destruct Hr as (Hm1 & Hr). exists xs. split; [done|].
    split; [by rw Hd2|]. split; [by rw Ho2|]. split; [by rw Hm2 Hm1|]. rw -Hm1. split_and!; try done.
    intros [|j] y g' Hj Hnj; simpl in Hj.
    + injection Hj as -> ->. destruct Hr as [?|(md & ? & ?)]; eauto.
    + by apply (Hmiss j y g').
Qed.

(** ** Handing the destinations out *)
(** One destination after the payload fetch gave [r] for it. *)
Definition handed (out out' : list (option Z)) (L' : gmap Z mobj) (x : staged) (r : Z * bytes) : Prop :=
  if r.1 =? md_length (sg_md x)
  then out' !! sg_pos x = Some (Some (sg_m x)) ∧
       L' !! sg_m x = Some (sg_obj x (r.2 ++ drop (length r.2) (sg_view x)))
  else out' !! sg_pos x = out !! sg_pos x ∧ L' !! sg_m x = None.

(** [L] becomes [L'] by some of the destinations [xs], with their results in [out']. *)
Definition handed_out (xs : list staged) (reads : list (Z * bytes)) (out : list (option Z)) (L : gmap Z mobj)
    (out' : list (option Z)) (L' : gmap Z mobj) : Prop :=
  length out' = length out ∧ L ⊆ L' ∧
  (∀ j, j ∉ sg_pos <$> xs → out' !! j = out !! j) ∧
  (∀ k x r, xs !! k = Some x → reads !! k = Some r → handed out out' L' x r) ∧
  (∀ m, is_Some (L' !! m) → is_Some (L !! m) ∨ m ∈ sg_m <$> xs).

Lemma collect_spec xs reads out L s :
  Forall2 (λ x r, len r.2 = md_length (sg_md x)) xs reads →
  live (c_mem s) = sg_map xs L → sg_fresh xs L → NoDup (sg_pos <$> xs) → Forall sg_ok xs →
  Forall (λ x, (sg_pos x < length out)%nat) xs →
  wp (ConnRaw.collect (snd <$> (sg_entry <$> xs)) reads out) s
    (λ out' s', c_dfs s' = c_dfs s ∧ c_obj s' = c_obj s ∧ handed_out xs reads out L out' (live (c_mem s')))
    (λ _ _, False).
Proof.
  intros HF. revert out L s. induction HF as [|x [got b] xs reads Hb _ IH]; intros out L s Hlive Hf Hp Hok Hlt.
  { apply wp_ret. simpl in Hlive. rw /handed_out Hlive. split_and!; try done. intros m Hm. by left. }
  destruct (sg_fresh_cons _ _ _ Hf) as (Hf' & HLm & Hni & Hmap). simpl in Hlive, Hb.
  rw fmap_cons in Hp. apply NoDup_cons in Hp as [Hpi Hp]. apply Forall_cons in Hok as [[Hlv Hn] Hok].
  apply Forall_cons in Hlt as [Hx Hlt]. rw !fmap_cons /=.
  set (o := sg_obj x (b ++ drop (length b) (sg_view x))).
  apply wp_bind, wp_onA. intros [] a [= <-].
  assert (live (poke (sg_m x) b (c_mem s)) = <[sg_m x := o]> (sg_map xs L)) as Hpoke.
  { rw (poke_law _ _ _ (sg_obj x (sg_view x))); [by rw Hlive lookup_insert_eq|simpl; lia|].
    by rw Hlive insert_insert_eq. }
  destruct (got =? md_length (sg_md x)) eqn:Eg; simpl.
  - eapply wp_mono; [apply (IH (<[sg_pos x := Some (sg_m x)]> out) (<[sg_m x := o]> L)); simpl; try done| |done].
    + by rw Hpoke sg_map_insert.
    + split; [apply Hf'|]. intros y Hy. rw lookup_insert_ne; [|by apply Hf'].
      intros Heq. apply Hni. rw Heq. by apply list_elem_of_fmap_2.
    + eapply Forall_impl; [exact Hlt|]. intros y Hy. by rw /= length_insert.
    + intros out' s' (Hd & Ho & Hlen & Hsub & Hoth & Hhand & Hdom). split; [done|]. split; [done|].
      rw length_insert in Hlen. split; [done|]. split; [etrans; [by apply insert_subseteq|exact Hsub]|]. split; [|split].
      * intros j Hj. rw fmap_cons not_elem_of_cons in Hj. destruct Hj as [Hne Hj]. rw Hoth // list_lookup_insert_ne //.
      * intros [|k] y r Hy Hr; simplify_eq/=.
        { rw /handed Eg. split; [rw Hoth // list_lookup_insert_eq //|].
          eapply lookup_weaken; [|exact Hsub]. by rw lookup_insert_eq. }
        specialize (Hhand k y r Hy Hr). rw /handed in Hhand |- *. destruct (r.1 =? _); [done|].
        rw list_lookup_insert_ne // in Hhand. intros Heq. apply Hpi. rw Heq.
        by apply list_elem_of_fmap_2, (list_elem_of_lookup_2 _ k).
      * intros m Hm. rw fmap_cons. destruct (Hdom m Hm) as [HL|Hin]; [|by right; right].
        destruct (decide (m = sg_m x)) as [->|Hne]; [by right; left|]. rw lookup_insert_ne // in HL. by left.
  - apply wp_bind, wp_onA. intros [] a [= <-].
    eapply wp_mono; [apply (IH out L); simpl; try done| |done].
    { rw (ref_count_down_law _ _ o); [by rw Hpoke lookup_insert_eq|]. by rw /= Hpoke delete_insert_id. }
    intros out' s' (Hd & Ho & Hlen & Hsub & Hoth & Hhand & Hdom). split; [done|]. split; [done|]. split; [done|].
    split; [done|]. split; [|split].
    + intros j Hj. rw fmap_cons not_elem_of_cons in Hj. apply Hoth, Hj.
    + intros [|k] y r Hy Hr; simplify_eq/=; [|by apply (Hhand k)]. rw /handed Eg. split; [by apply Hoth|].
      destruct (live (c_mem s') !! sg_m y) eqn:E; [|done]. destruct (Hdom (sg_m y)) as [[? Hbad]|?]; [by rw E|by rw HLm in Hbad|done].
    + intros m Hm. destruct (Hdom m Hm); [by left|right]. rw fmap_cons. by right.
Qed.

(** The failure path: every destination goes back. *)
Lemma release_all_spec xs L s :
  live (c_mem s) = sg_map xs L → sg_fresh xs L →
  wp (mapM (λ x : item * (nat * Z * Z), _release (snd (fst (snd x)))) (sg_entry <$> xs)) s
    (λ _ s', c_dfs s' = c_dfs s ∧ c_obj s' = c_obj s ∧ live (c_mem s') = L) (λ _ _, False).
Proof.
  revert s. induction xs as [|x xs IH]; intros s Hlive Hf; [by apply wp_ret|].
  destruct (sg_fresh_cons _ _ _ Hf) as (Hf' & HLm & Hni & Hmap). rw fmap_cons. cbn [mapM].
  apply wp_bind, wp_onA. intros [] a [= <-]. apply wp_bind.
  eapply wp_mono; [apply IH; [|done]| |done].
  - simpl in Hlive |- *. erewrite ref_count_down_law; [|by rw Hlive lookup_insert_eq]. by rw Hlive /= delete_insert_id.
  - intros l s' (Hd & Ho & Hm). apply wp_ret. done.
Qed.

(** ** The two requests *)
Lemma layer_keys layer : layer_ok layer → _akeys_for (Some layer) = Ok (pak_of layer, mak_of layer).
Proof. intros Hl. by rw /_akeys_for akey_layer_ok // akey_meta_layer_ok. Qed.

Lemma res_map_maks layers : Forall layer_ok layers → res_map akey_meta_layer layers = Ok (mak_of <$> layers).
Proof. intros HF. apply res_map_total. eapply Forall_impl; [exact HF|]. intros l Hl. by rw akey_meta_layer_ok. Qed.

(** Akeys of distinct layers are distinct. *)
Lemma layer_items_valid {X} (f : X → item) (g : X → Z) (b0 : byte) xs :
  Forall (λ x, layer_ok (g x)) xs → NoDup (g <$> xs) → (∀ x, it_akey (f x) = [b0] ++ dec3 (g x)) →
  Forall (λ x, 0 < it_n (f x) ≤ len (it_buf (f x))) xs → valid_items (f <$> xs).
Proof.
  intros HF Hnd Hk Hn. split; [|by apply Forall_fmap]. rw -list_fmap_compose. clear Hn.
  induction HF as [|x xs Hx HF IH]; [constructor|]. rw !fmap_cons in Hnd |- *.
  apply NoDup_cons in Hnd as [Hni Hnd]. constructor; [|by apply IH].
  intros (y & Heq & Hy)%list_elem_of_fmap. apply Hni, list_elem_of_fmap. exists y. split; [|done].
  rw /= !Hk in Heq. apply (app_inj_1 [b0] [b0]) in Heq as [_ Heq]; [|done].
  rw Forall_forall in HF. apply dec3_inj; auto.
Qed.

Lemma meta_requests_valid layers : Forall layer_ok layers → NoDup layers → valid_items (meta_request <$> layers).
Proof.
  intros HF Hnd. apply (layer_items_valid meta_request id (Byte.x4d)); try done; [by rw list_fmap_id|].
  apply Forall_forall. intros l _. by vm_compute.
Qed.

Lemma meta_decoded m dk layer :
  layer_wf m dk layer →
  decoded (fetch_val m dk (meta_request layer)) = snd <$> meta_of (m !! (dk, mak_of layer)).
Proof.
  intros (_ & (Hmr & _) & _). rw /decoded. destruct (meta_answer _ _ _ Hmr) as [[Hz ->]|[Hnz ->]]; simpl in *;
    fold (meta_request layer) in *.
  - by rw Hz.
  - destruct (Z.eqb_spec (fetch_val m dk (meta_request layer)).1 0) as [?|_]; [done|].
    destruct (parse_meta _ true); [|done]. destruct (deserialize _); [|done]. by destruct (_ <? _).
Qed.

Lemma zip_fetched m dk layers j layer g :
  zip layers (fetch_val m dk <$> (meta_request <$> layers)) !! j = Some (layer, g) ↔
  layers !! j = Some layer ∧ g = fetch_val m dk (meta_request layer).
Proof.
  rw lookup_zip_with !list_lookup_fmap. destruct (layers !! j) as [l|]; simpl; [|naive_solver].
  split; [by intros [= -> ->]|]. by intros [[= ->] ->].
Qed.

Lemma layer_view m dk layer (md : option RemoteMetadata) :
  layer_ok layer → snd <$> meta_of (m !! (dk, mak_of layer)) = md →
  raw_view m (dk, Some layer) =
    md ≫= λ md, match payload_of (m !! (dk, pak_of layer)) (md_length md) with Some p => Some (md, p) | None => None end.
Proof.
  intros Hl <-. rw /raw_view. cbn [fst snd]. rw layer_keys // /raw_obj.
  by destruct (meta_of _) as [[pl md]|].
Qed.

(** What the payload fetch says about a staged layer. *)
Lemma staged_read m dk x :
  layer_wf m dk (sg_layer x) → snd <$> meta_of (m !! (dk, mak_of (sg_layer x))) = Some (sg_md x) →
  sg_ok x → fetchable m dk false (sg_item x) →
  let r := fetch_val m dk (sg_item x) in
  len r.2 = md_length (sg_md x) ∧
  raw_view m (dk, Some (sg_layer x)) = if r.1 =? md_length (sg_md x) then Some (sg_md x, r.2) else None.
Proof.
  intros (Hl & _) Hmd [Hv Hn] Hf r.
  destruct (payload_fetched m dk (pak_of (sg_layer x)) (sg_view x) (md_length (sg_md x))) as (Hlen & Hyes & Hno);
    [lia|exact Hf|]. split; [exact Hlen|]. rw (layer_view _ _ _ _ Hl Hmd) /=. simpl in Hyes, Hno.
  destruct (Z.eqb_spec r.1 (md_length (sg_md x))) as [Heq|Hne]; [rw (Hyes Heq) //|rw (Hno Hne) //].
Qed.

Lemma nodup_fmap_inj {X Y} (f : X → Y) l x y : NoDup (f <$> l) → x ∈ l → y ∈ l → f x = f y → x = y.
Proof.
  intros Hnd [i Hi]%list_elem_of_lookup [j Hj]%list_elem_of_lookup Heq.
  assert (i = j) as ->; [|congruence]. apply (NoDup_lookup (f <$> l) _ _ (f x)); [done| |];
    rw list_lookup_fmap ?Hi ?Hj //= Heq //.
Qed.

Lemma payload_requests_valid layers dk m xs :
  Forall (layer_wf m dk) layers → NoDup layers → NoDup (sg_pos <$> xs) → Forall sg_ok xs →
  (∀ x, x ∈ xs → layers !! sg_pos x = Some (sg_layer x)) → valid_items (sg_item <$> xs).
Proof.
  intros Hwf Hnd Hp Hok Hin. apply (layer_items_valid sg_item sg_layer Byte.x4c); try done.
  - apply Forall_forall. intros x Hx. rw Forall_forall in Hwf. apply Hwf.
    eapply list_elem_of_lookup_2, Hin, Hx.
  - apply NoDup_fmap_2_strong; [|by eapply NoDup_fmap_1]. intros x y Hx Hy Heq.
    eapply nodup_fmap_inj; [exact Hp|done..|]. pose proof (Hin y Hy) as Hy'. rw -Heq in Hy'.
    eapply NoDup_lookup; [exact Hnd|by apply Hin|exact Hy'].
  - eapply Forall_impl; [exact Hok|]. intros x [Hv Hn]. simpl. rw len_take_view; lia.
Qed.

Lemma payload_fetchable m dk x : layer_wf m dk (sg_layer x) → fetchable m dk false (sg_item x).
Proof.
  intros (_ & (_ & Hk & _) & _). split; [done|]. intros b Hb. simpl in Hb. by rw Hb in Hk.
Qed.

(** What a position of the result says of its layer: a copy of the complete
    object in new memory, or that there is none or no memory for it. *)
Definition layer_read (dk : bytes) (layer : Z) (r : option Z) s s' : Prop :=
  match r with
  | Some o => ∃ md p rest, raw_view (kv (c_obj s)) (dk, Some layer) = Some (md, p) ∧
      len (p ++ rest) = md_size md ∧ live (c_mem s) !! o = None ∧
      live (c_mem s') !! o = Some (mkMobj (p ++ rest) 1 (md_shapes md) (md_dtypes md) (md_fmt md))
  | None => raw_view (kv (c_obj s)) (dk, Some layer) = None ∨
      ∃ md p s1, raw_view (kv (c_obj s)) (dk, Some layer) = Some (md, p) ∧ no_room (D := D) (O := O) md s1
  end.

(** Each position reads its own layer; the objects handed out are new,
    distinct, and the only new ones. *)
Definition folded_result (dk : bytes) (layers : list Z) (out : list (option Z)) s s' : Prop :=
  length out = length layers ∧ live (c_mem s) ⊆ live (c_mem s') ∧
  (∀ i layer r, layers !! i = Some layer → out !! i = Some r → layer_read dk layer r s s') ∧
  (∀ i j o, out !! i = Some (Some o) → out !! j = Some (Some o) → i = j) ∧
  (∀ o, is_Some (live (c_mem s') !! o) → is_Some (live (c_mem s) !! o) ∨ Some o ∈ out).

(** *** Assembling the result *)
Section Outcome.
Context (dk : bytes) (layers : list Z) (s : conn D O A) (xs : list staged) (out' : list (option Z)) (s' : conn D O A).
Abbreviation m := (kv (c_obj s)).
Abbreviation reads := (fetch_val m dk <$> (sg_item <$> xs)).
Hypothesis wf_layers : Forall (layer_wf m dk) layers.
Hypothesis fresh_xs : sg_fresh xs (live (c_mem s)).
Hypothesis pos_xs : NoDup (sg_pos <$> xs).
Hypothesis ok_xs : Forall sg_ok xs.
Hypothesis staged_xs : ∀ x, x ∈ xs → layers !! sg_pos x = Some (sg_layer x) ∧
  snd <$> meta_of (m !! (dk, mak_of (sg_layer x))) = Some (sg_md x).
Hypothesis missed : ∀ j layer, layers !! j = Some layer → j ∉ sg_pos <$> xs →
  snd <$> meta_of (m !! (dk, mak_of layer)) = None ∨
  ∃ md s1, snd <$> meta_of (m !! (dk, mak_of layer)) = Some md ∧ no_room (D := D) (O := O) md s1.
Hypothesis handed_xs :
  handed_out xs reads (replicate (length layers) None) (live (c_mem s)) out' (live (c_mem s')).

(** A staged layer, what its fetch gave and where it ended. *)
Lemma staged_outcome x : x ∈ xs →
  ∃ r : Z * bytes, handed (replicate (length layers) None) out' (live (c_mem s')) x r ∧
    len r.2 = md_length (sg_md x) ∧
    raw_view m (dk, Some (sg_layer x)) = (if r.1 =? md_length (sg_md x) then Some (sg_md x, r.2) else None) ∧
    (replicate (length layers) (None : option Z)) !! sg_pos x = Some None.
Proof.
  intros Hx. destruct (staged_xs x Hx) as [Hl Hmd].
  pose proof (proj1 (Forall_forall _ _) wf_layers) as Hwf. pose proof (proj1 (Forall_forall _ _) ok_xs) as Hoks.
  assert (layer_wf m dk (sg_layer x)) as Hw by (eapply Hwf, list_elem_of_lookup_2, Hl).
  exists (fetch_val m dk (sg_item x)). destruct handed_xs as (_ & _ & _ & Hh & _). split.
  - apply list_elem_of_lookup in Hx as [k Hk]. apply (Hh k); [done|]. by rw !list_lookup_fmap Hk.
  - destruct (staged_read m dk x Hw Hmd (Hoks x Hx) (payload_fetchable _ _ _ Hw)) as [? ?].
    split; [done|]. split; [done|]. apply lookup_replicate. split; [done|]. by eapply lookup_lt_Some.
Qed.

Lemma handed_inv i o : out' !! i = Some (Some o) →
  ∃ x (r : Z * bytes), x ∈ xs ∧ sg_pos x = i ∧ sg_m x = o ∧ len r.2 = md_length (sg_md x) ∧
    raw_view m (dk, Some (sg_layer x)) = Some (sg_md x, r.2) ∧
    live (c_mem s') !! o = Some (sg_obj x (r.2 ++ drop (length r.2) (sg_view x))).
Proof.
  intros Hi. destruct (decide (i ∈ sg_pos <$> xs)) as [(x & -> & Hx)%list_elem_of_fmap|Hn].
  - destruct (staged_outcome x Hx) as (r & Hh & Hlen & Hv & Hrep). rw /handed in Hh.
    destruct (r.1 =? _); destruct Hh as [Ho Hlv].
    + rw Ho in Hi. injection Hi as <-. exists x, r. done.
    + by rw Ho Hrep in Hi.
  - destruct handed_xs as (_ & _ & Hoth & _). rw (Hoth _ Hn) in Hi. apply lookup_replicate in Hi as [? _]. done.
Qed.

Lemma folded_outcome : folded_result dk layers out' s s'.
Proof.
  destruct handed_xs as (Hlen & Hsub & Hoth & _ & Hdom). rw length_replicate in Hlen.
  split; [done|]. split; [done|]. split; [|split].
  - intros i layer [o|] Hl Ho.
    + destruct (handed_inv i o Ho) as (x & r & Hx & <- & <- & Hlr & Hv & Hlv). destruct (staged_xs x Hx) as [Hl' _].
      simplify_eq. exists (sg_md x), r.2, (drop (length r.2) (sg_view x)). split; [done|].
      destruct (proj1 (Forall_forall _ _) ok_xs x Hx) as [Hvl Hn].
      split; [|split; [by apply fresh_xs|done]]. rw -Hvl /len length_app length_drop. rw /len in Hlr, Hvl. lia.
    + destruct (decide (i ∈ sg_pos <$> xs)) as [(x & -> & Hx)%list_elem_of_fmap|Hn].
      * destruct (staged_xs x Hx) as [Hl' _]. simplify_eq.
        destruct (staged_outcome x Hx) as (r & Hh & _ & Hv & _). rw /handed in Hh.
        destruct (r.1 =? _); [|by left]. destruct Hh as [Hh _]. by rw Hh in Ho.
      * destruct (proj1 (Forall_forall _ _) wf_layers layer) as (Hlo & _); [by eapply list_elem_of_lookup_2|].
        destruct (missed i layer Hl Hn) as [Hm|(md & s1 & Hm & Hr)]; rw /layer_read (layer_view _ _ _ _ Hlo Hm) /=; [by left|].
        destruct (payload_of _ _) as [p|]; [right|by left]. by exists md, p, s1.
  - intros i j o (x & ? & Hx & <- & <- & _)%handed_inv (y & ? & Hy & <- & Heq & _)%handed_inv.
    f_equal. by eapply nodup_fmap_inj; [apply fresh_xs|..].
  - intros o Ho. destruct (Hdom o Ho) as [?|(x & -> & Hx)%list_elem_of_fmap]; [by left|right].
    destruct (staged_outcome x Hx) as (r & Hh & _). rw /handed in Hh. destruct (r.1 =? _); destruct Hh as [Hh Hn].
    + by eapply list_elem_of_lookup_2.
    + destruct Ho as [? Ho]. by rw Hn in Ho.
Qed.
End Outcome.

(** *** The loops on the fetched metadata *)
Lemma stage_ready m dk layers :
  Forall (layer_wf m dk) layers →
  Forall (λ x : Z * (Z * bytes), layer_ok x.1 ∧ ∀ md, decoded x.2 = Some md → 0 < md_length md ≤ md_size md)
    (zip layers (fetch_val m dk <$> (meta_request <$> layers))).
Proof.
  intros Hwf. apply Forall_lookup. intros j [layer g] [Hl ->]%zip_fetched.
  pose proof (Forall_lookup_1 _ _ _ _ Hwf Hl) as Hw. split; [apply Hw|]. intros md Hd. simpl in Hd.
  rw (meta_decoded _ _ _ Hw) in Hd. destruct (meta_of _) as [[pl md']|] eqn:E; [|done]. injection Hd as ->.
  by eapply Hw.
Qed.

Lemma staged_facts m dk layers (xs : list staged) :
  Forall (layer_wf m dk) layers →
  (∀ x, x ∈ xs → (0 ≤ sg_pos x)%nat ∧ ∃ g, zip layers (fetch_val m dk <$> (meta_request <$> layers)) !! (sg_pos x - 0)%nat
     = Some (sg_layer x, g) ∧ decoded g = Some (sg_md x)) →
  (∀ x, x ∈ xs → layers !! sg_pos x = Some (sg_layer x) ∧
     snd <$> meta_of (m !! (dk, mak_of (sg_layer x))) = Some (sg_md x)) ∧
  Forall (λ x, (sg_pos x < length layers)%nat) xs.
Proof.
  intros Hwf Hin. assert (∀ x, x ∈ xs → layers !! sg_pos x = Some (sg_layer x) ∧
     snd <$> meta_of (m !! (dk, mak_of (sg_layer x))) = Some (sg_md x)) as Hst.
  { intros x Hx. destruct (Hin x Hx) as (_ & g & Hg & Hd). rw Nat.sub_0_r in Hg. apply zip_fetched in Hg as [Hl ->].
    split; [done|]. rw -(meta_decoded m dk); [by eapply Forall_lookup_1|done]. }
  split; [exact Hst|]. apply Forall_forall. intros x Hx. destruct (Hst x Hx) as [Hl _]. by eapply lookup_lt_Some.
Qed.

Lemma missed_facts m dk layers (xs : list staged) :
  Forall (layer_wf m dk) layers →
  (∀ j layer g, zip layers (fetch_val m dk <$> (meta_request <$> layers)) !! j = Some (layer, g) →
     (0 + j)%nat ∉ sg_pos <$> xs →
     decoded g = None ∨ ∃ md s1, decoded g = Some md ∧ no_room (D := D) (O := O) md s1) →
  ∀ j layer, layers !! j = Some layer → j ∉ sg_pos <$> xs →
    snd <$> meta_of (m !! (dk, mak_of layer)) = None ∨
    ∃ md s1, snd <$> meta_of (m !! (dk, mak_of layer)) = Some md ∧ no_room (D := D) (O := O) md s1.
Proof.
  intros Hwf Hmiss j layer Hl Hn. rw -(meta_decoded m dk layer); [by eapply Forall_lookup_1|].
  apply (Hmiss j layer); [by apply zip_fetched|done].
Qed.

(** The payload transfer, once the destinations [xs] are staged. *)
Lemma folded_payload_spec dk layers s s1 xs :
  let m := kv (c_obj s) in
  NoDup layers → Forall (layer_wf m dk) layers →
  c_dfs s1 = c_dfs s → kv (c_obj s1) = m → (oup (c_obj s) → oup (c_obj s1)) →
  live (c_mem s1) = sg_map xs (live (c_mem s)) → sg_fresh xs (live (c_mem s)) →
  NoDup (sg_pos <$> xs) → Forall sg_ok xs → Forall (λ x, (sg_pos x < length layers)%nat) xs →
  (∀ x, x ∈ xs → layers !! sg_pos x = Some (sg_layer x) ∧
     snd <$> meta_of (m !! (dk, mak_of (sg_layer x))) = Some (sg_md x)) →
  wp (let! readn := try_except (onO (fetch dk (sg_item <$> xs) false))
        (λ e, if is_exception e
              then Some (let! _ := mapM (λ x : item * (nat * Z * Z), _release (snd (fst (snd x)))) (sg_entry <$> xs) in raise e)
              else None) in
      ConnRaw.collect (snd <$> (sg_entry <$> xs)) readn (replicate (length layers) None)) s1
    (λ out s', same_store s s' ∧ handed_out xs (fetch_val m dk <$> (sg_item <$> xs)) (replicate (length layers) None)
                 (live (c_mem s)) out (live (c_mem s')))
    (λ e s', same_store s s' ∧ ¬ oup (c_obj s) ∧ live (c_mem s') = live (c_mem s) ∧ ∃ rc, e = DaosError rc).
Proof.
  intros m Hnd Hwf Hd1 Hkv Hu Hm1 Hfr Hp Hok Hpos Hst.
  assert (Forall (λ x, layer_wf m dk (sg_layer x)) xs) as Hwx.
  { apply Forall_forall. intros x Hx. destruct (Hst x Hx) as [Hl _]. exact (Forall_lookup_1 _ _ _ _ Hwf Hl). }
  apply wp_bind, wp_except, wp_onO.
  wp_use (fetch_spec dk (sg_item <$> xs) false (c_obj s1));
    [eapply payload_requests_valid; [exact Hwf|done..|]; intros x Hx; by destruct (Hst x Hx)| |]; rw Hkv.
  - intros reads w2 (Hkv2 & Hu2 & -> & _). eapply wp_mono; [apply (collect_spec xs _ _ (live (c_mem s)))| |done].
    all: try done.
    + apply Forall2_fmap_r, Forall2_fmap_r, Forall_Forall2_diag. apply Forall_forall. intros x Hx.
      pose proof (proj1 (Forall_forall _ _) Hwx x Hx) as Hw. pose proof (proj1 (Forall_forall _ _) Hok x Hx) as Hk.
      destruct (Hst x Hx) as [_ Hmd]. apply (staged_read m dk x Hw Hmd Hk (payload_fetchable _ _ _ Hw)).
    + eapply Forall_impl; [exact Hpos|]. intros x Hx. by rw length_replicate.
    + intros out' s2 (Hd2 & Ho2 & Hh). split; [|done]. rw /same_store Hd2 Ho2 /= Hd1 Hkv2. auto.
  - intros e w2 (Hkv2 & Hu2 & (rc & ->) & Hok2 & _). simpl.
    apply wp_bind. eapply wp_mono; [by apply (release_all_spec xs (live (c_mem s)))| |done].
    intros l s2 (Hd2 & Ho2 & Hm2). apply wp_raise. split; [rw /same_store Hd2 Ho2 /= Hd1 Hkv2; auto|].
    split; [|split; [done|by eexists]]. intros Hup. apply (Hok2 (Hu Hup)), Forall_fmap.
    eapply Forall_impl; [exact Hwx|]. intros x. apply payload_fetchable.
Qed.

(** A load of the layers of a chunk in two transfers is the loads of the
    layers: it returns one entry per layer, each a complete copy of that
    layer's object in a memory object of its own, or a miss because the layer
    is not there, is torn, or no memory is left for it; a destination staged
    for a layer that turns out short is given back, so that nothing is
    allocated but what is returned.  If a transfer fails, every destination is
    given back; it fails only while the backend does not answer. *)
Theorem folded_load_reads_each_layer dk layers s :
  NoDup layers → Forall (layer_wf (kv (c_obj s)) dk) layers →
  wp (_get_raw_folded dk layers) s
    (λ out s', same_store s s' ∧ folded_result dk layers out s s')
    (λ e s', same_store s s' ∧ ¬ oup (c_obj s) ∧ live (c_mem s') = live (c_mem s) ∧ ∃ rc, e = DaosError rc).
Proof.
  intros Hnd Hwf. set (m := kv (c_obj s)) in *.
  assert (Forall layer_ok layers) as Hlo by (eapply Forall_impl; [exact Hwf|]; intros l Hl; apply Hl).
  rw /_get_raw_folded res_map_maks //. apply wp_bind, wp_lift, wp_bind, wp_onO.
  rw -list_fmap_compose. change ((λ k, mkItem k (zeros (Z.to_nat _META_CAP)) _META_CAP) ∘ mak_of) with meta_request.
  wp_use (fetch_spec dk (meta_request <$> layers) true (c_obj s) (meta_requests_valid _ Hlo Hnd)); fold m.
  2:{ intros e w (Hkv & Hu & He & Hok & _). split; [done|]. split; [|done]. intros Hup. apply (Hok Hup).
      apply Forall_fmap. eapply Forall_impl; [exact Hwf|]. intros l (_ & (Hmr & _) & _). by apply meta_fetched. }
  intros got w (Hkv & Hu & -> & _). apply wp_bind.
  wp_use (stage_spec 0 (zip layers (fetch_val m dk <$> (meta_request <$> layers))) (mkConn (c_dfs s) w (c_mem s)));
    [by apply stage_ready| |done].
  intros st s1 (xs & -> & Hd1 & Ho1 & Hm1 & Hfr & Hp & Hok & Hin & Hmiss). simpl in Hd1, Ho1, Hm1, Hfr.
  destruct (staged_facts m dk layers xs Hwf Hin) as [Hst Hpos].
  pose proof (missed_facts m dk layers xs Hwf Hmiss) as Hms.
  assert (∀ out' s2, handed_out xs (fetch_val m dk <$> (sg_item <$> xs)) (replicate (length layers) None)
    (live (c_mem s)) out' (live (c_mem s2)) → folded_result dk layers out' s s2) as Hend.
  { intros out' s2 Hh. by apply (folded_outcome dk layers s xs out' s2). }
  destruct (sg_entry <$> xs) as [|e0 st0] eqn:Est.
  { apply fmap_nil_inv in Est as ->. apply wp_ret. split; [by rw /same_store Hd1 Ho1|]. apply Hend.
    simpl in Hm1. rw /handed_out Hm1. split_and!; try done. intros o Ho. by left. }
  rw -Est. assert (fst <$> (sg_entry <$> xs) = sg_item <$> xs) as Hitems by by rw -list_fmap_compose.
  rw Hitems. eapply wp_mono; [apply (folded_payload_spec dk layers s s1 xs); try done; by rw Ho1| |done].
  intros out' s2 [Hss Hh]. split; [exact Hss|by apply Hend].
Qed.
End Folded.

(** ** A concrete chunk: layers 3 and 5 are stored, layer 4 is not *)
Module DemoFolded.
Definition stored (dk : bytes) (name : string) : kvmap :=
  {[(dk, encode ("L" +:+ name)%string) := VArray (encode "kvkv");
    (dk, encode ("M" +:+ name)%string) := VSingle (raw_meta DemoDfs.obj)]}.
Definition chunk (dk : bytes) : kvmap := stored dk "003" ∪ stored dk "005".

Lemma layer_wf_by_lookup (m : kvmap) dk layer :
  layer_ok layer → same_kind false (m !! (dk, pak_of layer)) = true →
  m !! (dk, mak_of layer) = None ∨ m !! (dk, mak_of layer) = Some (VSingle (raw_meta DemoDfs.obj)) →
  layer_wf (A := MemLM.mem) m dk layer.
Proof.
  intros Hl Hk Hm. assert (meta_of (Some (VSingle (raw_meta DemoDfs.obj))) = Some (4, obj_meta DemoDfs.obj)) as E
    by (vm_compute; reflexivity).
  assert (len (raw_meta DemoDfs.obj) ≤ _META_CAP) as Hcap by (vm_compute; discriminate).
  split; [exact Hl|]. destruct Hm as [Hm|Hm]; rw /slot_wf Hm.
  - split; [split; [exact I|split; [exact Hk|]]|]; intros pl md Heq; discriminate Heq.
  - rw E. split; [split; [exact Hcap|split; [exact Hk|]]|]; intros pl md Heq; injection Heq as <- <-.
    + vm_compute. discriminate.
    + split; vm_compute; [reflexivity|discriminate].
Qed.
End DemoFolded.

Lemma folded_load_reads_each_layer_witness :
  let s := mkConn tt (MemObj.healthy (DemoFolded.chunk DemoRaw.dk)) (DemoDfs.mem 100) in
  wp (_get_raw_folded DemoRaw.dk [3; 4; 5]) s (λ out s', folded_result DemoRaw.dk [3; 4; 5] out s s') (λ _ _, False) ∧
  fst (_get_raw_folded DemoRaw.dk [3; 4; 5] s) = Ok [Some 8; None; Some 9].
Proof.
  intros s. split; [|vm_compute; reflexivity].
  eapply wp_mono; [apply (folded_load_reads_each_layer DemoRaw.dk [3; 4; 5] s)| |].
  - apply (bool_decide_unpack _). vm_compute. exact I.
  - repeat (apply List.Forall_cons; [apply DemoFolded.layer_wf_by_lookup;
      [split; vm_compute; discriminate|vm_compute; reflexivity|vm_compute; auto]|]). apply List.Forall_nil.
  - intros out s' [_ Hr]. exact Hr.
  - intros e s' (_ & Hu & _). apply Hu. reflexivity.
Defined.

(** Metadata that promises more bytes than its layout has memory for makes
    the folded load raise, and what was staged for the other layers is lost:
    layer 3 is complete, layer 4 claims eight bytes in a four-byte layout. *)
Lemma inconsistent_layer_loses_the_staged :
  let bad : kvmap := {[(DemoRaw.dk, encode "M004") :=
    VSingle (header_body (serialize (DemoDfs.meta 8 4)) 8 STATE_COMMITTED)]} in
  let s := mkConn tt (MemObj.healthy (DemoFolded.chunk DemoRaw.dk ∪ bad)) (DemoDfs.mem 100) in
  fst (_get_raw_folded DemoRaw.dk [3; 4] s) = Raise ValueError ∧
  size (live (c_mem s)) = 1%nat ∧ size (live (c_mem (snd (_get_raw_folded DemoRaw.dk [3; 4] s)))) = 3%nat.
Proof. split_and!; vm_compute; reflexivity. Qed.
