(* ===== verification/Connector.v ===== *)
(** * The connector's interface: [DaosConnector] in [connector.py]

    The methods LMCache calls, dispatching on the container's layout to the
    DFS branches ([ConnDfs]) and the object-API branches ([ConnRaw]), and the
    batched operations.  A coroutine that awaits thread-pool calls is the
    sequence of those calls: [gather] runs its tasks in list order and, as
    asyncio does, lets all of them run even when one fails.  [Batch] has the
    coroutines with the admission check of [_run] and every interleaving of
    their calls. *)
From S2P Require Import Prelude Serde SerdeV3 DfsBinding ObjBinding Keys ConnBase ConnDfs ConnRaw.
Open Scope Z_scope.
Open Scope py_scope.

(** What [self._addr] returns. *)
Inductive addr := APath (path : string) | ARaw (a : raddr).

(** The settings of a connector: the container's layout and two environment flags. *)
Record settings := mkSettings { _raw : bool; _ALIAS_STORE : bool; _READ_VIA_BYTEARRAY : bool }.

Definition _addr (cfg : settings) (key : pykey) : addr :=
  if _raw cfg then ARaw (_raw_addr key) else APath (_key_to_path key).

(** [asyncio.gather(..., return_exceptions=True)] *)
Fixpoint gather_results {S B} (tasks : list (M S B)) (s : S) : list (res B) * S :=
  match tasks with
  | [] => ([], s)
  | t :: tasks => let '(r, s1) := t s in let '(rs, s2) := gather_results tasks s1 in (r :: rs, s2)
  end.
(** [asyncio.gather(...)]: the first exception goes out, after every task ran. *)
Definition gather {S B} (tasks : list (M S B)) : M S (list B) := λ s,
  let '(rs, s') := gather_results tasks s in (res_map id rs, s').

(** A result as the caller of a gather with [return_exceptions] sees it: any
    Python exception becomes a miss; memory corruption is not an exception. *)
Definition miss_on_error {B} (d : B) (r : res B) : res B :=
  match r with Raise e => if is_exception e then Ok d else Raise e | r => r end.

Section Interface.
Context {D O A : Type} `{LibDfs D} `{LibDaosObj O} `{MetaCodec} `{!LocalCpu A}.
Abbreviation C := (conn D O A).
Context (cfg : settings).

Definition _exists_sync (a : addr) : M C bool :=
  match a with ARaw r => _exists_raw r | APath p => onD (exists_ p) end.
Definition _put_sync (a : addr) (header : bytes) (x : src) (n : Z) : M C unit :=
  match a with ARaw r => _put_raw r header x n | APath p => _put_dfs p header x n end.
Definition _get_sync (a : addr) : M C (option Z) :=
  match a with ARaw r => _get_raw r | APath p => _get_dfs (_READ_VIA_BYTEARRAY cfg) p end.
Definition _remove_one (a : addr) : M C bool :=
  match a with ARaw r => _remove_raw r | APath p => onD (remove p) end.

Definition exists_key (key : pykey) : M C bool := _exists_sync (_addr cfg key).
Definition get (key : pykey) : M C (option Z) := _get_sync (_addr cfg key).
Definition remove_sync (key : pykey) : M C bool := _remove_one (_addr cfg key).

Definition put (key : pykey) (m : Z) : M C unit :=
  let! (header, x, n) := _prep_write (_ALIAS_STORE cfg) m in
  let! r := λ s, (let '(r, s') := _put_sync (_addr cfg key) header x n s in (Ok r, s')) in
  let! _ := _drop_put_ref m in
  lift r.

(** [list]: not available on the object API. *)
Definition list_ (fuel : nat) : M C (list string) :=
  if _raw cfg then raise NotImplementedError else onD (listdir fuel "/" None).

(** The raw addresses of a batch, when the connector is on the object API. *)
Fixpoint raddrs (l : list addr) : option (list raddr) :=
  match l with
  | [] => Some []
  | ARaw r :: l => match raddrs l with Some rs => Some (r :: rs) | None => None end
  | APath _ :: _ => None
  end.
Definition batch_groups (l : list addr) : groups :=
  match raddrs l with
  | Some rs => default [] (_group_layers rs)
  | None => []
  end.

(** [for (pos, _), mo in zip(members, got): res[pos] = mo] *)
Definition scatter1 (out : list (option Z)) (members : list (nat * Z)) (got : list (option Z)) :=
  fold_left (λ out x, <[fst (fst x) := snd x]> out) (zip members got) out.
Definition scatter (out : list (option Z)) (l : list ((bytes * list (nat * Z)) * list (option Z))) :=
  fold_left (λ out x, scatter1 out (snd (fst x)) (snd x)) l out.

Definition batched_get (keys : list pykey) : M C (list (option Z)) :=
  let paths := _addr cfg <$> keys in
  let order := if _raw cfg then batch_groups paths else [] in
  match order with
  | _ :: _ => λ s,
      let '(gathered, s') :=
        gather_results ((λ g : bytes * list (nat * Z), _get_raw_folded (fst g) (snd <$> snd g)) <$> order) s in
      (* a chunk that failed assigns nothing: its positions stay None *)
      (let? gots := res_map (miss_on_error []) gathered in
       Ok (scatter (replicate (length keys) None) (zip order gots)), s')
  | [] => λ s,
      let '(gathered, s') := gather_results (_get_sync <$> paths) s in
      (res_map (miss_on_error None) gathered, s')
  end.

Definition batched_put (keys : list pykey) (mos : list Z) : M C unit :=
  let! prepped := mapM (_prep_write (_ALIAS_STORE cfg)) mos in
  let addrs := _addr cfg <$> keys in
  let order := if _raw cfg then batch_groups addrs else [] in
  let! r := λ s,
    (let '(r, s') :=
       match order with
       | _ :: _ =>
           gather ((λ g : bytes * list (nat * Z),
             _put_raw_folded (fst g)
               (omap (λ x : nat * Z,
                  match prepped !! fst x with
                  | Some (h, b, n) => Some (Some (snd x), h, b, n)
                  | None => None
                  end) (snd g))) <$> order) s
       | [] => gather (zip_with (λ a p, _put_sync a p.1.1 p.1.2 p.2) addrs prepped) s
       end in (Ok r, s')) in
  let! _ := mapM _drop_put_ref mos in
  let! _ := lift r in ret tt.

(** [batched_get_non_blocking]: the prefix before the first miss; objects
    after it are released. *)
Definition batched_get_non_blocking (keys : list pykey) : M C (list Z) :=
  let! res := gather (_get_sync <$> (_addr cfg <$> keys)) in
  let prefix := some_prefix res in
  let! _ := mapM _release (omap id (drop (length prefix) res)) in
  ret prefix.
End Interface.

(** ** Grouping a layerwise batch *)

(** Position [i] of the batch is in the group of [dk] with layer [l]. *)
Definition in_group (g : groups) (dk : bytes) (i : nat) (l : Z) : Prop :=
  ∃ ms, (dk, ms) ∈ g ∧ (i, l) ∈ ms.

Lemma group_add_in g dk x dk' i l :
  in_group (group_add dk x g) dk' i l ↔ in_group g dk' i l ∨ (dk' = dk ∧ (i, l) = x).
Proof.
  rw /in_group. induction g as [|[k ms] g IH]; simpl.
  { split.
    - intros (ms & [= -> ->]%list_elem_of_singleton & Hi%list_elem_of_singleton). by right.
    - intros [(ms & Hn & _)|[-> ->]]; [by apply elem_of_nil in Hn|]. exists [x]. by rw !list_elem_of_singleton. }
  case_bool_decide as Hk; [subst k|].
  - split.
    + intros (ms' & [[= -> ->]|Hin]%elem_of_cons & Hi); [|by left; exists ms'; set_solver].
      apply elem_of_app in Hi as [Hi|Hi%list_elem_of_singleton]; [left; exists ms; set_solver|by right].
    + intros [(ms' & [[= -> ->]|Hin]%elem_of_cons & Hi)|[-> ->]].
      * exists (ms ++ [x]). set_solver.
      * exists ms'. set_solver.
      * exists (ms ++ [x]). set_solver.
  - assert (∀ (P : list (bytes * list (nat * Z))),
      (∃ ms', (dk', ms') ∈ (k, ms) :: P ∧ (i, l) ∈ ms') ↔
      (dk' = k ∧ (i, l) ∈ ms) ∨ ∃ ms', (dk', ms') ∈ P ∧ (i, l) ∈ ms') as Hc.
    { intros P. split.
      - intros (ms' & [[= -> ->]|Hin]%elem_of_cons & Hi); [by left|right; eauto].
      - intros [[-> Hi]|(ms' & Hin & Hi)]; [exists ms|exists ms']; set_solver. }
    rw !Hc IH. tauto.
Qed.

Lemma group_add_keys g dk x : (group_add dk x g).*1 = if bool_decide (dk ∈ g.*1) then g.*1 else g.*1 ++ [dk].
Proof.
  induction g as [|[k ms] g IH]; simpl; [done|].
  destruct (decide (k = dk)) as [->|Hk].
  { rw !bool_decide_true //. apply elem_of_cons. by left. }
  rw (bool_decide_false (k = dk)) //. rw fmap_cons IH /=. clear IH.
  destruct (decide (dk ∈ g.*1)) as [Hin|Hin].
  - rw !bool_decide_true //. apply elem_of_cons. by right.
  - rw !bool_decide_false // elem_of_cons. naive_solver.
Qed.

Lemma group_from_spec i addrs g g' :
  group_from i addrs g = Some g' →
  (∀ dk j l, in_group g' dk j l ↔ in_group g dk j l ∨ (i ≤ j)%nat ∧ addrs !! (j - i)%nat = Some (dk, Some l)) ∧
  (NoDup g.*1 → NoDup g'.*1) ∧ Forall (λ a, is_Some a.2) addrs.
Proof.
  revert i g. induction addrs as [|[dk [l|]] addrs IH]; intros i g; simpl; [|intros Hg|done].
  { intros [= <-]. split; [|done]. intros dk j l. rw lookup_nil. naive_solver. }
  apply IH in Hg as (Hin & Hnd & HF). split; [|split; [|by constructor; [eexists|]]].
  - intros dk' j l'. rw Hin group_add_in. split.
    + intros [[Hg|[-> [= -> ->]]]|[Hle Hj]]; [by left|right|right].
      * split; [done|]. by rw Nat.sub_diag.
      * split; [lia|]. by replace (j - i)%nat with (S (j - S i)) by lia.
    + intros [Hg|[Hle Hj]]; [by left; left|].
      destruct (decide (i = j)) as [<-|Hne].
      * rw Nat.sub_diag /= in Hj. injection Hj as -> ->. by left; right.
      * right. split; [lia|]. by replace (j - i)%nat with (S (j - S i)) in Hj by lia.
  - intros Hg. apply Hnd. rw group_add_keys. case_bool_decide; [done|].
    apply NoDup_app. split; [done|]. split; [set_solver|apply NoDup_singleton].
Qed.

(** A batch is folded exactly when every address carries a layer, and
    then the groups are a partition of it: one group per dkey, and position
    [i] with layer [l] is in the group of its own dkey, and in no other. *)
Theorem group_layers_partitions addrs :
  match _group_layers addrs with
  | Some g => Forall (λ a, is_Some a.2) addrs ∧ NoDup g.*1 ∧
      ∀ dk i l, in_group g dk i l ↔ addrs !! i = Some (dk, Some l)
  | None => ∃ dk, (dk, None) ∈ addrs
  end.
Proof.
  rw /_group_layers. destruct (group_from 0 addrs []) as [g|] eqn:E.
  - apply group_from_spec in E as (Hin & Hnd & HF). split; [done|]. split; [apply Hnd; constructor|].
    intros dk i l. rw Hin Nat.sub_0_r. split; [|intros; right; split; [lia|done]].
    intros [(ms & Hms & _)|[_ Hi]]; [set_solver|done].
  - revert E. generalize 0%nat ([] : groups). induction addrs as [|[dk [l|]] addrs IH]; intros i g; simpl; [done| |].
    + intros E. destruct (IH _ _ E) as [dk' Hdk]. exists dk'. set_solver.
    + intros _. exists dk. set_solver.
Qed.

(** ** Batched loads on a DFS container *)
Lemma res_map_miss {B} (d : B) rs :
  match res_map (miss_on_error d) rs with
  | Ok outs => length outs = length rs ∧ ∀ i x, outs !! i = Some x →
      rs !! i = Some (Ok x) ∨ (x = d ∧ ∃ e, rs !! i = Some (Raise e) ∧ is_exception e = true)
  | Raise e => is_exception e = false
  end.
Proof.
  induction rs as [|r rs IH]; simpl; [done|].
  destruct (miss_on_error d r) as [x|e] eqn:Er; simpl.
  - destruct (res_map (miss_on_error d) rs) as [outs|e]; simpl; [|done]. destruct IH as [Hl IH].
    split; [by rw /= Hl|]. intros [|i] y; simpl; [intros [= <-]|apply IH].
    destruct r as [y|e]; simpl in Er; [by injection Er as ->; left|].
    destruct (is_exception e) eqn:Ee; [|done]. injection Er as <-. right. eauto.
  - destruct r as [y|e']; simpl in Er; [done|]. destruct (is_exception e') eqn:Ee; [done|]. by injection Er as <-.
Qed.

Section BatchDfs.
Context {D O A : Type} `{LibDfsLaws D} `{LibDaosObj O} `{MetaCodecLaws} `{!LocalCpu A} `{!LocalCpuLaws A}.
Implicit Types s : conn D O A.
Context (cfg : settings).
Hypothesis on_dfs : _raw cfg = false.

(** Object [m] is a fresh copy of the complete object stored under [key]. *)
Definition holds_copy (key : pykey) (m : Z) s s' : Prop :=
  ∃ c md payload rest, fs (c_dfs s) !! _key_to_path key = Some c ∧
    dfs_decode c = Some (md, payload) ∧ live (c_mem s) !! m = None ∧
    live (c_mem s') !! m = Some (mkMobj (py_upto payload (md_length md) ++ rest) 1
                                   (md_shapes md) (md_dtypes md) (md_fmt md)).

Lemma get_one_copy key s r s' :
  get cfg key s = (r, s') →
  frame (c_dfs s) (c_dfs s') ∧ live (c_mem s) ⊆ live (c_mem s') ∧
  ∀ m, r = Ok (Some m) → holds_copy key m s s'.
Proof.
  intros Hg. rw /get /_addr on_dfs /_get_sync in Hg.
  pose proof (wp_run _ _ _ _ _ _ (get_dfs_spec (_READ_VIA_BYTEARRAY cfg) (_key_to_path key) s) Hg) as Hr.
  assert (∀ m md b, allocated (c_mem s) m md b (c_mem s') → live (c_mem s) ⊆ live (c_mem s')) as Hsub.
  { intros m md b [Hn ->]. by apply insert_subseteq. }
  destruct r as [r|e].
  - destruct Hr as (Hf & _ & Hr). split; [done|].
    destruct (fs (c_dfs s) !! _key_to_path key) as [c|] eqn:Hc; [|destruct Hr as [-> ->]; done].
    destruct r as [m|]; simpl in Hr; [|by destruct Hr as [-> _]].
    destruct Hr as (md & p & rest & Hdec & _ & _ & Ha). split; [by eapply Hsub|].
    intros m' [= <-]. exists c, md, p, rest. destruct Ha as [Hn ->]. rw lookup_insert_eq. eauto.
  - destruct Hr as (Hf & _ & Hm & _). split; [done|]. split; [|done].
    destruct Hm as [-> |(m & md & b & Ha)]; [done|by eapply Hsub].
Qed.

Lemma gather_gets keys s :
  let '(rs, s') := gather_results (_get_sync cfg <$> (_addr cfg <$> keys)) s in
  length rs = length keys ∧ frame (c_dfs s) (c_dfs s') ∧ live (c_mem s) ⊆ live (c_mem s') ∧
  ∀ i m, rs !! i = Some (Ok (Some m)) → ∃ key, keys !! i = Some key ∧ holds_copy key m s s'.
Proof.
  revert s. induction keys as [|key keys IH]; intros s; simpl; [done|].
  destruct (_get_sync cfg (_addr cfg key) s) as [r s1] eqn:Hg.
  apply (get_one_copy key s r s1) in Hg as (Hf1 & Hs1 & Hr1).
  specialize (IH s1). destruct (gather_results _ s1) as [rs s2]. destruct IH as (Hl & Hf2 & Hs2 & Hr2).
  split; [by rw /= Hl|]. split; [by transitivity (c_dfs s1)|]. split; [by transitivity (live (c_mem s1))|].
  intros [|i] m Hi; simpl in *.
  - injection Hi as ->. exists key. split; [done|]. destruct (Hr1 m eq_refl) as (c & md & p & rest & ? & ? & ? & Hm).
    exists c, md, p, rest. split_and!; try done. by eapply lookup_weaken.
  - destruct (Hr2 i m Hi) as (k & Hk & c & md & p & rest & Hc & Hdec & Hn & Hm). exists k. split; [done|].
    exists c, md, p, rest. destruct Hf1 as (Hff & _ & _). rw -Hff. split_and!; try done.
    destruct (live (c_mem s) !! m) as [o|] eqn:E; [|done]. by rw (lookup_weaken _ _ _ _ E Hs1) in Hn.
Qed.

(** A batched load on a DFS container is positional and cannot be
    poisoned: it returns one entry per key whatever the individual loads do;
    an object at position [i] is a fresh complete copy of the object of the
    key at position [i]; files and handles are unchanged and no live memory
    object is touched.  The only way out other than a result is the buffer
    overrun of an inconsistent file. *)
Theorem batched_get_is_positional keys s :
  wp (batched_get cfg keys) s
    (λ out s', length out = length keys ∧ frame (c_dfs s) (c_dfs s') ∧ live (c_mem s) ⊆ live (c_mem s') ∧
       ∀ i m, out !! i = Some (Some m) → ∃ key, keys !! i = Some key ∧ holds_copy key m s s')
    (λ e s', is_exception e = false).
Proof.
  rw /wp /batched_get on_dfs. pose proof (gather_gets keys s) as Hg.
  destruct (gather_results _ s) as [rs s']. destruct Hg as (Hl & Hf & Hs & Hr).
  pose proof (res_map_miss None rs) as Hm. destruct (res_map _ rs) as [out|e]; [|done].
  destruct Hm as [Hlo Ho]. split_and!; try done; [by rw Hlo|].
  intros i m Hi. destruct (Ho i _ Hi) as [Hok|(Hn & _)]; [by apply Hr|done].
Qed.
End BatchDfs.

Lemma batched_get_is_positional_witness :
  let cfg := mkSettings false false false in
  let k s := mkKey None (Some s) "" [] in
  let s := DemoDfs.world {[_key_to_path (k "a"%string) := DemoDfs.file (obj_meta DemoDfs.obj) (encode "kvkv")]}
    [None; None; None; None; Some (MemDfs.mkFault 1011 0)] in
  ∃ out s', batched_get (O := MemObj.mem) cfg [k "missing"%string; k "a"%string; k "a"%string]
      (mkConn (c_dfs s) (MemObj.healthy ∅) (c_mem s)) = (Ok out, s') ∧
    out = [None; Some 8; None] ∧ length out = 3%nat.
Proof.
  intros cfg k s. set (s0 := mkConn (c_dfs s) (MemObj.healthy ∅) (c_mem s)).
  set (ks := [k "missing"%string; k "a"%string; k "a"%string]).
  pose proof (batched_get_is_positional (O := MemObj.mem) cfg eq_refl ks s0) as Hw.
  eexists _, (snd (batched_get cfg ks s0)).
  assert (batched_get cfg ks s0 = (Ok [None; Some 8; None], snd (batched_get cfg ks s0))) as Hrun.
  { apply run_of. vm_compute. reflexivity. }
  split; [exact Hrun|]. split; [reflexivity|].
  destruct (wp_run _ _ _ _ _ _ Hw Hrun) as (Hl & _). exact Hl.
Defined.
