(* ===== verification/KvMap.v ===== *)
(** * The connector is a map: a refinement of [DaosConnector]

    What the connector promises LMCache is a map from keys to objects.  The
    abstract state is a function from addresses to objects; the abstract
    operations are insertion, lookup, membership and deletion.  [holds] is the
    abstraction relation, slot by slot, for both layouts: a file with the
    object's header, metadata and payload, or a payload akey and a committed
    metadata akey.  Each operation of [Connector] is shown to implement its
    abstract operation on a backend that answers, and from that every sequence
    of operations of a client to simulate the map. *)
From S2P Require Import Prelude Serde SerdeV3 DfsBinding ObjBinding Keys ConnBase ConnDfs ConnRaw Connector.
Open Scope Z_scope.
Open Scope py_scope.

#[export] Instance addr_eq_dec : EqDecision addr.
Proof. rw /raddr. solve_decision. Defined.

(** ** One slot *)
Section Slot.
Context {D O A : Type} `{LibDfsLaws D} `{LibDaosObjLaws O} `{MetaCodecLaws} `{!LocalCpu A} `{!LocalCpuLaws A}.
Implicit Types s : conn D O A.

Definition healthy s : Prop := up (c_dfs s) ∧ oup (c_obj s).

(** The file of an object, under its header and before what is left of a
    longer one. *)
Definition file_slot (f : gmap string bytes) (p : string) (v : option mobj) : Prop :=
  match v with
  | None => f !! p = None
  | Some o => storable (A:=A) o ∧ ∃ h tail, v1_header (obj_meta o) (len (mo_bytes o)) h ∧ f !! p = Some (h ++ mo_bytes o ++ tail)
  end.
(** The two akeys of an object; without metadata the slot is empty. *)
Definition raw_slot (m : kvmap) (dk pak mak : bytes) (v : option mobj) : Prop :=
  match v with
  | None => m !! (dk, mak) = None ∧ same_kind false (m !! (dk, pak)) = true
  | Some o => raw_storable (A:=A) o ∧ m !! (dk, mak) = Some (VSingle (raw_meta o)) ∧
      ∃ rest, m !! (dk, pak) = Some (VArray (mo_bytes o ++ rest))
  end.
Definition holds (a : addr) (v : option mobj) s : Prop :=
  match a with
  | APath p => file_slot (fs (c_dfs s)) p v
  | ARaw (dk, layer) => ∃ pak mak, _akeys_for layer = Ok (pak, mak) ∧ raw_slot (kv (c_obj s)) dk pak mak v
  end.
Definition addr_ok (a : addr) : bool :=
  match a with APath _ => true | ARaw (_, layer) => is_ok (_akeys_for layer) end.
Definition fits_at (a : addr) (o : mobj) : Prop :=
  match a with APath _ => storable (A:=A) o | ARaw _ => raw_storable (A:=A) o end.
(** The slots a removal at [a] empties: a whole chunk goes with its layers. *)
Definition clears (a b : addr) : bool :=
  bool_decide (a = b) ||
  match a, b with ARaw (dk, None), ARaw (dk', _) => bool_decide (dk = dk') | _, _ => false end.

Lemma file_slot_some f p v : file_slot f p v → is_Some (f !! p) ↔ is_Some v.
Proof. destruct v as [o|]; cbn; [intros (_ & h & tl & _ & ->)|intros ->; done]. split; intros _; by eexists. Qed.

Lemma raw_slot_ext m m' dk pak mak v :
  m' !! (dk, pak) = m !! (dk, pak) → m' !! (dk, mak) = m !! (dk, mak) →
  raw_slot m dk pak mak v → raw_slot m' dk pak mak v.
Proof. rw /raw_slot. by intros -> ->. Qed.

Lemma raw_slot_view m dk layer pak mak o :
  _akeys_for layer = Ok (pak, mak) → raw_slot m dk pak mak (Some o) →
  slot_wf m dk pak mak ∧ raw_view m (dk, layer) = Some (obj_meta o, mo_bytes o) ∧
  meta_of (m !! (dk, mak)) = Some (len (mo_bytes o), obj_meta o).
Proof.
  intros Hak (Hst & Hm & rest & Hp). pose proof (akeys_for_ne _ _ _ Hak) as Hne.
  pose proof (stored_slot m dk layer pak mak o Hak Hst) as Hs. rw Hp in Hs. specialize (Hs eq_refl).
  assert (with_meta (with_payload m dk pak (mo_bytes o)) dk mak (raw_meta o) = m) as Heq.
  { rw /with_meta /with_payload Hp /put_val write_at_over.
    rw drop_app_length (insert_id _ _ _ Hp). exact (insert_id _ _ _ Hm). }
  by rw Heq in Hs.
Qed.

(** The slots of two addresses are apart. *)
Lemma akeys_apart (dk : bytes) l pak mak (dk' : bytes) l' pak' mak' :
  _akeys_for l = Ok (pak, mak) → _akeys_for l' = Ok (pak', mak') → (dk, l) ≠ (dk', l') →
  (dk', pak') ≠ (dk, pak) ∧ (dk', pak') ≠ (dk, mak) ∧ (dk', mak') ≠ (dk, pak) ∧ (dk', mak') ≠ (dk, mak).
Proof.
  intros Hak Hak' Hne. destruct (decide (dk = dk')) as [<-|Hd]; [|naive_solver].
  assert (l ≠ l') as Hl by congruence.
  pose proof (akeys_for_disjoint _ _ _ _ _ _ Hak Hak' Hl). naive_solver.
Qed.

(** *** Each operation on its slot *)
Lemma put_holds a h x o v s :
  healthy s → fits_at a o → v1_header (obj_meta o) (len (mo_bytes o)) h →
  src_val x (c_mem s) = mo_bytes o → holds a v s →
  wp (_put_sync a h x (len (mo_bytes o))) s
    (λ _ s', healthy s' ∧ c_mem s' = c_mem s ∧ holds a (Some o) s' ∧
       ∀ b w, b ≠ a → holds b w s → holds b w s')
    (λ _ _, False).
Proof.
  intros [Hu Hou] Hfit Hh Hx Hv. destruct a as [p|[dk layer]]; cbn [_put_sync].
  - eapply wp_mono; [apply put_dfs_spec; by rw Hx| |naive_solver]. intros _ s' (Hf & _ & Hu' & Ho & Hm).
    rw Hx write_at_over -app_assoc in Hf. split_and!; [rw /healthy Ho; auto|done| |].
    + cbn. rw Hf lookup_insert_eq. split; [done|]. by eexists _, _.
    + intros [q|[dk l]] w Hne Hw; cbn in Hw |- *; [|by rw Ho].
      assert (p ≠ q) by congruence. rw /file_slot Hf lookup_insert_ne //.
  - destruct Hv as (pak & mak & Hak & Hs). pose proof Hfit as (_ & Hb & _).
    assert (same_kind false (kv (c_obj s) !! (dk, pak)) = true ∧ same_kind true (kv (c_obj s) !! (dk, mak)) = true) as [Hkp Hkm].
    { destruct v as [o'|]; [destruct Hs as (_ & -> & ? & ->)|destruct Hs as [-> ->]]; done. }
    eapply wp_mono; [apply (put_raw_spec dk layer pak mak h (raw_meta o) x)|simpl|naive_solver]; rw ?Hx //.
    { apply repack_v1; [done|]. by apply raw_storable_args. }
    intros _ s' (Hd & Hm & Ho & Hk). split_and!; [rw /healthy Hd; auto|done| |].
    + exists pak, mak. split; [done|]. pose proof (akeys_for_ne _ _ _ Hak) as Hne. rw Hk. split; [done|].
      rw /with_meta lookup_insert_eq. split; [done|]. rw lookup_insert_ne; [congruence|].
      rw /with_payload lookup_insert_eq /put_val write_at_over. by eexists.
    + intros [q|[dk' l']] w Hne Hw; cbn in Hw |- *; [by rw Hd|].
      destruct Hw as (pak' & mak' & Hak' & Hw). exists pak', mak'. split; [done|].
      destruct (akeys_apart dk layer pak mak dk' l' pak' mak') as (?&?&?&?); [done|done|congruence|].
      eapply raw_slot_ext, Hw; rw Hk /with_meta /with_payload !lookup_insert_ne //.
Qed.

Lemma get_holds cfg a v s :
  healthy s → holds a v s →
  wp (_get_sync cfg a) s
    (λ r s', healthy s' ∧ (∀ b w, holds b w s → holds b w s') ∧
       match v with Some o => loaded o r s s' | None => r = None ∧ live (c_mem s') = live (c_mem s) end)
    (λ _ _, False).
Proof.
  intros [Hu Hou] Hv. destruct a as [p|[dk layer]]; cbn [_get_sync].
  - assert (∀ s', frame (c_dfs s) (c_dfs s') → c_obj s' = c_obj s →
      healthy s' ∧ ∀ b w, holds b w s → holds b w s') as Hk.
    { intros s' (Hf & _ & Hu') Ho. split; [rw /healthy Ho; auto|]. intros [q|[dk l]] w; cbn; by rw ?Hf ?Ho. }
    destruct v as [o|]; cbn in Hv.
    + destruct Hv as (Hst & h & tail & Hh & Hf). eapply wp_mono; [by eapply load_encoded|simpl|naive_solver].
      intros r s' (Hfr & Ho & Hr). destruct (Hk s' Hfr Ho). done.
    + eapply wp_mono; [apply get_dfs_spec|simpl|]; rw Hv; [|naive_solver].
      intros r s' (Hfr & Ho & -> & Hm). destruct (Hk s' Hfr Ho). by rw Hm.
  - destruct Hv as (pak & mak & Hak & Hs).
    assert (∀ s', same_store s s' → healthy s' ∧ ∀ b w, holds b w s → holds b w s') as Hk.
    { intros s' (Hd & Hkv & Ho). split; [rw /healthy Hd; auto|]. intros [q|[dk' l]] w; cbn; by rw ?Hd ?Hkv. }
    destruct v as [o|].
    + destruct (raw_slot_view _ _ layer _ _ _ Hak Hs) as (Hwf & Hv & Hm). destruct Hs as ((Hst & _) & _).
      eapply wp_mono; [by apply (load_stored dk layer pak mak o s)|simpl|naive_solver].
      intros r s' (Hss & Hr). destruct (Hk s' Hss). done.
    + destruct Hs as [Hm Hp]. assert (slot_wf (kv (c_obj s)) dk pak mak) as Hwf.
      { rw /slot_wf Hm. by split_and!. }
      assert (raw_view (kv (c_obj s)) (dk, layer) = None) as Hvw by by rw /raw_view /= Hak /raw_obj Hm.
      eapply wp_mono; [by apply (get_raw_spec (dk, layer) pak mak)|simpl|].
      * rw Hvw. intros r s' (Hss & Hr). destruct (Hk s' Hss). split_and!; try done.
        -- destruct r; [|done]. by destruct Hr as (md & p & rest & ? & _).
        -- destruct r; [|by destruct Hr]. by destruct Hr as (md & p & rest & ? & _).
      * rw Hm. intros e s' (_ & [[Hno _]|(_ & pl & md & Hbad & _)]); done.
Qed.

Lemma exists_holds a v s :
  healthy s → holds a v s →
  wp (_exists_sync a) s
    (λ r s', r = bool_decide (is_Some v) ∧ healthy s' ∧ c_mem s' = c_mem s ∧ ∀ b w, holds b w s → holds b w s')
    (λ _ _, False).
Proof.
  intros [Hu Hou] Hv. destruct a as [p|[dk layer]]; cbn [_exists_sync].
  - apply wp_onD. eapply wp_mono; [apply exists_decides| |naive_solver]. intros r d [-> (Hf & _ & Hu')]. cbn. split_and!.
    + apply bool_decide_ext. by apply file_slot_some.
    + split; [cbn; auto|done].
    + done.
    + intros [q|[dk l]] w; cbn; by rw ?Hf.
  - destruct Hv as (pak & mak & Hak & Hs). rw /_exists_raw. apply wp_bind, wp_lift.
    assert (match layer with Some l => akey_meta_layer l | None => Ok AKEY_META end = Ok mak) as ->.
    { rw /_akeys_for in Hak. destruct layer as [l|]; [|by injection Hak as <- <-].
      destruct (akey_layer l); [|done]. destruct (akey_meta_layer l); [|done]. by injection Hak as <- <-. }
    apply wp_bind, wp_onO. assert (meta_readable (kv (c_obj s) !! (dk, mak))) as Hmr.
    { destruct v as [o|]; [|by destruct Hs as [-> _]].
      destruct (raw_slot_view _ _ layer _ _ _ Hak Hs) as ((Hr & _) & _). exact Hr. }
    pose proof (meta_fetched (kv (c_obj s)) dk mak Hmr) as [Hfe Hval].
    eapply wp_mono; [apply (fetch_spec dk _ true (c_obj s) (meta_item_valid mak))| |].
    + intros r o' (Hk & Ho & -> & _). cbn [fmap list_fmap].
      destruct (fetch_val (kv (c_obj s)) dk _) as [got buf]. cbn in Hval. apply wp_ret. cbn.
      split_and!; [|split; cbn; auto|done|].
      * destruct v as [o|]; [destruct Hs as (_ & Hm & _)|destruct Hs as [Hm _]]; rw Hm in Hval.
        -- destruct Hval as [-> _]. rw len_raw_meta bool_decide_true; [by eexists|].
           apply Z.ltb_lt. pose proof (len_nonneg (serialize (obj_meta o))). lia.
        -- by rw Hval bool_decide_false.
      * intros [q|[dk' l]] w; cbn; by rw ?Hk.
    + intros e o' (_ & _ & _ & Hno & _). apply (Hno Hou). constructor; [exact Hfe|constructor].
Qed.

Lemma remove_holds a v s :
  healthy s → holds a v s →
  wp (_remove_one a) s
    (λ r s', r = (match a with APath _ => bool_decide (is_Some v) | ARaw _ => true end) ∧ healthy s' ∧
       c_mem s' = c_mem s ∧ ∀ b w, holds b w s → holds b (if clears a b then None else w) s')
    (λ _ _, False).
Proof.
  intros [Hu Hou] Hv. destruct a as [p|[dk layer]]; cbn [_remove_one].
  - apply wp_onD. eapply wp_mono; [apply remove_spec| |naive_solver]. intros r d (_ & Hu' & -> & Hf). cbn.
    split_and!; [|split; cbn; auto|done|].
    + apply bool_decide_ext. by apply file_slot_some.
    + intros [q|[dk l]] w; cbn; [|done]. rw /clears orb_false_r. case_bool_decide as Hpq.
      * injection Hpq as <-. intros _. by rw /= Hf lookup_delete_eq.
      * rw /file_slot Hf lookup_delete_ne //. congruence.
  - destruct Hv as (pak & mak & Hak & Hs). assert (∀ o', (∀ b w, holds b w s →
        match b with ARaw _ => holds b (if clears (ARaw (dk, layer)) b then None else w) (mkConn (c_dfs s) o' (c_mem s)) | _ => True end) →
      ∀ b w, holds b w s → holds b (if clears (ARaw (dk, layer)) b then None else w) (mkConn (c_dfs s) o' (c_mem s))) as Hpath.
    { intros o' Hr [q|r'] w Hw; [|by apply (Hr (ARaw r'))]. rw /clears bool_decide_false //. destruct layer; exact Hw. }
    rw /_remove_raw. destruct layer as [l|].
    + apply wp_bind. rw Hak. apply wp_lift. apply wp_bind, wp_onO.
      eapply wp_mono; [apply punch_akeys_spec| |naive_solver]. intros _ o' [Hk Ho]. apply wp_ret.
      split_and!; [done|split; cbn; auto|done|]. apply Hpath. intros [q|[dk' l']] w; [done|].
      intros (pak' & mak' & Hak' & Hw). exists pak', mak'. split; [done|]. cbn [c_obj].
      assert (∀ ak, (dk' = dk ∧ ak ∈ [pak; mak] → kv o' !! (dk', ak) = None) ∧
        (¬ (dk' = dk ∧ ak ∈ [pak; mak]) → kv o' !! (dk', ak) = kv (c_obj s) !! (dk', ak))) as Hlook.
      { intros ak. rw Hk. split; intros Hc.
        - apply map_lookup_filter_None. right. intros x _ Hn. by apply Hn.
        - destruct (kv (c_obj s) !! (dk', ak)) as [x|] eqn:E; [by apply map_lookup_filter_Some|].
          apply map_lookup_filter_None. by left. }
      rw /clears orb_false_r. case_bool_decide as Heq.
      * injection Heq as <- <-. rw Hak in Hak'. injection Hak' as <- <-. split.
        -- apply Hlook. split; [done|]. by right; left.
        -- rw (proj1 (Hlook pak)); [split; [done|by left]|done].
      * destruct (akeys_apart dk (Some l) pak mak dk' l' pak' mak') as (?&?&?&?); [done|done|congruence|].
        eapply raw_slot_ext, Hw; apply Hlook; rw !elem_of_cons elem_of_nil; naive_solver.
    + apply wp_bind, wp_onO. eapply wp_mono; [apply punch_spec| |naive_solver]. intros _ o' [Hk Ho]. apply wp_ret.
      split_and!; [done|split; cbn; auto|done|]. apply Hpath. intros [q|[dk' l']] w; [done|].
      intros (pak' & mak' & Hak' & Hw). exists pak', mak'. split; [done|]. cbn [c_obj].
      rw /clears. destruct (decide (dk = dk')) as [<-|Hne].
      * rw (bool_decide_true (dk = dk)) // orb_true_r.
        assert (∀ ak, kv o' !! (dk, ak) = None) as Hnone by (intros ak; rw Hk map_lookup_filter_None; right; naive_solver).
        by split; rw Hnone.
      * rw bool_decide_false; [congruence|]. rw bool_decide_false //. cbn.
        eapply raw_slot_ext, Hw; rw Hk.
        -- destruct (kv (c_obj s) !! (dk', pak')) as [x|] eqn:E; [apply map_lookup_filter_Some; naive_solver|apply map_lookup_filter_None; by left].
        -- destruct (kv (c_obj s) !! (dk', mak')) as [x|] eqn:E; [apply map_lookup_filter_Some; naive_solver|apply map_lookup_filter_None; by left].
Qed.
End Slot.

(** ** Sequences of operations *)
Inductive kvop := KPut (key : pykey) (m : Z) | KGet (key : pykey) | KExists (key : pykey) | KRemove (key : pykey).
Inductive kvout := RUnit | RObj (r : option Z) | RBool (b : bool).

Section Run.
Context {D O A : Type} `{LibDfsLaws D} `{LibDaosObjLaws O} `{MetaCodecLaws} `{!LocalCpu A} `{!LocalCpuLaws A}.
Context (cfg : settings).
Abbreviation C := (conn D O A).
Implicit Types s : C.
(** The objects the client stores. *)
Context (objs : gmap Z mobj).

Definition do_op (o : kvop) : M C kvout :=
  match o with
  | KPut key m => let! _ := put cfg key m in ret RUnit
  | KGet key => let! r := get cfg key in ret (RObj r)
  | KExists key => let! b := exists_key cfg key in ret (RBool b)
  | KRemove key => let! b := remove_sync cfg key in ret (RBool b)
  end.

(** The map, and what an operation does to it. *)
Definition kvstate : Type := addr → option mobj.
Definition abs_step (o : kvop) (σ : kvstate) : kvstate :=
  match o with
  | KPut key m => λ b, if bool_decide (b = _addr cfg key) then objs !! m else σ b
  | KRemove key => λ b, if clears (_addr cfg key) b then None else σ b
  | KGet _ | KExists _ => σ
  end.
(** The answer of an operation is the map's. A removal on the object API says
    yes whatever was there. *)
Definition agrees (o : kvop) (out : kvout) (σ : kvstate) s s' : Prop :=
  match o, out with
  | KPut _ _, RUnit => c_mem s' = c_mem s
  | KGet key, RObj r =>
      match σ (_addr cfg key) with
      | Some o => loaded o r s s'
      | None => r = None ∧ live (c_mem s') = live (c_mem s)
      end
  | KExists key, RBool b => b = bool_decide (is_Some (σ (_addr cfg key))) ∧ c_mem s' = c_mem s
  | KRemove key, RBool b => b = _raw cfg || bool_decide (is_Some (σ (_addr cfg key))) ∧ c_mem s' = c_mem s
  | _, _ => False
  end.
Fixpoint simulates (ops : list kvop) (σ : kvstate) s : Prop :=
  match ops with
  | [] => True
  | o :: ops => wp (do_op o) s (λ out s', agrees o out σ s s' ∧ simulates ops (abs_step o σ) s') (λ _ _, False)
  end.

Definition key_of (o : kvop) : pykey :=
  match o with KPut key _ | KGet key | KExists key | KRemove key => key end.
(** The layer number of the key is in range, and what is put fits the layout. *)
Definition op_ok (o : kvop) : Prop :=
  addr_ok (_addr cfg (key_of o)) = true ∧
  match o with KPut key m => ∃ o, objs !! m = Some o ∧ fits_at (A:=A) (_addr cfg key) o | _ => True end.
(** Every slot of a key holds what the map says. *)
Definition rep (σ : kvstate) s : Prop :=
  ∀ key, addr_ok (_addr cfg key) = true → holds (_addr cfg key) (σ (_addr cfg key)) s.

Lemma put_spec key m o v s :
  healthy s → live (c_mem s) !! m = Some o → fits_at (A:=A) (_addr cfg key) o → holds (_addr cfg key) v s →
  wp (put cfg key m) s
    (λ _ s', healthy s' ∧ c_mem s' = c_mem s ∧ holds (_addr cfg key) (Some o) s' ∧
       ∀ b w, b ≠ _addr cfg key → holds b w s → holds b w s')
    (λ _ _, False).
Proof.
  intros Hh Ho Hfit Hv. assert (storable (A:=A) o) as Hst by (destruct (_addr cfg key); [done|by destruct Hfit]).
  rw /put. apply wp_bind. eapply wp_mono; [by apply prep_write_spec|simpl|].
  2:{ intros e s' (_ & _ & Hbad). by destruct Hst as (_ & Hfits & _). }
  intros r s' (-> & pre & Hp & ->). fold (obj_meta o) in *.
  assert (v1_header (obj_meta o) (len (mo_bytes o)) (pre ++ serialize (obj_meta o))) as Hhd by (by exists pre).
  set (x := if _ALIAS_STORE cfg then Aliased m else Copied (mo_bytes o)).
  assert (src_val x (c_mem s) = mo_bytes o) as Hx.
  { rw /x. destruct (_ALIAS_STORE cfg); [|done]. cbn. by apply byte_array_law. }
  pose proof (put_holds (_addr cfg key) _ x o v s Hh Hfit Hhd Hx Hv) as Hw. rw /wp in Hw.
  apply wp_bind. rw {1}/wp. destruct (_put_sync _ _ x _ s) as [[[]|e] s1]; [|done].
  apply wp_bind, wp_ret. exact Hw.
Qed.

(** C5: the connector is a map.  On a backend that answers, every sequence of
    put, get, exists and remove of a client, on either layout and whatever
    keys it mixes, gives the answers of the map from addresses to objects: a
    get returns a fresh copy of the last object put (or a miss, if there is
    none or the allocator is out of memory), exists tells whether there is one,
    and nothing a client does to one key shows under another, except that
    removing a whole chunk of the object API removes its layers.  A removal
    answers whether there was one on a DFS container; on the object API it
    always answers True.  What is put must fit the layout (everywhere: lengths
    that fit the header and bytes that fill the tensors; on the object API also
    a payload that is not empty and metadata of at most 512 bytes), be alive
    when it is put, and the layer number of a key must be one the API can
    address. *)
Theorem connector_refines_a_map ops σ s :
  healthy s → rep σ s → objs ⊆ live (c_mem s) → Forall op_ok ops → simulates ops σ s.
Proof.
  revert σ s. induction ops as [|o ops IH]; intros σ s Hh Hrep Hobjs Hops; [done|]. cbn [simulates].
  apply Forall_cons in Hops as [[Hk Ho] Hops]. pose proof (Hrep _ Hk) as Hv.
  destruct o as [key m|key|key|key]; cbn [do_op key_of] in *; apply wp_bind.
  - destruct Ho as (o & Hm & Hfit). eapply wp_mono; [eapply put_spec; [done|by eapply lookup_weaken|done..]| |done].
    intros _ s' (Hh' & Hmem & Hnew & Hold). apply wp_ret. split; [done|]. apply IH; [done| |by rw Hmem|done].
    intros k Hk'. cbn [abs_step]. case_bool_decide as Heq; [rw Heq Hm; exact Hnew|]. apply Hold; [done|by apply Hrep].
  - eapply wp_mono; [by apply get_holds| |done]. intros r s' (Hh' & Hold & Hr). apply wp_ret. split; [done|].
    apply IH; [done| | |done].
    + intros k Hk'. cbn. by apply Hold, Hrep.
    + destruct (σ (_addr cfg key)) as [o|]; [|by destruct Hr as [_ ->]]. destruct r as [m|]; [|by destruct Hr as [-> _]].
      destruct Hr as [Hn ->]. etrans; [exact Hobjs|]. by apply insert_subseteq.
  - eapply wp_mono; [by apply exists_holds| |done]. intros b s' (-> & Hh' & Hmem & Hold). apply wp_ret.
    split; [done|]. apply IH; [done| |by rw Hmem|done]. intros k Hk'. by apply Hold, Hrep.
  - eapply wp_mono; [by apply remove_holds| |done]. intros b s' (-> & Hh' & Hmem & Hold). apply wp_ret. split.
    + split; [|done]. rw /_addr. by destruct (_raw cfg).
    + apply IH; [done| |by rw Hmem|done]. intros k Hk'. cbn. apply Hold. by apply Hrep.
Qed.
End Run.

(** A client on each layout: put, probe, load, remove, load again. *)
Lemma connector_refines_a_map_witness :
  let k := mkKey None (Some "a"%string) "" [] in
  let ops := [KPut k 7; KExists k; KGet k; KRemove k; KGet k] in
  let s : conn MemDfs.mem MemObj.mem MemLM.mem := mkConn (MemDfs.healthy ∅) (MemObj.healthy ∅) (DemoDfs.mem 100) in
  simulates (mkSettings false false false) {[7 := DemoDfs.obj]} ops (λ _, None) s ∧
  simulates (mkSettings true false false) {[7 := DemoDfs.obj]} ops (λ _, None) s.
Proof.
  intros k ops s. assert (healthy s) as Hh by (split; reflexivity). split.
  - apply (connector_refines_a_map (mkSettings false false false) {[7 := DemoDfs.obj]} ops (λ _, None) s Hh).
    + intros key _. reflexivity.
    + reflexivity.
    + repeat constructor. exists DemoDfs.obj. split; [reflexivity|]. apply DemoDfs.storable_obj.
  - apply (connector_refines_a_map (mkSettings true false false) {[7 := DemoDfs.obj]} ops (λ _, None) s Hh).
    + intros key Hk. cbn in Hk |- *. destruct (_akeys_for (_layer_of key)) as [[pak mak]|]; [|discriminate Hk].
      exists pak, mak. split; [reflexivity|]. by split.
    + reflexivity.
    + repeat constructor. exists DemoDfs.obj. split; [reflexivity|]. apply DemoRaw.raw_storable_obj.
Defined.
