(* ===== verification/WedgePool.v ===== *)
(** * Admission and health: [_run], [_tracked], [_wedged_for] and [ping] of
    [connector.py]

    The I/O pool admits work until it is wedged: every worker busy and no
    completion for [STALL_SECS].  [Pool] has the three methods as functions of
    the clock; the executor around them is a step relation over tasks that are
    queued, run and finish (or never do).  [Ping] is the health probe with its
    one-thread pool and the flag that keeps probes from piling up.  Time is in
    whole ticks of the monotonic clock. *)
From S2P Require Import Prelude.
Open Scope Z_scope.
Open Scope py_scope.

(** The attributes the methods share under [_io_lock]. *)
Record pool := mkPool { _inflight : Z; _last_done : Z }.

Section Pool.
Context (_workers STALL_SECS : Z).

Definition _run (now : Z) (p : pool) : res pool :=
  let stalled := now - _last_done p in
  if (_workers <=? _inflight p) && (STALL_SECS <? stalled) then Raise DaosPoolWedged
  else Ok (mkPool (_inflight p + 1) (_last_done p)).

(** The [finally] of [_tracked]. *)
Definition _tracked_done (now : Z) (p : pool) : pool := mkPool (_inflight p - 1) now.

Definition _wedged_for (now : Z) (p : pool) : Z :=
  let stalled := now - _last_done p in
  if (_workers <=? _inflight p) && (STALL_SECS <? stalled) then stalled else 0.

(** ** The executor

    A task remembers when it was submitted and whether it came through [_run],
    whose [_tracked] keeps the books.  [stream_get] hands [_pool] and
    [_get_sync] straight to [stream_completions], and [_warm_up] hands [_pool]
    to the probe: those tasks take a worker and are seen by nobody ([Bypass],
    [FinishBypass]).  A caller that is cancelled while its
    task is still queued takes the task out of the queue, so that the [finally]
    of [_tracked] never runs for it ([Cancel]); [cancelled] counts those that
    had been counted. *)
Record sys := mkSys {
  now : Z; io : pool;
  running : list (Z * bool); queued : list (Z * bool) (* submission time, through [_run] *);
  cancelled : Z }.

Definition start_sys (t : Z) : sys := mkSys t (mkPool 0 t) [] [] 0.

(** The tasks that [_run] has admitted and that are still in the pool. *)
Definition admitted (s : sys) : list (Z * bool) := filter (λ t, t.2 = true) (running s ++ queued s).

Inductive event :=
| Tick (d : Z) | Submit | Refuse | Bypass | Start
| Finish (i : nat) | FinishBypass (i : nat) | Cancel (i : nat).

Inductive step : sys → event → sys → Prop :=
| step_tick s d : 0 ≤ d → step s (Tick d) (mkSys (now s + d) (io s) (running s) (queued s) (cancelled s))
| step_submit s p : _run (now s) (io s) = Ok p →
    step s Submit (mkSys (now s) p (running s) (queued s ++ [(now s, true)]) (cancelled s))
| step_refuse s : _run (now s) (io s) = Raise DaosPoolWedged → step s Refuse s
| step_bypass s : step s Bypass (mkSys (now s) (io s) (running s) (queued s ++ [(now s, false)]) (cancelled s))
| step_start s t q : queued s = t :: q → len (running s) < _workers →
    step s Start (mkSys (now s) (io s) (running s ++ [t]) q (cancelled s))
| step_finish s i t : running s !! i = Some (t, true) →
    step s (Finish i)
      (mkSys (now s) (_tracked_done (now s) (io s)) (delete i (running s)) (queued s) (cancelled s))
| step_finish_bypass s i t : running s !! i = Some (t, false) →
    step s (FinishBypass i) (mkSys (now s) (io s) (delete i (running s)) (queued s) (cancelled s))
| step_cancel s i t (b : bool) : queued s !! i = Some (t, b) →
    step s (Cancel i)
      (mkSys (now s) (io s) (running s) (delete i (queued s)) (if b then cancelled s + 1 else cancelled s)).

Inductive steps : sys → list event → sys → Prop :=
| steps_nil s : steps s [] s
| steps_cons s e s' es s'' : step s e s' → steps s' es s'' → steps s (e :: es) s''.

(** ** Invariants *)
Record wf (s : sys) : Prop := mkWf {
  wf_count : _inflight (io s) = len (admitted s) + cancelled s;
  wf_workers : len (running s) ≤ _workers;
  wf_clock : _last_done (io s) ≤ now s;
  wf_times : Forall (λ t, t.1 ≤ now s) (running s ++ queued s);
}.

(** What one event does to the admitted tasks. *)
Definition admits (e : event) (b : bool) : Z :=
  match e with Submit => 1 | Finish _ => -1 | Cancel _ => if b then -1 else 0 | _ => 0 end.

Lemma admitted_delete (l : list (Z * bool)) i t b : l !! i = Some (t, b) →
  len (filter (λ t, t.2 = true) (delete i l)) = len (filter (λ t, t.2 = true) l) - (if b then 1 else 0).
Proof.
  intros Hi%delete_Permutation.
  pose proof (Permutation_length (filter_Permutation (λ t : Z * bool, t.2 = true) _ _ Hi)) as Hp.
  rw filter_cons /= in Hp. rw /len Hp. destruct b; simpl; lia.
Qed.

Lemma admitted_step s e s' : step s e s' →
  len (admitted s') = len (admitted s) + admits e (bool_decide (cancelled s' ≠ cancelled s)).
Proof.
  destruct 1 as [s d Hd|s p Hr|s Hr|s|s t q Hq Hlt|s i t Hi|s i t Hi|s i t b Hi]; rw /admitted /=;
    rw ?Hq ?filter_app ?filter_cons ?len_app ?(admitted_delete _ _ _ _ Hi); rw /len /=; try lia.
  - destruct (decide _); simpl; lia.
  - destruct b; [rw bool_decide_eq_true_2|rw bool_decide_eq_false_2]; lia.
Qed.

Lemma run_cases t p :
  (_run t p = Raise DaosPoolWedged ∧ _workers ≤ _inflight p ∧ STALL_SECS < t - _last_done p ∧
   _wedged_for t p = t - _last_done p) ∨
  (_run t p = Ok (mkPool (_inflight p + 1) (_last_done p)) ∧ _wedged_for t p = 0 ∧
   (_inflight p < _workers ∨ t - _last_done p ≤ STALL_SECS)).
Proof.
  rw /_run /_wedged_for. destruct (Z.leb_spec _workers (_inflight p)), (Z.ltb_spec STALL_SECS (t - _last_done p));
    simpl; [left|right..]; split_and!; try done; lia.
Qed.

Lemma wf_start t : 0 ≤ _workers → wf (start_sys t).
Proof. by intros; split; simpl. Qed.

Lemma wf_step s e s' : step s e s' → wf s → wf s'.
Proof.
  intros Hs [Hc Hw Hl Ht]. pose proof (admitted_step _ _ _ Hs) as Ha.
  destruct Hs as [s d Hd|s p Hr|s Hr|s|s t q Hq Hlt|s i t Hi|s i t Hi|s i t b Hi]; simpl in Ha;
    (split; cbn [now io running queued cancelled]; [|try done..]).
  - rw Ha. lia.
  - lia.
  - eapply Forall_impl; [exact Ht|]. simpl. lia.
  - destruct (run_cases (now s) (io s)) as [(E & _)|(E & _)]; rw E in Hr; [done|]. injection Hr as <-. rw Ha /=. lia.
  - destruct (run_cases (now s) (io s)) as [(E & _)|(E & _)]; rw E in Hr; [done|]. by injection Hr as <-.
  - rw app_assoc. apply Forall_app. split; [done|]. by repeat constructor.
  - done.
  - rw Ha. lia.
  - rw app_assoc. apply Forall_app. split; [done|]. by repeat constructor.
  - rw Ha. lia.
  - rw len_app /len /= in Hlt |- *. lia.
  - rw Hq in Ht. by rw -app_assoc.
  - rw Ha /=. lia.
  - apply delete_Permutation, Permutation_length in Hi. rw /len /= in Hw, Hi |- *. lia.
  - apply Forall_app in Ht as [Hr Hq]. apply Forall_app. split; [|done]. by eapply Forall_delete.
  - rw Ha. lia.
  - apply delete_Permutation, Permutation_length in Hi. rw /len /= in Hw, Hi |- *. lia.
  - apply Forall_app in Ht as [Hr Hq]. apply Forall_app. split; [|done]. by eapply Forall_delete.
  - rw Ha. destruct b; [rw bool_decide_eq_true_2|rw bool_decide_eq_false_2]; lia.
  - apply Forall_app in Ht as [Hr Hq]. apply Forall_app. split; [done|]. by eapply Forall_delete.
Qed.

Lemma wf_steps s es s' : steps s es s' → wf s → wf s'.
Proof. induction 1; eauto using wf_step. Qed.

(** ** Properties *)

(** A wedged pool: what [_run] refuses on and [_wedged_for] reports. *)
Definition wedged (s : sys) : Prop :=
  _workers ≤ _inflight (io s) ∧ STALL_SECS < now s - _last_done (io s).

Lemma wedged_refuses s : wedged s ↔ _run (now s) (io s) = Raise DaosPoolWedged.
Proof.
  rw /wedged. destruct (run_cases (now s) (io s)) as [(-> & ? & ? & _)|(-> & _ & Hb)]; [by split|].
  split; [|done]. lia.
Qed.

(** A completion of an admitted task is the only thing that ends a wedge. *)
Lemma wedged_step s e s' :
  step s e s' → wedged s → (∀ i, e ≠ Finish i) → wedged s' ∧ e ≠ Submit ∧ io s' = io s.
Proof.
  intros Hs Hw Hnf.
  destruct Hs as [s d Hd|s p Hr|s Hr|s|s t q Hq Hlt|s i t Hi|s i t Hi|s i t b Hi]; simpl; try done.
  - split; [|done]. destruct Hw. split; simpl; lia.
  - apply wedged_refuses in Hw. by rw Hw in Hr.
  - by destruct (Hnf i).
Qed.

(** C13: once the pool is wedged (with a stall limit above zero), [_run] fails
    fast for as long as no call that came through it completes.  Whatever else happens (time passes, workers
    pick tasks up, callers are cancelled, and tasks are handed to the pool past
    [_run], as [stream_get] does, and complete): every later submission through
    [_run] is refused with DaosPoolWedged instead of queuing, so that the number
    of tasks it has admitted does not grow, and the health probe keeps reporting
    the stall.  The first completion of an admitted call ends it at once.  It is
    [_run] that is guarded, not the pool: a submission past it is accepted in
    any state. *)
Theorem wedged_pool_fails_fast s es s' :
  0 < STALL_SECS → wedged s → steps s es s' → (∀ i, Finish i ∉ es) →
  (Submit ∉ es) ∧ io s' = io s ∧ len (admitted s') ≤ len (admitted s) ∧
  _run (now s') (io s') = Raise DaosPoolWedged ∧
  STALL_SECS < _wedged_for (now s') (io s') ∧
  (∀ i t, running s' !! i = Some (t, true) →
    ∃ s2, step s' (Finish i) s2 ∧ is_ok (_run (now s2) (io s2)) = true ∧ _wedged_for (now s2) (io s2) = 0) ∧
  ∃ s2, step s' Bypass s2 ∧ len (queued s2) = len (queued s') + 1.
Proof.
  intros Hpos Hw Hst Hnf.
  assert ((Submit ∉ es) ∧ wedged s' ∧ io s' = io s ∧ len (admitted s') ≤ len (admitted s)) as (Hns & Hw' & Hio & Hadm).
  { induction Hst as [s|s e s1 es s2 H1 H2 IH]; [split_and!; [apply not_elem_of_nil|done..]|].
    destruct (wedged_step _ _ _ H1 Hw) as (Hw1 & Hne & Hio).
    { intros i ->. apply (Hnf i). apply elem_of_cons. by left. }
    destruct IH as (Hns & Hw2 & Hio2 & Ha2); [done| |].
    { intros i Hin. apply (Hnf i). apply elem_of_cons. by right. }
    rw not_elem_of_cons Hio2. split_and!; try done.
    pose proof (admitted_step _ _ _ H1) as Ha. destruct e, (bool_decide _); simpl in Ha; try done; lia. }
  split; [done|]. split; [done|]. split; [done|]. pose proof Hw' as Hr%wedged_refuses. split; [done|]. split_and!.
  - destruct (run_cases (now s') (io s')) as [(_ & _ & ? & ->)|(E & _)]; [done|by rw E in Hr].
  - intros i t Hi. eexists. split; [by eapply step_finish|]. cbn [now io].
    destruct (run_cases (now s') (_tracked_done (now s') (io s'))) as [(_ & _ & Hbad & _)|(-> & -> & _)]; [|done].
    simpl in Hbad. lia.
  - eexists. split; [apply step_bypass|]. by rw /= len_app.
Qed.

(** The clock never runs back, and a completion is remembered. *)
Lemma clock_steps s es s' :
  steps s es s' → wf s →
  now s ≤ now s' ∧ _last_done (io s) ≤ _last_done (io s') ∧
  ∀ i, Finish i ∈ es → now s ≤ _last_done (io s').
Proof.
  induction 1 as [s|s e s1 es s2 Hst _ IH]; intros Hwf.
  { split_and!; try done. intros i Hi. by apply elem_of_nil in Hi. }
  destruct (IH (wf_step _ _ _ Hst Hwf)) as (IH1 & IH2 & IH3).
  assert (now s ≤ now s1 ∧ _last_done (io s) ≤ _last_done (io s1)) as [Hn Hl].
  { destruct Hwf as [_ _ Hc _].
    destruct Hst as [s d Hd|s p Hr|s Hr|s|s t q Hq Hlt|s i t Hi|s i t Hi|s i t b Hi]; simpl; try lia.
    destruct (run_cases (now s) (io s)) as [(E & _)|(E & _)]; rw E in Hr; [done|]. injection Hr as <-. simpl. lia. }
  split; [lia|]. split; [lia|]. intros i [<-|Hi]%elem_of_cons.
  - inversion Hst; subst. simpl in *. lia.
  - specialize (IH3 i Hi). lia.
Qed.

(** A submission is refused only when the pool owes as many calls as it has
    workers and nothing has completed for STALL_SECS: along any run of the
    executor from a fresh pool, the count the code keeps is the number of
    admitted tasks running or queued and of those cancelled in the queue, at
    most [_workers] tasks run, and a refusal at time [t] means that no admitted
    task finished after [t - STALL_SECS]. *)
Theorem refusal_is_justified t0 es1 s1 es2 s2 :
  0 < _workers → steps (start_sys t0) es1 s1 → steps s1 es2 s2 →
  _run (now s2) (io s2) = Raise DaosPoolWedged →
  now s2 - now s1 ≤ STALL_SECS →
  _inflight (io s2) = len (admitted s2) + cancelled s2 ∧
  _workers ≤ len (admitted s2) + cancelled s2 ∧ len (running s2) ≤ _workers ∧
  ∀ i, Finish i ∉ es2.
Proof.
  intros Hpos H1 H2 Hr Hrecent. assert (wf s1) as Hwf1 by (eapply wf_steps; [done|]; apply wf_start; lia).
  pose proof (wf_steps _ _ _ H2 Hwf1) as [Hc Hw _ _]. apply wedged_refuses in Hr as [Hb Hs].
  split_and!; try done; [lia|].
  intros i Hi. destruct (clock_steps _ _ _ H2 Hwf1) as (_ & _ & Hl). specialize (Hl i Hi). lia.
Qed.

(** A cancelled call is never forgotten: a pool whose only worker is free, and
    which has nothing to do, refuses once as many queued calls have been
    cancelled as there are workers and nothing has completed since. *)
Lemma cancelled_calls_wedge_an_idle_pool t0 d :
  _workers = 1 → 0 ≤ STALL_SECS < d →
  ∃ s, steps (start_sys t0) [Submit; Cancel 0; Tick d] s ∧ running s = [] ∧ queued s = [] ∧
    _run (now s) (io s) = Raise DaosPoolWedged.
Proof.
  intros Hwk Hd. eexists. split.
  { eapply steps_cons; [|eapply steps_cons; [|eapply steps_cons; [|constructor]]].
    - apply (step_submit (start_sys t0) (mkPool 1 t0)). simpl.
      destruct (run_cases t0 (mkPool 0 t0)) as [(_ & Hbad & _)|(-> & _)]; simpl in *; [lia|done].
    - by apply (step_cancel _ 0 t0 true).
    - apply step_tick. lia. }
  simpl. split; [done|]. split; [done|].
  destruct (run_cases (t0 + d) (mkPool 1 t0)) as [(-> & _)|(_ & _ & Hbad)]; simpl in *; [done|lia].
Qed.

(** But saturation after an idle period is mistaken for a wedge: a pool
    that has been idle for longer than STALL_SECS admits one task per worker
    and refuses the next one submitted at the same instant, although every
    task in it was submitted at that very instant and none has had time to
    run. *)
Theorem idle_pool_refuses_a_burst t0 d :
  0 < _workers → 0 ≤ STALL_SECS < d →
  ∃ es s, steps (start_sys t0) (Tick d :: es) s ∧ (∀ e, e ∈ es → e = Submit) ∧
    len es = _workers ∧ _run (now s) (io s) = Raise DaosPoolWedged ∧
    Forall (λ t, t.1 = now s) (running s ++ queued s).
Proof.
  intros Hpos Hd.
  assert (∀ n : nat, Z.of_nat n ≤ _workers →
    steps (mkSys (t0 + d) (mkPool 0 t0) [] [] 0) (replicate n Submit)
      (mkSys (t0 + d) (mkPool (Z.of_nat n) t0) [] (replicate n (t0 + d, true)) 0)) as Hsub.
  { intros n Hn. change (mkSys (t0 + d) (mkPool 0 t0) [] [] 0) with
      (mkSys (t0 + d) (mkPool (Z.of_nat 0) t0) [] (replicate 0 (t0 + d, true)) 0).
    assert (∀ k : nat, Z.of_nat (k + n) ≤ _workers →
      steps (mkSys (t0 + d) (mkPool (Z.of_nat k) t0) [] (replicate k (t0 + d, true)) 0) (replicate n Submit)
        (mkSys (t0 + d) (mkPool (Z.of_nat (k + n)) t0) [] (replicate (k + n) (t0 + d, true)) 0)) as Hk; [|by apply (Hk 0%nat)].
    clear Hn. induction n as [|n IH]; intros k Hk; simpl; [rw Nat.add_0_r; constructor|].
    eapply steps_cons; [|rw -Nat.add_succ_comm; apply IH; lia].
    pose proof (step_submit (mkSys (t0 + d) (mkPool (Z.of_nat k) t0) [] (replicate k (t0 + d, true)) 0)
      (mkPool (Z.of_nat (S k)) t0)) as Hs. simpl in Hs.
    rw -(replicate_cons_app k (t0 + d, true)) in Hs. apply Hs.
    destruct (run_cases (t0 + d) (mkPool (Z.of_nat k) t0)) as [(_ & Hbad & _)|(-> & _)]; simpl in *; [lia|].
    f_equal. f_equal. lia. }
  exists (replicate (Z.to_nat _workers) Submit). eexists. split.
  { eapply steps_cons; [apply (step_tick _ d); lia|]. simpl. apply Hsub. lia. }
  simpl. split; [intros e He; by apply elem_of_replicate in He as [-> _]|].
  split; [rw /len length_replicate; lia|]. split.
  - destruct (run_cases (t0 + d) (mkPool (Z.of_nat (Z.to_nat _workers)) t0)) as [(-> & _)|(_ & _ & Hbad)]; simpl in *; [done|lia].
  - by apply Forall_replicate.
Qed.
End Pool.

(** ** The health probe *)
Definition PING_UNKNOWN_ERROR : Z := 1.
Definition PING_TIMEOUT_ERROR : Z := -1.

(** A probe's thread call: still inside libdaos, or back with a result. *)
Inductive pcall := InLib | Returned (r : res unit).
Record pstate := mkPing { _ping_inflight : bool; calls : list (pcall * bool (* awaited *)) }.

(** [ping] up to its [await]: an immediate code, or a probe on its way. *)
Definition ping_enter (wedged : Z) (p : pstate) : option Z * pstate :=
  if negb (wedged =? 0) then (Some EBUSY, p) else
  if _ping_inflight p then (Some PING_TIMEOUT_ERROR, p) else
  (None, mkPing true (calls p ++ [(InLib, true)])).

(** The [finally] of [_ping_sync], on the ping thread. *)
Definition ping_sync_done (i : nat) (r : res unit) (p : pstate) : pstate :=
  match calls p !! i with
  | Some (InLib, w) => mkPing false (<[i := (Returned r, w)]> (calls p))
  | _ => p
  end.

(** [ping] after its [await]. *)
Definition ping_resume (i : nat) (p : pstate) : option (Z * pstate) :=
  match calls p !! i with
  | Some (Returned (Ok _), true) => Some (0, mkPing (_ping_inflight p) (<[i := (Returned (Ok tt), false)]> (calls p)))
  | Some (Returned (Raise e), true) =>
      let code := match daos_rc e with
                  | Some rc => if negb (rc =? 0) then rc else PING_UNKNOWN_ERROR
                  | None => PING_UNKNOWN_ERROR
                  end in
      Some (code, mkPing false (<[i := (Returned (Raise e), false)]> (calls p)))
  | _ => None
  end.
(** The timeout of [wait_for]: the thread stays where it is. *)
Definition ping_timeout (i : nat) (p : pstate) : option (Z * pstate) :=
  match calls p !! i with
  | Some (InLib, true) => Some (PING_TIMEOUT_ERROR, mkPing (_ping_inflight p) (<[i := (InLib, false)]> (calls p)))
  | _ => None
  end.

(** One caller at a time, as LMCache's health monitor is: a new ping starts
    only when the previous one has its answer.  The label is the answer. *)
Inductive pstep : pstate → option Z → pstate → Prop :=
| pstep_enter wedged p r p' :
    Forall (λ c, snd c = false) (calls p) → ping_enter wedged p = (r, p') → pstep p r p'
| pstep_done i r p : pstep p None (ping_sync_done i r p)
| pstep_resume i p c p' : ping_resume i p = Some (c, p') → pstep p (Some c) p'
| pstep_timeout i p c p' : ping_timeout i p = Some (c, p') → pstep p (Some c) p'.

Inductive preach : pstate → Prop :=
| preach_init : preach (mkPing false [])
| preach_step p r p' : preach p → pstep p r p' → preach p'.

Definition in_lib (c : pcall * bool) : bool := match fst c with InLib => true | _ => false end.

(** The flag is up exactly while one probe is inside libdaos, and only the
    last probe can be awaited. *)
Record pinv (p : pstate) : Prop := mkPinv {
  pinv_flag : _ping_inflight p = true → ∃ pre w, calls p = pre ++ [(InLib, w)] ∧
    Forall (λ c, in_lib c = false) pre;
  pinv_clear : _ping_inflight p = false → Forall (λ c, in_lib c = false) (calls p);
  pinv_await : ∀ i c, calls p !! i = Some (c, true) → S i = length (calls p);
}.

Lemma last_unique {X} (pre : list X) x l i y :
  l = pre ++ [x] → l !! i = Some y → S i = length l → y = x ∧ i = length pre.
Proof.
  intros -> Hi Hl. rw length_app /= in Hl. assert (i = length pre) as -> by lia.
  rw lookup_app_r // Nat.sub_diag /= in Hi. by injection Hi.
Qed.

(** Updating one call, awaited only if it was. *)
Lemma await_insert (l : list (pcall * bool)) i c w w' :
  (∀ j c, l !! j = Some (c, true) → S j = length l) → l !! i = Some (c, w) → (w' = true → w = true) →
  ∀ c' j d, <[i := (c', w')]> l !! j = Some (d, true) → S j = length (<[i := (c', w')]> l).
Proof.
  intros Ha Hi Hw c' j d Hj. rw length_insert. destruct (decide (i = j)) as [<-|Hne].
  - rw list_lookup_insert_eq in Hj; [by eapply lookup_lt_Some|]. injection Hj as _ ->.
    eapply Ha. by rw Hi Hw.
  - rw list_lookup_insert_ne // in Hj. by eapply Ha.
Qed.

Lemma pinv_in_lib p i w : pinv p → calls p !! i = Some (InLib, w) →
  _ping_inflight p = true ∧ ∃ pre, calls p = pre ++ [(InLib, w)] ∧ i = length pre ∧
    Forall (λ c, in_lib c = false) pre.
Proof.
  intros [Hf Hc Ha] Hi. destruct (_ping_inflight p).
  - split; [done|]. destruct (Hf eq_refl) as (pre & w' & Heq & Hpre). exists pre.
    rw Heq in Hi. apply lookup_app_Some in Hi as [Hi|[Hl Hi]].
    + rw Forall_lookup in Hpre. specialize (Hpre _ _ Hi). done.
    + apply list_lookup_singleton_Some in Hi as [Hz [= ->]]. split_and!; try done. lia.
  - specialize (Hc eq_refl). rw Forall_lookup in Hc. by specialize (Hc _ _ Hi).
Qed.

Lemma pinv_step p r p' : pstep p r p' → pinv p → pinv p'.
Proof.
  intros Hst Hp. pose proof Hp as [Hf Hc Ha].
  destruct Hst as [wd p r p' Hno He|i r p|i p c p' He|i p c p' He].
  - rw /ping_enter in He. destruct (negb (wd =? 0)); [by injection He as <- <-|].
    destruct (_ping_inflight p) eqn:E; injection He as <- <-; [done|]. split; simpl; [|done|].
    + intros _. exists (calls p), true. split; [done|]. by apply Hc.
    + intros i c Hi. rw length_app /=. apply lookup_app_Some in Hi as [Hi|[Hl Hi]].
      * rw Forall_lookup in Hno. by specialize (Hno _ _ Hi).
      * apply list_lookup_singleton_Some in Hi as [Hz _]. lia.
  - rw /ping_sync_done. destruct (calls p !! i) as [[[|r'] w]|] eqn:Hi; try done.
    destruct (pinv_in_lib _ _ _ Hp Hi) as (_ & pre & Heq & -> & Hpre). split; simpl; [done| |].
    + intros _. rw Heq insert_app_r_alt ?Nat.sub_diag //=. apply Forall_app. split; [done|]. by repeat constructor.
    + by eapply await_insert.
  - rw /ping_resume in He. destruct (calls p !! i) as [[[|r'] []]|] eqn:Hi; try done.
    2:{ by destruct r'. }
    assert (_ping_inflight p = false) as Hfl.
    { destruct (_ping_inflight p) eqn:E; [|done]. destruct (Hf eq_refl) as (pre & w & Heq & _).
      destruct (last_unique _ _ _ _ _ Heq Hi (Ha _ _ Hi)) as [[=] _]. }
    assert (∀ b, pinv (mkPing false (<[i := (Returned b, false)]> (calls p)))) as Hall.
    { intros b. split; simpl; [done| |by eapply await_insert].
      intros _. apply Forall_insert; [by apply Hc|done]. }
    destruct r' as [[]|e]; injection He as <- <-; [rw Hfl|]; apply Hall.
  - rw /ping_timeout in He. destruct (calls p !! i) as [[[|r'] []]|] eqn:Hi; try done. injection He as <- <-.
    destruct (pinv_in_lib _ _ _ Hp Hi) as (Hfl & pre & Heq & -> & Hpre). split; simpl.
    + intros _. exists pre, false. split; [|done]. rw Heq insert_app_r_alt ?Nat.sub_diag //.
    + by rw Hfl.
    + by eapply await_insert.
Qed.

Lemma pinv_reach p : preach p → pinv p.
Proof. induction 1; [by split|by eapply pinv_step]. Qed.

(** Probes do not pile up, and a recovered backend is probed again: in
    every state a sequence of pings can reach, the flag is set exactly when
    one probe is inside libdaos (never two), so that a ping during that time
    answers PING_TIMEOUT at once without adding a call, and as soon as the
    call comes back, even long after its timeout, the next ping probes. *)
Theorem probes_never_pile_up p :
  preach p →
  (length (filter (λ c, in_lib c = true) (calls p)) ≤ 1)%nat ∧
  (_ping_inflight p = true ↔ ∃ i w, calls p !! i = Some (InLib, w)) ∧
  (_ping_inflight p = true → ping_enter 0 p = (Some PING_TIMEOUT_ERROR, p)) ∧
  ∀ i w r, calls p !! i = Some (InLib, w) →
    fst (ping_enter 0 (ping_sync_done i r p)) = None.
Proof.
  intros Hp%pinv_reach. pose proof Hp as [Hf Hc Ha].
  assert (∀ l, Forall (λ c, in_lib c = false) l → filter (λ c, in_lib c = true) l = []) as Hnil.
  { induction 1 as [|c l Hcc _ IH]; [done|]. rw filter_cons_False // Hcc. done. }
  split_and!.
  - destruct (_ping_inflight p).
    + destruct (Hf eq_refl) as (pre & w & -> & Hpre). rw filter_app length_app Hnil //=.
    + rw Hnil; [by apply Hc|]. simpl. lia.
  - split.
    + intros Hfl. destruct (Hf Hfl) as (pre & w & -> & _). exists (length pre), w.
      by rw lookup_app_r // Nat.sub_diag.
    + intros (i & w & Hi). by destruct (pinv_in_lib _ _ _ Hp Hi).
  - intros Hfl. by rw /ping_enter Hfl.
  - intros i w r Hi. by rw /ping_sync_done Hi /ping_enter.
Qed.

(** ** Concrete runs: one worker, a stall limit of two ticks *)
Lemma wedged_pool_fails_fast_witness :
  let s := mkSys 5 (mkPool 1 0) [(0, true)] [] 0 in
  let s' := mkSys 8 (mkPool 1 0) [(0, true)] [(8, false)] 0 in
  steps 1 2 s [Tick 3; Refuse; Bypass] s' ∧ _run 1 2 (now s') (io s') = Raise DaosPoolWedged.
Proof.
  intros s s'. assert (steps 1 2 s [Tick 3; Refuse; Bypass] s') as Hs.
  { eapply steps_cons; [apply step_tick; lia|]. eapply steps_cons; [by apply step_refuse|].
    eapply steps_cons; [apply step_bypass|constructor]. }
  split; [exact Hs|].
  destruct (wedged_pool_fails_fast 1 2 s [Tick 3; Refuse; Bypass] s') as (_ & _ & _ & Hr & _).
  - lia.
  - split; simpl; lia.
  - exact Hs.
  - intros i. rw !not_elem_of_cons. split_and!; [intros [=]|intros [=]|intros [=]|apply not_elem_of_nil].
  - exact Hr.
Defined.

Lemma refusal_is_justified_witness :
  let s := mkSys 4 (mkPool 1 0) [] [(0, true)] 0 in
  steps 1 2 (start_sys 0) [Submit; Tick 3; Tick 1] s ∧ _inflight (io s) = 1 ∧ 1 ≤ len (queued s).
Proof.
  intros s. assert (steps 1 2 (start_sys 0) [Submit; Tick 3] (mkSys 3 (mkPool 1 0) [] [(0, true)] 0)) as H1.
  { eapply steps_cons; [by apply (step_submit 1 2 (start_sys 0) (mkPool 1 0))|].
    eapply steps_cons; [apply step_tick; lia|constructor]. }
  assert (steps 1 2 (mkSys 3 (mkPool 1 0) [] [(0, true)] 0) [Tick 1] s) as H2.
  { eapply steps_cons; [apply step_tick; lia|constructor]. }
  split.
  { eapply steps_cons; [by apply (step_submit 1 2 (start_sys 0) (mkPool 1 0))|].
    eapply steps_cons; [apply step_tick; lia|]. exact H2. }
  destruct (refusal_is_justified 1 2 0 _ _ _ _ ltac:(lia) H1 H2) as (Hc & Hw & _);
    [reflexivity|simpl; lia|]. split; [exact Hc|exact Hw].
Defined.

Lemma idle_pool_refuses_a_burst_witness :
  ∃ es s, steps 2 60 (start_sys 0) (Tick 61 :: es) s ∧ len es = 2 ∧
    _run 2 60 (now s) (io s) = Raise DaosPoolWedged.
Proof.
  destruct (idle_pool_refuses_a_burst 2 60 0 61) as (es & s & Hs & _ & Hl & Hr & _); [lia|lia|].
  exists es, s. split; [exact Hs|]. split; [exact Hl|exact Hr].
Defined.

Lemma probes_never_pile_up_witness :
  let p := mkPing true [(InLib, false)] in
  preach p ∧ ping_enter 0 p = (Some PING_TIMEOUT_ERROR, p).
Proof.
  intros p. assert (preach p) as Hp.
  { eapply preach_step; [|by apply (pstep_timeout 0 (mkPing true [(InLib, true)]))].
    eapply preach_step; [apply preach_init|]. by apply (pstep_enter 0). }
  split; [exact Hp|]. destruct (probes_never_pile_up p Hp) as (_ & _ & Ht & _). apply Ht. reflexivity.
Defined.
