(* ===== verification/Batch.v ===== *)
(** * Batches on the I/O pool: the coroutines of [connector.py] with [_run]

    A batched coroutine submits one call per key through [_run] and awaits them
    together.  [_run] is a plain function: it admits a call to the executor or
    raises [DaosPoolWedged] on the spot, which ends the expansion of the batch
    while the calls already admitted go on.  [Machine] is that as an executable
    transition system over any kind of call: a history is a list of events
    (time passes, a call is submitted, one of the calls the workers hold
    returns, other users of the pool submit, take a worker or give it back,
    something else in the process acts on the state), and [await_all],
    [await_first] and [await_one] are what the coroutine sees of it, with and
    without [return_exceptions].  [Coroutines] are the methods of the connector
    on that machine; [Connector] has the same methods with the calls run one
    after the other, which is the history [in_order] (see
    [in_order_is_sequential]).

    A call returns when the history says so and never has to: a call to an
    engine that is gone is one that no event [Return] names.  [hung_calls] is
    about those. *)
From S2P Require Import Prelude Serde SerdeV3 DfsBinding ObjBinding Keys ConnBase ConnDfs ConnRaw Connector WedgePool.
Open Scope Z_scope.
Open Scope py_scope.

(** What a batch shares with the rest of the process: the clock, the pool's
    counters, the workers that calls of others hold, and the state the calls
    work on. *)
Record world (S : Type) := mkWorld { w_now : Z; w_io : pool; w_held : Z; w_state : S }.
Arguments mkWorld {S} _ _ _ _.
Arguments w_now {S} _.
Arguments w_io {S} _.
Arguments w_held {S} _.
Arguments w_state {S} _.

Inductive event (S : Type) :=
| Elapse (d : Z)
| Enter                  (* the generator submits its next call *)
| Return (k : nat)       (* the [k]-th of the calls in flight returns *)
| Join                   (* [_run] admits a call of somebody else *)
| Take                   (* a worker takes a call of somebody else *)
| Leave (tracked : bool) (* such a call returns; one of [stream_get] is not tracked *)
| Other (f : S → S).     (* anything else that acts on the state *)
Arguments Elapse {S} _.
Arguments Enter {S}.
Arguments Return {S} _.
Arguments Join {S}.
Arguments Take {S}.
Arguments Leave {S} _.
Arguments Other {S} _.

Record batch (S B : Type) := mkBatch {
  b_world : world S;
  b_todo : list (M S B);             (* what the generator has not yielded yet *)
  b_sent : nat;
  b_flight : list (nat * M S B);     (* admitted, by submission, with its position *)
  b_done : list (nat * res B);       (* returned, in that order *)
  b_raised : option exn }.           (* what [_run] raised into the expansion *)
Arguments mkBatch {S B} _ _ _ _ _ _.
Arguments b_world {S B} _.
Arguments b_todo {S B} _.
Arguments b_sent {S B} _.
Arguments b_flight {S B} _.
Arguments b_done {S B} _.
Arguments b_raised {S B} _.

Section Machine.
Context {S B : Type} (_workers STALL_SECS : Z).
Implicit Types (b : batch S B) (w : world S) (tasks : list (M S B)).

Definition submit_io (tasks : list (M S B)) (w : world S) : batch S B := mkBatch w tasks 0 [] [] None.

Definition set_io (p : pool) (held : Z) (w : world S) : world S := mkWorld (w_now w) p held (w_state w).
Definition set_world (w : world S) (b : batch S B) : batch S B :=
  mkBatch w (b_todo b) (b_sent b) (b_flight b) (b_done b) (b_raised b).

(** The executor takes calls in submission order, so the workers that others
    do not hold have the first of the calls in flight. *)
Definition bstep (e : event S) (b : batch S B) : option (batch S B) :=
  let w := b_world b in
  match e with
  | Elapse d =>
      if 0 <=? d then Some (set_world (mkWorld (w_now w + d) (w_io w) (w_held w) (w_state w)) b) else None
  | Enter =>
      match b_todo b with
      | [] => None
      | t :: todo =>
          match _run _workers STALL_SECS (w_now w) (w_io w) with
          | Ok p => Some (mkBatch (set_io p (w_held w) w) todo (Datatypes.S (b_sent b))
                            (b_flight b ++ [(b_sent b, t)]) (b_done b) (b_raised b))
          | Raise e => Some (mkBatch w [] (b_sent b) (b_flight b) (b_done b) (Some e))
          end
      end
  | Return k =>
      if Z.of_nat k <? _workers - w_held w then
        match b_flight b !! k with
        | Some (i, t) =>
            let '(r, s') := t (w_state w) in
            Some (mkBatch (mkWorld (w_now w) (_tracked_done (w_now w) (w_io w)) (w_held w) s') (b_todo b) (b_sent b)
                    (delete k (b_flight b)) (b_done b ++ [(i, r)]) (b_raised b))
        | None => None
        end
      else None
  | Join =>
      match _run _workers STALL_SECS (w_now w) (w_io w) with
      | Ok p => Some (set_world (set_io p (w_held w) w) b)
      | Raise _ => None
      end
  | Take => if w_held w <? _workers then Some (set_world (set_io (w_io w) (w_held w + 1) w) b) else None
  | Leave tracked =>
      if 0 <? w_held w then
        let p := if tracked then _tracked_done (w_now w) (w_io w) else w_io w in
        Some (set_world (set_io p (w_held w - 1) w) b)
      else None
  | Other f => Some (set_world (mkWorld (w_now w) (w_io w) (w_held w) (f (w_state w))) b)
  end.

Fixpoint exec (es : list (event S)) (b : batch S B) : option (batch S B) :=
  match es with
  | [] => Some b
  | e :: es => match bstep e b with Some b' => exec es b' | None => None end
  end.

(** The results in the order of the awaitables. *)
Definition in_positions (n : nat) (done : list (nat * res B)) : list (res B) :=
  omap (λ i, (list_to_map done : gmap nat (res B)) !! i) (seq 0 n).

Fixpoint first_raise (done : list (nat * res B)) : option exn :=
  match done with
  | [] => None
  | (_, Raise e) :: _ => Some e
  | (_, Ok _) :: done => first_raise done
  end.

(** [await asyncio.gather(..., return_exceptions=True)]; [None] while it waits. *)
Definition await_all (b : batch S B) : option (res (list (res B))) :=
  match b_raised b, b_todo b, b_flight b with
  | Some e, _, _ => Some (Raise e)
  | None, [], [] => Some (Ok (in_positions (b_sent b) (b_done b)))
  | None, _, _ => None
  end.
(** [await asyncio.gather(...)]: back at the first exception; the other calls go on. *)
Definition await_first (b : batch S B) : option (res (list B)) :=
  match b_raised b, b_todo b, first_raise (b_done b), b_flight b with
  | Some e, _, _, _ => Some (Raise e)
  | None, [], Some e, _ => Some (Raise e)
  | None, [], None, [] => Some (res_map id (in_positions (b_sent b) (b_done b)))
  | None, _, _, _ => None
  end.
(** [await self._run(...)] *)
Definition await_one (b : batch S B) : option (res B) :=
  match b_raised b, b_done b with
  | Some e, _ => Some (Raise e)
  | None, (_, r) :: _ => Some r
  | None, [] => None
  end.
End Machine.

(** ** The coroutines *)
Section Coroutines.
Context {D O A : Type} `{LibDfs D} `{LibDaosObj O} `{MetaCodec} `{!LocalCpu A}.
Context (_workers STALL_SECS : Z) (cfg : settings).
Abbreviation C := (conn D O A).

(** Each takes the history that happens while it runs.  The history may go on
    after the coroutine is back: its answer does not change ([await_stable]),
    and the state is the one at the end. *)
Definition call_co {X} (t : M C X) (es : list (event C)) (w : world C) : option (res X * world C) :=
  match exec _workers STALL_SECS es (submit_io [t] w) with
  | Some b => match await_one b with Some r => Some (r, b_world b) | None => None end
  | None => None
  end.

Definition exists_co (key : pykey) := call_co (_exists_sync (_addr cfg key)).
Definition get_co (key : pykey) := call_co (_get_sync cfg (_addr cfg key)).
Definition list_co (fuel : nat) (es : list (event C)) (w : world C) : option (res (list string) * world C) :=
  if _raw cfg then Some (Raise NotImplementedError, w) else call_co (onD (listdir fuel "/" None)) es w.

Definition with_state (w : world C) (s : C) : world C := mkWorld (w_now w) (w_io w) (w_held w) s.

Definition put_co (key : pykey) (m : Z) (es : list (event C)) (w : world C) : option (res unit * world C) :=
  match _prep_write (_ALIAS_STORE cfg) m (w_state w) with
  | (Raise e, s) => Some (Raise e, with_state w s)
  | (Ok (header, x, n), s) =>
      match call_co (_put_sync (_addr cfg key) header x n) es (with_state w s) with
      | Some (r, w') => Some (r, with_state w' (snd (_drop_put_ref m (w_state w'))))
      | None => None
      end
  end.

Definition batched_get_co (keys : list pykey) (es : list (event C)) (w : world C)
  : option (res (list (option Z)) * world C) :=
  let paths := _addr cfg <$> keys in
  let order := if _raw cfg then batch_groups paths else [] in
  match order with
  | _ :: _ =>
      match exec _workers STALL_SECS es (submit_io
              ((λ g : bytes * list (nat * Z), _get_raw_folded (fst g) (snd <$> snd g)) <$> order) w) with
      | Some b =>
          match await_all b with
          | Some r => Some (let? gathered := r in
                            let? gots := res_map (miss_on_error []) gathered in
                            Ok (scatter (replicate (length keys) None) (zip order gots)), b_world b)
          | None => None
          end
      | None => None
      end
  | [] =>
      match exec _workers STALL_SECS es (submit_io (_get_sync cfg <$> paths) w) with
      | Some b =>
          match await_all b with
          | Some r => Some (let? gathered := r in res_map (miss_on_error None) gathered, b_world b)
          | None => None
          end
      | None => None
      end
  end.

(** The calls of [batched_put] on buffers that are prepared. *)
Definition put_calls (keys : list pykey) (prepped : list (bytes * src * Z)) : list (M C unit) :=
  let addrs := _addr cfg <$> keys in
  let order := if _raw cfg then batch_groups addrs else [] in
  match order with
  | _ :: _ =>
      (λ g : bytes * list (nat * Z),
         _put_raw_folded (fst g)
           (omap (λ x : nat * Z,
              match prepped !! fst x with
              | Some (h, b, n) => Some (Some (snd x), h, b, n)
              | None => None
              end) (snd g))) <$> order
  | [] => zip_with (λ a p, _put_sync a p.1.1 p.1.2 p.2) addrs prepped
  end.

Definition batched_put_co (keys : list pykey) (mos : list Z) (es : list (event C)) (w : world C)
  : option (res unit * world C) :=
  match mapM (_prep_write (_ALIAS_STORE cfg)) mos (w_state w) with
  | (Raise e, s) => Some (Raise e, with_state w s)
  | (Ok prepped, s) =>
      match exec _workers STALL_SECS es (submit_io (put_calls keys prepped) (with_state w s)) with
      | Some b =>
          match await_first b with
          | Some r => Some (let? _ := r in Ok tt,
                            with_state (b_world b) (snd (mapM _drop_put_ref mos (w_state (b_world b)))))
          | None => None
          end
      | None => None
      end
  end.

Definition batched_get_non_blocking_co (keys : list pykey) (es : list (event C)) (w : world C)
  : option (res (list Z) * world C) :=
  match exec _workers STALL_SECS es (submit_io (_get_sync cfg <$> (_addr cfg <$> keys)) w) with
  | Some b =>
      match await_first b with
      | Some (Ok res) =>
          let prefix := some_prefix res in
          let '(r, s') := mapM _release (omap id (drop (length prefix) res)) (w_state (b_world b)) in
          Some (let? _ := r in Ok prefix, with_state (b_world b) s')
      | Some (Raise e) => Some (Raise e, b_world b)
      | None => None
      end
  | None => None
  end.
End Coroutines.

(** ** Facts of the machine *)
Section MachineFacts.
Context {S B : Type} (_workers STALL_SECS : Z).
Abbreviation exec := (exec (S := S) (B := B) _workers STALL_SECS).
Abbreviation bstep := (bstep (S := S) (B := B) _workers STALL_SECS).
Implicit Types (b : batch S B) (w : world S) (tasks : list (M S B)).

Lemma exec_app es1 es2 b : exec (es1 ++ es2) b = exec es1 b ≫= exec es2.
Proof. revert b. induction es1 as [|e es1 IH]; intros b; simpl; [done|]. by destruct (bstep e b). Qed.

(** What the others do to the pool's counter in a history: the change, and the
    submissions alone. *)
Definition net1 (e : event S) : Z := match e with Join => 1 | Leave true => -1 | _ => 0 end.
Definition join1 (e : event S) : Z := match e with Join => 1 | _ => 0 end.
Fixpoint net (es : list (event S)) : Z := match es with [] => 0 | e :: es => net1 e + net es end.
Fixpoint joins (es : list (event S)) : Z := match es with [] => 0 | e :: es => join1 e + joins es end.
Definition shift1 (e : event S) (i : Z * Z) : Z * Z := (i.1 + net1 e, i.2 + join1 e).
Definition shift (es : list (event S)) (i : Z * Z) : Z * Z := (i.1 + net es, i.2 + joins es).
Lemma shift_cons e es i : shift (e :: es) i = shift es (shift1 e i).
Proof. rw /shift /shift1 /=. f_equal; lia. Qed.

(** Every position submitted is in flight or done, never both; the pool's
    counter is the calls in flight above those of the others ([i.1], at most
    [i.2] so far); a batch that was refused has submitted nothing more. *)
Record binv (tasks : list (M S B)) (i : Z * Z) (b : batch S B) : Prop := mkBinv {
  bi_perm : (b_flight b).*1 ++ (b_done b).*1 ≡ₚ seq 0 (b_sent b);
  bi_sent : (b_sent b ≤ length tasks)%nat;
  bi_flight : Forall (λ x, tasks !! x.1 = Some x.2) (b_flight b);
  bi_todo : b_raised b = None → b_todo b = drop (b_sent b) tasks;
  bi_raised e : b_raised b = Some e → e = DaosPoolWedged ∧ b_todo b = [] ∧ _workers ≤ i.2 + Z.of_nat (b_sent b);
  bi_count : _inflight (w_io (b_world b)) = i.1 + len (b_flight b);
  bi_le : i.1 ≤ i.2;
}.

(** The state of the world does not matter to the other fields. *)
Lemma binv_world tasks i i' b w : binv tasks i b →
  i'.1 - i.1 = _inflight (w_io w) - _inflight (w_io (b_world b)) → i.2 ≤ i'.2 → i'.1 ≤ i'.2 →
  binv tasks i' (set_world w b).
Proof.
  intros [Hp Hs Hf Ht Hr Hc Hle] Hi H2 Hl'. split; simpl; try done; [|lia].
  intros e He. destruct (Hr e He) as (? & ? & ?). split_and!; try done. lia.
Qed.

Lemma binv_nodup tasks i0 b : binv tasks i0 b → NoDup ((b_flight b).*1 ++ (b_done b).*1).
Proof. intros [Hp _ _ _ _ _ _]. rw Hp. apply NoDup_seq. Qed.

Lemma binv_len tasks i0 b : binv tasks i0 b → (length (b_flight b) + length (b_done b) = b_sent b)%nat.
Proof. intros [Hp _ _ _ _ _ _]. apply Permutation_length in Hp. by rw length_app !length_fmap length_seq in Hp. Qed.

Definition alone_at (n : Z) : Z * Z := (n, n).
Lemma binv_start tasks w : binv tasks (alone_at (_inflight (w_io w))) (submit_io tasks w).
Proof. split; simpl; try done; [lia|]. rw /len /=. lia. Qed.

Lemma len_perm {X} (l k : list X) x : l ≡ₚ x :: k → len l = len k + 1.
Proof. intros Hl%Permutation_length. simpl in Hl. rw /len Hl. lia. Qed.

Lemma enter_inv tasks i0 b b' : bstep Enter b = Some b' → binv tasks i0 b → binv tasks i0 b'.
Proof.
  intros Hst Hb. pose proof (binv_len _ _ _ Hb) as Hlen. destruct Hb as [Hp Hs Hf Ht Hr Hc Hle].
  simpl in Hst. destruct (b_todo b) as [|t todo] eqn:Etodo; [done|].
  assert (b_raised b = None) as Hnone.
  { destruct (b_raised b) as [e|]; [|done]. by destruct (Hr e eq_refl) as (_ & ? & _). }
  specialize (Ht Hnone). symmetry in Ht.
  assert (tasks !! b_sent b = Some t) as Hlk.
  { rw -(Nat.add_0_r (b_sent b)) -lookup_drop Ht //. }
  pose proof (lookup_lt_Some _ _ _ Hlk) as Hlt.
  destruct (run_cases _workers STALL_SECS (w_now (b_world b)) (w_io (b_world b))) as [(E & Hw & _)|(E & _)];
    rw E in Hst; injection Hst as <-; split; simpl; try done.
  - intros e [= <-]. split_and!; try done. rw Hc /len in Hw. lia.
  - change (0%nat :: seq 1 (b_sent b)) with (seq 0 (Datatypes.S (b_sent b))).
    rw fmap_app seq_S -Hp /= -!app_assoc. apply Permutation_app_head, Permutation_app_comm.
  - apply Forall_app. split; [done|]. by repeat constructor.
  - intros _. rw -Nat.add_1_r -drop_drop Ht //.
  - rw Hnone. done.
  - rw Hc /len length_app /=. lia.
Qed.

Lemma return_inv tasks i0 b k b' : bstep (Return k) b = Some b' → binv tasks i0 b → binv tasks i0 b'.
Proof.
  intros Hst [Hp Hs Hf Ht Hr Hc Hle]. simpl in Hst. destruct (Z.of_nat k <? _ - _); [|done].
  destruct (b_flight b !! k) as [[i t]|] eqn:Hk; [|done]. destruct (t _) as [r s']. injection Hst as <-.
  apply (delete_Permutation (A := nat * M S B)) in Hk. split; simpl; try done.
  - apply (fmap_Permutation fst) in Hk. rw -Hp Hk fmap_app /= app_assoc. by rw -Permutation_cons_append.
  - by eapply Forall_delete.
  - pose proof (len_perm _ _ _ Hk) as Hl. rw Hc Hl. lia.
Qed.

Lemma run_adds t p q : _run _workers STALL_SECS t p = Ok q → _inflight q = _inflight p + 1.
Proof. destruct (run_cases _workers STALL_SECS t p) as [(-> & _)|(-> & _)]; [done|]. by intros [= <-]. Qed.

Lemma bstep_inv tasks i0 e b b' : bstep e b = Some b' → binv tasks i0 b → binv tasks (shift1 e i0) b'.
Proof.
  intros Hst Hb. pose proof (bi_le _ _ _ Hb) as Hle.
  assert (∀ n w, binv tasks n b → _inflight (w_io w) = _inflight (w_io (b_world b)) →
    binv tasks n (set_world w b)) as Hsame.
  { intros n w Hn Hw. apply (binv_world _ n n); try done; [lia|by apply bi_le in Hn]. }
  assert (∀ e, net1 e = 0 → join1 e = 0 → shift1 e i0 = i0) as Hz.
  { intros e1 Hn Hj. destruct i0 as [a c]. rw /shift1 Hn Hj /=. f_equal; lia. }
  destruct e as [d| |k| | |[]|f]; simpl in Hst.
  - destruct (0 <=? d); [|done]. injection Hst as <-. rw Hz //. by apply Hsame.
  - rw Hz //. by eapply enter_inv.
  - rw Hz //. by eapply return_inv.
  - destruct (_run _ _ _ _) as [p|] eqn:Er; [|done]. injection Hst as <-. apply run_adds in Er.
    apply (binv_world _ i0 _ _ _ Hb); rw /shift1 /=; lia.
  - destruct (_ <? _); [|done]. injection Hst as <-. rw Hz //. by apply Hsame.
  - destruct (0 <? _); [|done]. injection Hst as <-. apply (binv_world _ i0 _ _ _ Hb); rw /shift1 /=; lia.
  - destruct (0 <? _); [|done]. injection Hst as <-. rw Hz //. by apply Hsame.
  - injection Hst as <-. rw Hz //. by apply Hsame.
Qed.

Lemma exec_inv tasks i0 es b b' : exec es b = Some b' → binv tasks i0 b → binv tasks (shift es i0) b'.
Proof.
  revert b i0. induction es as [|e es IH]; intros b i0; simpl.
  { intros [= <-]. destruct i0 as [a c]. by rw /shift /= !Z.add_0_r. }
  destruct (bstep e b) as [b1|] eqn:Hst; [|done]. intros Hex Hb. rw shift_cons. eauto using bstep_inv.
Qed.

(** A property of results and state that holds at the start, that the other
    activity of the process keeps ([ok]) and that every call of the batch
    keeps, holds after every history. *)
Definition env_ok (ok : (S → S) → Prop) (es : list (event S)) : Prop := ∀ f, Other f ∈ es → ok f.

Lemma env_ok_Forall ok es : Forall (λ e, match e with Other f => ok f | _ => True end) es → env_ok ok es.
Proof. rw Forall_forall. intros HF f Hf. exact (HF _ Hf). Qed.

Lemma exec_rule tasks i0 (ok : (S → S) → Prop) (I : list (nat * res B) → S → Prop) es b b' :
  (∀ L s f, I L s → ok f → I L (f s)) →
  (∀ L s i t r s', I L s → tasks !! i = Some t → i ∉ L.*1 → t s = (r, s') → I (L ++ [(i, r)]) s') →
  binv tasks i0 b → env_ok ok es → exec es b = Some b' →
  I (b_done b) (w_state (b_world b)) → I (b_done b') (w_state (b_world b')).
Proof.
  intros Henv Hcall. revert b i0. induction es as [|e es IH]; intros b i0 Hb Hok; simpl; [by intros [= <-]|].
  destruct (bstep e b) as [b1|] eqn:Hst; [|done]. intros Hex HI.
  assert (env_ok ok es) as Hok' by (intros f Hf; apply Hok, elem_of_cons; by right).
  apply (IH b1 _ (bstep_inv _ _ _ _ _ Hst Hb) Hok' Hex). clear IH Hex. destruct e as [d| |k| | |tr|f]; simpl in Hst.
  - destruct (0 <=? d); [|done]. by injection Hst as <-.
  - destruct (b_todo b); [done|]. by destruct (_run _ _ _ _); injection Hst as <-.
  - destruct (Z.of_nat k <? _ - _); [|done].
    destruct (b_flight b !! k) as [[i t]|] eqn:Hk; [|done].
    destruct (t (w_state (b_world b))) as [r s'] eqn:Ht. injection Hst as <-. simpl.
    eapply Hcall; [exact HI| | |exact Ht].
    + pose proof (bi_flight _ _ _ Hb) as HF. rw Forall_lookup in HF. apply (HF _ _ Hk).
    + pose proof (binv_nodup _ _ _ Hb) as (_ & Hd & _)%NoDup_app. apply Hd.
      apply list_elem_of_fmap. exists (i, t). split; [done|]. by eapply list_elem_of_lookup_2.
  - destruct (_run _ _ _ _); [|done]. by injection Hst as <-.
  - destruct (_ <? _); [|done]. by injection Hst as <-.
  - destruct (0 <? _); [|done]. by injection Hst as <-.
  - injection Hst as <-. simpl. apply Henv; [done|]. apply Hok, elem_of_cons. by left.
Qed.

(** ** What the coroutine receives *)
Lemma in_positions_spec tasks i0 b :
  binv tasks i0 b → b_flight b = [] →
  length (in_positions (b_sent b) (b_done b)) = b_sent b ∧
  ∀ i r, in_positions (b_sent b) (b_done b) !! i = Some r ↔ (i, r) ∈ b_done b.
Proof.
  intros Hb Hfl. pose proof (binv_nodup _ _ _ Hb) as Hnd. pose proof (bi_perm _ _ _ Hb) as Hp.
  rw Hfl /= in Hnd, Hp. set (m := (list_to_map (b_done b) : gmap nat (res B))).
  assert (∀ i r, m !! i = Some r ↔ (i, r) ∈ b_done b) as Hm by (intros; by rw elem_of_list_to_map).
  assert (∀ n k, (∀ i, (k ≤ i < k + n)%nat → is_Some (m !! i)) →
    length (omap (λ i, m !! i) (seq k n)) = n ∧
    ∀ i r, omap (λ i, m !! i) (seq k n) !! i = Some r ↔ (i < n)%nat ∧ m !! (k + i)%nat = Some r) as Hgen.
  { induction n as [|n IH]; intros k Hk; simpl; [split; [done|]; intros; rw lookup_nil; split; [done|lia]|].
    destruct (Hk k) as [x Hx]; [lia|]. rw Hx. destruct (IH (Datatypes.S k)) as [Hl Hi]; [intros; apply Hk; lia|].
    split; [by rw /= Hl|]. intros [|i] r; simpl.
    - rw Nat.add_0_r Hx. split; [intros; split; [lia|done]|naive_solver].
    - rw Hi Nat.add_succ_r. simpl. split; intros [? ?]; (split; [lia|done]). }
  destruct (Hgen (b_sent b) 0%nat) as [Hl Hi].
  { intros i Hlt. assert (i ∈ (b_done b).*1) as ([i' r] & -> & Hin)%list_elem_of_fmap.
    { rw Hp. apply elem_of_seq. lia. }
    exists r. by apply Hm. }
  split; [exact Hl|]. intros i r. rw /in_positions -/m Hi /= Hm. split; [naive_solver|]. intros Hin. split; [|done].
  assert (i ∈ (b_done b).*1) as Hin' by (apply list_elem_of_fmap; by exists (i, r)).
  rw Hp in Hin'. apply elem_of_seq in Hin'. lia.
Qed.

Lemma first_raise_spec (L : list (nat * res B)) :
  match first_raise L with
  | Some e => ∃ i, (i, Raise e) ∈ L
  | None => ∀ i r, (i, r) ∈ L → ∃ x, r = Ok x
  end.
Proof.
  induction L as [|[i [x|e]] L IH]; simpl; [intros i r Hn; by apply elem_of_nil in Hn| |exists i; by left].
  destruct (first_raise L) as [e|].
  - destruct IH as [j Hj]. exists j. by right.
  - intros j r [[= -> ->]|Hin]%elem_of_cons; eauto.
Qed.
Lemma first_raise_app (L K : list (nat * res B)) e : first_raise L = Some e → first_raise (L ++ K) = Some e.
Proof. induction L as [|[i [x|e']] L IH]; simpl; [done|done|done]. Qed.

Lemma res_map_id_ok {X} (l : list (res X)) xs :
  res_map id l = Ok xs → ∀ i r, l !! i = Some r → ∃ x, xs !! i = Some x ∧ r = Ok x.
Proof.
  revert xs. induction l as [|[x|e] l IH]; intros xs; simpl; [by intros _ i r| |done].
  destruct (res_map id l) as [ys|e]; [|done]. intros [= <-] [|i] r; simpl; [intros [= <-]; eauto|].
  by apply IH.
Qed.
End MachineFacts.

(** ** Termination, and the answer is final *)
Section Waiting.
Context {S B : Type} (_workers STALL_SECS : Z).
Abbreviation exec := (exec (S := S) (B := B) _workers STALL_SECS).
Abbreviation bstep := (bstep (S := S) (B := B) _workers STALL_SECS).
Implicit Types (b : batch S B) (w : world S) (tasks : list (M S B)).

Definition progress (e : event S) : bool := match e with Enter | Return _ => true | _ => false end.
(** Submissions and returns still to come, at most. *)
Definition work (b : batch S B) : nat := (2 * length (b_todo b) + length (b_flight b))%nat.

Lemma bstep_work e b b' : bstep e b = Some b' → ((if progress e then 1 else 0) + work b' ≤ work b)%nat.
Proof.
  destruct e as [d| |k| | |tr|f]; simpl; rw /work.
  - destruct (0 <=? d); [|done]. by intros [= <-].
  - destruct (b_todo b) as [|t todo]; [done|].
    destruct (_run _ _ _ _); intros [= <-]; simpl; rw ?length_app /=; lia.
  - destruct (Z.of_nat k <? _ - _); [|done].
    destruct (b_flight b !! k) as [[i t]|] eqn:Hk; [|done]. destruct (t _) as [r s']. intros [= <-]. simpl.
    pose proof (length_delete (A := nat * M S B) (b_flight b) k ltac:(eauto)) as Hd.
    pose proof (lookup_lt_Some (A := nat * M S B) _ _ _ Hk). lia.
  - destruct (_run _ _ _ _); [|done]. by intros [= <-].
  - destruct (_ <? _); [|done]. by intros [= <-].
  - destruct (0 <? _); [|done]. by intros [= <-].
  - by intros [= <-].
Qed.

Lemma exec_work es b b' : exec es b = Some b' → (length (filter (λ e, progress e = true) es) + work b' ≤ work b)%nat.
Proof.
  revert b. induction es as [|e es IH]; intros b; simpl; [by intros [= <-]|].
  destruct (bstep e b) as [b1|] eqn:Hst; [|done]. intros Hex%IH. apply bstep_work in Hst.
  rw filter_cons. case_decide as Hp; simpl; [rw Hp in Hst; lia|].
  destruct (progress e); [done|lia].
Qed.

Lemma bstep_todo e b b' tasks i0 : binv _workers tasks i0 b → bstep e b = Some b' → b_todo b = [] →
  b_todo b' = [] ∧ b_sent b' = b_sent b ∧ b_raised b' = b_raised b ∧
  (∃ K, b_done b' = b_done b ++ K) ∧ (b_flight b = [] → b_flight b' = [] ∧ b_done b' = b_done b).
Proof.
  intros Hb Hst Ht.
  assert (∀ w, b' = set_world w b → b_todo b' = [] ∧ b_sent b' = b_sent b ∧ b_raised b' = b_raised b ∧
    (∃ K, b_done b' = b_done b ++ K) ∧ (b_flight b = [] → b_flight b' = [] ∧ b_done b' = b_done b)) as Hsame.
  { intros w ->. split_and!; try done. exists []. by rw app_nil_r. }
  destruct e as [d| |k| | |tr|f]; simpl in Hst.
  - destruct (0 <=? d); [|done]. injection Hst as <-. by eapply Hsame.
  - by rw Ht in Hst.
  - destruct (Z.of_nat k <? _ - _); [|done].
    destruct (b_flight b !! k) as [[i t]|] eqn:Hk; [|done]. destruct (t _) as [r s']. injection Hst as <-.
    split_and!; try done; [by eexists|]. intros Hf. by rw Hf in Hk.
  - destruct (_run _ _ _ _); [|done]. injection Hst as <-. by eapply Hsame.
  - destruct (_ <? _); [|done]. injection Hst as <-. by eapply Hsame.
  - destruct (0 <? _); [|done]. injection Hst as <-. by eapply Hsame.
  - injection Hst as <-. by eapply Hsame.
Qed.

Lemma await_all_inv b r : await_all b = Some r →
  (∃ e, b_raised b = Some e ∧ r = Raise e) ∨
  (b_raised b = None ∧ b_todo b = [] ∧ b_flight b = [] ∧ r = Ok (in_positions (b_sent b) (b_done b))).
Proof.
  rw /await_all. destruct (b_raised b); [intros [= <-]; left; eauto|].
  destruct (b_todo b), (b_flight b); try done. intros [= <-]. by right.
Qed.

Lemma await_first_inv b r : await_first b = Some r →
  (∃ e, b_raised b = Some e ∧ r = Raise e) ∨
  (b_raised b = None ∧ b_todo b = [] ∧ ∃ e, first_raise (b_done b) = Some e ∧ r = Raise e) ∨
  (b_raised b = None ∧ b_todo b = [] ∧ b_flight b = [] ∧ first_raise (b_done b) = None ∧
   r = res_map id (in_positions (b_sent b) (b_done b))).
Proof.
  rw /await_first. destruct (b_raised b); [intros [= <-]; left; eauto|].
  destruct (b_todo b); [|done]. destruct (first_raise (b_done b)); [intros [= <-]; right; left; eauto|].
  destruct (b_flight b); [|done]. intros [= <-]. by right; right.
Qed.

Lemma done_lt tasks i0 b i r : binv _workers tasks i0 b → (i, r) ∈ b_done b → (i < length tasks)%nat.
Proof.
  intros Hb Hin. assert (i ∈ seq 0 (b_sent b)) as Hi.
  { rw -(bi_perm _ _ _ _ Hb). apply elem_of_app. right. apply list_elem_of_fmap. by exists (i, r). }
  apply elem_of_seq in Hi. pose proof (bi_sent _ _ _ _ Hb). lia.
Qed.

(** [gather] gives its results only when every call has returned without an
    exception, and raises what [_run] or one of the calls raised. *)
Lemma await_first_cases tasks i0 b r :
  binv _workers tasks i0 b → await_first b = Some r →
  match r with
  | Ok _ => ∀ i, (i < length tasks)%nat → ∃ x, (i, Ok x) ∈ b_done b
  | Raise e => b_raised b = Some e ∨ ∃ i, (i, Raise e) ∈ b_done b
  end.
Proof.
  intros Hb Ha. pose proof (first_raise_spec (b_done b)) as Hsp.
  apply await_first_inv in Ha as [(e & He & ->)|[(_ & _ & e & He & ->)|(Hn & Ht & Hf & He & ->)]];
    [by left|rw He in Hsp; by right|]. rw He in Hsp.
  destruct (in_positions_spec _ _ _ _ Hb Hf) as [Hl Hc].
  assert (∃ xs, res_map id (in_positions (b_sent b) (b_done b)) = Ok xs) as [xs ->].
  { assert (Forall (λ r, ∃ x, r = Ok x) (in_positions (b_sent b) (b_done b))) as HF.
    { apply Forall_lookup. intros i r Hi. apply Hc in Hi. by eapply Hsp. }
    clear -HF. induction HF as [|r l [x ->] _ [xs IH]]; simpl; [by eexists|]. rw IH. by eexists. }
  intros i Hi. pose proof (bi_todo _ _ _ _ Hb Hn) as Hd. rw Ht in Hd. apply (f_equal length) in Hd.
  rw length_drop /= in Hd. destruct (lookup_lt_is_Some_2 (in_positions (b_sent b) (b_done b)) i) as [r Hr]; [lia|].
  apply Hc in Hr. destruct (Hsp _ _ Hr) as [x ->]. by exists x.
Qed.

(** What a coroutine has received does not depend on what happens later. *)
Lemma await_stable tasks i0 es b b' :
  binv _workers tasks i0 b → exec es b = Some b' →
  (∀ r, await_all b = Some r → await_all b' = Some r) ∧
  (∀ r, await_first b = Some r → await_first b' = Some r).
Proof.
  revert b i0. induction es as [|e es IH]; intros b i0 Hb; simpl; [by intros [= <-]|].
  destruct (bstep e b) as [b1|] eqn:Hst; [|done]. intros Hex.
  destruct (IH b1 _ (bstep_inv _ _ _ _ _ _ _ Hst Hb) Hex) as [IH1 IH2]. clear IH.
  pose proof (λ Ht, bstep_todo e b b1 tasks i0 Hb Hst Ht) as Hk.
  assert (∀ x, b_raised b = Some x → b_raised b1 = Some x) as Hraised.
  { intros x Hx. destruct (bi_raised _ _ _ _ Hb x Hx) as (_ & Ht & _). by destruct (Hk Ht) as (_ & _ & -> & _). }
  split; intros r Hr.
  - apply IH1. apply await_all_inv in Hr as [(x & Hx & ->)|(Hn & Ht & Hf & ->)];
      [by rw /await_all (Hraised _ Hx)|].
    destruct (Hk Ht) as (Ht1 & Hs1 & Hr1 & _ & Hd). destruct (Hd Hf) as [Hf1 Hd1].
    by rw /await_all Hr1 Hn Ht1 Hf1 Hs1 Hd1.
  - apply IH2. apply await_first_inv in Hr as [(x & Hx & ->)|[(Hn & Ht & x & Hx & ->)|(Hn & Ht & Hf & Hx & ->)]].
    + by rw /await_first (Hraised _ Hx).
    + destruct (Hk Ht) as (Ht1 & _ & Hr1 & (K & HK) & _).
      by rw /await_first Hr1 Hn Ht1 HK (first_raise_app _ _ _ Hx).
    + destruct (Hk Ht) as (Ht1 & Hs1 & Hr1 & _ & Hd). destruct (Hd Hf) as [Hf1 Hd1].
      by rw /await_first Hr1 Hn Ht1 Hd1 Hx Hf1 Hs1.
Qed.

(** *** Calls that never return *)
Section Hung.
Context (stuck : nat → bool).   (* by position: the engine of that call is gone *)

(** The next event of the coroutine or of a worker, that of a stuck call apart. *)
Definition can_go (b : batch S B) (e : event S) : Prop :=
  is_Some (bstep e b) ∧
  match e with
  | Enter => True
  | Return k => ∀ x, b_flight b !! k = Some x → stuck x.1 = false
  | _ => False
  end.
Definition hung (b : batch S B) : list (nat * M S B) := filter (λ x, stuck x.1 = true) (b_flight b).
(** Stuck calls hold every worker that the others leave. *)
Definition saturated (b : batch S B) : Prop :=
  ∀ k, Z.of_nat k < _workers - w_held (b_world b) → ∃ x, b_flight b !! k = Some x ∧ stuck x.1 = true.
(** A history in which no stuck call returns and nobody gives a worker back. *)
Fixpoint spares (es : list (event S)) (b : batch S B) : Prop :=
  match es with
  | [] => True
  | e :: es =>
      match e with
      | Return k => ∀ x, b_flight b !! k = Some x → stuck x.1 = false
      | Leave _ => False
      | _ => True
      end ∧ match bstep e b with Some b' => spares es b' | None => True end
  end.

Lemma first_healthy (l : list (nat * M S B)) x :
  x ∈ l → stuck x.1 = false →
  ∃ k y, l !! k = Some y ∧ stuck y.1 = false ∧ (k ≤ length (filter (λ x : nat * M S B, stuck x.1 = true) l))%nat.
Proof.
  induction l as [|y l IH]; [by intros ?%elem_of_nil|]. intros Hx Hs. destruct (stuck y.1) eqn:Ey.
  - apply elem_of_cons in Hx as [->|Hx]; [congruence|]. destruct (IH Hx Hs) as (k & z & Hk & Hz & Hle).
    exists (Datatypes.S k), z. rw filter_cons_True //=. split_and!; try done. lia.
  - exists 0%nat, y. split_and!; [done..|lia].
Qed.

(** With a worker left over, the calls that wait are the stuck ones. *)
Lemma idle_only_hung b :
  (∀ e, ¬ can_go b e) → len (hung b) < _workers - w_held (b_world b) →
  b_todo b = [] ∧ Forall (λ x, stuck x.1 = true) (b_flight b).
Proof.
  intros Hno Hw. split.
  - destruct (b_todo b) as [|t todo] eqn:Et; [done|]. destruct (Hno Enter). split; [|done]. simpl. rw Et.
    destruct (_run _ _ _ _); by eexists.
  - apply Forall_forall. intros x Hx. destruct (stuck x.1) eqn:Es; [done|].
    destruct (first_healthy _ _ Hx Es) as (k & y & Hk & Hy & Hle). destruct (Hno (Return k)). split.
    + simpl. destruct (Z.ltb_spec (Z.of_nat k) (_workers - w_held (b_world b))) as [|Hge]; [|rw /len /hung in Hw; lia].
      rw Hk. destruct y as [i t]. destruct (t _). by eexists.
    + intros z Hz. by simplify_eq.
Qed.

Lemma saturated_step e b b' : saturated b →
  match e with Return k => ∀ x, b_flight b !! k = Some x → stuck x.1 = false | Leave _ => False | _ => True end →
  bstep e b = Some b' → saturated b' ∧ b_done b' = b_done b ∧ b_flight b `prefix_of` b_flight b'.
Proof.
  intros Hsat He Hst.
  assert (∀ w, w_held (b_world b) ≤ w_held w → saturated (set_world w b)) as Hw.
  { intros w Hw k Hk. simpl in Hk |- *. apply Hsat. lia. }
  destruct e as [d| |k| | |tr|f]; simpl in Hst; try done.
  - destruct (0 <=? d); [|done]. injection Hst as <-. split; [by apply Hw|by split].
  - destruct (b_todo b) as [|t todo]; [done|]. destruct (_run _ _ _ _); injection Hst as <-; [|by split].
    split; [|split; [done|by exists [(b_sent b, t)]]].
    intros k Hk. simpl in Hk |- *. destruct (Hsat k Hk) as (x & Hx & Hs). exists x. split; [|done].
    apply lookup_app_Some. by left.
  - destruct (Z.ltb_spec (Z.of_nat k) (_workers - w_held (b_world b))) as [Hlt|]; [|done].
    destruct (Hsat k Hlt) as (x & Hx & Hs). specialize (He x Hx). congruence.
  - destruct (_run _ _ _ _); [|done]. injection Hst as <-. split; [by apply Hw|by split].
  - destruct (_ <? _); [|done]. injection Hst as <-. split; [apply Hw; simpl; lia|by split].
  - injection Hst as <-. split; [by apply Hw|by split].
Qed.

Lemma saturated_exec es b b' :
  saturated b → spares es b → exec es b = Some b' →
  b_done b' = b_done b ∧ b_flight b `prefix_of` b_flight b'.
Proof.
  revert b. induction es as [|e es IH]; intros b Hsat Hsp; simpl; [by intros [= <-]|].
  destruct Hsp as [He Hsp]. destruct (bstep e b) as [b1|] eqn:Hst; [|done]. intros Hex.
  destruct (saturated_step e b b1 Hsat He Hst) as (Hs1 & Hd1 & Hf1).
  destruct (IH b1 Hs1 Hsp Hex) as [Hd2 Hf2]. split; [by rw Hd2|]. by etrans.
Qed.

(** C34: what a batch waits for, when calls to an engine that is gone never
    return ([stuck]).  Whatever the history, the coroutine and the workers have
    at most two steps per call to make.  If there is none left (but the returns
    that never come), and the stuck calls of the batch leave a worker free, then
    everything has been submitted (or refused), every other call has returned,
    and the coroutine is back unless a stuck call is in flight.  But once stuck
    calls hold every worker that others do not, the batch is hung: for as long
    as nobody gives a worker back, no call of it ever returns, the healthy ones
    queued behind included, and the coroutine waits, unless the pool refuses the
    rest of the batch. *)
Theorem batch_waits_for_hung_calls tasks w es b :
  exec es (submit_io tasks w) = Some b →
  (length (filter (λ e, progress e = true) es) ≤ 2 * length tasks)%nat ∧
  ((∀ e, ¬ can_go b e) → len (hung b) < _workers - w_held (b_world b) →
   b_todo b = [] ∧ (∀ i, (i < b_sent b)%nat → stuck i = false → i ∈ (b_done b).*1) ∧
   (hung b = [] → is_Some (await_all b) ∧ is_Some (await_first b)) ∧
   (hung b ≠ [] → b_raised b = None → await_all b = None)) ∧
  (0 < _workers - w_held (b_world b) → saturated b → ∀ es' b', spares es' b → exec es' b = Some b' →
   b_done b' = b_done b ∧ (b_raised b' = None → await_all b' = None)).
Proof.
  intros Hex. pose proof (exec_inv _ _ _ _ _ _ _ Hex (binv_start _workers tasks w)) as Hb. split; [|split].
  - apply exec_work in Hex. rw /work /= in Hex. lia.
  - intros Hno Hfree. destruct (idle_only_hung b Hno Hfree) as [Ht Hall]. split; [done|]. split; [|split].
    + intros i Hi Hs. assert (i ∈ (b_flight b).*1 ++ (b_done b).*1) as Hin.
      { rw (bi_perm _ _ _ _ Hb). apply elem_of_seq. lia. }
      apply elem_of_app in Hin as [([j t] & -> & Hin)%list_elem_of_fmap|]; [|done].
      rw Forall_forall in Hall. specialize (Hall _ Hin). simpl in *. congruence.
    + intros Hn. assert (b_flight b = []) as Hf.
      { destruct (b_flight b) as [|x l] eqn:Ef; [done|]. rw /hung Ef filter_cons_True in Hn; [|done].
        by apply Forall_cons in Hall as [? _]. }
      rw /await_all /await_first Ht Hf. destruct (b_raised b), (first_raise (b_done b)); eauto.
    + intros Hn Hr. rw /await_all Hr Ht. destruct (b_flight b) eqn:Ef; [|done]. by rw /hung Ef in Hn.
  - intros Hpos Hsat es' b' Hsp Hex'. destruct (saturated_exec es' b b' Hsat Hsp Hex') as [Hd [l Hf]]. split; [done|].
    intros Hr. destruct (Hsat 0%nat) as (x & Hx & _); [lia|].
    rw /await_all Hr Hf. destruct (b_todo b'); [|done]. by destruct (b_flight b).
Qed.
End Hung.
End Waiting.

(** ** One call after the other *)
Section InOrder.
Context {S B : Type} (_workers STALL_SECS : Z).
Abbreviation exec := (exec (S := S) (B := B) _workers STALL_SECS).
Implicit Types (b : batch S B) (w : world S) (tasks : list (M S B)).

(** Submit [n] calls, then let the oldest in flight return, [n] times. *)
Definition in_order (n : nat) : list (event S) := replicate n Enter ++ replicate n (Return 0).
(** The pool has room for [n] more calls, or is known to be alive, and somebody
    can run them. *)
Definition room (n : nat) (w : world S) : Prop :=
  w_held w < _workers ∧
  (_inflight (w_io w) + Z.of_nat n ≤ _workers ∨ w_now w - _last_done (w_io w) ≤ STALL_SECS).

Lemma run_room p t n :
  _inflight p + Z.of_nat (Datatypes.S n) ≤ _workers ∨ t - _last_done p ≤ STALL_SECS →
  _run _workers STALL_SECS t p = Ok (mkPool (_inflight p + 1) (_last_done p)).
Proof. intros Hr. destruct (run_cases _workers STALL_SECS t p) as [(_ & ? & ? & _)|(-> & _)]; [lia|done]. Qed.

Lemma exec_enters ts rest t p h s k fl :
  room (length ts) (mkWorld t p h s) →
  exec (replicate (length ts) Enter) (mkBatch (mkWorld t p h s) (ts ++ rest) k fl [] None) =
    Some (mkBatch (mkWorld t (mkPool (_inflight p + len ts) (_last_done p)) h s) rest (k + length ts)
            (fl ++ zip (seq k (length ts)) ts) [] None).
Proof.
  revert p k fl. induction ts as [|x ts IH]; intros p k fl Hr; simpl.
  { rw app_nil_r Nat.add_0_r /len Z.add_0_r. by destruct p. }
  destruct Hr as [Hh Hr]. simpl in Hh, Hr. rw (run_room p t (length ts)) //. rw IH; [split; simpl; lia|]. simpl.
  rw -app_assoc /= Nat.add_succ_r. by replace (_inflight p + len (x :: ts)) with (_inflight p + 1 + len ts)
    by (rw /len /=; lia).
Qed.

Lemma exec_returns t n fl p h s L x :
  h < _workers →
  ∃ l, exec (replicate (length fl) (Return 0)) (mkBatch (mkWorld t p h s) [] n fl L x) =
    Some (mkBatch (mkWorld t (mkPool (_inflight p - len fl) l) h (snd (gather_results fl.*2 s))) [] n []
            (L ++ zip fl.*1 (fst (gather_results fl.*2 s))) x).
Proof.
  intros Hpos. revert p s L. induction fl as [|[i c] fl IH]; intros p s L; simpl.
  { exists (_last_done p). rw app_nil_r /len Z.sub_0_r. by destruct p. }
  destruct (Z.ltb_spec (Z.of_nat 0) (_workers - h)); [|lia]. destruct (c s) as [r s1].
  destruct (IH (_tracked_done t p) s1 (L ++ [(i, r)])) as [l ->]. exists l.
  change (list_fmap (nat * M S B)%type (M S B) snd fl) with (fl.*2).
  destruct (gather_results fl.*2 s1) as [rs s2]. simpl. rw -app_assoc /=.
  by replace (_inflight p - len ((i, c) :: fl)) with (_inflight p - 1 - len fl) by (rw /len /=; lia).
Qed.

Lemma zip_seq (tasks : list (M S B)) :
  length (zip (seq 0 (length tasks)) tasks) = length tasks ∧
  (zip (seq 0 (length tasks)) tasks).*1 = seq 0 (length tasks) ∧
  (zip (seq 0 (length tasks)) tasks).*2 = tasks.
Proof.
  split; [rw length_zip length_seq; lia|]. split; [apply fst_zip|apply snd_zip]; by rw length_seq.
Qed.

(** A burst that fills the pool after an idle period is refused at the next
    call; the calls admitted run to their end. *)
Lemma burst_refused tasks w :
  0 < _workers → w_held w < _workers → _inflight (w_io w) = 0 → STALL_SECS < w_now w - _last_done (w_io w) →
  _workers < len tasks →
  let n := Z.to_nat _workers in
  ∃ b, exec (replicate n Enter ++ [Enter] ++ replicate n (Return 0)) (submit_io tasks w) = Some b ∧
    b_raised b = Some DaosPoolWedged ∧ b_flight b = [] ∧ _inflight (w_io (b_world b)) = 0 ∧
    w_state (b_world b) = snd (gather_results (take n tasks) (w_state w)) ∧
    b_done b = zip (seq 0 n) (fst (gather_results (take n tasks) (w_state w))).
Proof.
  intros Hpos Hheld Hi Hst Hlen n. destruct w as [t p h s]. simpl in *. rw /len in Hlen.
  assert (n < length tasks)%nat as Hn by lia.
  assert (length (take n tasks) = n) as Hl by (rw length_take; lia).
  destruct (drop n tasks) as [|x rest] eqn:Hd.
  { apply (f_equal length) in Hd. rw length_drop /= in Hd. lia. }
  pose proof (exec_enters (take n tasks) (x :: rest) t p h s 0 []) as He. rw -Hd take_drop Hl in He.
  rw /submit_io exec_app He; [split; simpl; [done|lia]|].
  simpl. rw Hd. destruct (run_cases _workers STALL_SECS t (mkPool (_inflight p + len (take n tasks)) (_last_done p)))
    as [(-> & _)|(_ & _ & Hbad)]; [|rw /len Hl /= in Hbad; lia].
  destruct (zip_seq (take n tasks)) as (H1 & H2 & H3). rw Hl in H1, H2, H3.
  destruct (exec_returns t n (zip (seq 0 n) (take n tasks)) (mkPool (_inflight p + len (take n tasks)) (_last_done p)) h s []
    (Some DaosPoolWedged) Hheld) as [l Hret]. rw H1 H2 H3 /= in Hret.
  eexists. split; [exact Hret|]. split_and!; try done. simpl. rw /len Hl H1. lia.
Qed.

Lemma gather_results_length tasks (s : S) : length (fst (gather_results tasks s)) = length tasks.
Proof.
  revert s. induction tasks as [|t tasks IH]; intros s; simpl; [done|].
  destruct (t s) as [r s1]. specialize (IH s1). destruct (gather_results tasks s1). simpl in *. by rw IH.
Qed.

Lemma first_raise_zip k (rs : list (res B)) :
  match first_raise (zip (seq k (length rs)) rs) with
  | Some e => res_map id rs = Raise e
  | None => ∃ xs, res_map id rs = Ok xs
  end.
Proof.
  revert k. induction rs as [|[x|e] rs IH]; intros k; simpl; [by exists []| |done].
  specialize (IH (Datatypes.S k)). destruct (first_raise _); [by rw IH|]. destruct IH as [xs ->]. by eexists.
Qed.

(** In this history the calls of a batch run as [gather_results] runs them. *)
Lemma exec_in_order tasks w :
  room (length tasks) w →
  ∃ b, exec (in_order (length tasks)) (submit_io tasks w) = Some b ∧
    w_now (b_world b) = w_now w ∧ _inflight (w_io (b_world b)) = _inflight (w_io w) ∧
    w_state (b_world b) = snd (gather_results tasks (w_state w)) ∧
    await_all b = Some (Ok (fst (gather_results tasks (w_state w)))) ∧
    await_first b = Some (fst (gather tasks (w_state w))).
Proof.
  intros Hr. pose proof Hr as [Hheld _]. destruct w as [t p h s].
  assert (∃ l, exec (in_order (length tasks)) (submit_io tasks (mkWorld t p h s)) =
    Some (mkBatch (mkWorld t (mkPool (_inflight p) l) h (snd (gather_results tasks s))) [] (length tasks) []
            (zip (seq 0 (length tasks)) (fst (gather_results tasks s))) None)) as [l Hex].
  { destruct (zip_seq tasks) as (Hl & H1 & H2).
    destruct (exec_returns t (length tasks) (zip (seq 0 (length tasks)) tasks)
      (mkPool (_inflight p + len tasks) (_last_done p)) h s [] None Hheld) as [l Hret].
    exists l. rw /in_order exec_app /submit_io -{3}(app_nil_r tasks) exec_enters //=.
    rw Hl H1 H2 /= in Hret. rw Hret.
    by replace (_inflight p + len tasks - len (zip (seq 0 (length tasks)) tasks)) with (_inflight p)
      by (rw /len Hl; lia). }
  eexists. split; [exact Hex|]. split_and!; try done.
  all: pose proof (exec_inv _ _ _ _ _ _ _ Hex (binv_start _workers tasks _)) as Hb.
  all: destruct (in_positions_spec _ _ _ _ Hb eq_refl) as [Hcl Hc]; simpl in Hcl, Hc.
  all: pose proof (gather_results_length tasks s) as Hlen.
  all: assert (in_positions (length tasks) (zip (seq 0 (length tasks)) (fst (gather_results tasks s))) =
    fst (gather_results tasks s)) as Heq.
  1, 3: apply list_eq_same_length with (length tasks); try done; intros i x y _ Hx Hy; apply Hc in Hx;
    apply elem_of_lookup_zip_with in Hx as (j & k & z & [= -> ->] & Hj & Hz);
    apply lookup_seq in Hj as [-> _]; simpl in Hy; rw Hz in Hy; by injection Hy.
  - by rw /await_all /= Heq.
  - rw /await_first /= Heq /gather. pose proof (first_raise_zip 0 (fst (gather_results tasks s))) as Hf.
    rw Hlen in Hf. destruct (gather_results tasks s) as [rs s']. simpl in *.
    by destruct (first_raise _); [rw Hf|].
Qed.
End InOrder.

(** ** The coroutines and the calls run one after the other *)
Section Sequential.
Context {D O A : Type} `{LibDfs D} `{LibDaosObj O} `{MetaCodec} `{!LocalCpu A}.
Context (_workers STALL_SECS : Z) (cfg : settings).
Abbreviation C := (conn D O A).
Implicit Types w : world C.

(** [co], given the history [in_order n] for some [n], gives the result and
    the state of [m], and the pool is as it was. *)
Definition runs_as {X} (co : list (event C) → world C → option (res X * world C)) (m : M C X) w : Prop :=
  ∃ n w', co (in_order n) w = Some (fst (m (w_state w)), w') ∧ w_state w' = snd (m (w_state w)) ∧
    w_now w' = w_now w ∧ _inflight (w_io w') = _inflight (w_io w).

Lemma groups_bound addrs : (length (batch_groups addrs) ≤ length addrs)%nat.
Proof.
  assert (∀ l i g g', group_from i l g = Some g' → (length g' ≤ length g + length l)%nat) as Hg.
  { assert (∀ dk x g, (length (group_add dk x g) ≤ Datatypes.S (length g))%nat) as Ha.
    { intros dk x g. induction g as [|[k ms] g IH]; simpl; [lia|]. case_bool_decide; simpl; lia. }
    induction l as [|[dk [y|]] l IH]; intros i g g'; simpl; [intros [= <-]; lia| |done].
    intros Hl%IH. pose proof (Ha dk (i, y) g). lia. }
  assert (∀ l rs, raddrs l = Some rs → length rs = length l) as Hr.
  { induction l as [|[p|a] l IH]; intros rs; simpl; [by intros [= <-]|done|].
    destruct (raddrs l) as [rs'|]; [|done]. intros [= <-]. simpl. f_equal. by apply IH. }
  rw /batch_groups. destruct (raddrs addrs) as [rs|] eqn:E; [|simpl; lia].
  rw -(Hr _ _ E) /_group_layers. destruct (group_from 0 rs []) as [g|] eqn:Eg; simpl; [|lia].
  apply Hg in Eg. simpl in Eg. lia.
Qed.

Lemma room_le n k w : room _workers STALL_SECS n w → (k ≤ n)%nat → room _workers STALL_SECS k w.
Proof. rw /room. lia. Qed.

Lemma call_runs_as {X} (t : M C X) w :
  room _workers STALL_SECS 1 w → runs_as (call_co _workers STALL_SECS t) t w.
Proof.
  intros Hr. exists 1%nat. destruct (exec_in_order _workers STALL_SECS [t] w Hr) as (b & Hex & Hn & Hi & Hs & Ha & _).
  exists (b_world b). rw /call_co Hex. pose proof (exec_inv _ _ _ _ _ _ _ Hex (binv_start _workers [t] w)) as Hb.
  apply await_all_inv in Ha as [(e & _ & ?)|(Hn' & Ht & Hf & [= Hc])]; [done|].
  destruct (in_positions_spec _ _ _ _ Hb Hf) as [Hl Hcs]. rw -Hc /= in Hl, Hcs. rw /await_one Hn'.
  rw Hs /=. simpl in Hl, Hcs. destruct (t (w_state w)) as [r s']. simpl in *.
  assert ((0%nat, r) ∈ b_done b) as Hin by (by apply Hcs).
  pose proof (binv_len _ _ _ _ Hb) as Hlen. rw Hf -Hl /= in Hlen.
  destruct (b_done b) as [|x [|y L]]; [done| |done]. by apply list_elem_of_singleton in Hin as <-.
Qed.

Lemma put_runs_as key m w :
  room _workers STALL_SECS 1 w →
  runs_as (put_co _workers STALL_SECS cfg key m) (put cfg key m) w.
Proof.
  intros Hr. rw /runs_as /put_co /put /bind.
  destruct (_prep_write _ m (w_state w)) as [[[[h x] n]|e] s]; [|by exists 0%nat; eexists].
  destruct (call_runs_as (_put_sync (_addr cfg key) h x n) (with_state w s) Hr) as (k & w' & E & Hs & Hn & Hi).
  exists k. eexists. rw E. cbn [w_state with_state] in Hs |- *. destruct (_put_sync _ _ _ _ s) as [r s'].
  split_and!; by destruct r.
Qed.

Lemma list_runs_as fuel w :
  room _workers STALL_SECS 1 w →
  runs_as (list_co _workers STALL_SECS cfg fuel) (list_ cfg fuel) w.
Proof.
  intros Hr. rw /runs_as /list_co /list_. destruct (_raw cfg); [by exists 0%nat, w|]. by apply call_runs_as.
Qed.

Lemma batched_get_runs_as keys w :
  room _workers STALL_SECS (length keys) w →
  runs_as (batched_get_co _workers STALL_SECS cfg keys) (batched_get cfg keys) w.
Proof.
  intros Hr. rw /runs_as /batched_get_co /batched_get.
  assert (length (if _raw cfg then batch_groups (_addr cfg <$> keys) else []) ≤ length keys)%nat as Hg.
  { destruct (_raw cfg); simpl; [|lia]. etrans; [apply groups_bound|]. by rw length_fmap. }
  destruct (if _raw cfg then _ else _) as [|g gs] eqn:Eg.
  - destruct (exec_in_order _workers STALL_SECS (_get_sync cfg <$> (_addr cfg <$> keys)) w)
      as (b & Hex & Hn & Hi & Hs & Ha & _); [by rw !length_fmap|].
    exists (length (_get_sync cfg <$> (_addr cfg <$> keys))), (b_world b). rw Hex Ha Hs.
    destruct (gather_results _ (w_state w)). by split.
  - destruct (exec_in_order _workers STALL_SECS ((λ g : bytes * list (nat * Z), _get_raw_folded (fst g) (snd <$> snd g)) <$> g :: gs) w)
      as (b & Hex & Hn & Hi & Hs & Ha & _); [by eapply room_le; [|rw length_fmap]|].
    exists (length (g :: gs)), (b_world b). rw length_fmap in Hex. rw Hex Ha Hs.
    destruct (gather_results _ (w_state w)). by split.
Qed.

Lemma put_calls_length keys prepped : (length (put_calls cfg keys prepped : list (M C unit)) ≤ length keys)%nat.
Proof.
  rw /put_calls. destruct (_raw cfg); simpl; [|rw length_zip_with length_fmap; lia].
  pose proof (groups_bound (_addr cfg <$> keys)) as Hb. rw length_fmap in Hb.
  destruct (batch_groups _); [rw length_zip_with length_fmap; lia|].
  etrans; [|exact Hb]. rw length_fmap. simpl. lia.
Qed.

Lemma drop_refs mos (s : C) : ∃ l, mapM _drop_put_ref mos s = (Ok l, s).
Proof. eexists. by apply (mapM_pure _ (λ _, tt)). Qed.

Lemma batched_put_eq keys mos (s : C) :
  batched_put cfg keys mos s =
  match mapM (_prep_write (_ALIAS_STORE cfg)) mos s with
  | (Ok prepped, s1) => let '(r, s2) := gather (put_calls cfg keys prepped) s1 in (let? _ := r in Ok tt, s2)
  | (Raise e, s1) => (Raise e, s1)
  end.
Proof.
  rw /batched_put /put_calls /bind. destruct (mapM (_prep_write _) mos s) as [[prepped|e] s1]; [|done].
  destruct (if _raw cfg then _ else _); destruct (gather _ s1) as [r s2];
    destruct (drop_refs mos s2) as [l Hl]; rw Hl; by destruct r.
Qed.

Lemma batched_put_runs_as keys mos w :
  room _workers STALL_SECS (length keys) w →
  runs_as (batched_put_co _workers STALL_SECS cfg keys mos) (batched_put cfg keys mos) w.
Proof.
  intros Hr. rw /runs_as batched_put_eq /batched_put_co.
  destruct (mapM (_prep_write _) mos (w_state w)) as [[prepped|e] s]; [|by exists 0%nat; eexists].
  destruct (exec_in_order _workers STALL_SECS (put_calls cfg keys prepped) (with_state w s))
    as (b & Hex & Hn & Hi & Hs & _ & Ha); [eapply room_le; [exact Hr|apply put_calls_length]|].
  exists (length (put_calls cfg keys prepped)). eexists. rw Hex Ha.
  destruct (drop_refs mos (w_state (b_world b))) as [l1 ->]. rw /gather /= in Ha Hs |- *.
  destruct (gather_results _ s) as [rs s2]. split_and!; done.
Qed.

Lemma batched_get_non_blocking_runs_as keys w :
  room _workers STALL_SECS (length keys) w →
  runs_as (batched_get_non_blocking_co _workers STALL_SECS cfg keys) (batched_get_non_blocking cfg keys) w.
Proof.
  intros Hr. rw /runs_as /batched_get_non_blocking_co /batched_get_non_blocking /bind.
  destruct (exec_in_order _workers STALL_SECS (_get_sync cfg <$> (_addr cfg <$> keys)) w)
    as (b & Hex & Hn & Hi & Hs & _ & Ha); [by rw !length_fmap|].
  exists (length (_get_sync cfg <$> (_addr cfg <$> keys))). rw Hex Ha. rw /gather in Ha Hs |- *.
  destruct (gather_results _ (w_state w)) as [rs s']. simpl in *.
  destruct (res_map id rs) as [out|e]; [rw Hs|]; [|eexists; split_and!; done].
  destruct (mapM _release _ s') as [[l|e] s2]; eexists; split_and!; done.
Qed.

(** When the pool has room, the history in which the calls run in order makes
    every coroutine the method with its calls run one after the other: the
    same result and exception, the same state, and no call left in the pool.
    So what is proved of the sequential methods is a fact of the coroutines. *)
Theorem in_order_is_sequential key m fuel keys mos w :
  room _workers STALL_SECS (Datatypes.S (length keys)) w →
  runs_as (exists_co _workers STALL_SECS cfg key) (exists_key cfg key) w ∧
  runs_as (get_co _workers STALL_SECS cfg key) (get cfg key) w ∧
  runs_as (list_co _workers STALL_SECS cfg fuel) (list_ cfg fuel) w ∧
  runs_as (put_co _workers STALL_SECS cfg key m) (put cfg key m) w ∧
  runs_as (batched_get_co _workers STALL_SECS cfg keys) (batched_get cfg keys) w ∧
  runs_as (batched_put_co _workers STALL_SECS cfg keys mos) (batched_put cfg keys mos) w ∧
  runs_as (batched_get_non_blocking_co _workers STALL_SECS cfg keys) (batched_get_non_blocking cfg keys) w.
Proof.
  intros Hr. assert (room _workers STALL_SECS 1 w) as Hone by (eapply room_le; [exact Hr|lia]).
  assert (room _workers STALL_SECS (length keys) w) as Hk by (eapply room_le; [exact Hr|lia]).
  split_and!; [by apply call_runs_as..|by apply list_runs_as|by apply put_runs_as| | |];
    [by apply batched_get_runs_as|by apply batched_put_runs_as|by apply batched_get_non_blocking_runs_as].
Qed.
End Sequential.

(** ** Loads in any order

    What a batch of loads needs of its calls, whatever the layout: a call made
    on a store that is similar to the one at the start keeps it so ([sim]),
    keeps the live objects, hands out ([handed]) new objects that fit, and
    raises only what the layout allows ([fails]). *)
Section AnyOrderLoads.
Context {D O A X : Type} `{LocalCpuLaws A}.
Abbreviation C := (conn D O A).
Context (_workers STALL_SECS : Z) (handed : X → list Z) (sim : C → C → Prop) `{!PreOrder sim}.
Context (fails : exn → Prop) (s0 : C) (calls : list (M C X)) (fits : nat → X → Z → mobj → Prop).
Implicit Types s : C.

Definition call_ok (i : nat) (t : M C X) : Prop := ∀ s r s', sim s0 s → t s = (r, s') →
  sim s s' ∧ live (c_mem s) ⊆ live (c_mem s') ∧
  match r with
  | Ok x => NoDup (handed x) ∧ ∀ m, m ∈ handed x →
      live (c_mem s) !! m = None ∧ ∃ o, live (c_mem s') !! m = Some o ∧ fits i x m o
  | Raise e => fails e
  end.
Hypothesis calls_ok : ∀ i t, calls !! i = Some t → call_ok i t.

(** What the rest of the process may do meanwhile: it keeps the store and
    the memory objects there are (other loads do). *)
Definition keeps_live (f : C → C) : Prop := ∀ s, sim s (f s) ∧ live (c_mem s) ⊆ live (c_mem (f s)).

(** The loads that have returned handed out objects that fit, are live and
    new, and no two the same. *)
Record loads (L : list (nat * res X)) s' : Prop := mkLoads {
  loads_sim : sim s0 s';
  loads_live : live (c_mem s0) ⊆ live (c_mem s');
  loads_fit i x m : (i, Ok x) ∈ L → m ∈ handed x →
    live (c_mem s0) !! m = None ∧ ∃ o, live (c_mem s') !! m = Some o ∧ fits i x m o;
  loads_fails i e : (i, Raise e) ∈ L → fails e;
  loads_nodup i x : (i, Ok x) ∈ L → NoDup (handed x);
  loads_distinct i j x y m : (i, Ok x) ∈ L → (j, Ok y) ∈ L → m ∈ handed x → m ∈ handed y → i = j;
}.

Lemma loads_env L s' f : keeps_live f → loads L s' → loads L (f s').
Proof.
  intros Hf [Hs Hl Hfit He Hn Hd]. destruct (Hf s') as [Hf1 Hf2]. split; [by etrans|by etrans| |done..].
  intros i x m Hi Hm. destruct (Hfit i x m Hi Hm) as (? & o & Ho & ?). split; [done|]. exists o.
  split; [by eapply lookup_weaken|done].
Qed.

Lemma loads_call L s' i t r s2 :
  loads L s' → calls !! i = Some t → t s' = (r, s2) → loads (L ++ [(i, r)]) s2.
Proof.
  intros [Hs Hl Hfit He Hn Hd] Ht Hrun. destruct (calls_ok _ _ Ht _ _ _ Hs Hrun) as (Hs2 & Hl2 & Hr).
  assert (∀ j x m, (j, Ok x) ∈ L → m ∈ handed x → live (c_mem s') !! m ≠ None) as Hold.
  { intros j x m Hj Hm Hno. destruct (Hfit j x m Hj Hm) as (_ & o & Ho & _). by rw Hno in Ho. }
  split; [by etrans|by etrans| | | |].
  - intros j x m [Hj|[= -> <-]%list_elem_of_singleton]%elem_of_app Hm.
    + destruct (Hfit j x m Hj Hm) as (? & o & Ho & ?). split; [done|]. exists o. split; [by eapply lookup_weaken|done].
    + destruct Hr as [_ Hx]. destruct (Hx m Hm) as [Hno Ho]. split; [|done].
      destruct (live (c_mem s0) !! m) eqn:E; [|done]. by rw (lookup_weaken _ _ _ _ E Hl) in Hno.
  - intros j e [Hj|[= -> <-]%list_elem_of_singleton]%elem_of_app; [by eapply He|done].
  - intros j x [Hj|[= -> <-]%list_elem_of_singleton]%elem_of_app; [by eapply Hn|by apply Hr].
  - intros j k x y m [Hj|[= -> Hj]%list_elem_of_singleton]%elem_of_app [Hk|[= -> Hk]%list_elem_of_singleton]%elem_of_app Hx Hy;
      [by eapply Hd| | |done].
    + subst r. destruct Hr as [_ Hz]. destruct (Hz m Hy) as [Hno _]. by destruct (Hold j x m Hj Hx).
    + subst r. destruct Hr as [_ Hz]. destruct (Hz m Hx) as [Hno _]. by destruct (Hold k y m Hk Hy).
Qed.

Lemma exec_loads es w b :
  w_state w = s0 → env_ok keeps_live es → exec _workers STALL_SECS es (submit_io calls w) = Some b →
  binv _workers calls (shift es (alone_at (_inflight (w_io w)))) b ∧ loads (b_done b) (w_state (b_world b)).
Proof.
  intros Hw Henv Hex. pose proof (binv_start _workers calls w) as Hb0. split; [by eapply exec_inv|].
  eapply (exec_rule _ _ _ _ keeps_live loads); [| |exact Hb0|exact Henv|exact Hex|].
  - intros L s f HL Hf. by apply loads_env.
  - intros L s i t r s' HL Ht _ Hrun. by eapply loads_call.
  - rw /= Hw. split; try done; [intros i x m Hn|intros i e Hn|intros i x Hn|intros i j x y m Hn]; by apply elem_of_nil in Hn.
Qed.
End AnyOrderLoads.

(** ** Batched loads on a DFS container *)
Section AnyOrderGet.
Context {D O A : Type} `{LibDfsLaws D} `{LibDaosObj O} `{MetaCodecLaws} `{!LocalCpu A} `{!LocalCpuLaws A}.
Context (_workers STALL_SECS : Z) (cfg : settings).
Hypothesis on_dfs : _raw cfg = false.
Implicit Types (s : conn D O A) (w : world (conn D O A)).

Definition same_files s s' : Prop := frame (c_dfs s) (c_dfs s').
#[export] Instance same_files_preorder : PreOrder same_files.
Proof. split; [intros s; rw /same_files; reflexivity|]. intros s1 s2 s3 ? ?. rw /same_files. by etrans. Qed.

(** A copy of the complete object stored under the key at position [i]. *)
Definition fits_file (keys : list pykey) s (i : nat) (x : option Z) (m : Z) (o : mobj) : Prop :=
  ∃ key c md payload rest, keys !! i = Some key ∧ fs (c_dfs s) !! _key_to_path key = Some c ∧
    dfs_decode c = Some (md, payload) ∧
    o = mkMobj (py_upto payload (md_length md) ++ rest) 1 (md_shapes md) (md_dtypes md) (md_fmt md).

Lemma get_call_ok keys s0 i t :
  (_get_sync cfg <$> (_addr cfg <$> keys) : list (M (conn D O A) (option Z))) !! i = Some t →
  call_ok option_list same_files (λ _, True) s0 (fits_file keys s0) i t.
Proof.
  intros Ht s r s' Hs Hrun. rw !list_lookup_fmap in Ht. destruct (keys !! i) as [key|] eqn:Hk; [|done].
  injection Ht as <-. destruct (get_one_copy cfg on_dfs _ _ _ _ Hrun) as (Hf & Hl & Hr).
  split; [done|]. split; [done|]. destruct r as [[m|]|e]; simpl; [|split; [constructor|by intros ? ?%elem_of_nil]|done].
  split; [apply NoDup_singleton|]. intros m' ->%list_elem_of_singleton.
  destruct (Hr m eq_refl) as (c & md & p & rest & Hfs & Hdec & Hn & Hm). split; [done|]. eexists. split; [exact Hm|].
  exists key, c, md, p, rest. destruct Hs as (Hff & _). by rw -Hff.
Qed.

Lemma exec_gets keys es w b :
  env_ok (keeps_live same_files) es →
  exec _workers STALL_SECS es (submit_io (_get_sync cfg <$> (_addr cfg <$> keys)) w) = Some b →
  binv _workers (_get_sync cfg <$> (_addr cfg <$> keys)) (shift es (alone_at (_inflight (w_io w)))) b ∧
  loads option_list same_files (λ _, True) (w_state w) (fits_file keys (w_state w)) (b_done b) (w_state (b_world b)).
Proof. intros Henv Hex. eapply (exec_loads _ _ option_list same_files); [intros i t; apply get_call_ok|done..]. Qed.

(** C10: a batched load is right under every interleaving: whatever the order
    in which the calls are admitted and return, and whatever other loads do to
    the state and to the pool in between, when [batched_get] is back it has
    one entry per key; an object at position [i] is a new complete copy of the
    object of the key at position [i], and no two positions share one; files
    and handles are unchanged, no live memory object is touched and the pool's
    counter is what the others have made of it.  It raises DaosPoolWedged only
    if the batch, with what others submit meanwhile, can fill the pool, and
    nothing else but the buffer overrun of an inconsistent file. *)
Theorem batched_get_any_order keys es w r w' :
  env_ok (keeps_live same_files) es → batched_get_co _workers STALL_SECS cfg keys es w = Some (r, w') →
  frame (c_dfs (w_state w)) (c_dfs (w_state w')) ∧
  live (c_mem (w_state w)) ⊆ live (c_mem (w_state w')) ∧
  match r with
  | Ok out => length out = length keys ∧ _inflight (w_io w') = _inflight (w_io w) + net es ∧
      (∀ i m, out !! i = Some (Some m) → ∃ key, keys !! i = Some key ∧ holds_copy key m (w_state w) (w_state w')) ∧
      (∀ i j m, out !! i = Some (Some m) → out !! j = Some (Some m) → i = j)
  | Raise e => (e = DaosPoolWedged ∧ _workers ≤ _inflight (w_io w) + joins es + len keys) ∨ is_exception e = false
  end.
Proof.
  intros Henv Hco. rw /batched_get_co on_dfs in Hco.
  destruct (exec _ _ es _) as [b|] eqn:Hex; [|done]. destruct (exec_gets _ _ _ _ Henv Hex) as [Hb [Hf Hl Hc _ _ Hd]].
  destruct (await_all b) as [r0|] eqn:Ha; [|done]. injection Hco as <- <-. split; [done|]. split; [done|].
  pose proof (bi_sent _ _ _ _ Hb) as Hs. rw !length_fmap in Hs.
  apply await_all_inv in Ha as [(e & He & ->)|(Hn & Ht & Hfl & ->)]; simpl.
  { destruct (bi_raised _ _ _ _ Hb e He) as (-> & _ & Hw). left. split; [done|]. rw /len. simpl in Hw. lia. }
  destruct (in_positions_spec _ _ _ _ Hb Hfl) as [Hcl Hcs].
  pose proof (res_map_miss None (in_positions (b_sent b) (b_done b))) as Hm.
  destruct (res_map _ _) as [out|e]; [|by right]. destruct Hm as [Hlo Ho].
  assert (∀ i m, out !! i = Some (Some m) → (i, Ok (Some m)) ∈ b_done b) as Hin.
  { intros i m Hi. destruct (Ho i _ Hi) as [Hok|(Hbad & _)]; [by apply Hcs|done]. }
  assert (∀ m : Z, m ∈ option_list (Some m)) as Hself by (intros m; by left).
  split_and!; [|by rw (bi_count _ _ _ _ Hb) Hfl /shift /alone_at /len Z.add_0_r| |eauto].
  2:{ intros i m Hi. destruct (Hc i _ m (Hin i m Hi) (Hself m)) as (Hn0 & o & Hlo' & key & c & md & p & rest & Hk & Hfs & Hdec & ->).
      exists key. split; [done|]. by exists c, md, p, rest. }
  pose proof (bi_todo _ _ _ _ Hb Hn) as Hdrop. rw Ht in Hdrop. apply (f_equal length) in Hdrop.
  rw length_drop !length_fmap /= in Hdrop. lia.
Qed.

(** After an idle period a batch larger than the pool fails as a whole: the
    first [_workers] loads are admitted and the next one is refused, which
    raises DaosPoolWedged out of [batched_get] although every load admitted
    returns; the objects they loaded stay allocated, and nobody has them. *)
Theorem idle_burst_loses_its_hits keys w :
  0 < _workers → w_held w < _workers → _inflight (w_io w) = 0 → STALL_SECS < w_now w - _last_done (w_io w) →
  _workers < len keys →
  let n := Z.to_nat _workers in
  let loaded := fst (gather_results (_get_sync cfg <$> (_addr cfg <$> take n keys)) (w_state w)) in
  ∃ es w', batched_get_co _workers STALL_SECS cfg keys es w = Some (Raise DaosPoolWedged, w') ∧
    _inflight (w_io w') = 0 ∧ length loaded = n ∧
    ∀ i m, loaded !! i = Some (Ok (Some m)) →
      live (c_mem (w_state w)) !! m = None ∧ is_Some (live (c_mem (w_state w')) !! m).
Proof.
  intros Hpos Hheld Hi Hst Hlen n loaded.
  destruct (burst_refused _workers STALL_SECS (_get_sync cfg <$> (_addr cfg <$> keys)) w)
    as (b & Hex & Hr & Hf & Hc & Hs & _); [done..|by rw /len !length_fmap|].
  exists (replicate n Enter ++ [Enter] ++ replicate n (Return 0)), (b_world b).
  rw /batched_get_co on_dfs Hex /await_all Hr. split; [done|]. split; [done|].
  fold n in Hs. rw -!fmap_take in Hs. rw Hs /loaded.
  pose proof (gather_gets cfg on_dfs (take n keys) (w_state w)) as Hg.
  destruct (gather_results _ (w_state w)) as [rs s']. destruct Hg as (Hl & _ & _ & Hg). simpl.
  split; [rw Hl length_take; rw /len in Hlen; lia|].
  intros i m Him. destruct (Hg i m Him) as (key & _ & c & md & p & rest & _ & _ & Hn & Hm). eauto.
Qed.
End AnyOrderGet.

(** ** Batched stores in any order *)
Section AnyOrderPut.
Context {D O A : Type} `{LibDfsLaws D} `{LibDaosObj O} `{MetaCodecLaws} `{!LocalCpu A} `{!LocalCpuLaws A}.
Context (_workers STALL_SECS : Z) (cfg : settings).
Hypothesis on_dfs : _raw cfg = false.
Hypothesis copies : _ALIAS_STORE cfg = false.
Implicit Types (s : conn D O A) (w : world (conn D O A)).

(** The rest of the process may do anything to the memory objects, those of
    the batch included: free them, hand them to someone else. *)
Definition only_memory (f : conn D O A → conn D O A) : Prop := ∀ s, c_dfs (f s) = c_dfs s.

(** A file that starts with the object, and one that holds the start of a
    write of it over what was there. *)
Definition written (o : mobj) (f : option bytes) : Prop :=
  ∃ h tail, v1_header (obj_meta o) (len (mo_bytes o)) h ∧ f = Some (h ++ mo_bytes o ++ tail).
Definition torn (o : mobj) (f0 f : option bytes) : Prop :=
  f = f0 ∨ ∃ h k, v1_header (obj_meta o) (len (mo_bytes o)) h ∧
    f = Some (write_at (default [] f0) 0 (take k (h ++ mo_bytes o))).

(** What the preparation makes of an object: a header and a private copy. *)
Definition prepared (o : mobj) (p : bytes * src * Z) : Prop :=
  ∃ h, v1_header (obj_meta o) (len (mo_bytes o)) h ∧ p = (h, Copied (mo_bytes o), len (mo_bytes o)).

(** The slot of one key after some of the calls have returned. *)
Definition slot (d : D) (L : list (nat * res unit)) (i : nat) (o : mobj) (f0 f : option bytes) : Prop :=
  (i ∉ L.*1 → f = f0) ∧
  ∀ r, (i, r) ∈ L → match r with
                    | Ok _ => written o f
                    | Raise e => (∃ rc, e = DaosError rc) ∧ ¬ up d ∧ torn o f0 f
                    end.

Record stores (keys : list pykey) (objs : list mobj) s (L : list (nat * res unit)) s' : Prop := mkStores {
  stores_handles : hs (c_dfs s') = hs (c_dfs s);
  stores_up : up (c_dfs s) → up (c_dfs s');
  stores_others p : p ∉ _key_to_path <$> keys → fs (c_dfs s') !! p = fs (c_dfs s) !! p;
  stores_slot i key o : keys !! i = Some key → objs !! i = Some o →
    slot (c_dfs s) L i o (fs (c_dfs s) !! _key_to_path key) (fs (c_dfs s') !! _key_to_path key);
}.

Lemma prep_all mos objs s :
  Forall2 (λ m o, live (c_mem s) !! m = Some o ∧ storable o) mos objs →
  ∃ prepped, mapM (_prep_write false) mos s = (Ok prepped, s) ∧ Forall2 prepared objs prepped.
Proof.
  induction 1 as [|m o mos objs [Hm (_ & Hfit & _)] _ (prepped & Hrun & HF)]; simpl; [by exists []|].
  pose proof (prep_write_spec false m o s Hm) as Hp. rw /wp in Hp.
  destruct (_prep_write false m s) as [[p|e] s'] eqn:E; [|by destruct Hp as (_ & _ & ?)].
  destruct Hp as (-> & pre & Hpre & ->). eexists. rw /bind E Hrun. split; [done|].
  constructor; [|done]. eexists. by split; [exists pre|].
Qed.

(** The write of one prepared object. *)
Lemma put_prepared path o p s r s' :
  prepared o p → _put_dfs path p.1.1 p.1.2 p.2 s = (r, s') →
  hs (c_dfs s') = hs (c_dfs s) ∧ (up (c_dfs s) → up (c_dfs s')) ∧
  (∀ q, q ≠ path → fs (c_dfs s') !! q = fs (c_dfs s) !! q) ∧
  match r with
  | Ok _ => written o (fs (c_dfs s') !! path)
  | Raise e => (∃ rc, e = DaosError rc) ∧ ¬ up (c_dfs s) ∧ torn o (fs (c_dfs s) !! path) (fs (c_dfs s') !! path)
  end.
Proof.
  intros (h & Hh & ->) Hrun. simpl in Hrun.
  pose proof (wp_run _ _ _ _ _ _ (put_dfs_spec path h (Copied (mo_bytes o)) _ s eq_refl) Hrun) as Hp.
  destruct r as [[]|e]; simpl in Hp.
  - destruct Hp as (Hf & Hhs & Hu & _). rw Hf. split_and!; try done.
    + intros q Hq. by rw lookup_insert_ne.
    + rw lookup_insert_eq write_at_over -app_assoc. exists h. by eexists.
  - destruct Hp as (Hu & He & Hf & Hhs & _). split; [done|]. split; [done|].
    destruct Hf as [Hf|(k & Hf)]; rw Hf; [split_and!; try done; by left|].
    split; [intros q Hq; by rw lookup_insert_ne|]. split; [done|]. split; [done|]. right. exists h, k.
    by rw lookup_insert_eq.
Qed.

Lemma stores_call keys objs s L s' i key o p r s2 :
  NoDup (_key_to_path <$> keys) → stores keys objs s L s' →
  keys !! i = Some key → objs !! i = Some o → i ∉ L.*1 → prepared o p →
  _put_dfs (_key_to_path key) p.1.1 p.1.2 p.2 s' = (r, s2) → stores keys objs s (L ++ [(i, r)]) s2.
Proof.
  intros Hnd [Hh Hu Hoth Hslot] Hk Ho Hi Hp Hrun.
  destruct (put_prepared _ _ _ _ _ _ Hp Hrun) as (Hh2 & Hu2 & Hf2 & Hr).
  assert ((_key_to_path <$> keys) !! i = Some (_key_to_path key)) as Hki by by rw list_lookup_fmap Hk.
  split; [by rw Hh2|auto| |].
  - intros q Hq. rw Hf2; [|by apply Hoth]. intros ->. apply Hq. by eapply list_elem_of_lookup_2.
  - intros j key' o' Hk' Ho'. destruct (decide (j = i)) as [->|Hne].
    + simplify_eq. destruct (Hslot i _ _ Hk Ho) as [Hf0 _]. specialize (Hf0 Hi). split.
      * intros Hn. destruct Hn. rw fmap_app. apply elem_of_app. right. by left.
      * intros r' [Hin|[= ->]%list_elem_of_singleton]%elem_of_app.
        { destruct Hi. apply list_elem_of_fmap. by exists (i, r'). }
        destruct r as [[]|e]; [done|]. rw -Hf0. naive_solver.
    + rw Hf2.
      { intros Heq. assert ((_key_to_path <$> keys) !! j = Some (_key_to_path key)) as Hkj
          by by rw list_lookup_fmap Hk' /= Heq.
        by apply Hne, (NoDup_lookup _ _ _ _ Hnd Hkj Hki). }
      destruct (Hslot j _ _ Hk' Ho') as [Hf0 Hd]. split.
      * intros Hn. apply Hf0. intros Hin. apply Hn. rw fmap_app. apply elem_of_app. by left.
      * intros r' [Hin|[= ? ->]%list_elem_of_singleton]%elem_of_app; [by apply Hd|done].
Qed.

Lemma put_calls_lookup keys prepped i t :
  (put_calls cfg keys prepped : list (M (conn D O A) unit)) !! i = Some t →
  ∃ key p, keys !! i = Some key ∧ prepped !! i = Some p ∧ t = _put_dfs (_key_to_path key) p.1.1 p.1.2 p.2.
Proof.
  rw /put_calls on_dfs lookup_zip_with list_lookup_fmap.
  destruct (keys !! i) as [key|]; [|done]. destruct (prepped !! i) as [p|]; [|done]. simpl.
  intros [= <-]. exists key, p. rw /_addr on_dfs. done.
Qed.

Lemma put_calls_length_eq keys prepped :
  length prepped = length keys → length (put_calls cfg keys prepped : list (M (conn D O A) unit)) = length keys.
Proof. intros Hl. rw /put_calls on_dfs length_zip_with length_fmap. lia. Qed.

Lemma exec_stores keys objs prepped es w b :
  NoDup (_key_to_path <$> keys) → Forall2 prepared objs prepped → env_ok only_memory es →
  exec _workers STALL_SECS es (submit_io (put_calls cfg keys prepped) w) = Some b →
  binv _workers (put_calls cfg keys prepped) (shift es (alone_at (_inflight (w_io w)))) b ∧
  stores keys objs (w_state w) (b_done b) (w_state (b_world b)).
Proof.
  intros Hnd HF Henv Hex. pose proof (binv_start _workers (put_calls cfg keys prepped) w) as Hb0.
  split; [by eapply exec_inv|].
  eapply (exec_rule _ _ _ _ only_memory (stores keys objs (w_state w))); [| |exact Hb0|exact Henv|exact Hex|].
  - intros L s f [] Hf. split; rw (Hf s); done.
  - intros L s i t r s' HL Ht Hi Hrun. apply put_calls_lookup in Ht as (key & p & Hk & Hp & ->).
    destruct (Forall2_lookup_r _ _ _ _ _ HF Hp) as (o & Ho & Hop). by eapply stores_call.
  - split; try done. intros i key o _ _. split; [done|]. intros r Hn. by apply elem_of_nil in Hn.
Qed.

End AnyOrderPut.

(** ** Concrete runs *)
Module DemoBatch.
Abbreviation C := (conn MemDfs.mem MemObj.mem MemLM.mem).
Definition key (s : string) : pykey := mkKey None (Some s) "" [].
Definition cfg (alias : bool) : settings := mkSettings false alias false.
Definition start (now : Z) (files : gmap string bytes) (faults : list (option MemDfs.fault)) : world C :=
  let s := DemoDfs.world files faults in
  mkWorld now (mkPool 0 0) 0 (mkConn (c_dfs s) (MemObj.healthy ∅) (c_mem s)).
Definition one_file : gmap string bytes :=
  {[_key_to_path (key "a"%string) := DemoDfs.file (obj_meta DemoDfs.obj) (encode "kvkv")]}.
Definition reuse (s : C) : C := mkConn (c_dfs s) (c_obj s) (poke 7 (encode "evil") (c_mem s)).
End DemoBatch.
Import DemoBatch.

(** A run by its result. *)
Lemma run_by_result {X Y} (o : option (X * Y)) x : fst <$> o = Some x → ∃ y, o = Some (x, y).
Proof. destruct o as [[x' y]|]; [|done]. intros [= ->]. by exists y. Qed.

(** The [Other] events of a concrete history. *)
Ltac env_tac H := repeat (apply List.Forall_cons; [first [exact I|exact H]|]); apply List.Forall_nil.

(** Two workers and three loads.  One load is stuck: the other two return and
    the batch waits.  Two are stuck: the third is never run. *)
Lemma batch_waits_for_hung_calls_witness :
  let tasks : list (M C (option Z)) := _get_sync (cfg false) <$> (_addr (cfg false) <$> [key "a"%string; key "b"%string; key "a"%string]) in
  let w := start 0 one_file [] in
  (∃ b, exec 2 60 [Enter; Enter; Enter; Return 1; Return 1] (submit_io tasks w) = Some b ∧
     b_todo b = [] ∧ 2%nat ∈ (b_done b).*1 ∧ await_all b = None) ∧
  (∃ b, exec 2 60 [Enter; Enter; Enter] (submit_io tasks w) = Some b ∧
     ∀ es' b', spares 2 60 (λ i, Nat.ltb i 2) es' b → exec 2 60 es' b = Some b' → b_done b' = []).
Proof.
  intros tasks w. split.
  - set (es := [Enter; Enter; Enter; Return 1; Return 1]).
    assert ((λ b, (length (b_todo b), (b_flight b).*1, b_sent b, w_held (b_world b), b_raised b)) <$> exec 2 60 es (submit_io tasks w) =
      Some (0%nat, [0%nat], 3%nat, 0, None)) as E by (vm_compute; reflexivity).
    destruct (exec 2 60 es (submit_io tasks w)) as [b|] eqn:Hex; [|discriminate]. exists b. split; [reflexivity|].
    injection E as Et Ef Es Eh Er. apply length_zero_iff_nil in Et.
    destruct (b_flight b) as [|[i t] [|x l]] eqn:Efl; simpl in Ef; try discriminate Ef. injection Ef as ->.
    destruct (batch_waits_for_hung_calls 2 60 (λ i, Nat.eqb i 0) tasks w es b Hex) as (_ & Hidle & _). clear Hex.
    destruct Hidle as (Ht & Hd & _ & Hw).
    + intros e [[b' He] Hg]. destruct e as [d| |[|k]| | |tr|f]; simpl in Hg; try (destruct Hg; fail).
      * simpl in He. rw Et in He. discriminate He.
      * specialize (Hg (0%nat, t)). rw Efl in Hg. discriminate (Hg eq_refl).
      * simpl in He. destruct (_ <? _); [|discriminate He]. rw Efl in He. discriminate He.
    + rw /hung Efl Eh /len /=. lia.
    + split; [exact Ht|]. split; [apply Hd; [rw Es; lia|reflexivity]|]. apply Hw; [by rw /hung Efl|exact Er].
  - assert ((λ b, ((b_flight b).*1, w_held (b_world b), (b_done b).*1)) <$> exec 2 60 [Enter; Enter; Enter] (submit_io tasks w) =
      Some ([0%nat; 1%nat; 2%nat], 0, [])) as E by (vm_compute; reflexivity).
    destruct (exec 2 60 [Enter; Enter; Enter] (submit_io tasks w)) as [b|] eqn:Hex; [|discriminate].
    injection E as Ef Eh Ed. exists b. split; [reflexivity|]. intros es' b' Hsp Hex'. apply fmap_nil_inv in Ed. rw -Ed.
    destruct (batch_waits_for_hung_calls 2 60 (λ i, Nat.ltb i 2) tasks w [Enter; Enter; Enter] b Hex) as (_ & _ & Hsat).
    apply (Hsat ltac:(lia)) with es'; [|exact Hsp|exact Hex'].
    destruct (b_flight b) as [|[i0 t0] [|[i1 t1] l]] eqn:Efl; simpl in Ef; try discriminate Ef. injection Ef as -> -> _.
    intros [|[|k]] Hk; [exists (0%nat, t0)|exists (1%nat, t1)|lia]; rw Efl; split; reflexivity.
Defined.

(** The third load returns before the second, the first last. *)
Lemma batched_get_any_order_witness :
  let ks := [key "missing"%string; key "a"%string; key "a"%string] in
  let es := [Enter; Enter; Enter; Elapse 1; Return 2; Other id; Return 1; Return 0] in
  let w := start 0 one_file [] in
  ∃ w', batched_get_co 16 60 (cfg false) ks es w = Some (Ok [None; Some 9; Some 8], w') ∧
    frame (c_dfs (w_state w)) (c_dfs (w_state w')) ∧ _inflight (w_io w') = 0.
Proof.
  intros ks es w.
  destruct (run_by_result (batched_get_co 16 60 (cfg false) ks es w) (Ok [None; Some 9; Some 8])) as [w' E];
    [vm_compute; reflexivity|].
  assert (keeps_live (D := MemDfs.mem) (O := MemObj.mem) (A := MemLM.mem) same_files id) as Hid
    by (intros s; rw /same_files; split; reflexivity).
  assert (env_ok (keeps_live same_files) es) as Henv by (apply env_ok_Forall; env_tac Hid).
  destruct (batched_get_any_order 16 60 (cfg false) eq_refl ks es w _ w' Henv E) as (Hf & _ & Hout).
  exists w'. destruct Hout as (_ & Hi & _). exact (conj E (conj Hf Hi)).
Defined.

(** A pool of two threads that has been idle for 61 seconds, three keys. *)
Lemma idle_burst_loses_its_hits_witness :
  let ks := [key "a"%string; key "a"%string; key "a"%string] in
  ∃ es w', batched_get_co 2 60 (cfg false) ks es (start 61 one_file []) = Some (Raise DaosPoolWedged, w').
Proof.
  intros ks. destruct (idle_burst_loses_its_hits 2 60 (cfg false) eq_refl ks (start 61 one_file []))
    as (es & w' & He & _); [lia|simpl; lia|reflexivity|simpl; lia|vm_compute; reflexivity|].
  exists es, w'. exact He.
Defined.

(** The same run in figures: two memory objects more than before, and none returned. *)
Lemma idle_burst_leaks_two_objects :
  let ks := [key "a"%string; key "a"%string; key "a"%string] in
  let w := start 61 one_file [] in
  (λ x, (fst x, size (live (c_mem (w_state (snd x)))))) <$>
    batched_get_co 2 60 (cfg false) ks [Enter; Enter; Enter; Return 0; Return 0] w =
    Some (Raise DaosPoolWedged, 3%nat) ∧ size (live (c_mem (w_state w))) = 1%nat.
Proof. split; vm_compute; reflexivity. Qed.


(** With DAOS_UNSAFE_ALIAS_STORE the same freedom destroys data: the first
    write fails, the call is back at once, the memory of its objects is reused,
    and the second write stores the foreign bytes as the object of its key. *)
Lemma aliased_batch_stores_foreign_bytes :
  let ks := [key "a"%string; key "b"%string] in
  let es := [Enter; Enter; Return 0; Other reuse; Return 0] in
  (λ x, (fst x, fs (c_dfs (w_state (snd x))) !! _key_to_path (key "b"%string) ≫= dfs_decode)) <$>
    batched_put_co 16 60 (cfg true) ks [7; 7] es (start 0 ∅ [Some (MemDfs.mkFault 1011 0)]) =
  Some (Raise (DaosError (-1011)), Some (obj_meta DemoDfs.obj, encode "evil")).
Proof. vm_compute. reflexivity. Qed.

Lemma in_order_is_sequential_witness :
  let w := start 0 one_file [] in
  let ks := [key "missing"%string; key "a"%string] in
  runs_as (batched_get_co 16 60 (cfg false) ks) (batched_get (cfg false) ks) w.
Proof.
  intros w ks. destruct (in_order_is_sequential 16 60 (cfg false) (key "a"%string) 7 1 ks [] w) as (_ & _ & _ & _ & Hg & _);
    [split; [vm_compute; reflexivity|left; vm_compute; discriminate]|exact Hg].
Defined.

(** [batched_get_non_blocking] has no [return_exceptions]: when one load
    raises, the objects of the others are lost. *)
Lemma non_blocking_batch_leaks_on_error :
  let ks := [key "a"%string; key "a"%string] in
  let w := start 0 one_file [None; None; None; Some (MemDfs.mkFault 1011 0)] in
  (λ x, (fst x, size (live (c_mem (w_state (snd x)))))) <$>
    batched_get_non_blocking_co 16 60 (cfg false) ks [Enter; Enter; Return 0; Return 0] w =
    Some (Raise (DaosError (-1011)), 2%nat) ∧ size (live (c_mem (w_state w))) = 1%nat.
Proof. split; vm_compute; reflexivity. Qed.
