(* ===== verification/BatchRaw.v ===== *)
(** * Batched loads on the object API, under every interleaving

    On a container without a file system [batched_get] of [connector.py] has
    two forms: one call per key, or, when every key names a layer, one folded
    call per chunk whose results are scattered to the positions of the chunk's
    layers.  [Batch] has the machine and what any batch of loads gives
    ([loads]); [FoldedLoad] what one folded call does.  Here the two meet. *)
From S2P Require Import Prelude Serde SerdeV3 DfsBinding ObjBinding Keys ConnBase ConnDfs ConnRaw FoldedLoad Connector WedgePool Batch.
Open Scope Z_scope.
Open Scope py_scope.

(** ** The groups of a layerwise batch *)

(** The positions of a group are distinct, and below [n]. *)
Definition group_pos (n : nat) (g : groups) : Prop :=
  ∀ dk ms, (dk, ms) ∈ g → NoDup ms.*1 ∧ Forall (λ x : nat * Z, (x.1 < n)%nat) ms.

Lemma group_add_pos n dk l g : group_pos n g → group_pos (S n) (group_add dk (n, l) g).
Proof.
  intros Hg. assert (∀ ms : list (nat * Z), Forall (λ x, (x.1 < n)%nat) ms → Forall (λ x, (x.1 < S n)%nat) ms) as Hw.
  { intros ms Hms. eapply Forall_impl; [exact Hms|]. intros x Hx. simpl in Hx. lia. }
  induction g as [|[k ms] g IH]; intros dk' ms'; simpl.
  { intros [= -> ->]%list_elem_of_singleton. split; [apply NoDup_singleton|]. repeat constructor. }
  assert (group_pos n g) as Hg' by (intros dk2 ms2 Hin; apply (Hg dk2); by right).
  case_bool_decide as Hk.
  - intros [[= -> ->]|Hin]%elem_of_cons; [|destruct (Hg' _ _ Hin); auto].
    destruct (Hg k ms ltac:(by left)) as [Hnd Hlt]. split.
    + rw fmap_app. apply NoDup_app. split; [done|]. split; [|apply NoDup_singleton].
      intros p (x & -> & Hx)%list_elem_of_fmap Hp%list_elem_of_singleton. simpl in Hp.
      pose proof (proj1 (Forall_forall _ _) Hlt x Hx) as Hx'. simpl in Hx'. lia.
    + apply Forall_app. split; [auto|]. repeat constructor.
  - intros [[= -> ->]|Hin]%elem_of_cons; [|exact (IH Hg' _ _ Hin)].
    destruct (Hg k ms ltac:(by left)). auto.
Qed.

Lemma group_from_pos i addrs g g' : group_from i addrs g = Some g' → group_pos i g → group_pos (i + length addrs) g'.
Proof.
  revert i g. induction addrs as [|[dk [l|]] addrs IH]; intros i g; simpl; [|intros Hg Hp|done].
  - intros [= <-]. by rw Nat.add_0_r.
  - rw Nat.add_succ_r. apply (IH (S i)) in Hg; [exact Hg|]. by apply group_add_pos.
Qed.

(** A group lists distinct layers when the addresses of the batch are. *)
Lemma group_layers_nodup addrs g dk ms :
  _group_layers addrs = Some g → NoDup addrs → (dk, ms) ∈ g → NoDup ms.*1 ∧ NoDup ms.*2.
Proof.
  intros Hg Hnd Hin. pose proof (group_layers_partitions addrs) as Hpart. rw Hg in Hpart.
  destruct Hpart as (_ & _ & Hpart). rw /_group_layers in Hg. apply group_from_pos in Hg.
  2:{ intros ? ? Hn. by apply elem_of_nil in Hn. }
  destruct (Hg dk ms Hin) as [Hp _]. split; [done|]. apply NoDup_fmap_2_strong; [|by eapply NoDup_fmap_1].
  intros [i l] [j l'] Hi Hj Heq. simpl in Heq. subst l'. f_equal.
  eapply NoDup_lookup; [exact Hnd|apply Hpart; by exists ms|apply Hpart; by exists ms].
Qed.

(** ** Scattering *)
Lemma scatter1_inv members got out :
  length (scatter1 out members got) = length out ∧
  ∀ i m, scatter1 out members got !! i = Some (Some m) →
    out !! i = Some (Some m) ∨ ∃ k l, members !! k = Some (i, l) ∧ got !! k = Some (Some m).
Proof.
  rw /scatter1. assert (∀ (zs : list ((nat * Z) * option Z)) out,
    length (fold_left (λ out x, <[x.1.1 := x.2]> out) zs out) = length out ∧
    ∀ i m, fold_left (λ out x, <[x.1.1 := x.2]> out) zs out !! i = Some (Some m) →
      out !! i = Some (Some m) ∨ ∃ k l, zs !! k = Some ((i, l), Some m)) as Hz.
  { induction zs as [|[[j l] r] zs IH]; intros o; simpl; [by eauto|]. destruct (IH (<[j := r]> o)) as [Hl Hi].
    split; [by rw Hl length_insert|]. intros i m [Ho|(k & l' & Hk)]%Hi; [|right; by exists (S k), l'].
    apply list_lookup_insert_Some in Ho as [(-> & -> & _)|[_ ?]]; [right; by exists 0%nat, l|by left]. }
  destruct (Hz (zip members got) out) as [Hl Hi]. split; [exact Hl|].
  intros i m [?|(k & l & Hk)]%Hi; [by left|right]. apply lookup_zip_with_Some in Hk as ([j l'] & r & [= <- <- <-] & ? & ?).
  by exists k, l.
Qed.

Lemma scatter_inv zs out :
  length (scatter out zs) = length out ∧
  ∀ i m, scatter out zs !! i = Some (Some m) →
    out !! i = Some (Some m) ∨ ∃ g dk ms got k l, zs !! g = Some ((dk, ms), got) ∧
      ms !! k = Some (i, l) ∧ got !! k = Some (Some m).
Proof.
  rw /scatter. revert out. induction zs as [|[[dk ms] got] zs IH]; intros out; simpl; [by eauto|].
  destruct (IH (scatter1 out ms got)) as [Hl Hi]. destruct (scatter1_inv ms got out) as [Hl1 Hi1].
  split; [by rw Hl|]. intros i m [[?|(k & l & ? & ?)]%Hi1|(g & dk' & ms' & got' & k & l & ? & ? & ?)]%Hi.
  - by left.
  - right. by exists 0%nat, dk, ms, got, k, l.
  - right. by exists (S g), dk', ms', got', k, l.
Qed.

(** The objects of a folded result, each at one position. *)
Lemma omap_id_elem (x : list (option Z)) m : m ∈ omap id x ↔ ∃ k, x !! k = Some (Some m).
Proof.
  rw list_elem_of_omap. split.
  - intros (y & [k Hk]%list_elem_of_lookup & Hy). rw /id in Hy. subst y. by exists k.
  - intros [k Hk]. exists (Some m). split; [by eapply list_elem_of_lookup_2|done].
Qed.

Lemma omap_id_nodup (x : list (option Z)) :
  NoDup (omap id x) ↔ ∀ i j m, x !! i = Some (Some m) → x !! j = Some (Some m) → i = j.
Proof.
  induction x as [|[a|] x IH]; simpl.
  - split; [done|constructor].
  - rw NoDup_cons IH omap_id_elem. split.
    + intros [Hn Hi] [|i] [|j] m Hm Hm'; simplify_eq/=; try done; try (by destruct Hn; eauto). f_equal. by eapply Hi.
    + intros Hi. split.
      * intros [k Hk]. by specialize (Hi 0%nat (S k) a eq_refl Hk).
      * intros i j m Hm Hm'. assert (S i = S j) by (by eapply Hi). lia.
  - rw IH. split.
    + intros Hi [|i] [|j] m Hm Hm'; simplify_eq/=. f_equal. by eapply Hi.
    + intros Hi i j m Hm Hm'. assert (S i = S j) by (by eapply Hi). lia.
Qed.

(** ** The two kinds of call *)
Section RawCalls.
Context {D O A : Type} `{LibDfs D} `{LibDaosObjLaws O} `{MetaCodecLaws} `{!LocalCpu A} `{!LocalCpuLaws A}.
Context (_workers STALL_SECS : Z) (cfg : settings).
Hypothesis on_objects : _raw cfg = true.
Implicit Types (s : conn D O A) (w : world (conn D O A)).

#[export] Instance same_store_preorder : PreOrder (same_store (D := D) (O := O) (A := A)).
Proof. split; [done|]. intros s1 s2 s3 (? & ? & ?) (? & ? & ?). split_and!; [congruence..|auto]. Qed.

(** A slot as the connector leaves it, for either form of address. *)
Definition addr_ready (m : kvmap) (a : raddr) : Prop :=
  ∃ pak mak, _akeys_for a.2 = Ok (pak, mak) ∧ slot_wf m a.1 pak mak ∧
    ∀ pl md, meta_of (m !! (a.1, mak)) = Some (pl, md) → 0 < md_length md ≤ md_size md.

(** The object is a copy of what is stored at the address. *)
Definition view_copy (m : kvmap) (a : raddr) (o : mobj) : Prop :=
  ∃ md p rest, raw_view m a = Some (md, p) ∧ len (p ++ rest) = md_size md ∧
    o = mkMobj (p ++ rest) 1 (md_shapes md) (md_dtypes md) (md_fmt md).

Lemma ready_layer m dk l : addr_ready m (dk, Some l) → layer_wf m dk l.
Proof.
  intros (pak & mak & Hak & Hs & Hm). simpl in Hs, Hm.
  assert (layer_ok l) as Hl.
  { destruct (decide (layer_ok l)) as [|Hbad]; [done|]. by rw /= akey_layer_bad in Hak. }
  rw layer_keys // in Hak. injection Hak as <- <-. done.
Qed.

Definition fits_one (addrs : list raddr) s (i : nat) (x : option Z) (m : Z) (o : mobj) : Prop :=
  ∃ a, addrs !! i = Some a ∧ view_copy (kv (c_obj s)) a o.
Definition fits_group (order : groups) s (g : nat) (x : list (option Z)) (m : Z) (o : mobj) : Prop :=
  ∀ k, x !! k = Some (Some m) → ∃ dk ms i l, order !! g = Some (dk, ms) ∧ ms !! k = Some (i, l) ∧
    view_copy (kv (c_obj s)) (dk, Some l) o.

Lemma one_call_ok addrs s0 i t :
  Forall (addr_ready (kv (c_obj s0))) addrs →
  ((λ a, _get_sync cfg (ARaw a)) <$> addrs : list (M (conn D O A) (option Z))) !! i = Some t →
  call_ok option_list same_store (λ e, is_exception e = true) s0 (fits_one addrs s0) i t.
Proof.
  intros Hready Ht s r s' Hs Hrun. rw list_lookup_fmap in Ht. destruct (addrs !! i) as [a|] eqn:Ha; [|done].
  injection Ht as <-. destruct (Forall_lookup_1 _ _ _ _ Hready Ha) as (pak & mak & Hak & Hwf & Hm).
  destruct Hs as (Hd & Hkv & Hu). rw -Hkv in Hwf, Hm.
  pose proof (wp_run _ _ _ _ _ _ (get_raw_spec a pak mak s Hak Hwf) Hrun) as Hp. destruct r as [x|e].
  - destruct Hp as [Hss Hr]. split; [done|]. destruct x as [m|]; simpl in Hr.
    + destruct Hr as (md & p & rest & Hv & Hl & Hn & Hlive). split; [rw Hlive; by apply insert_subseteq|].
      split; [apply NoDup_singleton|]. intros m' ->%list_elem_of_singleton. split; [done|].
      eexists. split; [by rw Hlive lookup_insert_eq|]. exists a. split; [done|]. exists md, p, rest. by rw -Hkv.
    + destruct Hr as [-> _]. split; [done|]. split; [constructor|by intros ? ?%elem_of_nil].
  - destruct Hp as [Hss [(_ & Hl & rc & ->)|(_ & pl & md & Hmo & Hbad)]]; [by rw Hl|].
    destruct Hbad. specialize (Hm _ _ Hmo). lia.
Qed.

Lemma group_call_ok order s0 g t :
  (∀ dk ms, (dk, ms) ∈ order → NoDup ms.*2 ∧ Forall (layer_wf (kv (c_obj s0)) dk) ms.*2) →
  ((λ g : bytes * list (nat * Z), _get_raw_folded (fst g) (snd <$> snd g)) <$> order
     : list (M (conn D O A) (list (option Z)))) !! g = Some t →
  call_ok (omap id) same_store (λ e, is_exception e = true) s0 (fits_group order s0) g t.
Proof.
  intros Hready Ht s r s' Hs Hrun. rw list_lookup_fmap in Ht. destruct (order !! g) as [[dk ms]|] eqn:Hg; [|done].
  injection Ht as <-. destruct (Hready dk ms) as [Hnd Hwf]; [by eapply list_elem_of_lookup_2|].
  destruct Hs as (Hd & Hkv & Hu). rw -Hkv in Hwf. simpl in Hrun.
  pose proof (wp_run _ _ _ _ _ _ (folded_load_reads_each_layer dk ms.*2 s Hnd Hwf) Hrun) as Hp.
  destruct r as [x|e]; [|by destruct Hp as (Hss & _ & -> & rc & ->)].
  destruct Hp as [Hss (Hl & Hsub & Hread & Hdist & _)]. split; [done|]. split; [done|].
  split; [by apply omap_id_nodup|]. intros m [k Hk]%omap_id_elem.
  assert (is_Some (ms !! k)) as [[i l] Hms].
  { apply lookup_lt_is_Some_2. apply lookup_lt_Some in Hk. by rw Hl length_fmap in Hk. }
  destruct (Hread k l (Some m)) as (md & p & rest & Hv & Hlen & Hn & Hm); [by rw list_lookup_fmap Hms|done|].
  split; [done|]. eexists. split; [exact Hm|]. intros k' Hk'.
  assert (k' = k) as -> by (by eapply Hdist). exists dk, ms, i, l. rw -Hkv. split_and!; try done. by exists md, p, rest.
Qed.

(** ** The batch *)
Lemma raw_paths (keys : list pykey) : _addr cfg <$> keys = ARaw <$> (_raw_addr <$> keys).
Proof. rw -list_fmap_compose. apply list_fmap_ext. intros i key _. by rw /_addr on_objects. Qed.

Lemma raw_groups (keys : list pykey) :
  batch_groups (_addr cfg <$> keys) = default [] (_group_layers (_raw_addr <$> keys)).
Proof.
  rw raw_paths /batch_groups. generalize (_raw_addr <$> keys). intros l.
  assert (raddrs (ARaw <$> l) = Some l) as ->; [|done].
  induction l as [|a l IH]; [done|]. by rw fmap_cons /= IH.
Qed.

(** Position [i] of the result: the object of the key at position [i]. *)
Definition right_object (keys : list pykey) s s' (i : nat) (m : Z) : Prop :=
  ∃ key o, keys !! i = Some key ∧ live (c_mem s) !! m = None ∧ live (c_mem s') !! m = Some o ∧
    view_copy (kv (c_obj s)) (_raw_addr key) o.
Definition right_batch (keys : list pykey) s s' (out : list (option Z)) : Prop :=
  length out = length keys ∧ (∀ i m, out !! i = Some (Some m) → right_object keys s s' i m) ∧
  (∀ i j m, out !! i = Some (Some m) → out !! j = Some (Some m) → i = j).

(** Errors of the calls become misses, so a complete gather is a result. *)
Lemma misses {X} (d : X) (L : list (nat * res X)) n :
  (∀ i e, (i, Raise e) ∈ L → is_exception e = true) →
  (∀ i r, in_positions n L !! i = Some r ↔ (i, r) ∈ L) →
  ∃ outs, res_map (miss_on_error d) (in_positions n L) = Ok outs ∧ length outs = length (in_positions n L) ∧
    ∀ i x, outs !! i = Some x → (i, Ok x) ∈ L ∨ x = d.
Proof.
  intros He Hp. pose proof (res_map_miss d (in_positions n L)) as Hm.
  destruct (res_map _ _) as [outs|e] eqn:Er.
  - destruct Hm as [Hl Ho]. exists outs. split; [done|]. split; [done|]. intros i x Hi.
    destruct (Ho i x Hi) as [Hr|[-> _]]; [left; by apply Hp|by right].
  - exfalso. assert (Forall (λ r, ∃ x, miss_on_error d r = Ok x) (in_positions n L)) as HF.
    { apply Forall_lookup. intros i [x|e'] Hi; [by exists x|]. apply Hp, He in Hi. exists d. by rw /= Hi. }
    clear -HF Er. revert e Er. induction HF as [|r l [x Hx] _ IH]; intros e; simpl; [done|]. rw Hx /=.
    destruct (res_map _ l) as [ys|e'] eqn:E; [done|]. intros _. by apply (IH e').
Qed.

(** One call per key. *)
Lemma single_batch_right (keys : list pykey) es w b :
  Forall (addr_ready (kv (c_obj (w_state w)))) (_raw_addr <$> keys) → env_ok (keeps_live same_store) es →
  exec _workers STALL_SECS es (submit_io (_get_sync cfg <$> (_addr cfg <$> keys)) w) = Some b →
  binv _workers (_get_sync cfg <$> (_addr cfg <$> keys)) (shift es (alone_at (_inflight (w_io w)))) b ∧
  same_store (w_state w) (w_state (b_world b)) ∧
  live (c_mem (w_state w)) ⊆ live (c_mem (w_state (b_world b))) ∧
  (b_raised b = None → b_todo b = [] → b_flight b = [] →
   ∃ out, res_map (miss_on_error None) (in_positions (b_sent b) (b_done b)) = Ok out ∧
     right_batch keys (w_state w) (w_state (b_world b)) out).
Proof.
  intros Hready Henv Hex. rw raw_paths -list_fmap_compose in Hex |- *.
  destruct (exec_loads _ _ option_list same_store _ _ _ _ (λ i t, one_call_ok _ (w_state w) i t Hready) es w b eq_refl Henv Hex)
    as [Hb [Hs Hl Hfit He Hn Hd]].
  split; [done|]. split; [done|]. split; [done|]. intros Hr Ht Hf.
  destruct (in_positions_spec _ _ _ _ Hb Hf) as [Hlen Hp].
  destruct (misses None _ _ He Hp) as (out & Hres & Hlo & Ho). exists out. split; [done|].
  assert (∀ i m, out !! i = Some (Some m) → (i, Ok (Some m)) ∈ b_done b) as Hin.
  { intros i m Hi. by destruct (Ho i _ Hi). }
  assert (∀ m : Z, m ∈ option_list (Some m)) as Hself by (intros m; by left). split; [|split].
  - pose proof (bi_todo _ _ _ _ Hb Hr) as Hdrop. rw Ht in Hdrop. apply (f_equal length) in Hdrop.
    pose proof (bi_sent _ _ _ _ Hb) as Hsent. rw !length_fmap in Hsent. rw length_drop !length_fmap /= in Hdrop. lia.
  - intros i m Hi. destruct (Hfit i _ m (Hin i m Hi) (Hself m)) as (Hno & o & Hlv & a & Ha & Hc).
    rw list_lookup_fmap in Ha. destruct (keys !! i) as [key|] eqn:Hk; [|done]. injection Ha as <-. by exists key, o.
  - eauto.
Qed.

(** One folded call per chunk. *)
Lemma folded_batch_right (keys : list pykey) order es w b :
  NoDup (_raw_addr <$> keys) → Forall (addr_ready (kv (c_obj (w_state w)))) (_raw_addr <$> keys) →
  _group_layers (_raw_addr <$> keys) = Some order → env_ok (keeps_live same_store) es →
  exec _workers STALL_SECS es (submit_io
    ((λ g : bytes * list (nat * Z), _get_raw_folded (fst g) (snd <$> snd g)) <$> order) w) = Some b →
  binv _workers ((λ g : bytes * list (nat * Z), _get_raw_folded (fst g) (snd <$> snd g)) <$> order) (shift es (alone_at (_inflight (w_io w)))) b ∧
  same_store (w_state w) (w_state (b_world b)) ∧
  live (c_mem (w_state w)) ⊆ live (c_mem (w_state (b_world b))) ∧
  (b_flight b = [] →
   ∃ gots, res_map (miss_on_error []) (in_positions (b_sent b) (b_done b)) = Ok gots ∧
     right_batch keys (w_state w) (w_state (b_world b)) (scatter (replicate (length keys) None) (zip order gots))).
Proof.
  intros Hnd Hready Hg Henv Hex. pose proof (group_layers_partitions (_raw_addr <$> keys)) as Hpart. rw Hg in Hpart.
  destruct Hpart as (_ & _ & Hpart).
  assert (∀ dk ms i l, (dk, ms) ∈ order → (i, l) ∈ ms → (_raw_addr <$> keys) !! i = Some (dk, Some l)) as Hkey.
  { intros dk ms i l Hdk Hi. apply Hpart. by exists ms. }
  assert (∀ dk ms, (dk, ms) ∈ order → NoDup ms.*2 ∧ Forall (layer_wf (kv (c_obj (w_state w))) dk) ms.*2) as Hok.
  { intros dk ms Hin. split; [by eapply group_layers_nodup|]. apply Forall_forall.
    intros l ([i l'] & -> & Hi)%list_elem_of_fmap. apply ready_layer. exact (Forall_lookup_1 _ _ _ _ Hready (Hkey _ _ _ _ Hin Hi)). }
  destruct (exec_loads _ _ (omap id) same_store _ _ _ _ (λ g t, group_call_ok order (w_state w) g t Hok) es w b eq_refl Henv Hex)
    as [Hb [Hs Hl Hfit He Hn Hd]].
  split; [done|]. split; [done|]. split; [done|]. intros Hf.
  destruct (in_positions_spec _ _ _ _ Hb Hf) as [Hlen Hp].
  destruct (misses [] _ _ He Hp) as (gots & Hres & Hlo & Ho). exists gots. split; [done|].
  destruct (scatter_inv (zip order gots) (replicate (length keys) None)) as [Hsl Hsi].
  assert (∀ i m, scatter (replicate (length keys) None) (zip order gots) !! i = Some (Some m) →
    ∃ g dk ms got k l, order !! g = Some (dk, ms) ∧ (g, Ok got) ∈ b_done b ∧ ms !! k = Some (i, l) ∧ got !! k = Some (Some m)) as Hinv.
  { intros i m [Hbad|(g & dk & ms & got & k & l & Hz & Hms & Hgot)]%Hsi; [by apply lookup_replicate in Hbad as [? _]|].
    apply lookup_zip_with_Some in Hz as (x & y & [= <- <-] & Hx & Hy). exists g, dk, ms, got, k, l.
    destruct (Ho g got Hy) as [?|Hnil]; [done|]. by rw Hnil in Hgot. }
  split; [by rw Hsl length_replicate|]. split.
  - intros i m (g & dk & ms & got & k & l & Hg' & Hgd & Hms & Hgot)%Hinv.
    destruct (Hfit g got m Hgd) as (Hno & o & Hlv & Hfits); [by apply omap_id_elem; exists k|].
    destruct (Hfits k Hgot) as (dk' & ms' & i' & l' & Hg2 & Hms2 & Hc). simplify_eq.
    assert ((_raw_addr <$> keys) !! i = Some (dk, Some l)) as Ha by (eapply Hkey; by eapply list_elem_of_lookup_2).
    rw list_lookup_fmap in Ha. destruct (keys !! i) as [key|] eqn:Hk; [|done].
    exists key, o. assert (_raw_addr key = (dk, Some l)) as -> by (simpl in Ha; congruence). done.
  - intros i j m (g & dk & ms & got & k & l & Hg1 & Hd1 & Hms1 & Hgot1)%Hinv
      (g' & dk' & ms' & got' & k' & l' & Hg2 & Hd2 & Hms2 & Hgot2)%Hinv.
    assert (g = g') as <- by (eapply (Hd g g' got got' m); [done..|by apply omap_id_elem; exists k|by apply omap_id_elem; exists k']).
    apply Hp in Hd1 as Hp1. apply Hp in Hd2 as Hp2. simplify_eq.
    assert (k = k') as <- by (eapply omap_id_nodup; [by eapply Hn|done..]). by simplify_eq.
Qed.

(** C11: on the object API, too, a batched load is right under every
    interleaving, in both forms: one call per key, or one folded call per
    chunk with its results scattered to the positions of the chunk's layers.
    It returns one entry per key; an object at position [i] is a new copy of
    the complete object stored under the key at position [i], and no two
    positions share one; the store is unchanged, no live memory object is
    touched, and the pool's counter is what others have made of it.  It raises
    nothing but DaosPoolWedged, and that only if the batch, with what others
    submit meanwhile, can fill the pool. *)
Theorem raw_batched_get_any_order keys es w r w' :
  NoDup (_raw_addr <$> keys) → Forall (addr_ready (kv (c_obj (w_state w)))) (_raw_addr <$> keys) →
  env_ok (keeps_live same_store) es → batched_get_co _workers STALL_SECS cfg keys es w = Some (r, w') →
  same_store (w_state w) (w_state w') ∧ live (c_mem (w_state w)) ⊆ live (c_mem (w_state w')) ∧
  match r with
  | Ok out => right_batch keys (w_state w) (w_state w') out ∧ _inflight (w_io w') = _inflight (w_io w) + net es
  | Raise e => e = DaosPoolWedged ∧ _workers ≤ _inflight (w_io w) + joins es + len keys
  end.
Proof.
  intros Hnd Hready Henv Hco. rw /batched_get_co on_objects raw_groups in Hco.
  assert (length (default [] (_group_layers (_raw_addr <$> keys))) ≤ length keys)%nat as Hgl.
  { rw -raw_groups. etrans; [apply groups_bound|]. by rw length_fmap. }
  destruct (default [] (_group_layers (_raw_addr <$> keys))) as [|g0 gs] eqn:Hg.
  - destruct (exec _ _ es _) as [b|] eqn:Hex; [|done].
    destruct (single_batch_right keys es w b Hready Henv Hex) as (Hb & Hs & Hl & Hok).
    destruct (await_all b) as [r0|] eqn:Ha; [|done]. injection Hco as <- <-. split; [done|]. split; [done|].
    pose proof (bi_sent _ _ _ _ Hb) as Hsent. rw !length_fmap in Hsent.
    apply await_all_inv in Ha as [(e & He & ->)|(Hn & Ht & Hf & ->)]; simpl.
    { destruct (bi_raised _ _ _ _ Hb e He) as (-> & _ & Hw). split; [done|]. rw /len. simpl in Hw. lia. }
    destruct (Hok Hn Ht Hf) as (out & -> & Hout). split; [done|]. by rw (bi_count _ _ _ _ Hb) Hf /shift /alone_at /len Z.add_0_r.
  - assert (_group_layers (_raw_addr <$> keys) = Some (g0 :: gs)) as Hg'.
    { destruct (_group_layers _) as [g|]; [by simpl in Hg; subst g|done]. }
    destruct (exec _ _ es _) as [b|] eqn:Hex; [|done].
    destruct (folded_batch_right keys _ es w b Hnd Hready Hg' Henv Hex) as (Hb & Hs & Hl & Hok).
    destruct (await_all b) as [r0|] eqn:Ha; [|done]. injection Hco as <- <-. split; [done|]. split; [done|].
    pose proof (bi_sent _ _ _ _ Hb) as Hsent. rw length_fmap in Hsent.
    apply await_all_inv in Ha as [(e & He & ->)|(Hn & Ht & Hf & ->)]; simpl.
    { destruct (bi_raised _ _ _ _ Hb e He) as (-> & _ & Hw). split; [done|]. rw /len. simpl in Hw. lia. }
    destruct (Hok Hf) as (gots & -> & Hout). split; [done|]. by rw (bi_count _ _ _ _ Hb) Hf /shift /alone_at /len Z.add_0_r.
Qed.
End RawCalls.

(** Three layers of one chunk: its call returns after the clock has moved. *)
Lemma raw_batched_get_any_order_witness :
  let key l := mkKey (Some l) None "" [Some "c"%string] in
  let ks := [key 3; key 4; key 5] in
  let cfg := mkSettings true false false in
  let s := mkConn (c_dfs (DemoDfs.world ∅ [])) (MemObj.healthy (DemoFolded.chunk (dkey_for_str "c"))) (DemoDfs.mem 100) in
  let w := mkWorld 0 (mkPool 0 0) 0 s in
  ∃ w', batched_get_co 16 60 cfg ks [Enter; Elapse 1; Return 0] w = Some (Ok [Some 8; None; Some 9], w') ∧
    right_batch ks s (w_state w') [Some 8; None; Some 9].
Proof.
  intros key ks cfg s w.
  destruct (run_by_result (batched_get_co 16 60 cfg ks [Enter; Elapse 1; Return 0] w) (Ok [Some 8; None; Some 9]))
    as [w' E]; [vm_compute; reflexivity|].
  assert (NoDup (_raw_addr <$> ks)) as Hnd by (apply (bool_decide_unpack _); vm_compute; exact I).
  assert (∀ l, l = 3 ∨ l = 4 ∨ l = 5 →
    addr_ready (A := MemLM.mem) (kv (c_obj s)) (dkey_for_str "c", Some l)) as Hready.
  { intros l Hl. assert (layer_ok l) as Hlo by (rw /layer_ok /_MAX_LAYER; lia).
    assert (layer_wf (A := MemLM.mem) (kv (c_obj s)) (dkey_for_str "c") l) as (_ & Hs & Hm).
    { destruct Hl as [->|[->| ->]]; apply DemoFolded.layer_wf_by_lookup; try exact Hlo; vm_compute; auto. }
    exists (pak_of l), (mak_of l). split; [by apply layer_keys|]. split; [exact Hs|exact Hm]. }
  assert (Forall (addr_ready (A := MemLM.mem) (kv (c_obj (w_state w)))) (_raw_addr <$> ks)) as HF.
  { repeat (apply List.Forall_cons; [apply Hready; auto|]). apply List.Forall_nil. }
  assert (env_ok (keeps_live (D := MemDfs.mem) (O := MemObj.mem) (A := MemLM.mem) same_store) [Enter; Elapse 1; Return 0]) as Henv.
  { apply env_ok_Forall. env_tac I. }
  destruct (raw_batched_get_any_order 16 60 cfg eq_refl ks _ w _ w' Hnd HF Henv E) as (_ & _ & Hout).
  exists w'. destruct Hout as [Hout _]. exact (conj E Hout).
Defined.
