(* ===== verification/Streaming.v ===== *)
(** * Completion-ordered streaming: [streaming.py] and [stream_get]

    [stream_completions] is an async generator over a thread pool.  A future is
    named by the index it was submitted for.  What the event loop decides, the
    set of futures that are done at each wait and the order in which they are
    iterated, is a scheduler: a function of the step and of the pending
    indices.  Each element of the stream carries, beside index and result, the
    number of futures pending when it was yielded. *)
From S2P Require Import Prelude.
Open Scope Z_scope.
Open Scope py_scope.

Section Stream.
Context {X R : Type}.
Context (fn : X → res R) (items : list X) (max_inflight : Z).

Record st := mkSt { pending : list nat; next : nat; exhausted : bool }.

Definition submit_one (s : st) : st :=
  match items !! next s with
  | None => mkSt (pending s) (next s) true
  | Some _ => mkSt (pending s ++ [next s]) (S (next s)) (exhausted s)
  end.

(** [while len(pending) < max_inflight and not exhausted: submit_one()];
    [fuel] is one more than the items, which the proof shows is enough. *)
Fixpoint fill (fuel : nat) (s : st) : st :=
  match fuel with
  | O => s
  | S fuel =>
      if (len (pending s) <? max_inflight) && negb (exhausted s) then fill fuel (submit_one s) else s
  end.

(** What the future of index [i] resolves to. *)
Definition outcome (i : nat) : res R :=
  match items !! i with Some x => fn x | None => Raise OtherError end.

(** [except Exception]: any other raise comes out of the generator. *)
Definition stops (r : res R) : option exn :=
  match r with Raise e => if is_exception e then None else Some e | Ok _ => None end.

Definition pop_one (i : nat) (s : st) : st :=
  mkSt (list_difference (pending s) [i]) (next s) (exhausted s).
Definition refill (s : st) : st :=
  if negb (exhausted s) && (len (pending s) <? max_inflight) then submit_one s else s.

(** One iteration of [for fut in done]: an element, or the end of the
    generator, whose slot is not refilled. *)
Definition take_one (i : nat) (s : st) : st * (nat * res R * Z + exn) :=
  let s1 := pop_one i s in
  match stops (outcome i) with
  | Some e => (s1, inr e)
  | None => let s2 := refill s1 in (s2, inl (i, outcome i, len (pending s2)))
  end.

Fixpoint take_all (done : list nat) (s : st) : st * list (nat * res R * Z) * option exn :=
  match done with
  | [] => (s, [], None)
  | i :: done =>
      match take_one i s with
      | (s1, inr e) => (s1, [], Some e)
      | (s1, inl y) => let '(s2, ys, e) := take_all done s1 in (s2, y :: ys, e)
      end
  end.

(** [while pending: ...]: the elements, and the exception that ended the
    generator if one did; the outer [None] means the fuel ran out. *)
Fixpoint drain (fuel : nat) (sched : nat → list nat → list nat) (t : nat) (s : st)
  : option (list (nat * res R * Z) * option exn) :=
  match pending s with
  | [] => Some ([], None)
  | _ :: _ =>
      match fuel with
      | O => None
      | S fuel =>
          match take_all (sched t (pending s)) s with
          | (_, ys, Some e) => Some (ys, Some e)
          | (s', ys, None) =>
              match drain fuel sched (S t) s' with
              | Some (r, e) => Some (ys ++ r, e)
              | None => None
              end
          end
      end
  end.

Definition stream_completions (fuel : nat) (sched : nat → list nat → list nat)
  : res (option (list (nat * res R * Z) * option exn)) :=
  if max_inflight <? 1 then Raise ValueError else
  Ok (drain fuel sched 0 (fill (S (length items)) (mkSt [] 0 false))).

(** [stream_get]: an exception is a miss of that chunk; what ends the generator
    goes through [async for] to the consumer. *)
Definition stream_get (fuel : nat) (sched : nat → list nat → list nat)
  : res (option (list (nat * option R) * option exn)) :=
  let? r := stream_completions fuel sched in
  Ok (match r with
      | Some (ys, e) => Some ((λ y : nat * res R * Z,
          (y.1.1, match y.1.2 with Ok v => Some v | Raise _ => None end)) <$> ys, e)
      | None => None
      end).

(** ** Invariant *)

(** The event loop returns some futures that are pending, each once. *)
Definition fair (sched : nat → list nat → list nat) : Prop :=
  ∀ t p, NoDup p → p ≠ [] → sched t p ≠ [] ∧ NoDup (sched t p) ∧ sched t p ⊆ p.

Definition total : Z := len items.

(** [Y] has been yielded: every submitted index is pending or yielded, and as
    many are pending as the limit and the remaining items allow. *)
Record inv (Y : list nat) (s : st) : Prop := mkInv {
  inv_perm : pending s ++ Y ≡ₚ seq 0 (next s);
  inv_next : (next s ≤ length items)%nat;
  inv_full : len (pending s) = Z.min max_inflight (total - len Y);
  inv_exh : exhausted s = true → next s = length items;
}.

Lemma inv_nodup Y s : inv Y s → NoDup (pending s ++ Y).
Proof. intros [Hp _ _ _]. rw Hp. apply NoDup_seq. Qed.

Lemma inv_count Y s : inv Y s → Z.of_nat (next s) = len (pending s) + len Y.
Proof. intros [Hp _ _ _]. apply Permutation_length in Hp. rw length_app length_seq in Hp. rw /len. lia. Qed.

Lemma submit_next s : (next s < length items)%nat →
  submit_one s = mkSt (pending s ++ [next s]) (S (next s)) (exhausted s).
Proof. intros Hlt. rw /submit_one. destruct (lookup_lt_is_Some_2 items (next s) Hlt) as [x ->]. done. Qed.
Lemma submit_end s : (length items ≤ next s)%nat → submit_one s = mkSt (pending s) (next s) true.
Proof. intros Hge. rw /submit_one lookup_ge_None_2 //. Qed.

Lemma fill_inv fuel n e :
  (n ≤ length items)%nat → Z.of_nat n ≤ max_inflight → (e = true → n = length items) →
  (length items - n < fuel)%nat → inv [] (fill fuel (mkSt (seq 0 n) n e)).
Proof.
  revert n e. induction fuel as [|fuel IH]; intros n e Hn Hm He Hf; [lia|]. simpl.
  assert (len (seq 0 n) = Z.of_nat n) as Hl by (rw /len length_seq //). rw Hl.
  destruct e; simpl.
  - rw andb_false_r. specialize (He eq_refl). subst n. split; simpl; [by rw app_nil_r|done| |done].
    rw Hl /total /len /=. rw /len in Hm. lia.
  - destruct (Z.ltb_spec (Z.of_nat n) max_inflight) as [Hlt|Hge]; simpl.
    + destruct (decide (n < length items)%nat) as [Hi|Hi].
      * rw submit_next //=. replace (seq 0 n ++ [n]) with (seq 0 (S n)) by by rw seq_S.
        apply IH; try lia; done.
      * rw submit_end /=; [lia|]. destruct fuel; simpl; rw ?andb_false_r;
          (split; simpl; [by rw app_nil_r|lia|rw Hl /total /len /=; lia|lia]).
    + split; simpl; [by rw app_nil_r|done| |done]. rw Hl /total /len /=. lia.
Qed.

Lemma list_difference_perm (l : list nat) i : NoDup l → i ∈ l → l ≡ₚ i :: list_difference l [i].
Proof.
  intros Hnd Hi. apply NoDup_Permutation; [done| |].
  - constructor; [|by apply NoDup_list_difference]. rw list_elem_of_difference. set_solver.
  - intros x. rw elem_of_cons list_elem_of_difference list_elem_of_singleton. split; [|naive_solver].
    intros Hx. destruct (decide (x = i)); [by left|by right].
Qed.

(** One element: taken from the pending ones, its slot refilled first. *)
Lemma refill_inv Y s i s' :
  inv Y s → i ∈ pending s → refill (pop_one i s) = s' →
  inv (i :: Y) s' ∧ len (pending s') = Z.min max_inflight (total - len Y - 1) ∧
  (∀ j, j ∈ pending s → j ≠ i → j ∈ pending s').
Proof.
  intros Hi Hin. pose proof (inv_nodup _ _ Hi) as Hnd. pose proof (inv_count _ _ Hi) as Hcnt.
  destruct Hi as [Hp Hn Hf He]. apply NoDup_app in Hnd as (Hnd & _ & _).
  rw /refill /pop_one /=. set (l := list_difference (pending s) [i]).
  assert (pending s ≡ₚ i :: l) as Hperm by by apply list_difference_perm.
  assert (len (pending s) = len l + 1) as Hlen.
  { apply Permutation_length in Hperm. rw /len Hperm /=. lia. }
  assert (l ++ i :: Y ≡ₚ seq 0 (next s)) as Hp'.
  { rw -Hp Hperm. by rw -Permutation_middle. }
  assert (∀ j, j ∈ pending s → j ≠ i → j ∈ l) as Hkeep.
  { intros j Hj Hji. rw /l list_elem_of_difference list_elem_of_singleton. done. }
  assert (len (i :: Y) = len Y + 1) as HlY by (rw /len /=; lia).
  assert (len (pending s) ≤ max_inflight) as Hle by lia.
  destruct (exhausted s) eqn:Ee; simpl.
  - intros <-. specialize (He eq_refl).
    assert (len l = Z.min max_inflight (total - len Y - 1)) as Hl by (rw /total /len in Hcnt |- *; rw /len in Hlen, Hle; lia).
    split; [|by rw Hl]. split; simpl; try done. rw HlY Hl. lia.
  - destruct (Z.ltb_spec (len l) max_inflight) as [Hlt|]; [|lia]. simpl.
    destruct (decide (next s < length items)%nat) as [Hlt'|Hge].
    + rw submit_next //=. intros <-.
      assert (len (l ++ [next s]) = len l + 1) as Hl1 by (rw len_app //).
      assert (len l + 1 = Z.min max_inflight (total - len Y - 1)) as Hl by (rw /total; rw /len in Hcnt, Hf |- *; rw /total /len in Hf; rw /len in Hlen, Hle, Hlt; lia).
      split; [|split; [by rw Hl1 Hl|intros j Hj Hji; apply elem_of_app; left; auto]].
      split; cbn [pending next exhausted]; try done; [|rw Hl1 HlY; lia].
      rw seq_S /= -Hp' -!app_assoc.
      apply Permutation_app_head, (Permutation_app_comm [next s] (i :: Y)).
    + rw submit_end /=; [lia|]. intros <-.
      assert (len l = Z.min max_inflight (total - len Y - 1)) as Hl by (rw /total /len in Hcnt |- *; rw /len in Hlen, Hle; lia).
      split; [|by rw Hl]. split; simpl; try done; [rw HlY Hl; lia|lia].
Qed.

(** The elements [ys] continue a stream that has yielded [n] of them. *)
Definition good (n : Z) (ys : list (nat * res R * Z)) : Prop :=
  ∀ k i r c, ys !! k = Some (i, r, c) →
    r = outcome i ∧ stops r = None ∧ c = Z.min max_inflight (total - n - Z.of_nat k - 1).

Lemma good_nil n : good n [].
Proof. intros k i r c Hk. by rw lookup_nil in Hk. Qed.

Lemma good_app n ys zs : good n ys → good (n + len ys) zs → good n (ys ++ zs).
Proof.
  intros Hy Hz k i r c Hk. apply lookup_app_Some in Hk as [Hk|[Hl Hk]]; [by eapply Hy|].
  destruct (Hz _ _ _ _ Hk) as (-> & Hs & ->). split; [done|]. split; [done|]. rw /len. f_equal. lia.
Qed.

(** The indices of the elements of a round in which [done] is iterated: all of
    them, or those before the one that ends the generator. *)
Definition iterated (done idx : list nat) (e : option exn) : Prop :=
  match e with
  | None => idx = done
  | Some e => ∃ i, (idx ++ [i]) `prefix_of` done ∧ stops (outcome i) = Some e
  end.

Lemma take_all_inv done Y s s' ys e :
  inv Y s → NoDup done → done ⊆ pending s → take_all done s = (s', ys, e) →
  (e = None → inv (reverse done ++ Y) s') ∧ iterated done ((λ y, y.1.1) <$> ys) e ∧ good (len Y) ys.
Proof.
  revert Y s s' ys. induction done as [|i done IH]; intros Y s s' ys Hi Hnd Hsub; cbn [take_all].
  { intros [= <- <- <-]. split; [done|]. split; [done|apply good_nil]. }
  rw /take_one. destruct (stops (outcome i)) as [e1|] eqn:Es.
  { intros [= <- <- <-]. split; [done|]. split; [|apply good_nil]. exists i. split; [|done]. by exists done. }
  apply NoDup_cons in Hnd as [Hni Hnd].
  destruct (refill_inv Y s i _ Hi ltac:(apply Hsub; set_solver) eq_refl) as (Hi1 & Hl & Hkeep).
  destruct (take_all done (refill (pop_one i s))) as [[s2 zs] e2] eqn:E2. intros [= <- <- <-].
  apply (IH (i :: Y)) in E2 as (Hi2 & Hidx & Hg); [|done|done|].
  2:{ intros j Hj. apply Hkeep; [apply Hsub; set_solver|]. intros ->. done. }
  split; [by rw reverse_cons -app_assoc|]. split.
  { destruct e2 as [e2|]; simpl in *; [|by f_equal]. destruct Hidx as (j & Hj & Hs).
    exists j. split; [by apply prefix_cons|done]. }
  apply (good_app _ [_]).
  - intros [|k] i' r c Hk; [|done]. injection Hk as <- <- <-. split; [done|]. split; [done|]. rw Hl. f_equal. lia.
  - replace (len Y + len [_]) with (len (i :: Y)); [done|]. rw /len /=. lia.
Qed.

(** How the generator ends, when [Y] has been yielded and [idx] comes: with
    every item, or with the item that raised. *)
Definition ended (Y idx : list nat) (e : option exn) : Prop :=
  NoDup (Y ++ idx) ∧ (∀ i, i ∈ idx → (i < length items)%nat) ∧
  match e with
  | None => Y ++ idx ≡ₚ seq 0 (length items)
  | Some e => ∃ i, (i < length items)%nat ∧ (i ∉ Y ++ idx) ∧ stops (outcome i) = Some e
  end.

Lemma ended_raise Y s done idx e :
  inv Y s → NoDup done → done ⊆ pending s → iterated done idx (Some e) → ended Y idx (Some e).
Proof.
  intros Hi Hnd Hsub (i & [k ->] & Hs). pose proof (inv_nodup _ _ Hi) as Hndp. destruct Hi as [Hp Hn _ _].
  apply NoDup_app in Hndp as (_ & Hdis & HndY). apply NoDup_app in Hnd as (Hnd & _ & _).
  assert (∀ j, j ∈ idx ++ [i] → j ∈ pending s) as Hin by (intros j Hj; apply Hsub, elem_of_app; by left).
  assert (∀ j, j ∈ pending s → (j < length items)%nat) as Hlt.
  { intros j Hj. assert (j ∈ seq 0 (next s)) as Hj'%elem_of_seq; [|lia]. rw -Hp. apply elem_of_app. by left. }
  assert (NoDup (Y ++ idx ++ [i])) as Hall.
  { apply NoDup_app. split; [done|]. split; [|done]. intros j Hj Hj'. by eapply Hdis, Hj; apply Hin. }
  rw app_assoc in Hall. apply NoDup_app in Hall as (Hall & Hni & _). split; [done|]. split.
  - intros j Hj. apply Hlt, Hin, elem_of_app. by left.
  - exists i. split; [apply Hlt, Hin, elem_of_app; right; by left|]. split; [|done].
    intros Hj. apply (Hni i Hj). by left.
Qed.

Lemma ended_all Y s : 1 ≤ max_inflight → inv Y s → pending s = [] → ended Y [] None.
Proof.
  intros Hmax Hi Ep. pose proof (inv_nodup _ _ Hi) as Hnd. pose proof (inv_count _ _ Hi) as Hcnt.
  destruct Hi as [Hp Hn Hf _]. rw Ep /= in Hp, Hnd, Hf, Hcnt. split; [by rw app_nil_r|].
  split; [by intros i ?%elem_of_nil|]. rw app_nil_r Hp. f_equiv. rw /total /len in Hf, Hcnt. simpl in *. lia.
Qed.

Lemma drain_inv fuel sched t Y s :
  1 ≤ max_inflight → fair sched → inv Y s → (length items - length Y ≤ fuel)%nat →
  ∃ ys e, drain fuel sched t s = Some (ys, e) ∧ ended Y ((λ y, y.1.1) <$> ys) e ∧ good (len Y) ys.
Proof.
  intros Hmax Hfair. revert t Y s. induction fuel as [|fuel IH]; intros t Y s Hi Hf;
    simpl; destruct (pending s) as [|i p] eqn:Ep.
  1,3: exists [], None; split; [done|]; split; [by eapply ended_all|apply good_nil].
  { exfalso. pose proof (inv_count _ _ Hi) as Hcnt. destruct Hi as [_ Hn Hfull _].
    rw Ep /total /len /= in Hfull, Hcnt. lia. }
  rw -Ep. pose proof (inv_nodup _ _ Hi) as (Hnd & _ & _)%NoDup_app.
  destruct (Hfair t (pending s) Hnd) as (Hne & Hnds & Hsub); [by rw Ep|].
  destruct (take_all (sched t (pending s)) s) as [[s' ys] e] eqn:Et.
  apply (take_all_inv _ Y) in Et as (Hi' & Hidx & Hg); [|done|done|done]. destruct e as [e|].
  { exists ys, (Some e). split; [done|]. split; [|done]. by eapply ended_raise. }
  simpl in Hidx. specialize (Hi' eq_refl).
  destruct (IH (S t) (reverse (sched t (pending s)) ++ Y) s' Hi') as (zs & e & Hzs & Hend & Hgz).
  { rw length_app length_reverse. destruct (sched t (pending s)); [done|]. simpl. lia. }
  rw Hzs. exists (ys ++ zs), e. split; [done|]. rw fmap_app Hidx. split.
  - assert (reverse (sched t (pending s)) ++ Y ≡ₚ Y ++ sched t (pending s)) as Hp
      by by rw reverse_Permutation Permutation_app_comm.
    pose proof Hi' as Hi2. destruct Hend as (Hnd2 & Hlt & He). rw /ended app_assoc. split; [by rw -Hp|]. split.
    + intros j [Hj|Hj]%elem_of_app; [|by apply Hlt]. destruct Hi as [Hp0 Hn _ _].
      assert (j ∈ seq 0 (next s)) as Hj'%elem_of_seq; [|lia]. rw -Hp0. apply elem_of_app. left. by apply Hsub.
    + destruct e as [e|]; [|by rw -Hp]. destruct He as (j & Hj & Hnj & Hs). exists j. split; [done|]. by rw -Hp.
  - apply good_app; [done|]. replace (len Y + len ys) with (len (reverse (sched t (pending s)) ++ Y)); [done|].
    rw /len length_app length_reverse -(length_fmap (λ y : nat * res R * Z, y.1.1) ys) Hidx. lia.
Qed.
End Stream.

(** ** Properties *)

(** C14: for every order in which the futures complete, the stream comes to an
    end, and yields no index twice; each element has the result of its own item,
    or the [Exception] it raised, which does not end the stream.  The stream
    ends after one element per item, unless an item that has not been yielded
    raised what [except Exception] lets through (SystemExit, KeyboardInterrupt):
    then that comes out of the generator.  When the element number [k] is
    yielded its slot has already been refilled: exactly min(max_inflight, items
    left) futures are pending, never more than max_inflight.  A limit below one
    is refused. *)
Theorem stream_yields_each_index_once {X R} (fn : X → res R) items max_inflight sched :
  fair sched →
  if max_inflight <? 1
  then stream_completions fn items max_inflight (length items) sched = Raise ValueError
  else ∃ ys end_, stream_completions fn items max_inflight (length items) sched = Ok (Some (ys, end_)) ∧
    NoDup ((λ y, y.1.1) <$> ys) ∧
    (∀ k i r c, ys !! k = Some (i, r, c) →
      (∃ x, items !! i = Some x ∧ r = fn x) ∧ stops r = None ∧
      c = Z.min max_inflight (len items - Z.of_nat k - 1)) ∧
    match end_ with
    | None => (λ y, y.1.1) <$> ys ≡ₚ seq 0 (length items)
    | Some e => is_exception e = false ∧
        ∃ i x, items !! i = Some x ∧ fn x = Raise e ∧ (i ∉ (λ y, y.1.1) <$> ys)
    end.
Proof.
  intros Hfair. rw /stream_completions. destruct (Z.ltb_spec max_inflight 1) as [|Hmax]; [done|].
  assert (inv items max_inflight [] (fill items max_inflight (S (length items)) (mkSt [] 0 false))) as Hinv.
  { apply (fill_inv items max_inflight _ 0 false); [lia|lia|done|lia]. }
  destruct (drain_inv fn items max_inflight (length items) sched 0 [] _ Hmax Hfair Hinv)
    as (ys & e & -> & (Hnd & Hlt & He) & Hg); [simpl; lia|].
  assert (∀ i, (i < length items)%nat → ∃ x, items !! i = Some x ∧ outcome fn items i = fn x) as Hout.
  { intros i [x Hx]%lookup_lt_is_Some_2. exists x. by rw /outcome Hx. }
  exists ys, e. split; [done|]. split; [done|]. split.
  - intros k i r c Hk. destruct (Hg _ _ _ _ Hk) as (-> & Hs & ->).
    split; [|split; [done|rw /total /len /=; f_equal; lia]].
    destruct (Hout i) as (x & Hx & ->); [|by exists x].
    apply Hlt, list_elem_of_fmap. eexists. split; [|by eapply list_elem_of_lookup_2]. done.
  - destruct e as [e|]; [|done]. destruct He as (i & (x & Hx & Ho)%Hout & Hni & Hs). rw Ho in Hs.
    rw /stops in Hs. destruct (fn x) as [|e'] eqn:Ef; [done|]. destruct (is_exception e') eqn:Ee; [done|].
    injection Hs as ->. split; [done|]. exists i, x. done.
Qed.

(** Completions in reverse order, two at a time at most; the load of the third
    item raises, and the stream goes on. *)
Lemma stream_yields_each_index_once_witness :
  ∃ ys, stream_completions (λ x : Z, if x =? 3 then Raise OtherError else Ok (x * 10)) [1; 2; 3; 4] 2 4
      (λ _ p, match rev p with i :: _ => [i] | [] => [] end) = Ok (Some (ys, None)) ∧
    (λ y, y.1.1) <$> ys ≡ₚ [0%nat; 1%nat; 2%nat; 3%nat].
Proof.
  pose proof (stream_yields_each_index_once
    (λ x : Z, if x =? 3 then Raise OtherError else Ok (x * 10)) [1; 2; 3; 4] 2
    (λ _ p, match rev p with i :: _ => [i] | [] => [] end)) as Hs.
  simpl in Hs. destruct Hs as (ys & e & Hy & _ & _ & He).
  { intros t p _ Hne. destruct (rev p) as [|i q] eqn:E.
    - apply (f_equal (@rev nat)) in E. rw rev_involutive in E. by destruct Hne.
    - split; [done|]. split; [apply NoDup_singleton|]. intros j ->%list_elem_of_singleton.
      apply list_elem_of_In, in_rev. rw E. by left. }
  assert (e = None) as -> by (vm_compute in Hy; congruence).
  exists ys. split; [exact Hy|exact He].
Defined.

(** A SystemExit in the second load ends the stream: the two that follow are
    never yielded. *)
Example system_exit_ends_the_stream :
  stream_completions (λ x : Z, if x =? 2 then Raise SystemExit else Ok (x * 10)) [1; 2; 3; 4] 2 4
    (λ _ p, match p with i :: _ => [i] | [] => [] end) =
  Ok (Some ([(0%nat, Ok 10, 2)], Some SystemExit)).
Proof. reflexivity. Qed.
