(* ===== verification/StreamLoads.v ===== *)
(** * The streaming load on the connector: [stream_get] of [connector.py]

    [Streaming] has the generator of [streaming.py] over calls that are
    functions of their item.  Here its calls are the connector's loads, which
    allocate: the threads run them one by one in any order ([Finish]), the
    generator takes a finished future, refills its slot and yields ([Take]),
    and the consumer may stop iterating at any time ([Close]), which leaves the
    futures that are pending to themselves.  The generator's own state and its
    step are those of [Streaming] ([st], [fill], [pop_one], [refill], [stops]). *)
From S2P Require Import Prelude Serde SerdeV3 DfsBinding ObjBinding Keys ConnBase ConnDfs ConnRaw FoldedLoad Connector WedgePool Batch BatchRaw Streaming.
Open Scope Z_scope.
Open Scope py_scope.

Inductive sevent (S : Type) :=
| Finish (i : nat)      (* a thread has run the call of index [i] *)
| Take (i : nat)        (* the generator processes that future and yields *)
| Close                 (* the consumer is gone *)
| Meanwhile (f : S → S).
Arguments Finish {S} _.
Arguments Take {S} _.
Arguments Close {S}.
Arguments Meanwhile {S} _.

Record stream (S : Type) := mkStream {
  g_state : S; g_gen : st;
  g_done : list (nat * res (option Z));    (* what the calls have returned *)
  g_out : list (nat * option Z);           (* what has been yielded *)
  g_closed : bool }.
Arguments mkStream {S} _ _ _ _ _.
Arguments g_state {S} _.
Arguments g_gen {S} _.
Arguments g_done {S} _.
Arguments g_out {S} _.
Arguments g_closed {S} _.

Section Stream.
Context {S : Type} (calls : list (M S (option Z))) (max_inflight : Z).

(** [stream_get]: a chunk whose load raised is a miss. *)
Definition as_entry (r : res (option Z)) : option Z := match r with Ok x => x | Raise _ => None end.

Definition open_stream (s : S) : stream S :=
  mkStream s (fill calls max_inflight (Datatypes.S (length calls)) (mkSt [] 0 false)) [] [] false.

(** What [except Exception] lets through ends the generator, and its slot is
    not refilled. *)
Definition sstep (e : sevent S) (g : stream S) : option (stream S) :=
  match e with
  | Finish i =>
      if bool_decide (i ∈ pending (g_gen g) ∧ i ∉ (g_done g).*1) then
        match calls !! i with
        | Some t =>
            let '(r, s') := t (g_state g) in
            Some (mkStream s' (g_gen g) (g_done g ++ [(i, r)]) (g_out g) (g_closed g))
        | None => None
        end
      else None
  | Take i =>
      if g_closed g || negb (bool_decide (i ∈ pending (g_gen g))) then None else
      match (list_to_map (g_done g) : gmap nat (res (option Z))) !! i with
      | None => None
      | Some r =>
          let gen := pop_one i (g_gen g) in
          match stops r with
          | Some _ => Some (mkStream (g_state g) gen (g_done g) (g_out g) true)
          | None =>
              Some (mkStream (g_state g) (refill calls max_inflight gen) (g_done g)
                      (g_out g ++ [(i, as_entry r)]) (g_closed g))
          end
      end
  | Close => Some (mkStream (g_state g) (g_gen g) (g_done g) (g_out g) true)
  | Meanwhile f => Some (mkStream (f (g_state g)) (g_gen g) (g_done g) (g_out g) (g_closed g))
  end.

Fixpoint srun (es : list (sevent S)) (g : stream S) : option (stream S) :=
  match es with
  | [] => Some g
  | e :: es => match sstep e g with Some g' => srun es g' | None => None end
  end.

(** ** Invariant *)
Record sinv (g : stream S) : Prop := mkSinv {
  si_gen : g_closed g = false → inv calls max_inflight (reverse (g_out g).*1) (g_gen g);
  si_nodup : NoDup (pending (g_gen g) ++ (g_out g).*1);
  si_full : len (pending (g_gen g)) ≤ max_inflight;
  si_done : NoDup (g_done g).*1;
  si_out i x : (i, x) ∈ g_out g → ∃ r, (i, r) ∈ g_done g ∧ x = as_entry r;
  si_held i m : (i, Ok (Some m)) ∈ g_done g → (i, Some m) ∈ g_out g ∨ i ∈ pending (g_gen g);
}.

Lemma inv_sinv (g : stream S) : 1 ≤ max_inflight → inv calls max_inflight (reverse (g_out g).*1) (g_gen g) →
  NoDup (pending (g_gen g) ++ (g_out g).*1) ∧ len (pending (g_gen g)) ≤ max_inflight.
Proof.
  intros Hmax Hi. pose proof (inv_nodup _ _ _ _ Hi) as Hnd. split; [|rw (inv_full _ _ _ _ Hi); lia].
  by rw reverse_Permutation in Hnd.
Qed.

Lemma sinv_open s : 1 ≤ max_inflight → sinv (open_stream s).
Proof.
  intros Hmax. assert (inv calls max_inflight (reverse (g_out (open_stream s)).*1) (g_gen (open_stream s))) as Hi.
  { apply (fill_inv calls max_inflight _ 0 false); [lia|lia|done|lia]. }
  destruct (inv_sinv _ Hmax Hi) as [Hnd Hle].
  split; try done; [constructor|intros i x Hn|intros i m Hn]; by apply elem_of_nil in Hn.
Qed.

Lemma sinv_step e (g g' : stream S) : 1 ≤ max_inflight → sstep e g = Some g' → sinv g → sinv g'.
Proof.
  intros Hmax Hst Hg. pose proof Hg as [Hi Hnd Hle Hd Ho Hh]. destruct e as [i|i| |f]; rw /sstep in Hst.
  - case_bool_decide as Hc; [|done]. destruct Hc as [Hp Hn]. destruct (calls !! i) as [t|]; [|done].
    destruct (t (g_state g)) as [r s']. injection Hst as <-. split; simpl; try done.
    + rw fmap_app. apply NoDup_app. split; [done|]. split; [|apply NoDup_singleton].
      intros j Hj ->%list_elem_of_singleton. done.
    + intros j x Hj. destruct (Ho j x Hj) as (r' & ? & ?). exists r'. split; [|done]. apply elem_of_app. by left.
    + intros j m' [Hj|[= -> <-]%list_elem_of_singleton]%elem_of_app; [by apply Hh|by right].
  - destruct (g_closed g) eqn:Ec; [done|]. case_bool_decide as Hp; [|done]. cbn [orb negb] in Hst.
    destruct (list_to_map (g_done g) !! i) as [r|] eqn:Hr; [|done].
    apply elem_of_list_to_map in Hr; [|done].
    assert (∀ j m, (j, Ok (Some m)) ∈ g_done g → j = i → r = Ok (Some m)) as Huniq.
    { intros j m Hj ->. apply (elem_of_list_to_map (M := gmap nat)) in Hj, Hr; [|done..]. congruence. }
    pose proof (list_difference_perm (pending (g_gen g)) i) as Hperm.
    destruct (stops r) as [e|] eqn:Eb.
    + injection Hst as <-. apply NoDup_app in Hnd as (Hn1 & Hn2 & Hn3). specialize (Hperm Hn1 Hp).
      split; simpl; try done.
      * apply NoDup_app. split; [by apply NoDup_list_difference|]. split; [|done].
        intros j (Hj & _)%list_elem_of_difference. by apply Hn2.
      * apply Permutation_length in Hperm. rw /len in Hle |- *. simpl in Hperm. lia.
      * intros j m Hj. destruct (Hh j m Hj) as [?|Hjp]; [by left|]. right.
        apply list_elem_of_difference. split; [done|]. intros ->%list_elem_of_singleton.
        by rw (Huniq i m Hj eq_refl) in Eb.
    + destruct (refill_inv _ _ _ _ _ _ (Hi eq_refl) Hp eq_refl) as (Hi' & _ & Hkeep).
      set (gen' := refill calls max_inflight (pop_one i (g_gen g))) in *.
      assert (reverse (g_out g ++ [(i, as_entry r)]).*1 = i :: reverse (g_out g).*1) as Hrev
        by by rw fmap_app reverse_app.
      rw -Hrev in Hi'. set (g1 := mkStream (g_state g) gen' (g_done g) (g_out g ++ [(i, as_entry r)]) false).
      destruct (inv_sinv g1 Hmax Hi') as [Hnd' Hle']. injection Hst as <-. split; [intros _; exact Hi'|exact Hnd'|exact Hle'|exact Hd| |].
      * intros j x [Hj|[= -> ->]%list_elem_of_singleton]%elem_of_app; [by apply Ho|by exists r].
      * intros j m Hj. destruct (decide (j = i)) as [->|Hne].
        { left. rw (Huniq i m Hj eq_refl). apply elem_of_app. right. by left. }
        destruct (Hh j m Hj) as [?|Hjp]; [left; apply elem_of_app; by left|right; by apply Hkeep].
  - injection Hst as <-. by split.
  - injection Hst as <-. by split.
Qed.

Lemma srun_sinv es (g g' : stream S) : 1 ≤ max_inflight → srun es g = Some g' → sinv g → sinv g'.
Proof.
  intros Hmax. revert g. induction es as [|e es IH]; intros g; simpl; [by intros [= <-]|].
  destruct (sstep e g) as [g1|] eqn:Hst; [|done]. eauto using sinv_step.
Qed.

(** What the calls keep ([I], of the results so far and of the state), and the
    rest of the process ([ok]), holds after every history. *)
Definition senv_ok (ok : (S → S) → Prop) (es : list (sevent S)) : Prop := ∀ f, Meanwhile f ∈ es → ok f.

Lemma srun_rule (ok : (S → S) → Prop) (I : list (nat * res (option Z)) → S → Prop) es (g g' : stream S) :
  (∀ L s f, I L s → ok f → I L (f s)) →
  (∀ L s i t r s', I L s → calls !! i = Some t → t s = (r, s') → I (L ++ [(i, r)]) s') →
  senv_ok ok es → srun es g = Some g' → I (g_done g) (g_state g) → I (g_done g') (g_state g').
Proof.
  intros Henv Hcall. revert g. induction es as [|e es IH]; intros g Hok; simpl; [by intros [= <-]|].
  destruct (sstep e g) as [g1|] eqn:Hst; [|done]. intros Hrun HI. apply (IH g1); [|done|].
  { intros f Hf. apply Hok. by right. }
  destruct e as [i|i| |f]; rw /sstep in Hst.
  - case_bool_decide; [|done]. destruct (calls !! i) as [t|] eqn:Ht; [|done].
    destruct (t (g_state g)) as [r s'] eqn:Hr. injection Hst as <-. eauto.
  - destruct (_ || _); [done|]. destruct (_ !! i) as [r|]; [|done].
    destruct (stops r); by injection Hst as <-.
  - by injection Hst as <-.
  - injection Hst as <-. apply Henv; [done|]. apply Hok. by left.
Qed.

(** ** The end of the stream *)

Lemma open_pending g : sinv g → g_closed g = false →
  ∀ i, i ∈ pending (g_gen g) → is_Some (calls !! i) ∧ (length (g_out g) < length calls)%nat.
Proof.
  intros Hg Hc i Hi. destruct (si_gen _ Hg Hc) as [Hp Hn _ _]. split.
  - apply lookup_lt_is_Some_2. assert (i ∈ seq 0 (next (g_gen g))) as Hs%elem_of_seq; [|lia].
    rw -Hp. apply elem_of_app. by left.
  - apply Permutation_length in Hp. rw length_app length_reverse length_fmap length_seq in Hp.
    destruct (pending (g_gen g)); [by apply elem_of_nil in Hi|]. simpl in Hp. lia.
Qed.

Lemma stream_complete g : 1 ≤ max_inflight → sinv g → g_closed g = false → pending (g_gen g) = [] →
  (g_out g).*1 ≡ₚ seq 0 (length calls).
Proof.
  intros Hmax Hg Hc Hn. destruct (si_gen _ Hg Hc) as [Hp Hx Hf _]. rw Hn /= in Hp, Hf.
  rw reverse_Permutation in Hp. rw Hp. f_equiv. apply Permutation_length in Hp.
  rw /total /len length_reverse !length_fmap /= in Hf. rw length_fmap length_seq in Hp. lia.
Qed.

(** The events of the pool and of a consumer that reads on: nobody leaves. *)
Definition reads_on (e : sevent S) : Prop := match e with Finish _ | Take _ => True | _ => False end.

(** What closes the generator under a consumer that reads on: a load. *)
Definition stopped_by_a_load (g : stream S) : Prop :=
  g_closed g = true → ∃ i r e, (i, r) ∈ g_done g ∧ stops r = Some e.

(** One more element: the call of a pending future runs if it has not, and the
    generator takes it. *)
Lemma stream_advances g : 1 ≤ max_inflight → sinv g → g_closed g = false → pending (g_gen g) ≠ [] →
  ∃ es g', srun es g = Some g' ∧ Forall reads_on es ∧ stopped_by_a_load g' ∧
    (g_closed g' = false → length (g_out g') = Datatypes.S (length (g_out g))).
Proof.
  intros Hmax Hg Hc Hn. destruct (pending (g_gen g)) as [|i p] eqn:Hp; [done|]. clear Hn.
  assert (i ∈ pending (g_gen g)) as Hi by (rw Hp; by left).
  assert (∀ g1, sinv g1 → g_closed g1 = false → i ∈ pending (g_gen g1) → i ∈ (g_done g1).*1 →
    ∃ g2, srun [Take i] g1 = Some g2 ∧ stopped_by_a_load g2 ∧
      (g_closed g2 = false → length (g_out g2) = Datatypes.S (length (g_out g1)))) as Htake.
  { intros g1 Hg1 Hc1 Hi1 ([j r] & -> & Hr)%list_elem_of_fmap. simpl in Hi1. simpl srun. rw /sstep Hc1 /=.
    rw (bool_decide_eq_true_2 _ Hi1). cbn [negb]. pose proof Hr as Hlo.
    apply (elem_of_list_to_map (M := gmap nat)) in Hlo as ->; [|apply Hg1].
    destruct (stops r) as [e|] eqn:Es; (eexists; split; [done|]; split; [|try done]).
    - intros _. by exists j, r, e.
    - by rw /stopped_by_a_load /=.
    - intros _. rw /= length_app /=. lia. }
  destruct (decide (i ∈ (g_done g).*1)) as [Hd|Hd].
  { destruct (Htake g Hg Hc Hi Hd) as (g2 & Hrun & H2). exists [Take i], g2. split; [done|].
    split; [by repeat constructor|done]. }
  destruct (open_pending g Hg Hc i Hi) as [[t Ht] _]. destruct (t (g_state g)) as [r s'] eqn:Hr.
  set (g1 := mkStream s' (g_gen g) (g_done g ++ [(i, r)]) (g_out g) (g_closed g)).
  assert (sstep (Finish i) g = Some g1) as Hst by (rw /sstep bool_decide_eq_true_2 // Ht Hr //).
  destruct (Htake g1 (sinv_step _ _ _ Hmax Hst Hg) Hc Hi) as (g2 & Hrun & H2).
  { rw fmap_app. apply elem_of_app. right. by left. }
  exists [Finish i; Take i], g2. split; [|split; [by repeat constructor|done]].
  change (match sstep (Finish i) g with Some g' => srun [Take i] g' | None => None end = Some g2). by rw Hst.
Qed.

Lemma srun_app es1 es2 (g : stream S) : srun (es1 ++ es2) g = srun es1 g ≫= srun es2.
Proof. revert g. induction es1 as [|e es1 IH]; intros g; simpl; [done|]. by destruct (sstep e g). Qed.

Lemma stream_ends g : 1 ≤ max_inflight → sinv g → g_closed g = false →
  ∃ es g', srun es g = Some g' ∧ Forall reads_on es ∧ stopped_by_a_load g' ∧
    (g_closed g' = false → pending (g_gen g') = []).
Proof.
  intros Hmax. remember (length calls - length (g_out g))%nat as n eqn:Hn. revert g Hn.
  induction n as [n IH] using lt_wf_ind. intros g -> Hg Hc. destruct (pending (g_gen g)) as [|i p] eqn:Hp.
  { exists [], g. split_and!; [done|constructor| |done]. by rw /stopped_by_a_load Hc. }
  destruct (open_pending g Hg Hc i) as [_ Hlt]; [rw Hp; by left|].
  destruct (stream_advances g Hmax Hg Hc) as (es & g1 & Hrun & Hes & Hby & Hl1); [by rw Hp|].
  destruct (g_closed g1) eqn:Hc1; [exists es, g1; by rw Hc1|]. specialize (Hl1 eq_refl).
  destruct (IH (length calls - length (g_out g1))%nat ltac:(lia) g1 eq_refl) as (es2 & g2 & Hrun2 & Hes2 & H2);
    [by eapply srun_sinv|done|].
  exists (es ++ es2), g2. split; [by rw srun_app Hrun|]. split; [by apply Forall_app|done].
Qed.
End Stream.

(** ** The loads of the connector *)
Section Loads.
Context {D O A : Type} `{LibDfs D} `{LibDaosObj O} `{MetaCodec} `{!LocalCpu A}.
Abbreviation C := (conn D O A).

Definition stream_get_co (cfg : settings) (keys : list pykey) (max_inflight : Z) (s : C) : res (stream C) :=
  if max_inflight <? 1 then Raise ValueError else
  Ok (open_stream (_get_sync cfg <$> (_addr cfg <$> keys)) max_inflight s).

(** Every object the calls have filled has been yielded, once, or belongs to
    one of the pending calls. *)
Definition accounted (max_inflight : Z) (g : stream C) : Prop :=
  NoDup (g_out g).*1 ∧ len (pending (g_gen g)) ≤ max_inflight ∧
  ∀ i m, (i, Ok (Some m)) ∈ g_done g → (i, Some m) ∈ g_out g ∨ i ∈ pending (g_gen g).

(** A consumer that reads on, and nothing but the pool's threads and the
    generator running, gets an entry for every key; or the generator is ended by
    a load that raised what [except Exception] does not catch. *)
Definition can_finish (cfg : settings) (keys : list pykey) (max_inflight : Z) (g : stream C) : Prop :=
  let calls := _get_sync cfg <$> (_addr cfg <$> keys) in
  g_closed g = false → ∃ es g', srun calls max_inflight es g = Some g' ∧ Forall reads_on es ∧
    if g_closed g' then ∃ i e, (i, Raise e) ∈ g_done g' ∧ is_exception e = false
    else (g_out g').*1 ≡ₚ seq 0 (length keys).
End Loads.

Section Facts.
Context {D O A : Type} `{LibDfs D} `{LibDaosObj O} `{MetaCodec} `{!LocalCpu A} `{!LocalCpuLaws A}.
Abbreviation C := (conn D O A).
Context (cfg : settings) (keys : list pykey) (max_inflight : Z).
Abbreviation calls := (_get_sync cfg <$> (_addr cfg <$> keys) : list (M C (option Z))).

Lemma stream_accounted es (s : C) g0 g :
  stream_get_co cfg keys max_inflight s = Ok g0 → srun calls max_inflight es g0 = Some g →
  1 ≤ max_inflight ∧ sinv calls max_inflight g ∧ accounted max_inflight g ∧ can_finish cfg keys max_inflight g.
Proof.
  rw /stream_get_co. destruct (Z.ltb_spec max_inflight 1) as [|Hmax]; [done|]. intros [= <-] Hrun.
  pose proof (srun_sinv _ _ _ _ _ Hmax Hrun (sinv_open calls max_inflight s Hmax)) as Hg.
  split; [done|]. split; [done|]. split.
  { destruct Hg as [_ Hnd Hle _ _ Hh]. split; [|done]. by apply NoDup_app in Hnd as (_ & _ & ?). }
  intros Hc. destruct (stream_ends calls max_inflight g Hmax Hg Hc) as (es' & g' & Hrun' & Hes & Hby & He).
  exists es', g'. split; [done|]. split; [done|]. destruct (g_closed g') eqn:Hc'.
  - destruct (Hby Hc') as (i & [x|e] & e' & Hd & Hs); [done|]. exists i, e. split; [done|].
    rw /stops in Hs. by destruct (is_exception e).
  - rw (stream_complete calls max_inflight g' Hmax (srun_sinv _ _ _ _ _ Hmax Hrun' Hg) Hc' (He eq_refl)).
    by rw !length_fmap.
Qed.

Lemma stream_loads (sim : C → C → Prop) `{!PreOrder sim} fails fits es (s : C) g0 g :
  (∀ i t, calls !! i = Some t → call_ok option_list sim fails s fits i t) →
  senv_ok (keeps_live sim) es → stream_get_co cfg keys max_inflight s = Ok g0 →
  srun calls max_inflight es g0 = Some g →
  loads option_list sim fails s fits (g_done g) (g_state g).
Proof.
  intros Hok Henv Hopen Hrun. rw /stream_get_co in Hopen. destruct (_ <? _); [done|]. injection Hopen as <-.
  eapply (srun_rule _ _ (keeps_live sim) (loads option_list sim fails s fits)); [| |exact Henv|exact Hrun|].
  - intros L s' f HL Hf. by apply loads_env.
  - intros L s' i t r s2 HL Ht Ht'. by eapply loads_call.
  - split; try done; [intros i x m Hn|intros i e Hn|intros i x Hn|intros i j x y m Hn]; by apply elem_of_nil in Hn.
Qed.
End Facts.

Lemma yielded_loads {S} (calls : list (M S (option Z))) n (g : stream S) i m :
  sinv calls n g → (i, Some m) ∈ g_out g → (i, Ok (Some m)) ∈ g_done g.
Proof. intros Hg Hi. by destruct (si_out _ _ _ Hg _ _ Hi) as ([x|e] & Hd & [= <-]). Qed.

(** ** On a DFS container *)
Section OnDfs.
Context {D O A : Type} `{LibDfsLaws D} `{LibDaosObj O} `{MetaCodecLaws} `{!LocalCpu A} `{!LocalCpuLaws A}.
Context (cfg : settings).
Hypothesis on_dfs : _raw cfg = false.
Abbreviation C := (conn D O A).

(** C15: the streamed load is right after every history: whatever the order in
    which the threads run the loads and the generator takes them, whatever
    other loads do in between, and wherever the consumer stops.  No position
    is yielded twice; an object yielded for position [i] is a new complete copy
    of the object stored under the key at position [i], and no two positions
    share one; files and handles are unchanged and no live memory object is
    touched.  Every object that was filled is yielded or belongs to one of at
    most [max_inflight] pending loads, so that this bounds what an abandoned
    stream can lose.  From any such state an open stream can be read to its
    end by the threads and the generator alone: there is an entry for every
    key, or a load has raised what [except Exception] does not catch. *)
Theorem streamed_load_any_history (keys : list pykey) max_inflight es (s : C) g0 g :
  senv_ok (keeps_live same_files) es →
  stream_get_co cfg keys max_inflight s = Ok g0 →
  srun (_get_sync cfg <$> (_addr cfg <$> keys)) max_inflight es g0 = Some g →
  frame (c_dfs s) (c_dfs (g_state g)) ∧ live (c_mem s) ⊆ live (c_mem (g_state g)) ∧
  (∀ i m, (i, Some m) ∈ g_out g → ∃ key, keys !! i = Some key ∧ holds_copy key m s (g_state g)) ∧
  (∀ i j m, (i, Some m) ∈ g_out g → (j, Some m) ∈ g_out g → i = j) ∧
  accounted max_inflight g ∧ can_finish cfg keys max_inflight g.
Proof.
  intros Henv Hopen Hrun. destruct (stream_accounted _ _ _ _ _ _ _ Hopen Hrun) as (_ & Hg & Hacc & Hfin).
  pose proof (stream_loads _ _ _ same_files _ _ _ _ _ _ (get_call_ok cfg on_dfs keys s) Henv Hopen Hrun) as [Hf Hl Hc _ _ Hd].
  assert (∀ m : Z, m ∈ option_list (Some m)) as Hself by (intros m; by left).
  split; [done|]. split; [done|]. split; [|split; [|done]].
  - intros i m Hi%(yielded_loads _ _ _ _ _ Hg).
    destruct (Hc i _ m Hi (Hself m)) as (Hn0 & o & Hlo & key & c & md & p & rest & Hk & Hfs & Hdec & ->).
    exists key. split; [done|]. by exists c, md, p, rest.
  - intros i j m Hi%(yielded_loads _ _ _ _ _ Hg) Hj%(yielded_loads _ _ _ _ _ Hg). eauto.
Qed.
End OnDfs.

(** ** On the object API *)
Section OnRaw.
Context {D O A : Type} `{LibDfs D} `{LibDaosObjLaws O} `{MetaCodecLaws} `{!LocalCpu A} `{!LocalCpuLaws A}.
Context (cfg : settings).
Hypothesis on_objects : _raw cfg = true.
Abbreviation C := (conn D O A).

(** The same on an object container, for every store the connector can have
    made. *)
Theorem raw_streamed_load_any_history (keys : list pykey) max_inflight es (s : C) g0 g :
  Forall (addr_ready (kv (c_obj s))) (_raw_addr <$> keys) →
  senv_ok (keeps_live same_store) es →
  stream_get_co cfg keys max_inflight s = Ok g0 →
  srun (_get_sync cfg <$> (_addr cfg <$> keys)) max_inflight es g0 = Some g →
  same_store s (g_state g) ∧ live (c_mem s) ⊆ live (c_mem (g_state g)) ∧
  (∀ i m, (i, Some m) ∈ g_out g → right_object keys s (g_state g) i m) ∧
  (∀ i j m, (i, Some m) ∈ g_out g → (j, Some m) ∈ g_out g → i = j) ∧
  accounted max_inflight g ∧ can_finish cfg keys max_inflight g.
Proof.
  intros Hready Henv Hopen Hrun. destruct (stream_accounted _ _ _ _ _ _ _ Hopen Hrun) as (_ & Hg & Hacc & Hfin).
  assert (∀ i t, (_get_sync cfg <$> (_addr cfg <$> keys) : list (M C (option Z))) !! i = Some t →
    call_ok option_list same_store (λ e, is_exception e = true) s (fits_one (_raw_addr <$> keys) s) i t) as Hok.
  { intros i t. rw (raw_paths cfg on_objects) -list_fmap_compose. by apply one_call_ok. }
  pose proof (stream_loads _ _ _ same_store _ _ _ _ _ _ Hok Henv Hopen Hrun) as [Hf Hl Hc _ _ Hd].
  assert (∀ m : Z, m ∈ option_list (Some m)) as Hself by (intros m; by left).
  split; [done|]. split; [done|]. split; [|split; [|done]].
  - intros i m Hi%(yielded_loads _ _ _ _ _ Hg).
    destruct (Hc i _ m Hi (Hself m)) as (Hn0 & o & Hlo & a & Ha & Hcp).
    rw list_lookup_fmap in Ha. destruct (keys !! i) as [key|] eqn:Hk; [|done]. injection Ha as <-. by exists key, o.
  - intros i j m Hi%(yielded_loads _ _ _ _ _ Hg) Hj%(yielded_loads _ _ _ _ _ Hg). eauto.
Qed.
End OnRaw.

(** ** Concrete runs *)
Import DemoBatch.
Module DemoStream.
Definition keys : list pykey := [key "missing"%string; key "a"%string; key "a"%string].
Abbreviation loads_of := (_get_sync (cfg false) <$> (_addr (cfg false) <$> keys) : list (M DemoBatch.C (option Z))).
Definition run (es : list (sevent DemoBatch.C)) : option (list (nat * option Z) * list nat * nat) :=
  match stream_get_co (cfg false) keys 2 (w_state (start 0 one_file [])) with
  | Ok g0 => (λ g, (g_out g, pending (g_gen g), size (live (c_mem (g_state g))))) <$> srun loads_of 2 es g0
  | Raise _ => None
  end.
End DemoStream.
Import DemoStream.

(** Two loads at a time; the second returns first, and is yielded first. *)
Lemma streamed_load_any_history_witness :
  let s := w_state (start 0 one_file []) in
  let es := [Finish 1; Finish 0; Take 1; Finish 2; Meanwhile id; Take 2; Take 0] in
  ∃ g0 g, stream_get_co (cfg false) keys 2 s = Ok g0 ∧ srun loads_of 2 es g0 = Some g ∧
    g_out g = [(1%nat, Some 8); (2%nat, Some 9); (0%nat, None)] ∧ frame (c_dfs s) (c_dfs (g_state g)).
Proof.
  intros s es. destruct (stream_get_co (cfg false) keys 2 s) as [g0|e] eqn:Eo; [|vm_compute in Eo; discriminate].
  assert (g_out <$> srun loads_of 2 es g0 = Some [(1%nat, Some 8); (2%nat, Some 9); (0%nat, None)]) as E.
  { injection Eo as <-. vm_compute. reflexivity. }
  destruct (srun loads_of 2 es g0) as [g|] eqn:Er; [|discriminate]. injection E as E.
  assert (senv_ok (keeps_live (D := MemDfs.mem) (O := MemObj.mem) (A := MemLM.mem) same_files) es) as Henv.
  { intros f Hf. repeat (apply elem_of_cons in Hf as [Hf|Hf]; [try discriminate|]); [|by apply elem_of_nil in Hf].
    injection Hf as ->. intros s'. rw /same_files. split; reflexivity. }
  destruct (streamed_load_any_history (cfg false) eq_refl keys 2 es s g0 g Henv Eo Er) as (Hf & _).
  exists g0, g. exact (conj eq_refl (conj Er (conj E Hf))).
Defined.

(** A consumer that stops after the first chunk: the loads that are running
    fill two objects that nobody receives. *)
Lemma abandoned_stream_leaks_two_objects :
  run [Finish 0; Take 0; Close; Finish 1; Finish 2] = Some ([(0%nat, None)], [1%nat; 2%nat], 3%nat) ∧
  size (live (c_mem (w_state (start 0 one_file [])))) = 1%nat.
Proof. split; vm_compute; reflexivity. Qed.
