(* ===== verification/L2Config.v ===== *)
(** * MP adapter: object names and configuration ([mp/l2_adapter.py])

    [_key_to_name] as string functions, with the theorem of what a name
    identifies; [DaosL2AdapterConfig.from_dict] on a JSON dictionary, in which
    a Python [bool] is an [int], as it is for [isinstance]. *)
From Stdlib Require Import Ascii QArith.
From S2P Require Import Prelude Sha256 Keys.
Open Scope Z_scope.
Open Scope py_scope.

(** ** Names *)
Record ObjectKey := mkObjectKey {
  model_name : string; kv_rank : Z; object_group_id : Z; chunk_hash : bytes; cache_salt : string }.

#[export] Instance ObjectKey_eq_dec : EqDecision ObjectKey.
Proof. solve_decision. Defined.
#[export] Instance ObjectKey_countable : Countable ObjectKey.
Proof.
  refine (inj_countable' (λ k, (model_name k, kv_rank k, object_group_id k, chunk_hash k, cache_salt k))
    (λ '(m, r, g, h, s), mkObjectKey m r g h s) _). by intros [].
Defined.

Definition _SEP : ascii := "@".

(** [s.replace("/", "_")] *)
Fixpoint fold_slash (s : string) : string :=
  match s with
  | EmptyString => EmptyString
  | String c s => String (if bool_decide (c = "/"%char) then "_"%char else c) (fold_slash s)
  end.

(** [format(n, "x")]: digits from the least significant, [fuel] of them at most. *)
Fixpoint hex_digits (fuel : nat) (n : Z) (acc : string) : string :=
  match fuel with
  | O => acc
  | S fuel =>
      let acc := String (hex_digit (n mod 16)) acc in
      if n <? 16 then acc else hex_digits fuel (n / 16) acc
  end.
Definition hex_nat (n : Z) : string := hex_digits (S (Z.to_nat (Z.log2 n))) n EmptyString.
Definition hex_int (n : Z) : string := if n <? 0 then String "-" (hex_nat (- n)) else hex_nat n.
Fixpoint zero_pad (n : nat) (s : string) : string :=
  match n with O => s | S n => String "0" (zero_pad n s) end.
(** [format(n, "08x")] *)
Definition hex08 (n : Z) : string :=
  if n <? 0 then String "-" (zero_pad (7 - String.length (hex_nat (- n))) (hex_nat (- n)))
  else zero_pad (8 - String.length (hex_nat n)) (hex_nat n).

Definition sep (a b : string) : string := (a +:+ String _SEP b)%string.

Definition _key_to_name (key : ObjectKey) : string :=
  let model := fold_slash (model_name key) in
  let base := sep model (sep (hex08 (kv_rank key))
    (sep (hex_int (object_group_id key)) (hex_string (chunk_hash key)))) in
  if negb (bool_decide (cache_salt key = ""%string))
  then sep base (fold_slash (cache_salt key)) else base.

(** [_expected_bytes]: the shapes with the element size of each dtype, which
    torch supplies; [None] when torch does not know a dtype. *)
Definition prod_shape (shape : list Z) : Z := fold_right Z.mul 1 shape.
Fixpoint expected_sum (l : list (list Z * option Z)) : option Z :=
  match l with
  | [] => Some 0
  | (shape, Some sz) :: l =>
      match expected_sum l with Some t => Some (prod_shape shape * sz + t) | None => None end
  | (_, None) :: _ => None
  end.
Definition _expected_bytes {Dt} (element_size : Dt → option Z) (layout : option (list (list Z) * list Dt)) : option Z :=
  match layout with
  | None => None
  | Some (shapes, dtypes) => expected_sum (zip shapes (element_size <$> dtypes))
  end.

(** ** Configuration *)
Inductive jval := JStr (s : string) | JInt (n : Z) | JFloat (q : Q) | JBool (b : bool) | JNull | JOther.
Abbreviation jdict := (gmap string jval).

Record DaosL2AdapterConfig := mkCfg {
  cf_pool : string; cf_container : string; cf_sys : option string; cf_root : string; cf_workers : Z;
  cf_max_capacity_gb : Q; cf_verify_size : bool; cf_status_interval_s : Q; cf_task_workers : Z;
  cf_load_schedule : string; cf_probe_chunks : Z }.

(** [s.rstrip("/")] *)
Fixpoint rstrip_slash (s : string) : string :=
  match s with
  | EmptyString => EmptyString
  | String c s =>
      match rstrip_slash s with
      | EmptyString => if bool_decide (c = "/"%char) then EmptyString else String c EmptyString
      | s' => String c s'
      end
  end.

(** [DaosL2AdapterConfig.__init__] *)
Definition config_init (pool container : string) (sys : option string) (root : string) (workers : Z)
    (cap : Q) (verify : bool) (status : Q) (task_workers : Z) (sched : string) (probe : Z) : DaosL2AdapterConfig :=
  let root' := rstrip_slash root in
  mkCfg pool container sys (if bool_decide (root' = ""%string) then "/"%string else root') workers cap verify status
    task_workers sched probe.
(** The default of its [status_interval_s] parameter. *)
Definition init_status_interval_default : Q := 60.

Definition str_field (v : option jval) : res string :=
  match v with
  | Some (JStr s) => if bool_decide (s = ""%string) then Raise ValueError else Ok s
  | _ => Raise ValueError
  end.
Definition as_int (v : jval) : option Z :=
  match v with JInt n => Some n | JBool b => Some (if b then 1 else 0) | _ => None end.
Definition as_number (v : jval) : option Q :=
  match v with JFloat q => Some q | _ => match as_int v with Some n => Some (inject_Z n) | None => None end end.
Definition positive_int (v : jval) : res Z :=
  match as_int v with Some n => if n <=? 0 then Raise ValueError else Ok n | None => Raise ValueError end.
Definition nonneg_number (v : jval) : res Q :=
  match as_number v with
  | Some q => if Qnum q <? 0 then Raise ValueError else Ok q
  | None => Raise ValueError
  end.
Definition starts_with_slash (s : string) : bool :=
  match s with String c _ => bool_decide (c = "/"%char) | EmptyString => false end.

Section FromDict.
(** The sub-configuration parsers of the LMCache base class. *)
Context {Ev Pe Se : Type}
  (_parse_eviction_config : jdict → res Ev)
  (_parse_persist_config : jdict → res Pe)
  (_parse_serde_config : jdict → res Se).

Definition from_dict (d : jdict) : res (DaosL2AdapterConfig * (Ev * Pe * Se)) :=
  let? pool := str_field (d !! "pool"%string) in
  let? container := str_field (d !! "container"%string) in
  let? sysname := match default JNull (d !! "sys"%string) with
                  | JNull => Ok None
                  | JStr s => Ok (Some s)
                  | _ => Raise ValueError
                  end in
  let? root := match default (JStr "/mp") (d !! "root"%string) with
               | JStr s => if starts_with_slash s then Ok s else Raise ValueError
               | _ => Raise ValueError
               end in
  let? workers := positive_int (default (JInt 8) (d !! "workers"%string)) in
  let? cap := nonneg_number (default (JInt 0) (d !! "max_capacity_gb"%string)) in
  let? verify := match default (JBool true) (d !! "verify_size"%string) with
                 | JBool b => Ok b
                 | _ => Raise ValueError
                 end in
  let? status := nonneg_number (default (JInt 0) (d !! "status_interval_s"%string)) in
  let? task_workers := positive_int (default (JInt 32) (d !! "task_workers"%string)) in
  let? sched := match default (JStr "fifo") (d !! "load_schedule"%string) with
                | JStr s => if bool_decide (s = "fifo"%string ∨ s = "fair"%string) then Ok s else Raise ValueError
                | _ => Raise ValueError
                end in
  let? probe := match as_int (default (JInt 64) (d !! "probe_chunks"%string)) with
                | Some n => if n <? 0 then Raise ValueError else Ok n
                | None => Raise ValueError
                end in
  let cfg := config_init pool container sysname root workers cap verify status task_workers sched probe in
  let? ev := _parse_eviction_config d in
  let? pe := _parse_persist_config d in
  let? se := _parse_serde_config d in
  Ok (cfg, (ev, pe, se)).
End FromDict.

(** ** Names: lemmas *)
Lemma sep_inj a b c d :
  no_char _SEP a = true → no_char _SEP b = true → sep a c = sep b d → a = b ∧ c = d.
Proof.
  rw /sep. revert b. induction a as [|x a IH]; intros [|y b] Ha Hb Heq; cbn in Heq; injection Heq.
  - done.
  - intros _ <-. done.
  - intros _ ->. done.
  - intros Ht ->. apply andb_prop in Ha as [_ Ha], Hb as [_ Hb]. by destruct (IH b Ha Hb Ht) as [-> ->].
Qed.

Lemma sep_has_sep a b : no_char _SEP (sep a b) = false.
Proof. rw /sep no_char_app /=. apply andb_false_r. Qed.

Definition digit_val (c : ascii) : Z :=
  let n := Z.of_N (Ascii.N_of_ascii c) in if n <? 58 then n - 48 else n - 87.
Fixpoint unhex (acc : Z) (s : string) : Z :=
  match s with EmptyString => acc | String c s => unhex (acc * 16 + digit_val c) s end.

Lemma digit_val_hex d : 0 ≤ d < 16 → digit_val (hex_digit d) = d.
Proof.
  intros Hd. apply Z.eqb_eq. move: Hd.
  apply (forallb_seqZ (λ d, digit_val (hex_digit d) =? d)). vm_compute. reflexivity.
Qed.

Lemma unhex_digits fuel n acc :
  0 ≤ n < 16 ^ Z.of_nat fuel → unhex 0 (hex_digits fuel n acc) = unhex n acc.
Proof.
  revert n acc. induction fuel as [|fuel IH]; intros n acc Hn.
  { replace n with 0 by (simpl in Hn; lia). done. }
  cbn [hex_digits]. rw Nat2Z.inj_succ Z.pow_succ_r in Hn; [lia|].
  destruct (n <? 16) eqn:E; cbn [unhex].
  - rw digit_val_hex; [div_lia|]. f_equal. div_lia.
  - rw IH; [div_lia|]. cbn [unhex]. rw digit_val_hex; [div_lia|]. f_equal. div_lia.
Qed.

Lemma unhex_nat n : 0 ≤ n → unhex 0 (hex_nat n) = n.
Proof.
  intros Hn. rw /hex_nat unhex_digits //. split; [done|].
  destruct (decide (n = 0)) as [->|]; [done|].
  pose proof (Z.log2_spec n ltac:(lia)) as [_ Hlt]. pose proof (Z.log2_nonneg n).
  rw Nat2Z.inj_succ Z2Nat.id //. eapply Z.lt_le_trans; [exact Hlt|]. apply Z.pow_le_mono_l. lia.
Qed.

Lemma all_hex_digits fuel n acc :
  0 ≤ n → all_hex acc = true → all_hex (hex_digits fuel n acc) = true.
Proof.
  revert n acc. induction fuel as [|fuel IH]; intros n acc Hn Ha; [done|]. cbn [hex_digits].
  assert (all_hex (String (hex_digit (n mod 16)) acc) = true) as Hs.
  { cbn [all_hex]. rw hex_digit_is_hex; [div_lia|done]. }
  destruct (n <? 16); [done|]. apply IH; [div_lia|done].
Qed.
Lemma all_hex_nat n : 0 ≤ n → all_hex (hex_nat n) = true.
Proof. intros. by apply all_hex_digits. Qed.

Lemma unhex_zero_pad k s : unhex 0 (zero_pad k s) = unhex 0 s.
Proof. induction k as [|k IH]; [done|]. cbn [zero_pad unhex]. exact IH. Qed.
Lemma all_hex_zero_pad k s : all_hex (zero_pad k s) = all_hex s.
Proof. by induction k. Qed.

(** A signed hexadecimal number: a sign and digits that give the value back. *)
Definition signed_hex (n : Z) (s : string) : Prop :=
  if n <? 0 then ∃ t, s = String "-" t ∧ all_hex t = true ∧ unhex 0 t = - n
  else all_hex s = true ∧ unhex 0 s = n.

Lemma hex08_signed n : signed_hex n (hex08 n).
Proof.
  rw /signed_hex /hex08. destruct (n <? 0) eqn:E.
  - eexists. split; [done|]. split; [rw all_hex_zero_pad; apply all_hex_nat; lia | rw unhex_zero_pad; apply unhex_nat; lia].
  - split; [rw all_hex_zero_pad; apply all_hex_nat; lia | rw unhex_zero_pad; apply unhex_nat; lia].
Qed.
Lemma hex_int_signed n : signed_hex n (hex_int n).
Proof.
  rw /signed_hex /hex_int. destruct (n <? 0) eqn:E.
  - eexists. split; [done|]. split; [apply all_hex_nat; lia | apply unhex_nat; lia].
  - split; [apply all_hex_nat; lia | apply unhex_nat; lia].
Qed.

Lemma signed_hex_inj n m s : signed_hex n s → signed_hex m s → n = m.
Proof.
  rw /signed_hex. destruct (n <? 0) eqn:En, (m <? 0) eqn:Em; simpl.
  - intros (t & -> & _ & Ht) (t' & [= <-] & _ & Ht'). lia.
  - intros (t & -> & _) [Hh _]. done.
  - intros [Hh _] (t & -> & _). done.
  - intros [_ <-] [_ <-]. done.
Qed.

Lemma signed_hex_no_char c n s : is_hex c = false → c ≠ "-"%char → signed_hex n s → no_char c s = true.
Proof.
  rw /signed_hex. intros Hc Hd. destruct (n <? 0).
  - intros (t & -> & Ht & _). cbn [no_char]. by rw (all_hex_no_char c t) // bool_decide_false.
  - intros [Hh _]. by apply all_hex_no_char.
Qed.

Lemma fold_slash_no_slash s : no_char "/" (fold_slash s) = true.
Proof.
  induction s as [|c s IH]; [done|]. cbn [fold_slash no_char]. rw IH andb_true_r.
  destruct (decide (c = "/"%char)) as [->|Hc]; [done|]. by rw (bool_decide_false (c = "/"%char)) // bool_decide_false.
Qed.
Lemma fold_slash_no_at s : no_char _SEP (fold_slash s) = no_char _SEP s.
Proof.
  induction s as [|c s IH]; [done|]. cbn [fold_slash no_char]. rw IH. f_equal. f_equal.
  destruct (decide (c = "/"%char)) as [->|Hc]; [done|]. by rw (bool_decide_false (c = "/"%char)).
Qed.
Lemma fold_slash_empty s : fold_slash s = ""%string ↔ s = ""%string.
Proof. by destruct s. Qed.

(** The tail of a name: the hash and, when there is one, the salt. *)
Definition hash_salt (k : ObjectKey) : string :=
  if negb (bool_decide (cache_salt k = ""%string))
  then sep (hex_string (chunk_hash k)) (fold_slash (cache_salt k)) else hex_string (chunk_hash k).

Lemma sep_assoc a b c : sep (sep a b) c = sep a (sep b c).
Proof. rw /sep. induction a as [|x a IH]; [done|]. exact (f_equal (String x) IH). Qed.
Lemma name_parts k :
  _key_to_name k = sep (fold_slash (model_name k)) (sep (hex08 (kv_rank k))
    (sep (hex_int (object_group_id k)) (hash_salt k))).
Proof. rw /_key_to_name /hash_salt. case_bool_decide; cbn [negb]; by rw ?sep_assoc. Qed.

Lemma hash_salt_inj k1 k2 :
  hash_salt k1 = hash_salt k2 →
  chunk_hash k1 = chunk_hash k2 ∧ fold_slash (cache_salt k1) = fold_slash (cache_salt k2).
Proof.
  assert (∀ k, no_char _SEP (hex_string (chunk_hash k)) = true) as Hn.
  { intros k. apply all_hex_no_char; [done|apply all_hex_string]. }
  rw /hash_salt. case_bool_decide as E1; case_bool_decide as E2; cbn [negb]; intros Heq.
  - rw E1 E2. split; [by apply hex_string_inj|done].
  - exfalso. pose proof (Hn k1) as Hk. rw Heq sep_has_sep in Hk. done.
  - exfalso. pose proof (Hn k2) as Hk. rw -Heq sep_has_sep in Hk. done.
  - apply sep_inj in Heq as [Hh Hs]; [|done..]. split; [by apply hex_string_inj|done].
Qed.

Lemma no_char_sep c a b : c ≠ _SEP → no_char c (sep a b) = no_char c a && no_char c b.
Proof. intros Hc. rw /sep no_char_app. cbn [no_char]. by rw bool_decide_false. Qed.
Lemma hash_salt_no_slash k : no_char "/" (hash_salt k) = true.
Proof.
  assert (no_char "/" (hex_string (chunk_hash k)) = true) as Hh.
  { apply all_hex_no_char; [done|apply all_hex_string]. }
  rw /hash_salt. case_bool_decide; cbn [negb]; [done|]. by rw no_char_sep // Hh fold_slash_no_slash.
Qed.

Lemma name_congruence k1 k2 :
  fold_slash (model_name k1) = fold_slash (model_name k2) ∧
  kv_rank k1 = kv_rank k2 ∧ object_group_id k1 = object_group_id k2 ∧
  chunk_hash k1 = chunk_hash k2 ∧
  fold_slash (cache_salt k1) = fold_slash (cache_salt k2) → _key_to_name k1 = _key_to_name k2.
Proof.
  intros (Hm & Hr & Hg & Hh & Hs). rw !name_parts /hash_salt Hm Hr Hg Hh Hs.
  assert (cache_salt k1 = ""%string ↔ cache_salt k2 = ""%string) as Hiff 
    by (by rw -(fold_slash_empty (cache_salt k1)) -(fold_slash_empty (cache_salt k2)) Hs).
  by rw (bool_decide_ext _ _ Hiff).
Qed.

(** ** Configuration: lemmas *)
Fixpoint ends_with_slash (s : string) : bool :=
  match s with
  | EmptyString => false
  | String c EmptyString => bool_decide (c = "/"%char)
  | String _ s => ends_with_slash s
  end.

Lemma rstrip_slash_ends s : ends_with_slash (rstrip_slash s) = false.
Proof.
  induction s as [|c s IH]; [done|]. cbn [rstrip_slash].
  destruct (rstrip_slash s) as [|c' s'] eqn:E; [|done].
  case_bool_decide; [done|]. cbn. by rw bool_decide_false.
Qed.
Lemma rstrip_slash_starts s :
  starts_with_slash s = true → rstrip_slash s = ""%string ∨ starts_with_slash (rstrip_slash s) = true.
Proof.
  destruct s as [|c s]; [done|]. cbn. intros Hc. destruct (rstrip_slash s); [|by right].
  case_bool_decide; [by left|done].
Qed.

Lemma positive_int_ok v n : positive_int v = Ok n → 0 < n.
Proof. rw /positive_int. destruct (as_int v); [|done]. destruct (z <=? 0) eqn:E; [done|]. intros [= <-]. lia. Qed.
Lemma nonneg_number_ok v q : nonneg_number v = Ok q → (0 <= q)%Q.
Proof.
  rw /nonneg_number. destruct (as_number v) as [q'|]; [|done]. destruct (Qnum q' <? 0) eqn:E; [done|].
  intros [= <-]. rw /Qle. simpl. lia.
Qed.
Lemma str_field_ok v s : str_field v = Ok s → s ≠ ""%string.
Proof. rw /str_field. destruct v as [[]|]; try done. case_bool_decide; [done|]. by intros [= <-]. Qed.

(** [res_ok H]: the successful branch of the computation in [H]. *)
Ltac res_ok H :=
  repeat match type of H with
  | res_bind ?c _ = Ok _ => let E := fresh "E" in destruct c eqn:E; cbn [res_bind] in H; [|discriminate H]
  end.

(** ** Properties *)

(** A name identifies its key up to the folding of slashes: two keys
    whose model names have no separator in them get the same name exactly when
    rank, group and chunk hash are equal and model and salt are equal after
    folding.  A name holds no slash, so it names an entry of the root
    directory, and it is never the name of the warm-up probe. *)
Theorem name_identifies_the_key k1 k2 :
  no_char _SEP (model_name k1) = true → no_char _SEP (model_name k2) = true →
  (_key_to_name k1 = _key_to_name k2 ↔
     fold_slash (model_name k1) = fold_slash (model_name k2) ∧
     kv_rank k1 = kv_rank k2 ∧ object_group_id k1 = object_group_id k2 ∧
     chunk_hash k1 = chunk_hash k2 ∧
     fold_slash (cache_salt k1) = fold_slash (cache_salt k2)) ∧
  no_char "/" (_key_to_name k1) = true ∧
  (∀ pid, no_char _SEP pid = true → _key_to_name k1 ≠ (".daos-l2-probe." +:+ pid)%string).
Proof.
  intros Hm1 Hm2. rw -fold_slash_no_at in Hm1. rw -fold_slash_no_at in Hm2. split_and!.
  - split; [|by apply name_congruence]. rw !name_parts. intros Heq.
    apply sep_inj in Heq as [-> Heq]; [|done..].
    apply sep_inj in Heq as [Hr Heq]; [|by eapply signed_hex_no_char, hex08_signed..].
    apply sep_inj in Heq as [Hg Heq]; [|by eapply signed_hex_no_char, hex_int_signed..].
    apply hash_salt_inj in Heq as [Hh Hs].
    pose proof (hex08_signed (kv_rank k1)) as Hr1. rw Hr in Hr1.
    pose proof (hex_int_signed (object_group_id k1)) as Hg1. rw Hg in Hg1.
    split_and!; [done| |  |done|done].
    + exact (signed_hex_inj _ _ _ Hr1 (hex08_signed _)).
    + exact (signed_hex_inj _ _ _ Hg1 (hex_int_signed _)).
  - rw name_parts !no_char_sep // !fold_slash_no_slash hash_salt_no_slash.
    rw (signed_hex_no_char "/" _ _ _ _ (hex08_signed _)) //.
    by rw (signed_hex_no_char "/" _ _ _ _ (hex_int_signed _)).
  - intros pid Hpid Heq. apply (f_equal (no_char _SEP)) in Heq.
    rw name_parts sep_has_sep no_char_app Hpid in Heq. done.
Qed.

(** Two models that differ by a slash share their objects' names. *)
Lemma name_identifies_the_key_witness :
  let key m := mkObjectKey m 3 0 [Byte.xab; Byte.x01] "" in
  _key_to_name (key "org/model"%string) = "org_model@00000003@0@ab01"%string ∧
  _key_to_name (key "org/model"%string) = _key_to_name (key "org_model"%string) ∧
  _key_to_name (key "org/model"%string) ≠ _key_to_name (key "org-model"%string).
Proof.
  split_and!; [vm_compute; reflexivity| |].
  - apply (name_identifies_the_key (mkObjectKey "org/model" 3 0 [Byte.xab; Byte.x01] "")
      (mkObjectKey "org_model" 3 0 [Byte.xab; Byte.x01] "")); [reflexivity|reflexivity|].
    by split_and!.
  - intros Heq. apply (name_identifies_the_key (mkObjectKey "org/model" 3 0 [Byte.xab; Byte.x01] "")
      (mkObjectKey "org-model" 3 0 [Byte.xab; Byte.x01] "")) in Heq; [|reflexivity|reflexivity].
    by destruct Heq as [Heq _].
Defined.

Section ConfigProps.
Context {Ev Pe Se : Type} (pev : jdict → res Ev) (ppe : jdict → res Pe) (pse : jdict → res Se).

(** Every configuration that is accepted can be run: the labels are not
    empty, the root is "/" or an absolute path without a trailing slash, the
    pools have a positive size, the intervals and the capacity are not
    negative, and the schedule is one the adapter implements. *)
Theorem accepted_config_is_sane d cfg subs :
  from_dict pev ppe pse d = Ok (cfg, subs) →
  cf_pool cfg ≠ ""%string ∧ cf_container cfg ≠ ""%string ∧
  (cf_root cfg = "/"%string ∨
     starts_with_slash (cf_root cfg) = true ∧ ends_with_slash (cf_root cfg) = false) ∧
  0 < cf_workers cfg ∧ 0 < cf_task_workers cfg ∧ 0 ≤ cf_probe_chunks cfg ∧
  (0 <= cf_max_capacity_gb cfg)%Q ∧ (0 <= cf_status_interval_s cfg)%Q ∧
  (cf_load_schedule cfg = "fifo"%string ∨ cf_load_schedule cfg = "fair"%string).
Proof.
  rw /from_dict. intros Hd. res_ok Hd. injection Hd as <- _. cbn [config_init cf_pool cf_container cf_root
    cf_workers cf_task_workers cf_probe_chunks cf_max_capacity_gb cf_status_interval_s cf_load_schedule].
  split_and!; try by (eapply str_field_ok || eapply positive_int_ok || eapply nonneg_number_ok).
  - destruct (default (JStr "/mp") _); try done. destruct (starts_with_slash s) eqn:Es; [|done].
    simplify_eq/=. case_bool_decide; [by left|right]. split; [|apply rstrip_slash_ends].
    by destruct (rstrip_slash_starts _ Es).
  - destruct (as_int _); [|done]. destruct (z <? 0) eqn:Ez; [done|]. simplify_eq. lia.
  - destruct (default (JStr "fifo") _); try done. case_bool_decide; [|done]. by simplify_eq.
Qed.

(** A configuration that does not mention [status_interval_s] turns the
    periodic status report off, although the default of the constructor is a
    report every 60 seconds. *)
Theorem status_report_is_off_by_default d cfg subs :
  d !! "status_interval_s"%string = None →
  from_dict pev ppe pse d = Ok (cfg, subs) →
  cf_status_interval_s cfg = 0%Q ∧ cf_status_interval_s cfg ≠ init_status_interval_default.
Proof.
  rw /from_dict. intros Hn Hd. rw Hn in Hd. cbn [nonneg_number as_number as_int] in Hd.
  res_ok Hd. injection Hd as <- _. cbn in *. by simplify_eq.
Qed.
End ConfigProps.

Definition demo_dict : jdict :=
  <["pool"%string := JStr "attr1"]> (<["container"%string := JStr "kvlmc5"]> (<["root"%string := JStr "/mp/"]> ∅)).
Definition no_sub (_ : jdict) : res unit := Ok ().

Lemma accepted_config_is_sane_witness : ∃ cfg subs,
  from_dict no_sub no_sub no_sub demo_dict = Ok (cfg, subs) ∧ cf_root cfg = "/mp"%string ∧ 0 < cf_workers cfg.
Proof.
  eexists _, _. split; [reflexivity|]. split; [reflexivity|].
  eapply (accepted_config_is_sane no_sub no_sub no_sub demo_dict). reflexivity.
Defined.
Lemma status_report_is_off_by_default_witness : ∃ cfg subs,
  from_dict no_sub no_sub no_sub demo_dict = Ok (cfg, subs) ∧ cf_status_interval_s cfg ≠ init_status_interval_default.
Proof.
  eexists _, _. split; [reflexivity|].
  eapply (status_report_is_off_by_default no_sub no_sub no_sub demo_dict); reflexivity.
Defined.
