(* ===== verification/L2Adapter.v ===== *)
(** * The MP-mode L2 adapter: [DaosL2Adapter] of [mp/l2_adapter.py]

    The state is what the object keeps under its lock (task ids, completed
    results, lock counts, statistics), the DFS namespace, the pinned L1
    buffers the caller passes, the host clock, the tasks handed to the task
    pool and not yet run, and the notifications sent.  [submit_*] queues a
    task; a queued task may run at any later point, and its items run on the
    I/O pool.  A task body is one transition here, so two tasks of the model
    do not overlap; the lookup body is also given in its two phases, the stat
    calls and the locked bookkeeping, between which another thread can act. *)
From Stdlib Require Import QArith.
From S2P Require Import Prelude DfsBinding L2Config.
Open Scope Z_scope.
Open Scope py_scope.

(** ** The host clock *)
Class Clock (K : Type) := {
  time_time : K → Z * K;
  time_monotonic : K → Z * K;
}.
(** A clock that is never set back and advances between readings. *)
Class TickingClock (K : Type) `{Clock K} := {
  now : K → Z;
  now_nonneg k : 0 ≤ now k;
  time_ticks k t k' : time_time k = (t, k') → now k < t ∧ now k' = t;
  monotonic_ticks k t k' : time_monotonic k = (t, k') → now k ≤ now k';
}.

(** ** State *)
Inductive task :=
| TStore (keys : list ObjectKey) (objects : list Z)
| TLookup (keys : list ObjectKey) (expected : option Z)
| TLoad (keys : list ObjectKey) (objects : list Z).

Inductive event :=
| StoreFd | LookupFd | LoadFd
| KeysStored (keys : list ObjectKey) (sizes : list Z)
| KeysAccessed (keys : list ObjectKey)
| KeysDeleted (keys : list ObjectKey) (sizes : list Z).

(** [_stats]: the counters by their names, and the timeline. *)
Record stats := mkStats {
  counters : gmap string Z; errors_by_op : gmap string Z;
  last_ok : Z; last_error : option exn; last_error_at : Z }.
Definition counter (name : string) (st : stats) : Z := default 0 (counters st !! name).

Record adapter (D K : Type) := mkA {
  a_dfs : D; a_clk : K; a_l1 : gmap Z bytes;
  _next_task_id : Z; _inflight : Z;
  _completed_store : gmap Z (bool * Z);
  _completed_lookup : gmap Z (list bool);
  _completed_load : gmap Z (list bool);
  _locks : gmap ObjectKey Z;
  _stats : stats;
  pending : list (Z * task);
  events : list event }.
Arguments mkA {D K}.
Arguments a_dfs {D K}. Arguments a_clk {D K}. Arguments a_l1 {D K}.
Arguments _next_task_id {D K}. Arguments _inflight {D K}.
Arguments _completed_store {D K}. Arguments _completed_lookup {D K}. Arguments _completed_load {D K}.
Arguments _locks {D K}. Arguments _stats {D K}. Arguments pending {D K}. Arguments events {D K}.

(** The state [__init__] builds on a mounted namespace. *)
Definition init_adapter {D K} (d : D) (k : K) (bufs : gmap Z bytes) : adapter D K :=
  mkA d k bufs 0 0 ∅ ∅ ∅ ∅ (mkStats ∅ ∅ 0 None 0) [] [].

Section Adapter.
Context {D K : Type} `{LibDfs D} `{Clock K}.
Context (cfg : DaosL2AdapterConfig).
Abbreviation St := (adapter D K).
Implicit Types s : St.

(** *** Field updates *)
Definition set_io (d : D) (k : K) (l : gmap Z bytes) s : St :=
  mkA d k l (_next_task_id s) (_inflight s) (_completed_store s) (_completed_lookup s) (_completed_load s)
    (_locks s) (_stats s) (pending s) (events s).
Definition set_dfs (d : D) s : St := set_io d (a_clk s) (a_l1 s) s.
Definition set_clk (k : K) s : St := set_io (a_dfs s) k (a_l1 s) s.
Definition set_l1 (l : gmap Z bytes) s : St := set_io (a_dfs s) (a_clk s) l s.
Definition set_tasks (nx infl : Z) (p : list (Z * task)) s : St :=
  mkA (a_dfs s) (a_clk s) (a_l1 s) nx infl (_completed_store s) (_completed_lookup s) (_completed_load s)
    (_locks s) (_stats s) p (events s).
Definition set_done (cs : gmap Z (bool * Z)) (cl co : gmap Z (list bool)) s : St :=
  mkA (a_dfs s) (a_clk s) (a_l1 s) (_next_task_id s) (_inflight s) cs cl co
    (_locks s) (_stats s) (pending s) (events s).
Definition set_book (lk : gmap ObjectKey Z) (st : stats) (ev : list event) s : St :=
  mkA (a_dfs s) (a_clk s) (a_l1 s) (_next_task_id s) (_inflight s) (_completed_store s)
    (_completed_lookup s) (_completed_load s) lk st (pending s) ev.
Definition set_locks (lk : gmap ObjectKey Z) s : St := set_book lk (_stats s) (events s) s.
Definition set_stats (st : stats) s : St := set_book (_locks s) st (events s) s.
Definition notify (e : event) s : St := set_book (_locks s) (_stats s) (events s ++ [e]) s.

(** [self._stats[name] += n] *)
Definition add_stat (name : string) (n : Z) s : St :=
  let st := _stats s in
  set_stats (mkStats (<[name := counter name st + n]> (counters st)) (errors_by_op st)
    (last_ok st) (last_error st) (last_error_at st)) s.

Definition modify (f : St → St) : M St unit := λ s, (Ok tt, f s).
Definition gets {X} (f : St → X) : M St X := λ s, (Ok (f s), s).
Definition onDfs {X} (m : M D X) : M St X := λ s,
  let '(r, d) := m (a_dfs s) in (r, set_dfs d s).
Definition monotonic : M St Z := λ s,
  let '(t, k) := time_monotonic (a_clk s) in (Ok t, set_clk k s).

(** *** Helpers *)
Definition _path (key : ObjectKey) : string := (cf_root cfg +:+ "/" +:+ _key_to_name key)%string.

Definition _new_task_id : M St Z := λ s,
  let tid := _next_task_id s in
  (Ok tid, set_tasks (tid + 1) (_inflight s + 1) (pending s) s).
(** [self._tasks.submit(...)] *)
Definition enqueue (tid : Z) (t : task) : M St unit :=
  modify (λ s, set_tasks (_next_task_id s) (_inflight s) (pending s ++ [(tid, t)]) s).

Definition _note_ok : M St unit := λ s,
  let '(t, k) := time_time (a_clk s) in
  let st := _stats s in
  (Ok tt, set_stats (mkStats (counters st) (errors_by_op st) t (last_error st) (last_error_at st))
     (set_clk k s)).

Definition _note_error (op : string) (err : exn) : M St unit := λ s,
  let s := add_stat "errors" 1 s in
  let '(t, k) := time_time (a_clk s) in
  let st := _stats s in
  (Ok tt, set_stats (mkStats (counters st) (<[op := default 0 (errors_by_op st !! op) + 1]> (errors_by_op st))
     (last_ok st) (Some err) t) (set_clk k s)).

Definition _finish : M St unit :=
  modify (λ s, set_tasks (_next_task_id s) (_inflight s - 1) (pending s) s).

(** [_cbuf]: the bytes of the caller's buffer, of which the view aliases all. *)
Definition _cbuf (obj : Z) s : bytes := default [] (a_l1 s !! obj).
Definition cbuf (obj : Z) : M St bytes := gets (_cbuf obj).
(** What a read stores at the start of the view. *)
Definition fill (obj : Z) (b : bytes) s : St :=
  set_l1 (<[obj := b ++ drop (length b) (_cbuf obj s)]> (a_l1 s)) s.

(** [except (DaosError, OSError, ValueError)] and [except (DaosError, OSError)] *)
Definition io_or_value_error (e : exn) : bool := bool_decide (is_Some (os_errno e)) || is_value_error e.
Definition io_error (e : exn) : bool := bool_decide (is_Some (os_errno e)).

(** [Bitmap(n)] with the bits of a prefix set. *)
Definition bitmap_of (n : nat) (bits : list bool) : list bool :=
  take n bits ++ replicate (n - length bits) false.

(** *** Store *)
Definition _store_one (item : ObjectKey * Z) : M St Z :=
  let '(key, obj) := item in
  let path := _path key in
  try_except
    (let! src := cbuf obj in
     let n := len src in
     let! have := onDfs (stat_size path) in
     if bool_decide (have = Some n) then ret 0 else
     let! h := onDfs (open_rdwr_create path 0) in
     let! wrote := try_finally (onDfs (write_obj_from h 0 src)) (λ s, set_dfs (close_obj h (a_dfs s)) s) in
     if negb (wrote =? n)
     then (let! _ := onDfs (remove path) in ret (-1))
     else ret n)
    (λ e, if io_or_value_error e then Some (let! _ := _note_error "store" e in ret (-1)) else None).

(** The result of a store task: success, bytes, the keys stored and their sizes. *)
Record tally := mkTally { t_ok : bool; t_total : Z; t_keys : list ObjectKey; t_sizes : list Z }.
Fixpoint store_tally (t : tally) (l : list (ObjectKey * Z)) : M St tally :=
  match l with
  | [] => ret t
  | (key, r) :: l =>
      if r <? 0 then
        (let! _ := modify (add_stat "store_failed_keys" 1) in
         store_tally (mkTally false (t_total t) (t_keys t) (t_sizes t)) l)
      else if r =? 0 then
        (let! _ := modify (add_stat "store_skipped" 1) in store_tally t l)
      else store_tally (mkTally (t_ok t) (t_total t + r) (t_keys t ++ [key]) (t_sizes t ++ [r])) l
  end.

(** The [try] block of the task. *)
Definition store_body (keys : list ObjectKey) (objects : list Z) : M St tally :=
  try_except
    (let! results := pool_map _store_one (zip keys objects) in
     store_tally (mkTally true 0 [] []) (zip keys results))
    (λ e, if is_exception e
          then Some (let! _ := _note_error "store" e in ret (mkTally false 0 [] [])) else None).

(** What follows the [try] block. *)
Definition store_epilogue (keys : list ObjectKey) (tid t0 : Z) (t : tally) : M St unit :=
  let! _ := modify (λ s, set_done (<[tid := (t_ok t, t_total t)]> (_completed_store s))
                           (_completed_lookup s) (_completed_load s) s) in
  let! _ := modify (add_stat "store_tasks" 1) in
  let! _ := modify (add_stat "store_keys" (len keys)) in
  let! _ := modify (add_stat "store_bytes" (t_total t)) in
  let! t1 := monotonic in
  let! _ := modify (add_stat "store_seconds" (t1 - t0)) in
  let! _ := if bool_decide (t_keys t = []) then ret tt
            else (let! _ := _note_ok in modify (notify (KeysStored (t_keys t) (t_sizes t)))) in
  let! _ := _finish in
  modify (notify StoreFd).

Definition _execute_store (keys : list ObjectKey) (objects : list Z) (tid : Z) : M St unit :=
  let! t0 := monotonic in
  let! t := store_body keys objects in
  store_epilogue keys tid t0 t.

Definition pop_completed_store_tasks : M St (gmap Z (bool * Z)) := λ s,
  (Ok (_completed_store s), set_done ∅ (_completed_lookup s) (_completed_load s) s).

(** *** Lookup *)
Definition _lookup_one (item : ObjectKey * option Z) : M St bool :=
  let '(key, expected) := item in
  let path := _path key in
  let! size :=
    try_except (let! r := onDfs (stat_size path) in ret (inl r))
      (λ e, if io_error e then Some (let! _ := _note_error "lookup" e in ret (inr tt)) else None) in
  match size with
  | inr _ => ret false
  | inl None => ret false
  | inl (Some size) =>
      match expected with
      | Some x => ret (bool_decide (size = x))
      | None => ret true
      end
  end.

(** The section under the lock: bits, lock counts and hit counters. *)
Fixpoint lock_hits (l : list (ObjectKey * bool)) s : St :=
  match l with
  | [] => s
  | (key, true) :: l =>
      lock_hits l (add_stat "lookup_hits" 1
        (set_locks (<[key := default 0 (_locks s !! key) + 1]> (_locks s)) s))
  | (key, false) :: l => lock_hits l (add_stat "lookup_misses" 1 s)
  end.

(** The stat calls of the pool, and the section under the lock after them. *)
Definition lookup_phase1 (keys : list ObjectKey) (expected : option Z) : M St (list bool) :=
  pool_map _lookup_one ((λ k, (k, expected)) <$> keys).
Definition lookup_phase2 (keys : list ObjectKey) (hits : list bool) : M St (list bool) :=
  let! _ := modify (lock_hits (zip keys hits)) in ret (bitmap_of (length keys) hits).
Definition lookup_body (keys : list ObjectKey) (expected : option Z) : M St (list bool) :=
  try_except
    (let! hits := lookup_phase1 keys expected in lookup_phase2 keys hits)
    (λ e, if is_exception e
          then Some (let! _ := _note_error "lookup" e in ret (replicate (length keys) false)) else None).

Definition lookup_epilogue (tid t0 : Z) (bitmap : list bool) : M St unit :=
  let! t1 := monotonic in
  let! _ := modify (λ s, set_done (_completed_store s) (<[tid := bitmap]> (_completed_lookup s))
                           (_completed_load s) s) in
  let! _ := modify (add_stat "lookup_tasks" 1) in
  let! _ := modify (add_stat "lookup_seconds" (t1 - t0)) in
  let! hits := gets (λ s, counter "lookup_hits" (_stats s)) in
  let! _ := if negb (hits =? 0) then _note_ok else ret tt in
  let! _ := _finish in
  modify (notify LookupFd).

Definition _execute_lookup (keys : list ObjectKey) (expected : option Z) (tid : Z) : M St unit :=
  let! t0 := monotonic in
  let! bitmap := lookup_body keys expected in
  lookup_epilogue tid t0 bitmap.

Definition query_lookup_and_lock_result (tid : Z) : M St (option (list bool)) := λ s,
  (Ok (_completed_lookup s !! tid),
   set_done (_completed_store s) (delete tid (_completed_lookup s)) (_completed_load s) s).

Definition unlock1 (locks : gmap ObjectKey Z) (key : ObjectKey) : gmap ObjectKey Z :=
  let n := default 0 (locks !! key) - 1 in
  if n <=? 0 then delete key locks else <[key := n]> locks.
Definition submit_unlock (keys : list ObjectKey) : M St unit :=
  modify (λ s, set_locks (foldl unlock1 (_locks s) keys) s).

(** *** Load *)
Definition _load_one (item : ObjectKey * Z) : M St bool :=
  let '(key, obj) := item in
  let path := _path key in
  try_except
    (let! dst := cbuf obj in
     let n := len dst in
     let! h := onDfs (open_rdonly path) in
     let! got := try_finally
       (let! b := onDfs (read_obj_into h 0 n) in
        if n <? len b then raise (Overflow (len b - n)) else
        let! _ := modify (fill obj b) in ret (len b))
       (λ s, set_dfs (close_obj h (a_dfs s)) s) in
     ret (bool_decide (got = n)))
    (λ e, if io_or_value_error e then Some (let! _ := _note_error "load" e in ret false) else None).

(** [_FairDispatcher.run] of an open dispatcher ([FairDispatcher] has its
    threads, and that it is a map; a closed one does not return, which is a case
    of [L2Life.DaosL2Adapter_close]): results in input order, read for their
    truth values.  The slot of an item that raised holds False, or still None
    when [except Exception] did not catch it: neither is true, and nothing is
    raised to the caller. *)
Definition fair_map {A} (f : A → M St bool) (l : list A) : M St (list bool) :=
  pool_map (λ x, try_except (f x) (λ e, match e with Overflow _ => None | _ => Some (ret false) end)) l.

Definition load_tally1 (acc : list ObjectKey * Z) (key : ObjectKey) (obj : Z) (ok : bool) : M St (list ObjectKey * Z) :=
  if ok then
    (let! _ := modify (add_stat "load_ok" 1) in
     let! b := cbuf obj in ret (acc.1 ++ [key], acc.2 + len b))
  else (let! _ := modify (add_stat "load_failed" 1) in ret acc).
Fixpoint load_tally (acc : list ObjectKey * Z) (l : list (ObjectKey * Z * bool)) : M St (list ObjectKey * Z) :=
  match l with
  | [] => ret acc
  | (key, obj, ok) :: l => let! acc := load_tally1 acc key obj ok in load_tally acc l
  end.

Definition load_body (keys : list ObjectKey) (objects : list Z) : M St (list bool * (list ObjectKey * Z)) :=
  try_except
    (let items := zip keys objects in
     let! oks := if bool_decide (cf_load_schedule cfg = "fair"%string)
                 then fair_map _load_one items else pool_map _load_one items in
     let! acc := load_tally ([], 0) (zip items oks) in
     ret (bitmap_of (length keys) oks, acc))
    (λ e, if is_exception e
          then Some (let! _ := _note_error "load" e in ret (replicate (length keys) false, ([], 0))) else None).

Definition load_epilogue (tid t0 : Z) (bitmap : list bool) (hit_keys : list ObjectKey) (nbytes : Z) : M St unit :=
  let! t1 := monotonic in
  let! _ := modify (λ s, set_done (_completed_store s) (_completed_lookup s)
                           (<[tid := bitmap]> (_completed_load s)) s) in
  let! _ := modify (add_stat "load_tasks" 1) in
  let! _ := modify (add_stat "load_bytes" nbytes) in
  let! _ := modify (add_stat "load_seconds" (t1 - t0)) in
  let! _ := if negb (nbytes =? 0) then _note_ok else ret tt in
  let! _ := if bool_decide (hit_keys = []) then ret tt else modify (notify (KeysAccessed hit_keys)) in
  let! _ := _finish in
  modify (notify LoadFd).

Definition _execute_load (keys : list ObjectKey) (objects : list Z) (tid : Z) : M St unit :=
  let! t0 := monotonic in
  let! (bitmap, (hit_keys, nbytes)) := load_body keys objects in
  load_epilogue tid t0 bitmap hit_keys nbytes.

Definition query_load_result (tid : Z) : M St (option (list bool)) := λ s,
  (Ok (_completed_load s !! tid),
   set_done (_completed_store s) (_completed_lookup s) (delete tid (_completed_load s)) s).

(** *** Delete *)
Definition delete_one (acc : list ObjectKey * list Z) (key : ObjectKey) : M St (list ObjectKey * list Z) :=
  let path := _path key in
  try_except
    (let! size := onDfs (stat_size path) in
     match size with
     | None => ret acc
     | Some size =>
         let! removed := onDfs (remove path) in
         ret (if removed then (acc.1 ++ [key], acc.2 ++ [size]) else acc)
     end)
    (λ e, if io_error e then Some (let! _ := _note_error "delete" e in ret acc) else None).
Fixpoint delete_loop (acc : list ObjectKey * list Z) (todo : list ObjectKey) : M St (list ObjectKey * list Z) :=
  match todo with
  | [] => ret acc
  | key :: todo => let! acc := delete_one acc key in delete_loop acc todo
  end.
Definition unlocked s (keys : list ObjectKey) : list ObjectKey :=
  filter (λ k, default 0 (_locks s !! k) = 0) keys.
Definition delete_ (keys : list ObjectKey) : M St unit :=
  let! todo := gets (λ s, unlocked s keys) in
  let! (deleted, sizes) := delete_loop ([], []) todo in
  if bool_decide (deleted = []) then ret tt else
  let! _ := modify (add_stat "deleted" (len deleted)) in
  let! _ := _note_ok in
  modify (notify (KeysDeleted deleted sizes)).

(** *** Submission *)
Definition submit (t : task) : M St Z :=
  let! tid := _new_task_id in let! _ := enqueue tid t in ret tid.
Definition submit_store_task (keys : list ObjectKey) (objects : list Z) : M St Z :=
  submit (TStore keys objects).
Definition submit_lookup_and_lock_task {Dt} (element_size : Dt → option Z) (keys : list ObjectKey)
    (layout : option (list (list Z) * list Dt)) : M St Z :=
  submit (TLookup keys (if cf_verify_size cfg then _expected_bytes element_size layout else None)).
Definition submit_load_task (keys : list ObjectKey) (objects : list Z) : M St Z :=
  submit (TLoad keys objects).

(** A worker of the task pool takes a queued task. *)
Definition execute (tid : Z) (t : task) : M St unit :=
  match t with
  | TStore keys objects => _execute_store keys objects tid
  | TLookup keys expected => _execute_lookup keys expected tid
  | TLoad keys objects => _execute_load keys objects tid
  end.

(** *** Status *)
Definition _healthy_locked (st : stats) : option bool :=
  if (last_ok st =? 0) && (last_error_at st =? 0) then None
  else if last_error_at st =? 0 then Some true
  else Some (last_error_at st <? last_ok st).

(** [report_status]: the fields that are computed.  [since_last_success_s] is
    in the unit of the clock, before [round]. *)
Record status := mkStatus {
  st_counters : gmap string Z; st_inflight : Z; st_locked : nat; st_last_error : option exn;
  healthy : option bool; since_last_success : option Z }.
Definition report_status : M St status := λ s,
  let st := _stats s in
  let mk since := mkStatus (counters st) (_inflight s) (size (_locks s)) (last_error st)
                    (_healthy_locked st) since in
  if 0 <? last_ok st
  then let '(t, k) := time_time (a_clk s) in (Ok (mk (Some (t - last_ok st))), set_clk k s)
  else (Ok (mk None), s).
End Adapter.

(** One turn of [_status_loop]: the lines logged and the loop's two variables.
    The signature is the task counters. *)
Inductive logline := LUnhealthy | LRecovered | LStatusUnhealthy | LStatus.
Definition sig : Type := Z * Z * Z * Z.
Definition sig_of (st : status) : sig :=
  let c n := default 0 (st_counters st !! n) in
  (c "store_tasks"%string, c "lookup_tasks"%string, c "load_tasks"%string, c "deleted"%string).
Definition status_tick (st : status) (last : option sig) (was_healthy : option bool)
  : list logline * (option sig * option bool) :=
  let transition :=
    if bool_decide (healthy st = Some false ∧ was_healthy ≠ Some false) then [LUnhealthy]
    else if bool_decide (healthy st = Some true ∧ was_healthy = Some false) then [LRecovered] else [] in
  if bool_decide (healthy st = Some false)
  then (transition ++ [LStatusUnhealthy], (last, healthy st))
  else if bool_decide (Some (sig_of st) ≠ last)
  then (transition ++ [LStatus], (Some (sig_of st), healthy st))
  else (transition, (last, healthy st)).
Fixpoint _status_loop (ticks : list status) (last : option sig) (was_healthy : option bool) : list (list logline) :=
  match ticks with
  | [] => []
  | st :: ticks =>
      let '(out, (last, was_healthy)) := status_tick st last was_healthy in
      out :: _status_loop ticks last was_healthy
  end.

(** ** Frame lemmas *)
Section Frames.
Context {D K : Type} `{LibDfs D} `{Clock K}.
Context (cfg : DaosL2AdapterConfig).
Abbreviation St := (adapter D K).
Implicit Types s : St.

(** What the lock protects, apart from the statistics. *)
Definition book s := (_next_task_id s, _inflight s, _completed_store s, _completed_lookup s,
  _completed_load s, _locks s, pending s).
Definition same_book s s' : Prop := book s = book s'.
#[export] Instance same_book_preorder : PreOrder same_book.
Proof. rw /same_book. split; [by intros ?|]. intros s1 s2 s3 H1 H2. by rw H1. Qed.

(** The same with the namespace and the buffers: only the clock, the
    statistics and the notifications may change. *)
Definition quiet s s' : Prop := (book s, a_dfs s, a_l1 s) = (book s', a_dfs s', a_l1 s').
#[export] Instance quiet_preorder : PreOrder quiet.
Proof. rw /quiet. split; [by intros ?|]. intros s1 s2 s3 H1 H2. by rw H1. Qed.
Lemma quiet_book s s' : quiet s s' → same_book s s'.
Proof. rw /quiet /same_book. intros Hq. exact (f_equal (λ x, x.1.1) Hq). Qed.

Lemma quiet_io s s' : quiet s s' → a_dfs s' = a_dfs s ∧ a_l1 s' = a_l1 s.
Proof. rw /quiet. by intros [= _ _ _ _ _ _ _ -> ->]. Qed.

Lemma quiet_monotonic : keeps quiet monotonic.
Proof. intros s. rw /monotonic. by destruct (time_monotonic _). Qed.
Lemma quiet_note_ok : keeps quiet _note_ok.
Proof. intros s. rw /_note_ok. by destruct (time_time _). Qed.
Lemma quiet_note_error op e : keeps quiet (_note_error op e).
Proof. intros s. rw /_note_error. by destruct (time_time _). Qed.
Lemma quiet_gets {X} (f : St → X) : keeps quiet (gets f).
Proof. by intros s. Qed.
Lemma quiet_cbuf obj : keeps quiet (cbuf obj).
Proof. by intros s. Qed.
Lemma quiet_add_stat name n : keeps quiet (modify (add_stat name n)).
Proof. by intros s. Qed.
Lemma quiet_notify e : keeps quiet (modify (notify e)).
Proof. by intros s. Qed.
#[local] Hint Resolve quiet_monotonic quiet_note_ok quiet_note_error quiet_gets quiet_cbuf
  quiet_add_stat quiet_notify : keeps.
Lemma quiet_store_tally t l : keeps quiet (store_tally t l).
Proof. revert t. induction l; intros t; simpl; keeps_tac. Qed.
Lemma quiet_load_tally acc l : keeps quiet (load_tally acc l).
Proof. revert acc. induction l; intros acc; simpl; rw ?/load_tally1; keeps_tac. Qed.

Lemma book_onDfs {X} (m : M D X) : keeps same_book (onDfs m).
Proof. intros s. rw /onDfs. by destruct (m (a_dfs s)). Qed.
Lemma book_monotonic : keeps same_book monotonic.
Proof. intros s. rw /monotonic. by destruct (time_monotonic _). Qed.
Lemma book_note_ok : keeps same_book _note_ok.
Proof. intros s. rw /_note_ok. by destruct (time_time _). Qed.
Lemma book_note_error op e : keeps same_book (_note_error op e).
Proof. intros s. rw /_note_error. by destruct (time_time _). Qed.
Lemma book_gets {X} (f : St → X) : keeps same_book (gets f).
Proof. by intros s. Qed.
Lemma book_cbuf obj : keeps same_book (cbuf obj).
Proof. by intros s. Qed.
Lemma book_fill obj b : keeps same_book (modify (fill obj b)).
Proof. by intros s. Qed.
Lemma book_add_stat name n : keeps same_book (modify (add_stat name n)).
Proof. by intros s. Qed.
Lemma book_notify e : keeps same_book (modify (notify e)).
Proof. by intros s. Qed.
Lemma book_set_dfs d s : same_book s (set_dfs d s).
Proof. done. Qed.
#[local] Hint Resolve book_set_dfs book_gets book_onDfs book_monotonic book_note_ok book_note_error book_cbuf book_fill
  book_add_stat book_notify : keeps.

Lemma book_store_one x : keeps same_book (_store_one cfg x).
Proof. rw /_store_one. keeps_tac. Qed.
Lemma book_lookup_one x : keeps same_book (_lookup_one cfg x).
Proof. rw /_lookup_one. keeps_tac. Qed.
Lemma book_load_one x : keeps same_book (_load_one cfg x).
Proof. rw /_load_one. keeps_tac. Qed.
Lemma book_delete_loop acc todo : keeps same_book (delete_loop cfg acc todo).
Proof. revert acc. induction todo; intros acc; simpl; rw ?/delete_one; keeps_tac. Qed.
Lemma book_store_tally t l : keeps same_book (store_tally t l).
Proof. revert t. induction l; intros t; simpl; keeps_tac. Qed.
Lemma book_load_tally acc l : keeps same_book (load_tally acc l).
Proof. revert acc. induction l; intros acc; simpl; rw ?/load_tally1; keeps_tac. Qed.
End Frames.
#[export] Hint Resolve quiet_monotonic quiet_note_ok quiet_note_error quiet_gets quiet_cbuf
  quiet_add_stat quiet_notify quiet_store_tally quiet_load_tally : keeps.
#[export] Hint Resolve book_set_dfs book_gets book_onDfs book_monotonic book_note_ok book_note_error book_cbuf book_fill
  book_add_stat book_notify book_store_one book_lookup_one book_load_one book_delete_loop
  book_store_tally book_load_tally : keeps.

(** ** Rules for the primitive steps *)
Section Steps.
Context {D K : Type} `{LibDfs D} `{Clock K}.
Abbreviation St := (adapter D K).
Implicit Types s : St.

Lemma wp_modify (f : St → St) s (Q : unit → St → Prop) E : Q tt (f s) → wp (modify f) s Q E.
Proof. done. Qed.

(** An action that moves the state along a preorder, with what follows it. *)
Lemma wp_along {A} (R : St → St → Prop) (m : M St A) s (Q : A → St → Prop) (E : exn → St → Prop) :
  keeps R m → (∀ a s', R s s' → Q a s') → (∀ e s', R s s' → E e s') → wp m s Q E.
Proof. intros Hm HQ HE. eapply wp_mono; [by eapply wp_keeps|done|done]. Qed.
(** ... and which cannot fail. *)
Lemma wp_quiet {A} (m : M St A) s (Q : A → St → Prop) (E : exn → St → Prop) :
  keeps quiet m → is_ok (fst (m s)) = true → (∀ a s', quiet s s' → Q a s') → wp m s Q E.
Proof. intros Hm Hok HQ. specialize (Hm s). rw /wp. destruct (m s) as [[a|e] s']; [by apply HQ|done]. Qed.

Lemma note_ok_ok s : is_ok (fst (_note_ok s)) = true.
Proof. rw /_note_ok. by destruct (time_time _). Qed.
Lemma note_error_ok op e s : is_ok (fst (_note_error op e s)) = true.
Proof. rw /_note_error. by destruct (time_time _). Qed.
Lemma monotonic_ok s : is_ok (fst (monotonic s)) = true.
Proof. rw /monotonic. by destruct (time_monotonic _). Qed.

Lemma monotonic_spec s (Q : Z → St → Prop) (E : exn → St → Prop) :
  (∀ t s', quiet s s' → Q t s') → wp monotonic s Q E.
Proof. intros HQ. by apply wp_quiet; [keeps_tac|apply monotonic_ok|]. Qed.

End Steps.

(** [wp_tail]: through steps that are quiet and cannot fail. *)
Ltac wp_tail :=
  repeat lazymatch goal with
  | |- wp (bind _ _) _ _ _ => apply wp_bind
  | |- wp (modify _) _ _ _ => apply wp_modify
  | |- wp (gets _) _ _ _ => apply wp_ret
  | |- wp (ret _) _ _ _ => apply wp_ret
  | |- wp (if ?b then _ else _) _ _ _ => destruct b
  | |- wp monotonic _ _ _ => apply wp_quiet; [keeps_tac|apply monotonic_ok|intros ? ? ?]
  | |- wp _note_ok _ _ _ => apply wp_quiet; [keeps_tac|apply note_ok_ok|intros ? ? ?]
  | |- wp (_note_error _ _) _ _ _ => apply wp_quiet; [keeps_tac|apply note_error_ok|intros ? ? ?]
  end.

(** [fields]: the equations a run gives for the fields of the state. *)
Ltac fields :=
  repeat match goal with
  | Hb : same_book _ _ |- _ => rw /same_book /book in Hb; cbn in Hb; injection Hb as ???????
  | Hb : quiet _ _ |- _ => rw /quiet /book in Hb; cbn in Hb; injection Hb as ?????????
  end; cbn.

(** ** What running a task does to the books, whatever the backend does *)
Section Completion.
Context {D K : Type} `{LibDfs D} `{Clock K}.
Context (cfg : DaosL2AdapterConfig).
Abbreviation St := (adapter D K).
Implicit Types s : St.

Definition lock1 (m : gmap ObjectKey Z) (kb : ObjectKey * bool) : gmap ObjectKey Z :=
  if kb.2 then <[kb.1 := default 0 (m !! kb.1) + 1]> m else m.

(** The result of task [tid] appears, the lock counts move by the hits, and
    the task is accounted for. *)
Definition completes (tid : Z) (t : task) s s' : Prop :=
  _next_task_id s' = _next_task_id s ∧ pending s' = pending s ∧ _inflight s' = _inflight s - 1 ∧
  match t with
  | TStore _ _ => ∃ v, _completed_store s' = <[tid := v]> (_completed_store s) ∧
      _completed_lookup s' = _completed_lookup s ∧ _completed_load s' = _completed_load s ∧
      _locks s' = _locks s
  | TLookup keys _ => ∃ bm, length bm = length keys ∧
      _completed_lookup s' = <[tid := bm]> (_completed_lookup s) ∧
      _completed_store s' = _completed_store s ∧ _completed_load s' = _completed_load s ∧
      _locks s' = foldl lock1 (_locks s) (zip keys bm)
  | TLoad keys _ => ∃ bm, length bm = length keys ∧
      _completed_load s' = <[tid := bm]> (_completed_load s) ∧
      _completed_store s' = _completed_store s ∧ _completed_lookup s' = _completed_lookup s ∧
      _locks s' = _locks s
  end.

Lemma length_bitmap_of n bits : length (bitmap_of n bits) = n.
Proof. rw /bitmap_of length_app length_take length_replicate. lia. Qed.

Lemma locks_lock_hits l s : _locks (lock_hits l s) = foldl lock1 (_locks s) l.
Proof. revert s. induction l as [|[k []] l IH]; intros s; simpl; [done|by rw IH..]. Qed.
Lemma book_lock_hits l s :
  book (lock_hits l s) = (_next_task_id s, _inflight s, _completed_store s, _completed_lookup s,
    _completed_load s, foldl lock1 (_locks s) l, pending s).
Proof. revert s. induction l as [|[k []] l IH]; intros s; simpl; [done|by rw IH..]. Qed.

Lemma foldl_lock_false keys m :
  foldl lock1 m (zip keys (replicate (length keys) false)) = m.
Proof. revert m. induction keys as [|k keys IH]; intros m; simpl; [done|]. by rw IH. Qed.

Lemma bitmap_of_full n bits : length bits = n → bitmap_of n bits = bits.
Proof. intros <-. rw /bitmap_of take_ge // Nat.sub_diag. apply app_nil_r. Qed.
Lemma lock_hits_io l s : a_dfs (lock_hits l s) = a_dfs s.
Proof. revert s. induction l as [|[k []] l IH]; intros s; simpl; [done|by rw IH..]. Qed.
Lemma lock_hits_l1 l s : a_l1 (lock_hits l s) = a_l1 s.
Proof. revert s. induction l as [|[k []] l IH]; intros s; simpl; [done|by rw IH..]. Qed.

(** A key without a result is not locked: its bit is not set. *)
Lemma zip_bitmap_of keys hits m :
  foldl lock1 m (zip keys (bitmap_of (length keys) hits)) = foldl lock1 m (zip keys hits).
Proof.
  revert hits m. induction keys as [|k keys IH]; intros [|h hits] m; simpl; try done.
  - apply (foldl_lock_false (k :: keys)).
  - exact (IH hits _).
Qed.

(** The state when a task leaves: its result is in, the locks, the namespace
    and the buffers are those of the state [s] its body left. *)
Definition leaves s s' : Prop :=
  _next_task_id s' = _next_task_id s ∧ pending s' = pending s ∧ _inflight s' = _inflight s - 1 ∧
  _locks s' = _locks s ∧ a_dfs s' = a_dfs s ∧ a_l1 s' = a_l1 s.

Lemma store_epilogue_spec keys tid t0 t s (Q : unit → St → Prop) (E : exn → St → Prop) :
  (∀ s', leaves s s' → _completed_store s' = <[tid := (t_ok t, t_total t)]> (_completed_store s) →
     _completed_lookup s' = _completed_lookup s → _completed_load s' = _completed_load s → Q tt s') →
  wp (store_epilogue keys tid t0 t) s Q E.
Proof.
  intros HQ. rw /store_epilogue /_finish. wp_tail; apply HQ; rw /leaves; fields; split_and?; congruence.
Qed.
Lemma lookup_epilogue_spec tid t0 bm s (Q : unit → St → Prop) (E : exn → St → Prop) :
  (∀ s', leaves s s' → _completed_lookup s' = <[tid := bm]> (_completed_lookup s) →
     _completed_store s' = _completed_store s → _completed_load s' = _completed_load s → Q tt s') →
  wp (lookup_epilogue tid t0 bm) s Q E.
Proof.
  intros HQ. rw /lookup_epilogue /_finish. wp_tail; apply HQ; rw /leaves; fields; split_and?; congruence.
Qed.
Lemma load_epilogue_spec tid t0 bm hk nb s (Q : unit → St → Prop) (E : exn → St → Prop) :
  (∀ s', leaves s s' → _completed_load s' = <[tid := bm]> (_completed_load s) →
     _completed_store s' = _completed_store s → _completed_lookup s' = _completed_lookup s → Q tt s') →
  wp (load_epilogue tid t0 bm hk nb) s Q E.
Proof.
  intros HQ. rw /load_epilogue /_finish. wp_tail; apply HQ; rw /leaves; fields; split_and?; congruence.
Qed.

(** The bodies and the books. *)
Lemma book_store_body keys objs : keeps same_book (store_body cfg keys objs).
Proof.
  rw /store_body. apply keeps_except; [apply _| |keeps_tac]. apply keeps_bind; [apply _| |keeps_tac].
  apply keeps_pool_map; [apply _|eauto with keeps].
Qed.

Lemma load_body_books keys objs s :
  wp (load_body cfg keys objs) s (λ r s', length r.1 = length keys ∧ same_book s s') (λ _ _, True).
Proof.
  assert (∀ e s2, same_book s s2 → is_exception e = true →
    wp (let! _ := _note_error "load" e in ret (replicate (length keys) false, ([] : list ObjectKey, 0))) s2
      (λ r s', length r.1 = length keys ∧ same_book s s') (λ _ _, True)) as Hh.
  { intros e s2 Hs2 _. wp_tail. split; [apply length_replicate|]. etrans; [done|by apply quiet_book]. }
  rw /load_body. apply wp_except, wp_bind, (wp_along same_book).
  - case_match; rw ?/fair_map; (apply keeps_pool_map; [apply _|keeps_tac]).
  - intros oks s1 Hs1. apply wp_bind, (wp_along same_book); [keeps_tac| |].
    + intros acc s2 Hs2. apply wp_ret. split; [apply length_bitmap_of|by etrans].
    + intros e s2 Hs2. destruct (is_exception e) eqn:He; [|done]. apply Hh; [by etrans|done].
  - intros e s2 Hs2. destruct (is_exception e) eqn:He; [|done]. by apply Hh.
Qed.

Lemma lookup_body_books keys expected s :
  wp (lookup_body cfg keys expected) s
    (λ bm s', length bm = length keys ∧
       book s' = book (set_locks (foldl lock1 (_locks s) (zip keys bm)) s)) (λ _ _, True).
Proof.
  rw /lookup_body /lookup_phase2 /lookup_phase1. apply wp_except, wp_bind, (wp_along same_book).
  - apply keeps_pool_map; [apply _|eauto with keeps].
  - intros hits s1 Hs1. apply wp_bind, wp_modify, wp_ret. split; [apply length_bitmap_of|].
    rw book_lock_hits zip_bitmap_of. fields. rw /book. cbn. congruence.
  - intros e s2 Hs2. destruct (is_exception e); [|done]. wp_tail. split; [apply length_replicate|].
    rw foldl_lock_false. fields. rw /book. cbn. congruence.
Qed.

Lemma execute_books tid t s : wp (execute cfg tid t) s (λ _ s', completes tid t s s') (λ _ _, True).
Proof.
  destruct t as [keys objs|keys expected|keys objs]; apply wp_bind, monotonic_spec; intros t0 s1 Hs1; apply wp_bind.
  - apply (wp_along same_book); [apply book_store_body| |done]. intros t s2 Hs2.
    apply store_epilogue_spec. intros s3 (?&?&?&?&_) ???. fields.
    rw /completes. split_and!; [congruence..|]. exists (t_ok t, t_total t). split_and!; congruence.
  - wp_use lookup_body_books; [|done]. intros bm s2 [Hbm Hs2]. rw /book in Hs2. cbn in Hs2. injection Hs2 as ???????.
    apply lookup_epilogue_spec. intros s3 (?&?&?&?&_) ???. fields.
    rw /completes. split_and!; [congruence..|]. exists bm. split_and!; congruence.
  - wp_use load_body_books; [|done]. intros [bm [hk nb]] s2 [Hbm Hs2]. cbn in Hbm.
    apply load_epilogue_spec. intros s3 (?&?&?&?&_) ???. fields.
    rw /completes. split_and!; [congruence..|]. exists bm. split_and!; congruence.
Qed.
End Completion.

(** ** The adapter as a machine

    A step is a call of the client, a worker that runs any one of the queued
    tasks, or the outside world changing the namespace, the clock or the
    buffers.  [dl] are the task ids whose result the step hands to the client. *)
Section Machine.
Context {D K : Type} `{LibDfs D} `{Clock K}.
Context {Dt : Type} (element_size : Dt → option Z) (cfg : DaosL2AdapterConfig).
Abbreviation St := (adapter D K).
Implicit Types s : St.

Definition dequeue (i : nat) s : St :=
  set_tasks (_next_task_id s) (_inflight s) (delete i (pending s)) s.

Definition given {V} (tid : Z) (r : option V) : list Z :=
  match r with Some _ => [tid] | None => [] end.

Inductive step : St → list Z → St → Prop :=
| step_submit_store keys objs s tid s' :
    submit_store_task keys objs s = (Ok tid, s') → step s [] s'
| step_submit_lookup keys layout s tid s' :
    submit_lookup_and_lock_task cfg element_size keys layout s = (Ok tid, s') → step s [] s'
| step_submit_load keys objs s tid s' :
    submit_load_task keys objs s = (Ok tid, s') → step s [] s'
| step_run i tid t s s' :
    pending s !! i = Some (tid, t) → execute cfg tid t (dequeue i s) = (Ok tt, s') → step s [] s'
| step_pop m s s' :
    pop_completed_store_tasks s = (Ok m, s') → step s (map_to_list m).*1 s'
| step_query_lookup tid r s s' :
    query_lookup_and_lock_result tid s = (Ok r, s') → step s (given tid r) s'
| step_query_load tid r s s' :
    query_load_result tid s = (Ok r, s') → step s (given tid r) s'
| step_unlock keys s s' : submit_unlock keys s = (Ok tt, s') → step s [] s'
| step_delete keys r s s' : delete_ cfg keys s = (r, s') → step s [] s'
| step_report r s s' : report_status s = (r, s') → step s [] s'
| step_env d k l s : step s [] (set_io d k l s).

Inductive run : St → list Z → St → Prop :=
| run_refl s : run s [] s
| run_step s1 dl s2 dl' s3 : run s1 dl s2 → step s2 dl' s3 → run s1 (dl ++ dl') s3.

Definition ids {V} (m : gmap Z V) : list Z := (map_to_list m).*1.
Definition outstanding s : list Z :=
  (pending s).*1 ++ ids (_completed_store s) ++ ids (_completed_lookup s) ++ ids (_completed_load s).
Definition locks_pos (m : gmap ObjectKey Z) : Prop := map_Forall (λ _ n, 0 < n) m.

(** Every id given out is in exactly one place, the tasks in flight are the
    queued ones, and lock counts are positive. *)
Definition inv (dl : list Z) s : Prop :=
  0 ≤ _next_task_id s ∧ dl ++ outstanding s ≡ₚ seqZ 0 (_next_task_id s) ∧
  _inflight s = len (pending s) ∧ locks_pos (_locks s).

Lemma ids_insert {V} (m : gmap Z V) i v : i ∉ ids m → ids (<[i := v]> m) ≡ₚ i :: ids m.
Proof.
  intros Hi. rw /ids. rw map_to_list_insert //. apply not_elem_of_dom. rw elem_of_dom.
  intros [x Hx]. apply Hi. apply list_elem_of_fmap. exists (i, x). split; [done|]. by apply elem_of_map_to_list.
Qed.
Lemma ids_delete {V} (m : gmap Z V) i v : m !! i = Some v → i :: ids (delete i m) ≡ₚ ids m.
Proof. intros Hi. rw /ids -(map_to_list_delete m i v) //. Qed.

Lemma lock1_pos m kb : locks_pos m → locks_pos (lock1 m kb).
Proof.
  intros Hm. rw /lock1. destruct kb as [k []]; cbn; [|done]. apply map_Forall_insert_2; [|done].
  destruct (m !! k) eqn:E; cbn; [|lia]. specialize (Hm k z E). cbn in Hm. lia.
Qed.
Lemma unlock1_pos m k : locks_pos m → locks_pos (unlock1 m k).
Proof.
  intros Hm. rw /unlock1. destruct (_ <=? 0) eqn:E; [by apply map_Forall_delete|].
  apply map_Forall_insert_2; [lia|done].
Qed.
Lemma foldl_pos {A} (f : gmap ObjectKey Z → A → gmap ObjectKey Z) l m :
  (∀ m x, locks_pos m → locks_pos (f m x)) → locks_pos m → locks_pos (foldl f m l).
Proof. intros Hf. revert m. induction l as [|x l IH]; intros m Hm; simpl; [done|]. by apply IH, Hf. Qed.

Lemma inv_same_book dl s s' : same_book s s' → inv dl s → inv dl s'.
Proof. rw /same_book /inv /outstanding. intros [= -> -> -> -> -> -> ->]. done. Qed.

Lemma seqZ_snoc n : 0 ≤ n → seqZ 0 (n + 1) = seqZ 0 n ++ [n].
Proof.
  intros Hn. pose proof (seqZ_S 0 (Z.to_nat n)) as Hs.
  replace (Z.of_nat (S (Z.to_nat n))) with (n + 1) in Hs by lia. by rw Z2Nat.id // in Hs.
Qed.

Lemma inv_submit dl t s s' tid : submit t s = (Ok tid, s') → inv dl s → inv dl s'.
Proof.
  intros [= <- <-] (Hn & Hp & Hi & Hl). split_and!; cbn; [lia| |solve_len|done].
  rw seqZ_snoc // -Hp. rw /outstanding. cbn. rw fmap_app. cbn. solve_Permutation.
Qed.

Lemma inv_run dl i tid t s s' :
  pending s !! i = Some (tid, t) → completes tid t (dequeue i s) s' → inv dl s → inv dl s'.
Proof.
  intros Hi (Hnx & Hpd & Hfl & Ht) (Hn & Hp & Hin & Hl).
  assert ((pending s).*1 ≡ₚ tid :: (delete i (pending s)).*1) as Hpend.
  { by rw {1}(delete_Permutation _ _ _ Hi). }
  assert (NoDup (dl ++ outstanding s)) as Hnd by (rw Hp; apply NoDup_seqZ).
  apply NoDup_app in Hnd as (_ & _ & Hnd). rw /outstanding Hpend in Hnd. cbn in Hnd.
  apply NoDup_cons in Hnd as [Hnew _]. rw !elem_of_app in Hnew.
  split_and!; [by rw Hnx| | |].
  - rw Hnx -Hp. apply Permutation_app_head. rw /outstanding Hpend Hpd. cbn in *.
    destruct t; [destruct Ht as (v & -> & -> & -> & _)|destruct Ht as (v & _ & -> & -> & -> & _)..];
      (rw ids_insert; [naive_solver|solve_Permutation]).
  - rw Hfl Hpd. cbn. rw Hin. pose proof (length_delete (pending s) i) as Hld.
    rw /len. rw Hld; [by eexists|]. apply lookup_lt_Some in Hi. lia.
  - destruct t; [destruct Ht as (v & _ & _ & _ & ->)|destruct Ht as (v & _ & _ & _ & _ & ->)..]; [done| |done].
    apply foldl_pos; [apply lock1_pos|done].
Qed.

(** Handing out results. *)
Lemma inv_deliver dl given s s' :
  _next_task_id s' = _next_task_id s → pending s' = pending s → _inflight s' = _inflight s →
  _locks s' = _locks s → given ++ outstanding s' ≡ₚ outstanding s → inv dl s → inv (dl ++ given) s'.
Proof.
  intros Hn Hp Hi Hl Ho (Hn0 & Hp0 & Hi0 & Hl0). rw /inv Hn Hp Hi Hl. split_and!; [done| |done|done].
  by rw -app_assoc Ho.
Qed.

Lemma book_delete keys : keeps same_book (delete_ cfg keys).
Proof. rw /delete_. keeps_tac. Qed.
Lemma book_report : keeps same_book (report_status (D:=D) (K:=K)).
Proof. intros s. rw /report_status. destruct (time_time _). by destruct (0 <? _). Qed.

Lemma inv_step dl s dl' s' : step s dl' s' → inv dl s → inv (dl ++ dl') s'.
Proof.
  intros Hs Hinv. destruct Hs as [keys objs s tid s' Hr|keys layout s tid s' Hr|keys objs s tid s' Hr
    |i tid t s s' Hi Hr|m s s' Hr|tid r s s' Hr|tid r s s' Hr|keys s s' Hr|keys r s s' Hr|r s s' Hr|d k l s];
    rw ?app_nil_r.
  1-3: by eapply inv_submit.
  - eapply inv_run; [done| |done]. exact (wp_run _ _ _ _ _ _ (execute_books cfg tid t _) Hr).
  - injection Hr as <- <-. apply (inv_deliver dl _ s); [done..| |done]. rw /outstanding /ids. cbn.
    rw map_to_list_empty. cbn. solve_Permutation.
  - injection Hr as <- <-. apply (inv_deliver dl _ s); [done..| |done]. rw /outstanding. cbn.
    destruct (_completed_lookup s !! tid) as [bm|] eqn:E; cbn.
    + rw -(ids_delete (_completed_lookup s) tid bm) //. solve_Permutation.
    + by rw delete_id.
  - injection Hr as <- <-. apply (inv_deliver dl _ s); [done..| |done]. rw /outstanding. cbn.
    destruct (_completed_load s !! tid) as [bm|] eqn:E; cbn.
    + rw -(ids_delete (_completed_load s) tid bm) //. solve_Permutation.
    + by rw delete_id.
  - injection Hr as <-. destruct Hinv as (? & ? & ? & ?). split_and!; [done..|].
    apply foldl_pos; [apply unlock1_pos|done].
  - eapply inv_same_book; [|done]. by eapply keeps_run, Hr; apply book_delete.
  - eapply inv_same_book; [|done]. by eapply keeps_run, Hr; apply book_report.
  - done.
Qed.

(** C6: in every run of the adapter, whatever the interleaving of calls, tasks
    and outside changes, each task id given out is in exactly one place: queued,
    completed and waiting for its client, or delivered, and it is delivered at
    most once; the in-flight count is the number of queued tasks and lock
    counts never drop to zero or below. *)
Theorem each_result_is_delivered_once d k l dl s :
  run (init_adapter d k l) dl s →
  dl ++ outstanding s ≡ₚ seqZ 0 (_next_task_id s) ∧ NoDup (dl ++ outstanding s) ∧
  _inflight s = len (pending s) ∧ locks_pos (_locks s).
Proof.
  intros Hrun. assert (inv dl s) as (_ & Hp & Hi & Hl).
  - remember (init_adapter d k l) as s0 eqn:E0. induction Hrun as [s|s1 dl s2 dl' s3 _ IH Hs]; subst.
    + split_and!; [done|by rw /outstanding /ids|done|apply map_Forall_empty].
    + eapply inv_step; [done|by apply IH].
  - split_and!; [done|rw Hp; apply NoDup_seqZ|done|done].
Qed.
End Machine.

(** ** A concrete adapter: a counter as the clock, an in-memory namespace *)
Module L2Demo.
#[global] Instance clock : Clock N :=
  {| time_time k := (Z.of_N (k + 1), (k + 1)%N); time_monotonic k := (Z.of_N k, k) |}.
#[global] Program Instance ticks : TickingClock N := {| now := Z.of_N |}.
Next Obligation. intros k. simpl. lia. Qed.
Next Obligation. intros k t k'. simpl. intros [= <- <-]. lia. Qed.
Next Obligation. intros k t k' [= _ <-]. simpl. lia. Qed.

Definition cfg (sched : string) : DaosL2AdapterConfig :=
  config_init "attr1" "kvlmc5" None "/mp" 8 0%Q true 0%Q 32 sched 64.
Definition key (h : byte) : ObjectKey := mkObjectKey "org/model" 3 0 [h] "".
(** Buffers 1 and 2 hold objects of three bytes, 11 and 12 are empty targets,
    3 is an object of one byte. *)
Definition bufs : gmap Z bytes :=
  <[1 := encode "abc"]> (<[2 := encode "xyz"]> (<[11 := zeros 3]> (<[12 := zeros 3]> (<[3 := encode "q"]> ∅)))).
Definition start (w : MemDfs.mem) : adapter MemDfs.mem N := init_adapter w 1%N bufs.
Definition dead : MemDfs.fault := MemDfs.mkFault 1005 0.
End L2Demo.

Lemma each_result_is_delivered_once_witness : ∃ s : adapter MemDfs.mem N,
  run (Dt:=unit) (λ _, Some 2) (L2Demo.cfg "fifo") (L2Demo.start (MemDfs.healthy ∅)) [0] s ∧
  NoDup ([0] ++ outstanding s) ∧ (pending s).*1 = [1].
Proof.
  set (cfg := L2Demo.cfg "fifo"). set (k := L2Demo.key Byte.x01).
  set (s0 := L2Demo.start (MemDfs.healthy ∅)).
  set (s1 := snd (submit_store_task [k] [1] s0)).
  set (s2 := snd (submit_load_task [k] [11] s1)).
  set (s3 := snd (execute cfg 0 (TStore [k] [1]) (dequeue 0 s2))).
  set (s4 := snd (pop_completed_store_tasks s3)).
  assert (run (Dt:=unit) (λ _, Some 2) cfg s0 [0] s4) as Hrun.
  { assert (run (Dt:=unit) (λ _, Some 2) cfg s0 ([] ++ [] ++ []) s2) as H2.
    { eapply (run_step _ _ s0 [] s1); [|eapply step_submit_load; reflexivity].
      eapply (run_step _ _ s0 [] s0); [apply run_refl|eapply step_submit_store; reflexivity]. }
    assert (run (Dt:=unit) (λ _, Some 2) cfg s0 (([] ++ [] ++ []) ++ []) s3) as H3.
    { eapply run_step; [exact H2|]. apply (step_run _ _ 0 0 (TStore [k] [1])); [reflexivity|].
      unfold s3. apply (run_of (execute cfg 0 (TStore [k] [1])) (dequeue 0 s2) (Ok tt)).
      vm_compute. reflexivity. }
    change [0] with ((([] ++ [] ++ []) ++ []) ++ (map_to_list (_completed_store s3)).*1).
    eapply run_step; [exact H3|]. apply step_pop. reflexivity. }
  exists s4. split; [exact Hrun|]. split; [|vm_compute; reflexivity].
  apply (each_result_is_delivered_once _ cfg (MemDfs.healthy ∅) 1%N L2Demo.bufs [0] s4 Hrun).
Defined.
