(* ===== verification/L2Tasks.v ===== *)
(** * Store, lookup and load tasks of the MP adapter

    What the items of a task do to the namespace and the buffers, proved from
    the specifications of the DFS binding, then the whole tasks: the store,
    lookup, load round trip, completion of every task, and what partial writes
    and longer files lead to. *)
From S2P Require Import Prelude DfsBinding L2Config L2Adapter.
Open Scope Z_scope.
Open Scope py_scope.

Lemma bool_decide_ext_if {A} (P Q : Prop) `{Decision P} `{Decision Q} (a b : A) :
  (P ↔ Q) → (if bool_decide P then a else b) = (if bool_decide Q then a else b).
Proof. intros HPQ. by rw (bool_decide_ext _ _ HPQ). Qed.

(** ** What each item does to the namespace and the buffers *)
Section Items.
Context {D K : Type} `{LibDfsLaws D} `{Clock K}.
Context (cfg : DaosL2AdapterConfig).
Abbreviation St := (adapter D K).
Implicit Types s : St.
Abbreviation files s := (fs (a_dfs s)).
Abbreviation path := (_path cfg).

Lemma wp_onDfs {X} (m : M D X) s (Q : X → St → Prop) E :
  wp m (a_dfs s) (λ x d, Q x (set_dfs d s)) (λ e d, E e (set_dfs d s)) → wp (onDfs m) s Q E.
Proof. rw /wp /onDfs. by destruct (m (a_dfs s)) as [[x|e] d]. Qed.

(** The file after writing [d] over its start. *)
Definition overwritten (o : option bytes) (d : bytes) : bytes := d ++ drop (length d) (default [] o).

(** Skipped, written, or failed on a backend that is down, with any prefix of
    the data on disk. *)
Definition store_outcome (r : Z) (p : string) (b : bytes) s s' : Prop :=
  a_l1 s' = a_l1 s ∧ hs (a_dfs s') = hs (a_dfs s) ∧ (up (a_dfs s) → up (a_dfs s')) ∧
  ((r = 0 ∧ files s' = files s ∧ len <$> files s !! p = Some (len b)) ∨
   (r = len b ∧ len <$> files s !! p ≠ Some (len b) ∧
      files s' = <[p := overwritten (files s !! p) b]> (files s)) ∨
   (r = -1 ∧ ¬ up (a_dfs s) ∧
      (files s' = files s ∨ ∃ k, files s' = <[p := overwritten (files s !! p) (take k b)]> (files s)))).

Lemma store_failed op e p b s s1 :
  a_l1 s1 = a_l1 s → hs (a_dfs s1) = hs (a_dfs s) → ¬ up (a_dfs s) → io_or_value_error e = true →
  (files s1 = files s ∨ ∃ k, files s1 = <[p := overwritten (files s !! p) (take k b)]> (files s)) →
  match (if io_or_value_error e then Some (let! _ := _note_error op e in ret (-1)) else None) with
  | Some k => wp k s1 (λ r s', store_outcome r p b s s') (λ _ _, False)
  | None => False
  end.
Proof.
  intros Hl Hh Hup -> Hf. apply wp_bind, wp_quiet; [keeps_tac|apply note_error_ok|]. intros ? s2 Hq.
  apply wp_ret. rw /quiet in Hq. injection Hq as _ _ _ _ _ _ _ Hd Hl1.
  rw /store_outcome -Hl1 -Hd. split_and!; [done|done|by intros|]. right; right. by split_and!.
Qed.

Lemma store_one_spec key obj s :
  wp (_store_one cfg (key, obj)) s
    (λ r s', store_outcome r (path key) (_cbuf obj s) s s') (λ _ _, False).
Proof.
  rw /_store_one. set (p := path key). apply wp_except, wp_bind, wp_ret. set (b := _cbuf obj s).
  apply wp_bind, wp_onDfs. wp_use (stat_size_spec p (a_dfs s)); last first.
  { intros e d ((Hf & Hh & Hu) & Hup & rc & ->). apply store_failed; try done. by left. }
  intros have d ((Hf & Hh & Hu) & ->). case_bool_decide as Eh.
  { apply wp_ret. split_and!; cbn; [done|done|done|]. left. by rw Hf. }
  apply wp_bind, wp_onDfs. cbn. wp_use (open_rdwr_create_spec p 0 d); last first.
  { intros e d' ((Hf' & Hh' & Hu') & rc & -> & _ & Hrc). apply store_failed; try done; cbn.
    - by rw Hh'.
    - intros Hup. destruct (Hrc (Hu Hup)). done.
    - left. by rw Hf'. }
  intros h d1 (Hf1 & Hn & Hh1 & Hu1). apply wp_bind, wp_finally, wp_onDfs. cbn.
  destruct (close_obj_spec h d1) as (_ & _ & _).
  wp_use (write_obj_from_spec h 0 b d1 p); [by rw Hh1 lookup_insert_eq|by rw Hf1 lookup_insert_eq|done| |].
  - intros n d2 (-> & Hf2 & Hh2 & Hu2). rw Z.eqb_refl. cbn [negb]. apply wp_ret.
    destruct (close_obj_spec h d2) as (Hf3 & Hh3 & Hu3). rw /store_outcome. cbn.
    rw Hh3 Hh2 Hh1 delete_insert_id // Hh Hf3 Hf2 Hf1 insert_insert_eq Hf write_at_over.
    split_and!; [done|done|by auto|]. right; left. split_and!; [done|done|by rw /overwritten].
  - intros e d2 (Hh2 & Hup & (rc & ->) & k & Hf2). destruct (close_obj_spec h d2) as (Hf3 & Hh3 & Hu3).
    apply store_failed; cbn; [done| | |done|].
    + by rw Hh3 Hh2 Hh1 delete_insert_id // Hh.
    + intros Hs. by apply Hup, Hu1, Hu.
    + right. exists k. by rw Hf3 Hf2 Hf1 insert_insert_eq Hf write_at_over.
Qed.

(** What a lookup asks of a file. *)
Definition hit (expected : option Z) (o : option bytes) : bool :=
  match o, expected with
  | None, _ => false
  | Some c, Some n => bool_decide (len c = n)
  | Some _, None => true
  end.

Lemma lookup_one_spec key expected s :
  wp (_lookup_one cfg (key, expected)) s
    (λ r s', frame (a_dfs s) (a_dfs s') ∧ a_l1 s' = a_l1 s ∧
       (r = hit expected (files s !! path key) ∨ (r = false ∧ ¬ up (a_dfs s)))) (λ _ _, False).
Proof.
  rw /_lookup_one. apply wp_bind, wp_except, wp_bind, wp_onDfs. wp_use (stat_size_spec (path key) (a_dfs s)).
  - intros r d (Hfr & ->). apply wp_ret. destruct (files s !! path key) as [c|]; cbn; [|by apply wp_ret; auto].
    destruct expected; apply wp_ret; auto.
  - intros e d (Hfr & Hup & rc & ->). cbn. apply wp_bind, wp_quiet; [keeps_tac|apply note_error_ok|]. intros ? s2 Hq.
    apply wp_ret, wp_ret. rw /quiet in Hq. injection Hq as _ _ _ _ _ _ _ Hd Hl1. rw -Hl1 -Hd. cbn. auto.
Qed.

(** A load reads the whole buffer, or leaves a short file's bytes in it, or
    fails because the file is not there or the backend is down. *)
Definition load_outcome (r : bool) (p : string) (obj : Z) s s' : Prop :=
  frame (a_dfs s) (a_dfs s') ∧
  match r with
  | true => ∃ c, files s !! p = Some c ∧ len (_cbuf obj s) ≤ len c ∧
      a_l1 s' = <[obj := take (length (_cbuf obj s)) c]> (a_l1 s)
  | false =>
      (a_l1 s' = a_l1 s ∧ (files s !! p = None ∨ ¬ up (a_dfs s))) ∨
      ∃ c, files s !! p = Some c ∧ len c < len (_cbuf obj s) ∧
        a_l1 s' = <[obj := c ++ drop (length c) (_cbuf obj s)]> (a_l1 s)
  end.

Lemma load_failed op e p obj s s1 :
  a_l1 s1 = a_l1 s → frame (a_dfs s) (a_dfs s1) → io_or_value_error e = true →
  (files s !! p = None ∨ ¬ up (a_dfs s)) →
  match (if io_or_value_error e then Some (let! _ := _note_error op e in ret false) else None) with
  | Some k => wp k s1 (λ r s', load_outcome r p obj s s') (λ _ _, False)
  | None => False
  end.
Proof.
  intros Hl Hfr -> Hf. apply wp_bind, wp_quiet; [keeps_tac|apply note_error_ok|]. intros ? s2 Hq.
  apply wp_ret. rw /quiet in Hq. injection Hq as _ _ _ _ _ _ _ Hd Hl1.
  rw /load_outcome -Hl1 -Hd. split; [done|]. by left.
Qed.

Lemma load_one_spec key obj s :
  wp (_load_one cfg (key, obj)) s
    (λ r s', load_outcome r (path key) obj s s') (λ _ _, False).
Proof.
  rw /_load_one. set (p := path key). apply wp_except, wp_bind, wp_ret. set (b := _cbuf obj s).
  apply wp_bind, wp_onDfs. wp_use (open_rdonly_spec p (a_dfs s)); last first.
  { intros e d (Hfr & rc & -> & He & Hu). apply load_failed; try done.
    destruct (decide (rc = ENOENT)) as [->|]; [by left; apply He|right; naive_solver]. }
  intros h d1 (c & Hc & Hf1 & Hn & Hh1 & Hu1). apply wp_bind, wp_finally, wp_bind, wp_onDfs. cbn.
  wp_use (read_obj_into_spec h 0 (len b) d1 p c);
    [by rw Hh1 lookup_insert_eq|by rw Hf1|done|apply len_nonneg| |].
  - intros r d2 (-> & Hf2 & Hh2 & Hu2). destruct (close_obj_spec h d2) as (Hf3 & Hh3 & Hu3).
    assert (frame (a_dfs s) (close_obj h d2)) as Hfr.
    { rw /frame Hf3 Hf2 Hf1 Hh3 Hh2 Hh1 delete_insert_id //. by split_and!; auto. }
    rw Z.add_0_l. pose proof (len_nonneg b). pose proof (len_nonneg c). rw len_slice; [lia..|].
    rw (proj2 (Z.ltb_ge (len b) _)); [lia|]. apply wp_bind, wp_modify, wp_ret.
    rw /load_outcome -/b. split; [done|].
    assert (a_l1 (set_dfs (close_obj h d2) (fill obj (slice c 0 (len b)) (set_dfs d2 (set_dfs d1 s)))) =
      <[obj := take (length b) c ++ drop (length c) b]> (a_l1 s)) as Hl1.
    { cbn. f_equal. rw /slice drop_0 Z.sub_0_r len_to_nat. f_equal. rw -/b length_take.
      replace (_cbuf obj (set_dfs d2 (set_dfs d1 s))) with b by done.
      destruct (Nat.min_spec (length b) (length c)) as [[? ->]|[? ->]]; [|done].
      rw !drop_ge //. lia. }
    case_bool_decide as El.
    + exists c. split_and!; [done|lia|]. etrans; [exact Hl1|]. rw (drop_ge b) ?app_nil_r //. unfold len in *. lia.
    + right. exists c. split_and!; [done|lia|]. etrans; [exact Hl1|]. rw take_ge //. unfold len in *. lia.
  - intros e d2 ((Hf2 & Hh2 & Hu2) & Hup & rc & -> & _). destruct (close_obj_spec h d2) as (Hf3 & Hh3 & Hu3).
    apply load_failed; cbn; [done| |done|].
    + rw /frame Hf3 Hf2 Hf1 Hh3 Hh2 Hh1 delete_insert_id //. by split_and!; auto.
    + right. naive_solver.
Qed.

Lemma len_overwritten o d : len (overwritten o d) = Z.max (len d) (len (default [] o)).
Proof. rw /overwritten /len length_app length_drop. lia. Qed.
Lemma overwritten_short o b :
  match o with Some c => len c < len b ∨ c = b | None => True end → overwritten o b = b.
Proof.
  rw /overwritten. intros Hst. rw drop_ge ?app_nil_r //.
  destruct o as [c|]; cbn; [|lia]. destruct Hst as [Hst| ->]; unfold len in *; lia.
Qed.
Lemma overwritten_torn o b k :
  match o with Some c => len c < len b ∨ c = b | None => True end →
  len b ≤ len (overwritten o (take k b)) → overwritten o (take k b) = b.
Proof.
  intros Hst Hl. destruct (decide (length b ≤ k)%nat) as [Hk|Hk].
  { rw take_ge //. by apply overwritten_short. }
  rw len_overwritten /len length_take in Hl. destruct o as [c|]; cbn in *; [|lia].
  destruct Hst as [Hst| ->]; [unfold len in *; lia|].
  rw /overwritten /= length_take Nat.min_l; [lia|]. apply take_drop.
Qed.

(** *** Whole tasks on a backend that answers *)
Lemma wp_and_keeps {A} (R : St → St → Prop) (m : M St A) s (Q : A → St → Prop) :
  keeps R m → wp m s Q (λ _ _, False) → wp m s (λ a s', Q a s' ∧ R s s') (λ _ _, False).
Proof. intros Hm HQ. specialize (Hm s). rw /wp in HQ |- *. by destruct (m s) as [[a|e] s']. Qed.

Lemma store_tally_ok t ks rs s (Q : tally → St → Prop) (E : exn → St → Prop) :
  Forall (λ r, 0 ≤ r) rs →
  (∀ t' s', t_ok t' = t_ok t → quiet s s' → Q t' s') → wp (store_tally t (zip ks rs)) s Q E.
Proof.
  intros Hrs. revert ks t s Q. induction Hrs as [|r rs Hr Hrs IH]; intros [|k ks] t s Q HQ; try by apply HQ.
  cbn [zip store_tally]. cbn. rw (proj2 (Z.ltb_ge r 0) Hr). destruct (r =? 0).
  - apply wp_bind, wp_modify, IH. intros t' s' Ht Hq. apply HQ; [done|]. by etrans.
  - apply IH. intros t' s' Ht Hq. apply HQ; [by rw Ht|done].
Qed.

Lemma store_tally_one key r s (Q : tally → St → Prop) (E : exn → St → Prop) :
  0 ≤ r → (∀ t s', t_ok t = true → t_total t = r → quiet s s' → Q t s') →
  wp (store_tally (mkTally true 0 [] []) [(key, r)]) s Q E.
Proof.
  intros Hr HQ. cbn [store_tally]. rw (proj2 (Z.ltb_ge r 0) Hr). destruct (Z.eqb_spec r 0) as [->|].
  - apply wp_bind, wp_modify, wp_ret. by apply HQ.
  - apply wp_ret. by apply HQ.
Qed.

(** What may be under a key before it is stored: nothing, a shorter (torn)
    file, or the object itself. *)
Definition storable s (x : ObjectKey * Z) : Prop :=
  match files s !! path x.1 with Some c => len c < len (_cbuf x.2 s) ∨ c = _cbuf x.2 s | None => True end.

Lemma store_pool_up l s :
  up (a_dfs s) → NoDup (path <$> l.*1) → Forall (storable s) l →
  wp (pool_map (_store_one cfg) l) s
    (λ rs s', (Forall (λ r, 0 ≤ r) rs ∧ up (a_dfs s') ∧ a_l1 s' = a_l1 s ∧
       (∀ x, x ∈ l → files s' !! path x.1 = Some (_cbuf x.2 s)))) (λ _ _, False).
Proof.
  intros Hup Hnd Hok.
  set (I i s' := up (a_dfs s') ∧ a_l1 s' = a_l1 s ∧
    ∀ j x, l !! j = Some x → files s' !! path x.1 =
      if bool_decide (j < i)%nat then Some (_cbuf x.2 s) else files s !! path x.1).
  eapply wp_mono; [apply (pool_map_ok _ _ _ I (λ r, 0 ≤ r))| |done].
  - split_and!; [done|done|]. by intros.
  - intros i [k o] s1 Hi (Hup1 & Hl1 & Hfs).
    pose proof (proj1 (Forall_lookup _ _) Hok i _ Hi) as Hst. rw /storable /= in Hst.
    pose proof (Hfs i _ Hi) as Hcur. rw bool_decide_false in Hcur; [lia|]. cbn in Hcur.
    assert (_cbuf o s1 = _cbuf o s) as Hb by by rw /_cbuf Hl1.
    assert (∀ s2, a_l1 s2 = a_l1 s1 → up (a_dfs s2) →
      files s2 !! path k = Some (_cbuf o s) → (∀ p, p ≠ path k → files s2 !! p = files s1 !! p) → I (S i) s2) as Hstep.
    { intros s2 Hl2 Hup2 Hk Hother. split_and!; [done|by rw Hl2|]. intros j x Hj.
      destruct (decide (j = i)) as [->|Hne].
      - rw Hi in Hj. injection Hj as <-. rw bool_decide_true; [lia|]. done.
      - rw Hother. { intros Heq. apply Hne. eapply (NoDup_lookup _ _ _ _ Hnd); rw !list_lookup_fmap ?Hj ?Hi //=.
          by rw Heq. }
        rw (Hfs j x Hj). by apply bool_decide_ext_if; lia. }
    wp_use store_one_spec; [|done]. intros r s2 (Hl2 & Hh2 & Hu2 & [(-> & Hf2 & Hlen)|[(-> & Hlen & Hf2)|(_ & Hbad & _)]]);
      [| |by destruct Hbad].
    + split; [done|]. apply Hstep; [done|auto| |by rw Hf2]. rw Hf2. rw Hb Hcur in Hlen. rw Hcur.
      destruct (files s !! path k) as [c|]; [|done]. injection Hlen as Hlen. f_equal. destruct Hst; [lia|done].
    + split; [apply len_nonneg|]. apply Hstep; [done|auto| |by intros p Hp; rw Hf2 lookup_insert_ne].
      rw Hf2 lookup_insert_eq Hb Hcur /overwritten. rw Hb Hcur in Hlen. f_equal.
      destruct (files s !! path k) as [c|]; cbn; [|by rw drop_nil app_nil_r].
      rw drop_ge ?app_nil_r //. destruct Hst as [Hst| ->]; unfold len in *; lia.
  - intros rs s' ((Hup' & Hl' & Hfs) & _ & Hrs). split_and!; [done|done|done|].
    intros x [j Hj]%list_elem_of_lookup. rw (Hfs j x Hj) bool_decide_true //. by eapply lookup_lt_Some.
Qed.

Lemma lookup_pool_up keys expected s :
  up (a_dfs s) →
  wp (lookup_phase1 cfg keys expected) s
    (λ hits s', hits = (λ k, hit expected (files s !! path k)) <$> keys ∧
       frame (a_dfs s) (a_dfs s') ∧ a_l1 s' = a_l1 s) (λ _ _, False).
Proof.
  intros Hup. rw /lookup_phase1.
  eapply wp_mono; [apply (pool_map_vals _ (λ x, hit x.2 (files s !! path x.1)) _ _
    (λ _ s', frame (a_dfs s) (a_dfs s') ∧ a_l1 s' = a_l1 s))| |done].
  - done.
  - intros i [k e] s1 _ (Hfr1 & Hl). wp_use lookup_one_spec; [|done].
    intros r s2 (Hfr & Hl2 & Hr). pose proof Hfr1 as (Hf & _ & Hu). rw Hf in Hr. split; [naive_solver|].
    split; [|by rw Hl2]. by eapply frame_trans.
  - intros ys s' [-> Hs']. split; [|done]. by rw -list_fmap_compose.
Qed.

(** The buffers of a load whose files are all there. *)
Lemma load_pool_up (f : ObjectKey * Z → M St bool) l s :
  up (a_dfs s) → NoDup l.*2 →
  Forall (λ x, ∃ c, files s !! path x.1 = Some c ∧ len c = len (_cbuf x.2 s)) l →
  (∀ x s, wp (f x) s (λ r s', load_outcome r (path x.1) x.2 s s') (λ _ _, False)) →
  wp (pool_map f l) s
    (λ oks s', oks = (λ _, true) <$> l ∧ frame (a_dfs s) (a_dfs s') ∧
       ∀ x, x ∈ l → files s !! path x.1 = Some (_cbuf x.2 s')) (λ _ _, False).
Proof.
  intros Hup Hnd Hok Hf.
  set (I i s' := frame (a_dfs s) (a_dfs s') ∧ ∀ j x, l !! j = Some x →
    if bool_decide (j < i)%nat then files s !! path x.1 = Some (_cbuf x.2 s') else _cbuf x.2 s' = _cbuf x.2 s).
  eapply wp_mono; [apply (pool_map_vals _ (λ _, true) _ _ I)| |done].
  - split; [done|]. by intros.
  - intros i [k o] s1 Hi (Hfr & Hbuf).
    destruct (proj1 (Forall_lookup _ _) Hok i _ Hi) as (c & Hc & Hlc). cbn in Hc, Hlc.
    pose proof (Hbuf i _ Hi) as Hcur. rw bool_decide_false in Hcur; [lia|]. cbn in Hcur.
    wp_use (Hf (k, o)); [|done]. cbn. intros r s2 [Hfr2 Hr]. pose proof Hfr as (Hff & Hfh & Hfu).
    rw Hff Hc Hcur in Hr. destruct r; last first.
    { exfalso. destruct Hr as [[_ [?|Hbad]]|(c' & [= <-] & Hlt & _)]; [done|by apply Hbad, Hfu|lia]. }
    destruct Hr as (c' & [= <-] & _ & Hl2). split; [done|]. split; [by eapply frame_trans|].
    assert (_cbuf o s2 = c) as Hbo.
    { rw /_cbuf Hl2 lookup_insert_eq /=. rw take_ge //. unfold len in *. lia. }
    assert (∀ o', o' ≠ o → _cbuf o' s2 = _cbuf o' s1) as Hbo'.
    { intros o' Ho'. by rw /_cbuf Hl2 lookup_insert_ne. }
    intros j x Hj. destruct (decide (j = i)) as [->|Hne].
    + rw Hi in Hj. injection Hj as <-. cbn. rw bool_decide_true; [lia|]. by rw Hbo.
    + rw Hbo'. { intros Heq. apply Hne. eapply (NoDup_lookup _ _ _ _ Hnd); rw list_lookup_fmap ?Hj ?Hi //=.
        by rw Heq. }
      pose proof (Hbuf j x Hj) as Hx. repeat case_bool_decide; try done; lia.
  - intros ys s' (-> & Hfr & Hbuf). split_and!; [done|done|].
    intros x [j Hj]%list_elem_of_lookup. pose proof (Hbuf j x Hj) as Hx.
    rw bool_decide_true in Hx; [by eapply lookup_lt_Some|done].
Qed.

Lemma execute_store_up keys objs tid s :
  up (a_dfs s) → NoDup (path <$> keys) → length objs = length keys → Forall (storable s) (zip keys objs) →
  wp (_execute_store cfg keys objs tid) s
    (λ _ s', up (a_dfs s') ∧ a_l1 s' = a_l1 s ∧
       (∀ x, x ∈ zip keys objs → files s' !! path x.1 = Some (_cbuf x.2 s)) ∧
       (∃ total, _completed_store s' !! tid = Some (true, total))) (λ _ _, False).
Proof.
  intros Hup Hnd Hl Hok. apply wp_bind, monotonic_spec. intros t0 s1 Hq1. destruct (quiet_io _ _ Hq1) as [Hd1 Hl1].
  apply wp_bind, wp_except, wp_bind. wp_use (store_pool_up (zip keys objs) s1).
  - by rw Hd1.
  - by rw fst_zip ?Hl.
  - eapply Forall_impl; [done|]. intros x. by rw /storable /_cbuf Hd1 Hl1.
  - intros rs s2 (Hrs & Hup2 & Hl2 & Hfs). apply store_tally_ok; [done|]. intros t s3 Ht Hq3. cbn in Ht.
    apply store_epilogue_spec. intros s4 (_ & _ & _ & _ & Hd4 & Hl4) Hcs _ _. fields.
    split_and!; [congruence|congruence| |].
    + intros x Hx. pose proof (Hfs x Hx) as Hx'. rw /_cbuf in Hx' |- *. congruence.
    + eexists. by rw Hcs lookup_insert_eq Ht.
  - done.
Qed.

Lemma execute_lookup_up keys expected tid s :
  up (a_dfs s) →
  wp (_execute_lookup cfg keys expected tid) s
    (λ _ s', frame (a_dfs s) (a_dfs s') ∧ a_l1 s' = a_l1 s ∧ _completed_store s' = _completed_store s ∧
       _completed_lookup s' !! tid = Some ((λ k, hit expected (files s !! path k)) <$> keys)) (λ _ _, False).
Proof.
  intros Hup. apply wp_bind, monotonic_spec. intros t0 s1 Hq1. destruct (quiet_io _ _ Hq1) as [Hd1 Hl1]. fields.
  apply wp_bind, wp_except, wp_bind.
  eapply wp_mono; [apply (wp_and_keeps same_book _ s1), lookup_pool_up| |done].
  { apply keeps_pool_map; [apply _|eauto with keeps]. }
  { congruence. }
  intros hits s2 ((-> & Hfr & Hl2) & Hb). apply wp_bind, wp_modify, wp_ret.
  apply lookup_epilogue_spec. intros s3 (_ & _ & _ & _ & Hd & Hl3) Hcl Hcs _.
  pose proof (book_lock_hits (zip keys ((λ k, hit expected (files s1 !! path k)) <$> keys)) s2) as Hlh.
  rw /book in Hlh. injection Hlh as _ _ Hcs2 _ _ _ _. rw lock_hits_io in Hd. rw lock_hits_l1 in Hl3. fields.
  split_and!; [by rw Hd -Hd1|congruence|congruence|].
  rw Hcl lookup_insert_eq bitmap_of_full ?length_fmap //. by rw Hd1.
Qed.

Lemma load_tally_ok acc l s : is_ok (fst (load_tally acc l s)) = true.
Proof. revert acc s. induction l as [|[[k o] []] l IH]; intros acc s; simpl; [done|apply IH..]. Qed.

(** The fair dispatcher adds nothing to items that do not raise. *)
Lemma fair_item_spec x s :
  wp (try_except (_load_one cfg x) (λ e, match e with Overflow _ => None | _ => Some (ret false) end)) s
    (λ r s', load_outcome r (path x.1) x.2 s s') (λ _ _, False).
Proof. apply wp_except. destruct x as [k o]. wp_use load_one_spec; [done|done]. Qed.

Lemma execute_load_up keys objs tid s :
  up (a_dfs s) → NoDup objs → length objs = length keys →
  Forall (λ x, ∃ c, files s !! path x.1 = Some c ∧ len c = len (_cbuf x.2 s)) (zip keys objs) →
  wp (_execute_load cfg keys objs tid) s
    (λ _ s', _completed_store s' = _completed_store s ∧ _completed_lookup s' = _completed_lookup s ∧
       _completed_load s' !! tid = Some (replicate (length keys) true) ∧
       (∀ x, x ∈ zip keys objs → files s !! path x.1 = Some (_cbuf x.2 s'))) (λ _ _, False).
Proof.
  intros Hup Hnd Hl Hok. apply wp_bind, monotonic_spec. intros t0 s1 Hq1. destruct (quiet_io _ _ Hq1) as [Hd1 Hl1].
  apply wp_bind, wp_except, wp_bind.
  eapply wp_mono; [apply (wp_and_keeps same_book _ s1 (λ oks s', oks = (λ _, true) <$> zip keys objs ∧
    frame (a_dfs s1) (a_dfs s') ∧ ∀ x, x ∈ zip keys objs → files s1 !! path x.1 = Some (_cbuf x.2 s')))| |done].
  { case_match; rw ?/fair_map; (apply keeps_pool_map; [apply _|keeps_tac]). }
  { assert (Forall (λ x, ∃ c, files s1 !! path x.1 = Some c ∧ len c = len (_cbuf x.2 s1)) (zip keys objs)) as Hok1.
    { eapply Forall_impl; [done|]. intros x. by rw /_cbuf Hd1 Hl1. }
    rw -Hd1 in Hup. rw -(snd_zip keys objs) in Hnd; [lia|].
    case_match; apply load_pool_up; try done; [apply fair_item_spec|].
    intros [k o] s'. apply load_one_spec. }
  intros oks s2 ((-> & Hfr & Hbuf) & Hb). apply wp_bind, wp_quiet; [keeps_tac|apply load_tally_ok|].
  intros [hk nb] s3 Hq3. apply wp_ret. apply load_epilogue_spec.
  intros s4 (_ & _ & _ & _ & Hd4 & Hl4) Hcl Hcs Hck. destruct (quiet_io _ _ Hq3) as [Hd3 Hl3]. fields.
  assert (length (zip keys objs) = length keys) as Hlz by (rw length_zip Hl; lia).
  split_and!; [congruence|congruence| |].
  - rw Hcl lookup_insert_eq bitmap_of_full ?length_fmap //. by rw (const_fmap _ _ true) // Hlz.
  - intros x Hx. rw -Hd1 (Hbuf x Hx) /_cbuf Hl4 Hl3 //.
Qed.
End Items.

(** ** Properties *)
Section Properties.
Context {D K : Type} `{LibDfsLaws D} `{Clock K}.
Context (cfg : DaosL2AdapterConfig).
Abbreviation St := (adapter D K).
Implicit Types s : St.
Abbreviation files s := (fs (a_dfs s)).
Abbreviation path := (_path cfg).

(** C1: store, look up, load.  On a backend that answers, after a store task of
    buffers of [n] bytes under keys with different paths, where each path held
    nothing, a shorter torn file or the object itself, a lookup for [n] bytes
    reports every key as a hit and a load into other buffers of [n] bytes
    reports every key as loaded and leaves in each buffer the bytes stored. *)
Theorem stored_objects_load_back keys src dst n t1 t2 t3 s :
  up (a_dfs s) → NoDup (path <$> keys) → NoDup dst →
  length src = length keys → length dst = length keys →
  Forall (storable cfg s) (zip keys src) →
  Forall (λ o, len (_cbuf o s) = n) src → Forall (λ o, len (_cbuf o s) = n) dst →
  wp (let! _ := _execute_store cfg keys src t1 in
      let! _ := _execute_lookup cfg keys (Some n) t2 in
      _execute_load cfg keys dst t3) s
    (λ _ s', (∃ total, _completed_store s' !! t1 = Some (true, total)) ∧
       _completed_lookup s' !! t2 = Some (replicate (length keys) true) ∧
       _completed_load s' !! t3 = Some (replicate (length keys) true) ∧
       ∀ i o o', src !! i = Some o → dst !! i = Some o' → _cbuf o' s' = _cbuf o s) (λ _ _, False).
Proof.
  intros Hup Hnp Hnd Hls Hld Hok Hsrc Hdst.
  apply wp_bind. wp_use (execute_store_up cfg keys src t1 s); [done..| |done].
  intros _ s1 (Hup1 & Hl1 & Hf1 & Hst1). apply wp_bind. wp_use (execute_lookup_up cfg keys (Some n) t2 s1); [done| |done].
  intros _ s2 (Hfr2 & Hl2 & Hcs2 & Hbm). destruct Hfr2 as (Hff & _ & Hu2).
  assert (∀ i k o, keys !! i = Some k → src !! i = Some o →
    files s1 !! path k = Some (_cbuf o s) ∧ len (_cbuf o s) = n) as Hkey.
  { intros i k o Hk Ho. split; [|exact (proj1 (Forall_lookup _ _) Hsrc i o Ho)].
    apply (Hf1 (k, o)). apply list_elem_of_lookup. exists i. by apply lookup_zip_Some. }
  wp_use (execute_load_up cfg keys dst t3 s2); [by auto|done|done| | |done].
  - apply Forall_lookup. intros i [k o'] [Hk Ho']%lookup_zip_Some. cbn in *.
    destruct (lookup_lt_is_Some_2 src i) as [o Ho]; [rw Hls; by eapply lookup_lt_Some|].
    destruct (Hkey i k o Hk Ho) as [Hk1 Hn]. exists (_cbuf o s). rw Hff Hk1 Hn /_cbuf Hl2 Hl1.
    split; [done|]. symmetry. exact (proj1 (Forall_lookup _ _) Hdst i o' Ho').
  - intros _ s3 (Hcs3 & Hcl3 & Hcl & Hbuf). split_and!; [by rw Hcs3 Hcs2|rw Hcl3 Hbm|done|].
    + f_equal. apply list_eq_same_length with (n := length keys); rw ?length_fmap ?length_replicate //.
      intros i x y Hi Hx Hy. apply lookup_replicate in Hy as [-> _]. rw list_lookup_fmap in Hx.
      destruct (keys !! i) as [k|] eqn:Hk; [|done]. injection Hx as <-.
      destruct (lookup_lt_is_Some_2 src i) as [o Ho]; [by rw Hls|].
      destruct (Hkey i k o Hk Ho) as [-> Hn]. by apply bool_decide_true.
    + intros i o o' Ho Ho'. destruct (lookup_lt_is_Some_2 keys i) as [k Hk]; [rw -Hls; by eapply lookup_lt_Some|].
      destruct (Hkey i k o Hk Ho) as [Hk1 _]. pose proof (Hbuf (k, o')) as Hx. cbn in Hx. rw Hff Hk1 in Hx.
      symmetry. assert (Some (_cbuf o s) = Some (_cbuf o' s3)) as [= ->]; [|done]. apply Hx.
      apply list_elem_of_lookup. exists i. by apply lookup_zip_Some.
Qed.

(** *** Completion *)
Lemma store_tally_total t l s : is_ok (fst (store_tally t l s)) = true.
Proof.
  revert t s. induction l as [|[k r] l IH]; intros t s; simpl; [done|].
  destruct (r <? 0); [apply IH|]. destruct (r =? 0); apply IH.
Qed.

Lemma pool_total {A B} (f : A → M St B) l s :
  (∀ x s, wp (f x) s (λ _ _, True) (λ _ _, False)) → wp (pool_map f l) s (λ _ _, True) (λ _ _, False).
Proof.
  intros Hf. eapply wp_mono; [apply (pool_map_ok f l s (λ _ _, True) (λ _, True)); [done|]|done|done].
  intros i x s' _ _. by wp_use Hf.
Qed.

Lemma execute_total tid t s : wp (execute cfg tid t) s (λ _ _, True) (λ _ _, False).
Proof.
  destruct t as [keys objs|keys expected|keys objs]; apply wp_bind, monotonic_spec; intros t0 s1 _;
    apply wp_bind, wp_except, wp_bind.
  - wp_use (pool_total (_store_one cfg)); [intros [k o] s'; by wp_use store_one_spec| |done].
    intros rs s2 _. apply wp_quiet; [keeps_tac|apply store_tally_total|]. intros t s3 _.
    by apply store_epilogue_spec.
  - wp_use (pool_total (_lookup_one cfg)); [intros [k o] s'; by wp_use lookup_one_spec| |done].
    intros hits s2 _. apply wp_bind, wp_modify, wp_ret. by apply lookup_epilogue_spec.
  - eapply (wp_mono _ _ (λ _ _, True) _ (λ _ _, False)); [|simpl|done].
    { case_match; apply pool_total; intros [k o] s'; [by wp_use fair_item_spec|by wp_use load_one_spec]. }
    intros oks s2 _. apply wp_bind, wp_quiet; [keeps_tac|apply load_tally_ok|]. intros [hk nb] s3 _.
    apply wp_ret. by apply load_epilogue_spec.
Qed.

(** The run ends, without an exception, in a state that satisfies [Q]. *)
Definition finishes (m : M St unit) s (Q : St → Prop) : Prop :=
  wp m s (λ _ s', Q s') (λ _ _, False).

Lemma finishes_mono (m : M St unit) s (Q Q' : St → Prop) :
  finishes m s Q → (∀ s', Q s' → Q' s') → finishes m s Q'.
Proof. rw /finishes. intros Hm HQ. eapply wp_mono; [exact Hm|by intros ? ? ?; apply HQ|done]. Qed.

(** C16: every task completes: whatever the backend answers, running a queued
    task ends without an exception, its result (for lookups and loads a bitmap
    with one bit per key) is published under its id, the in-flight count drops
    by one and only a lookup moves lock counts, by its hits. *)
Theorem every_task_completes tid t s :
  finishes (execute cfg tid t) s (completes tid t s).
Proof.
  rw /finishes.
  pose proof (wp_and _ _ _ _ _ _ (execute_books cfg tid t s) (execute_total tid t s)) as Hw.
  eapply wp_mono; [exact Hw|naive_solver|naive_solver].
Qed.

(** *** Partial writes *)


(** A store does not shrink a file.  Over a longer file the store task
    reports success and the number of bytes it wrote, but the file keeps its
    length, so a lookup for the size just stored reports a miss. *)
Theorem store_over_a_longer_file_never_hits key obj c t1 t2 s :
  up (a_dfs s) → files s !! path key = Some c → len (_cbuf obj s) < len c →
  wp (let! _ := _execute_store cfg [key] [obj] t1 in
      _execute_lookup cfg [key] (Some (len (_cbuf obj s))) t2) s
    (λ _ s', _completed_store s' !! t1 = Some (true, len (_cbuf obj s)) ∧
       _completed_lookup s' !! t2 = Some [false] ∧
       files s' !! path key = Some (overwritten (Some c) (_cbuf obj s)) ∧
       len (overwritten (Some c) (_cbuf obj s)) = len c) (λ _ _, False).
Proof.
  intros Hup Hc Hlt. set (b := _cbuf obj s) in *.
  apply wp_bind, wp_bind, monotonic_spec. intros t0 s1 Hq1. destruct (quiet_io _ _ Hq1) as [Hd1 Hl1].
  apply wp_bind, wp_except, wp_bind.
  set (I i s' := match i with O => s' = s1 | _ => up (a_dfs s') ∧
    files s' = <[path key := overwritten (Some c) b]> (files s1) end : Prop).
  eapply wp_mono; [apply (pool_map_vals (_store_one cfg) (λ _, len b) [(key, obj)] s1 I)| |done].
  { done. }
  { intros [|i] x s' Hx Hs'; [|done]. injection Hx as <-. cbn in Hs'. subst s'. wp_use store_one_spec; [|done].
    assert (_cbuf obj s1 = b) as -> by (by rw /_cbuf Hl1). rw /store_outcome Hd1 Hc /=.
    intros r s2 (_ & _ & Hu & [(_ & _ & [= Hbad])|[(-> & _ & Hf)|(_ & Hbad & _)]]); [lia| |done].
    split; [done|]. split; [auto|done]. }
  intros rs s2 [-> (Hup2 & Hf2)]. apply store_tally_one; [apply len_nonneg|].
  intros t s3 Hok Htot Hq3. destruct (quiet_io _ _ Hq3) as [Hd3 Hl3].
  apply store_epilogue_spec. intros s4 (_ & _ & _ & _ & Hd4 & Hl4) Hcs4 _ _.
  wp_use (execute_lookup_up cfg [key] (Some (len b)) t2 s4); [by rw Hd4 Hd3| |done].
  intros _ s5 ((Hf5 & _ & _) & _ & Hcs5 & Hcl5). rw Hd4 Hd3 Hf2 lookup_insert_eq in Hcl5.
  pose proof (len_overwritten (Some c) b) as Hlo. change (default [] (Some c)) with c in Hlo. split_and!.
  - by rw Hcs5 Hcs4 lookup_insert_eq Hok Htot.
  - rw Hcl5. cbn. rw bool_decide_false //. rw Hlo. lia.
  - by rw Hf5 Hd4 Hd3 Hf2 lookup_insert_eq.
  - rw Hlo. lia.
Qed.
End Properties.

(** ** Witnesses *)
Lemma stored_objects_load_back_witness :
  wp (let! _ := _execute_store (L2Demo.cfg "fair") [L2Demo.key Byte.x01; L2Demo.key Byte.x02] [1; 2] 0 in
      let! _ := _execute_lookup (L2Demo.cfg "fair") [L2Demo.key Byte.x01; L2Demo.key Byte.x02] (Some 3) 1 in
      _execute_load (L2Demo.cfg "fair") [L2Demo.key Byte.x01; L2Demo.key Byte.x02] [11; 12] 2)
    (L2Demo.start (MemDfs.healthy ∅))
    (λ _ s', _cbuf 11 s' = encode "abc" ∧ _cbuf 12 s' = encode "xyz") (λ _ _, False).
Proof.
  eapply wp_mono; [apply (stored_objects_load_back (L2Demo.cfg "fair")
    [L2Demo.key Byte.x01; L2Demo.key Byte.x02] [1; 2] [11; 12] 3 0 1 2 (L2Demo.start (MemDfs.healthy ∅)))| |done].
  - reflexivity.
  - apply (bool_decide_unpack _). vm_compute. exact I.
  - apply (bool_decide_unpack _). vm_compute. exact I.
  - reflexivity.
  - reflexivity.
  - repeat constructor.
  - repeat constructor.
  - repeat constructor.
  - intros _ s' (_ & _ & _ & Hb). split; [exact (Hb 0%nat 1 11 eq_refl eq_refl)|exact (Hb 1%nat 2 12 eq_refl eq_refl)].
Defined.


Lemma store_over_a_longer_file_never_hits_witness :
  let s := L2Demo.start (MemDfs.healthy {["/mp/org_model@00000003@0@01"%string := encode "longer"]}) in
  wp (let! _ := _execute_store (L2Demo.cfg "fifo") [L2Demo.key Byte.x01] [1] 0 in
      _execute_lookup (L2Demo.cfg "fifo") [L2Demo.key Byte.x01] (Some 3) 1) s
    (λ _ s', _completed_store s' !! 0 = Some (true, 3) ∧ _completed_lookup s' !! 1 = Some [false]) (λ _ _, False).
Proof.
  intros s. eapply wp_mono; [apply (store_over_a_longer_file_never_hits (L2Demo.cfg "fifo")
    (L2Demo.key Byte.x01) 1 (encode "longer") 0 1 s); reflexivity| |done].
  intros _ s' (Ha & Hb & _). split; [exact Ha|exact Hb].
Defined.

(** A lookup on a backend that fails its only call still completes. *)
Lemma every_task_completes_witness :
  let s := L2Demo.start (MemDfs.mkMem ∅ ∅ ∅ false [Some L2Demo.dead]) in
  finishes (execute (L2Demo.cfg "fifo") 5 (TLookup [L2Demo.key Byte.x01] (Some 3))) s
    (λ s', is_Some (_completed_lookup s' !! 5) ∧ _inflight s' = -1).
Proof.
  intros s. eapply finishes_mono; [exact (every_task_completes (L2Demo.cfg "fifo") 5 (TLookup [L2Demo.key Byte.x01] (Some 3)) s)|].
  intros s' (_ & _ & Hi & bm & _ & Hc & _). split; [rw Hc lookup_insert_eq; by eexists|exact Hi].
Defined.
