(* ===== verification/L2Health.v ===== *)
(** * Locks, deletion and health of the MP adapter

    Lock counts move by the hits of a lookup and back by [submit_unlock];
    [delete] spares locked keys; what [_healthy_locked] and the status loop
    report.  The locks and the deletion are compared with an abstract view, the
    number of outstanding locks per key. *)
From Stdlib Require Import QArith.
From S2P Require Import Prelude DfsBinding L2Config L2Adapter L2Tasks.
Open Scope Z_scope.
Open Scope py_scope.

(** ** Lock counts *)
Definition count (m : gmap ObjectKey Z) (k : ObjectKey) : Z := default 0 (m !! k).

Lemma count_pos m k : locks_pos m → 0 ≤ count m k.
Proof. intros Hm. rw /count. destruct (m !! k) as [n|] eqn:E; cbn; [|lia]. specialize (Hm k n E). cbn in Hm. lia. Qed.

(** Positive counts are determined by the counting function. *)
Lemma locks_ext m m' : locks_pos m → locks_pos m' → (∀ k, count m k = count m' k) → m = m'.
Proof.
  intros Hm Hm' Heq. apply map_eq. intros k. specialize (Heq k). rw /count in Heq.
  destruct (m !! k) as [n|] eqn:E, (m' !! k) as [n'|] eqn:E'; cbn in Heq; try done; [by f_equal| |].
  - specialize (Hm k n E). cbn in Hm. lia.
  - specialize (Hm' k n' E'). cbn in Hm'. lia.
Qed.

Lemma count_insert m k n k' : count (<[k := n]> m) k' = if bool_decide (k = k') then n else count m k'.
Proof. rw /count. case_bool_decide as E; [subst; by rw lookup_insert_eq|by rw lookup_insert_ne]. Qed.
Lemma count_delete m k k' : count (delete k m) k' = if bool_decide (k = k') then 0 else count m k'.
Proof. rw /count. case_bool_decide as E; [subst; by rw lookup_delete_eq|by rw lookup_delete_ne]. Qed.

Lemma count_lock1 m k b k' : count (lock1 m (k, b)) k' = count m k' + (if b && bool_decide (k = k') then 1 else 0).
Proof.
  rw /lock1. destruct b; cbn; [|lia]. rw count_insert. case_bool_decide as E; [|lia]. by subst.
Qed.
Lemma count_unlock1 m k k' :
  locks_pos m → count (unlock1 m k) k' = Z.max 0 (count m k' - (if bool_decide (k = k') then 1 else 0)).
Proof.
  intros Hm. pose proof (count_pos m k' Hm). rw /unlock1 -/(count m k).
  destruct (count m k - 1 <=? 0) eqn:E; rw ?count_delete ?count_insert; case_bool_decide; subst; lia.
Qed.

(** The keys a client unlocks for a bitmap: those whose bit is set. *)
Fixpoint set_keys (l : list (ObjectKey * bool)) : list ObjectKey :=
  match l with
  | [] => []
  | (k, b) :: l => if b then k :: set_keys l else set_keys l
  end.

(** How often a key occurs. *)
Fixpoint occ (k : ObjectKey) (l : list ObjectKey) : Z :=
  match l with
  | [] => 0
  | k' :: l => (if bool_decide (k' = k) then 1 else 0) + occ k l
  end.
Lemma occ_nonneg k l : 0 ≤ occ k l.
Proof. induction l as [|k' l IH]; cbn; [lia|]. case_bool_decide; lia. Qed.

Lemma count_lock_all m l k : count (foldl lock1 m l) k = count m k + occ k (set_keys l).
Proof.
  revert m. induction l as [|[k' b] l IH]; intros m; cbn; [lia|]. rw IH count_lock1.
  destruct b; cbn; [|lia]. case_bool_decide; lia.
Qed.
Lemma count_unlock_all m l k :
  locks_pos m → count (foldl unlock1 m l) k = Z.max 0 (count m k - occ k l).
Proof.
  revert m. induction l as [|k' l IH]; intros m Hm; cbn; [pose proof (count_pos m k Hm); lia|].
  rw IH; [by apply unlock1_pos|]. rw count_unlock1 //. pose proof (occ_nonneg k l). case_bool_decide; lia.
Qed.

Lemma unlock_undoes_lock m l : locks_pos m → foldl unlock1 (foldl lock1 m l) (set_keys l) = m.
Proof.
  intros Hm. assert (locks_pos (foldl lock1 m l)) by (apply foldl_pos; [apply lock1_pos|done]).
  apply locks_ext; [by apply foldl_pos; [apply unlock1_pos|]|done|]. intros k.
  rw count_unlock_all // count_lock_all. pose proof (count_pos m k Hm). lia.
Qed.

Section Health.
Context {D K : Type} `{LibDfsLaws D} `{Clock K}.
Context (cfg : DaosL2AdapterConfig).
Abbreviation St := (adapter D K).
Implicit Types s : St.
Abbreviation files s := (fs (a_dfs s)).
Abbreviation path := (_path cfg).

(** C31: locks balance.  Whatever the backend answers, a lookup task followed by
    the client fetching its bitmap and unlocking the keys whose bits are set
    leaves every lock count as it was, also when keys repeat. *)
Theorem unlock_balances_lookup keys expected tid s :
  locks_pos (_locks s) →
  wp (let! _ := _execute_lookup cfg keys expected tid in
      let! bm := query_lookup_and_lock_result tid in
      submit_unlock (set_keys (zip keys (default [] bm)))) s
    (λ _ s', _locks s' = _locks s) (λ _ _, False).
Proof.
  intros Hpos. apply wp_bind.
  pose proof (wp_and _ _ _ _ _ _ (execute_books cfg tid (TLookup keys expected) s)
    (execute_total cfg tid (TLookup keys expected) s)) as Hw.
  eapply wp_mono; [exact Hw| |naive_solver].
  intros _ s1 [(_ & _ & _ & bm & _ & Hcl & _ & _ & Hl) _].
  rw /wp /bind /query_lookup_and_lock_result /submit_unlock /modify. cbn.
  rw Hcl lookup_insert_eq Hl. cbn. by apply unlock_undoes_lock.
Qed.

(** ** Deletion *)
Lemma delete_one_spec acc key s :
  wp (delete_one cfg acc key) s
    (λ _ s', (up (a_dfs s) → up (a_dfs s')) ∧ _locks s' = _locks s ∧
       (files s' = files s ∨ files s' = delete (path key) (files s)) ∧
       (up (a_dfs s) → files s' = delete (path key) (files s))) (λ _ _, False).
Proof.
  rw /delete_one. apply wp_except, wp_bind, wp_onDfs. eapply wp_mono; [apply (stat_size_spec (path key) (a_dfs s))| |]; last first.
  { intros e d ((Hf & Hh & Hu) & Hup & rc & ->). cbn. apply wp_bind, wp_quiet; [keeps_tac|apply note_error_ok|].
    intros ? s2 Hq. apply wp_ret. destruct (quiet_io _ _ Hq) as [Hd _]. fields. rw Hd. cbn in *.
    split_and!; [by intros|congruence|by left|by intros]. }
  intros r d ((Hf & Hh & Hu) & ->). destruct (files s !! path key) as [c|] eqn:Ec.
  - apply wp_bind, wp_onDfs. eapply wp_mono; [apply (remove_spec (path key) d)| |].
    + intros b d2 (Hh2 & Hu2 & -> & Hf2). apply wp_ret. cbn. rw Hf2 Hf. split_and!; auto.
    + intros e d2 ((Hf2 & Hh2 & Hu2) & Hup & rc & ->). cbn.
      apply wp_bind, wp_quiet; [keeps_tac|apply note_error_ok|].
      intros ? s2 Hq. apply wp_ret. destruct (quiet_io _ _ Hq) as [Hd _]. fields. rw Hd. cbn in *.
      split_and!; [auto|congruence|left; by rw Hf2|]. intros Hs. by destruct (Hup (Hu Hs)).
  - apply wp_ret. cbn. rw Hf. split_and!; [auto|done|by left|]. intros _. by rw delete_id.
Qed.

Lemma delete_loop_spec acc todo s :
  wp (delete_loop cfg acc todo) s
    (λ _ s', (up (a_dfs s) → up (a_dfs s')) ∧
       (∀ p, p ∉ path <$> todo → files s' !! p = files s !! p) ∧
       (up (a_dfs s) → ∀ k, k ∈ todo → files s' !! path k = None)) (λ _ _, False).
Proof.
  revert acc s. induction todo as [|key todo IH]; intros acc s; cbn [delete_loop].
  { apply wp_ret. split_and!; [done|done|]. intros _ k Hk. by apply elem_of_nil in Hk. }
  apply wp_bind. eapply wp_mono; [apply delete_one_spec| |done]. intros acc1 s1 (Hu1 & _ & Hf1 & Hd1).
  eapply wp_mono; [apply IH| |done]. intros acc2 s2 (Hu2 & Hf2 & Hd2). split_and!; [auto| |].
  - intros p Hp. cbn in Hp. apply not_elem_of_cons in Hp as [Hp Hp']. rw Hf2 //.
    destruct Hf1 as [->| ->]; [done|]. by rw lookup_delete_ne.
  - intros Hup k Hk. apply elem_of_cons in Hk as [->|Hk]; [|by apply Hd2; auto].
    destruct (decide (path key ∈ path <$> todo)) as [Hin|Hout].
    + apply list_elem_of_fmap in Hin as (k' & -> & Hk'). by apply Hd2; auto.
    + rw Hf2 // Hd1 //. apply lookup_delete_eq.
Qed.

(** What [delete] does, in terms of the lock counts. *)
Lemma delete_spares keys s :
  wp (delete_ cfg keys) s
    (λ _ s',
       (∀ p, (∀ k, k ∈ keys → count (_locks s) k = 0 → path k ≠ p) → files s' !! p = files s !! p) ∧
       (up (a_dfs s) → ∀ k, k ∈ keys → count (_locks s) k = 0 → files s' !! path k = None))
    (λ _ _, False).
Proof.
  rw /delete_. apply wp_bind, wp_ret. apply wp_bind. eapply wp_mono; [apply delete_loop_spec| |done].
  intros [deleted sizes] s1 (_ & Hf & Hd).
  assert (∀ s2, quiet s1 s2 →
    (∀ p, (∀ k, k ∈ keys → count (_locks s) k = 0 → path k ≠ p) → files s2 !! p = files s !! p) ∧
    (up (a_dfs s) → ∀ k, k ∈ keys → count (_locks s) k = 0 → files s2 !! path k = None)) as Hend.
  { intros s2 Hq. destruct (quiet_io _ _ Hq) as [-> _]. split.
    - intros p Hp. apply Hf. intros (k & -> & Hk)%list_elem_of_fmap.
      apply list_elem_of_filter in Hk as [Hk Hin]. by apply (Hp k).
    - intros Hup k Hk Hc. apply Hd; [done|]. by apply list_elem_of_filter. }
  case_bool_decide; [by apply wp_ret, Hend|].
  apply wp_bind, wp_modify, wp_bind, wp_quiet; [keeps_tac|apply note_ok_ok|].
  intros ? s2 Hq. apply wp_modify, Hend. etrans; [|etrans; [exact Hq|]]; done.
Qed.

(** C35: [delete] removes exactly the unlocked keys: the file of a locked key
    stays, unless an unlocked key of the batch has the same path, and so does
    every file that no key of the batch names; when the backend answers, the
    files of all unlocked keys of the batch are gone.  It never raises. *)
Theorem delete_spares_locked_keys keys s :
  wp (delete_ cfg keys) s
    (λ _ s',
       (∀ p, (∀ k, k ∈ keys → count (_locks s) k = 0 → path k ≠ p) → files s' !! p = files s !! p) ∧
       (up (a_dfs s) → ∀ k, k ∈ keys → count (_locks s) k = 0 → files s' !! path k = None))
    (λ _ _, False).
Proof. apply delete_spares. Qed.

(** A lock is taken only after the object was seen, so a [delete] that runs
    between the stat calls of a lookup and its locked section removes an object
    the lookup then reports as a hit and locks: the bit is set, the key is
    locked, and the file is gone. *)
Theorem delete_between_stat_and_lock key c s :
  up (a_dfs s) → files s !! path key = Some c → count (_locks s) key = 0 →
  wp (let! hits := lookup_phase1 cfg [key] (Some (len c)) in
      let! _ := delete_ cfg [key] in
      lookup_phase2 [key] hits) s
    (λ bm s', bm = [true] ∧ count (_locks s') key = 1 ∧ files s' !! path key = None) (λ _ _, False).
Proof.
  intros Hup Hc Hl. apply wp_bind.
  eapply wp_mono; [apply (wp_and_keeps same_book), (lookup_pool_up cfg [key] (Some (len c)) s Hup)| |done].
  { apply keeps_pool_map; [apply _|eauto with keeps]. }
  intros hits s1 ((-> & (Hf1 & _ & Hu1) & _) & Hb). cbn [fmap list_fmap]. rw Hc. cbn [hit]. rw bool_decide_true //.
  assert (_locks s1 = _locks s) as Hl1 by (fields; congruence).
  apply wp_bind. eapply wp_mono; [apply (wp_and_keeps same_book), delete_spares| |done]; [apply book_delete|].
  intros _ s2 ((_ & Hgone) & Hb2). assert (_locks s2 = _locks s) as Hl2 by (fields; congruence).
  apply wp_bind, wp_modify, wp_ret. split_and!; [done| |].
  - cbn. rw Hl2 count_insert bool_decide_true // -/(count (_locks s) key) Hl. done.
  - cbn. apply Hgone; [by apply Hu1|set_solver|by rw Hl1].
Qed.
End Health.

(** ** Health *)
Section Outage.
Context {D K : Type} `{LibDfsLaws D} `{TickingClock K}.
Context (cfg : DaosL2AdapterConfig).
Abbreviation St := (adapter D K).
Implicit Types s : St.

(** The time stamps of the statistics are readings of the clock. *)
Definition stamped s : Prop :=
  0 ≤ last_ok (_stats s) ≤ now (a_clk s) ∧ 0 ≤ last_error_at (_stats s) ≤ now (a_clk s).
Definition hits s : Z := counter "lookup_hits" (_stats s).
(** Time and the hit counter only grow. *)
Definition later s s' : Prop := (stamped s → stamped s') ∧ hits s ≤ hits s'.
#[export] Instance later_preorder : PreOrder later.
Proof. rw /later. split; [by intros s|]. intros s1 s2 s3 [H11 H12] [H21 H22]. split; [auto|lia]. Qed.

Lemma later_onDfs {X} (m : M D X) : keeps later (onDfs m).
Proof. intros s. rw /onDfs. by destruct (m (a_dfs s)). Qed.
Lemma later_monotonic : keeps later monotonic.
Proof.
  intros s. rw /monotonic. destruct (time_monotonic (a_clk s)) as [t k] eqn:E.
  apply monotonic_ticks in E. split; [|done]. intros [? ?]. split; cbn [snd a_clk _stats set_clk set_io]; lia.
Qed.
Lemma later_note_ok : keeps later _note_ok.
Proof.
  intros s. rw /_note_ok. destruct (time_time (a_clk s)) as [t k] eqn:E.
  pose proof (now_nonneg (a_clk s)). apply time_ticks in E as [? ?]. split; [|done]. intros [? ?].
  split; cbn [snd a_clk _stats set_clk set_io set_stats set_book last_ok last_error_at]; lia.
Qed.
Lemma later_note_error op e : keeps later (_note_error op e).
Proof.
  intros s. rw /_note_error. destruct (time_time _) as [t k] eqn:E.
  apply time_ticks in E as [E1 E2]. change (a_clk (add_stat "errors" 1 s)) with (a_clk s) in E1.
  pose proof (now_nonneg (a_clk s)). split.
  - intros [? ?]. split; cbn [snd a_clk _stats set_clk set_io set_stats set_book last_ok last_error_at add_stat]; lia.
  - rw /hits /counter. cbn. by rw lookup_insert_ne.
Qed.
Lemma later_lock_hits l : keeps later (modify (lock_hits l)).
Proof.
  intros s. cbn. revert s. induction l as [|[k b] l IH]; intros s; cbn; [done|].
  destruct b; (etrans; [|apply IH]); split; try done.
  - rw {2}/hits /counter. cbn. rw lookup_insert_eq. cbn. rw /hits. lia.
  - rw /hits /counter. cbn. by rw lookup_insert_ne.
Qed.
#[local] Hint Resolve later_onDfs later_monotonic later_note_ok later_note_error later_lock_hits : keeps.

Lemma later_lookup_body keys expected : keeps later (lookup_body cfg keys expected).
Proof.
  rw /lookup_body /lookup_phase2 /lookup_phase1.
  apply keeps_except; [apply _| |keeps_tac]. apply keeps_bind; [apply _| |keeps_tac].
  apply keeps_pool_map; [apply _|]. intros x. rw /_lookup_one. keeps_tac.
Qed.

(** The health report forgets an outage.  Once any lookup has ever hit, a
    lookup task leaves the adapter healthy whatever happens in it, also when
    every stat call of the task failed: the success stamp is renewed whenever
    the cumulative hit counter is not zero. *)
Theorem lookup_renews_health keys expected tid s :
  stamped s → 0 < hits s →
  wp (_execute_lookup cfg keys expected tid) s
    (λ _ s', _healthy_locked (_stats s') = Some true) (λ _ _, False).
Proof.
  intros Hst Hh. pose proof (execute_total cfg tid (TLookup keys expected) s) as Ht. cbn [execute] in Ht.
  assert (wp (_execute_lookup cfg keys expected tid) s
    (λ _ s', _healthy_locked (_stats s') = Some true) (λ _ _, True)) as Hq; last first.
  { pose proof (wp_and _ _ _ _ _ _ Hq Ht) as Hw. eapply wp_mono; [exact Hw|naive_solver|naive_solver]. }
  apply wp_bind, (wp_along later); [keeps_tac| |done]. intros t0 s1 [Hs1 Hh1].
  apply wp_bind, (wp_along later); [apply later_lookup_body| |done]. intros bm s2 [Hs2 Hh2].
  apply wp_bind, (wp_along later); [keeps_tac| |done]. intros t1 s3 [Hs3 Hh3].
  apply wp_bind, wp_modify, wp_bind, wp_modify, wp_bind, wp_modify, wp_bind, wp_ret.
  apply wp_bind. match goal with |- wp (if negb (?h =? 0) then _ else _) _ _ _ =>
    assert (h = hits s3) as -> by (rw /hits /counter; cbn; by rw !lookup_insert_ne) end.
  rw (proj2 (Z.eqb_neq (hits s3) 0)); [lia|]. cbn [negb].
  rw {1}/wp /_note_ok. cbn [a_clk set_stats set_book add_stat set_done].
  destruct (time_time (a_clk s3)) as [t k] eqn:E. apply time_ticks in E as [Ht' _].
  apply wp_bind, wp_modify, wp_modify. destruct (Hs3 (Hs2 (Hs1 Hst))) as [[? ?] [? ?]].
  pose proof (now_nonneg (a_clk s3)). rw /_healthy_locked. cbn.
  rw (proj2 (Z.eqb_neq t 0)); [lia|]. cbn. destruct (_ =? 0); [done|].
  f_equal. apply Z.ltb_lt. lia.
Qed.
End Outage.

(** ** The status loop *)

(** An outage is reported on every tick, and announced once: a tick whose
    status is unhealthy logs the unhealthy status, and it carries the
    announcement exactly when the tick before it was not unhealthy; a recovery
    is announced exactly at the first healthy tick after an unhealthy one. *)
Theorem outage_is_reported_every_tick ticks last was i st out :
  ticks !! i = Some st → _status_loop ticks last was !! i = Some out →
  let before := match i with O => was | S j => ticks !! j ≫= healthy end in
  (healthy st = Some false → LStatusUnhealthy ∈ out) ∧
  (LUnhealthy ∈ out ↔ healthy st = Some false ∧ before ≠ Some false) ∧
  (LRecovered ∈ out ↔ healthy st = Some true ∧ before = Some false).
Proof.
  revert last was i. induction ticks as [|st0 ticks IH]; intros last was i Hi Ho; [done|].
  cbn [_status_loop] in Ho. destruct (status_tick st0 last was) as [out0 [last' was']] eqn:E.
  assert (was' = healthy st0) as ->.
  { rw /status_tick in E. repeat case_bool_decide; by simplify_eq/=. }
  destruct i as [|i]; cbn in Hi, Ho; simplify_eq.
  - cbn. rw /status_tick in E. repeat case_bool_decide; simplify_eq/=;
      rw ?elem_of_cons ?elem_of_nil; naive_solver.
  - specialize (IH last' (healthy st0) i Hi Ho). destruct i as [|i]; cbn in *; exact IH.
Qed.

(** ** Witnesses *)
Abbreviation demo_key := (L2Demo.key Byte.x01).
Abbreviation demo_path := "/mp/org_model@00000003@0@01"%string.

Lemma unlock_balances_lookup_witness :
  let s := L2Demo.start (MemDfs.healthy {[demo_path := encode "abc"]}) in
  wp (let! _ := _execute_lookup (L2Demo.cfg "fifo") [demo_key; demo_key] (Some 3) 0 in
      let! bm := query_lookup_and_lock_result 0 in
      submit_unlock (set_keys (zip [demo_key; demo_key] (default [] bm)))) s
    (λ _ s', _locks s' = ∅) (λ _ _, False).
Proof.
  intros s. apply (unlock_balances_lookup (L2Demo.cfg "fifo") [demo_key; demo_key] (Some 3) 0 s).
  apply map_Forall_empty.
Defined.

(** One key locked, one not. *)
Lemma delete_spares_locked_keys_witness :
  let s := set_locks {[demo_key := 1]} (L2Demo.start (MemDfs.healthy
    (<[demo_path := encode "abc"]> {["/mp/org_model@00000003@0@02"%string := encode "xyz"]}))) in
  wp (delete_ (L2Demo.cfg "fifo") [demo_key; L2Demo.key Byte.x02]) s
    (λ _ s', fs (a_dfs s') !! demo_path = Some (encode "abc") ∧
             fs (a_dfs s') !! "/mp/org_model@00000003@0@02"%string = None) (λ _ _, False).
Proof.
  intros s. eapply wp_mono; [exact (delete_spares_locked_keys (L2Demo.cfg "fifo") [demo_key; L2Demo.key Byte.x02] s)| |done].
  intros _ s' [Hk Hd]. split.
  - etrans; [apply Hk|reflexivity]. intros k [->|[->|[]%elem_of_nil]%elem_of_cons]%elem_of_cons Hc.
    + vm_compute in Hc. discriminate Hc.
    + vm_compute. intros [=].
  - apply (Hd eq_refl (L2Demo.key Byte.x02)); [by right; left|vm_compute; reflexivity].
Defined.

Lemma delete_between_stat_and_lock_witness :
  let s := L2Demo.start (MemDfs.healthy {[demo_path := encode "abc"]}) in
  wp (let! hits := lookup_phase1 (L2Demo.cfg "fifo") [demo_key] (Some 3) in
      let! _ := delete_ (L2Demo.cfg "fifo") [demo_key] in
      lookup_phase2 [demo_key] hits) s
    (λ bm s', bm = [true] ∧ fs (a_dfs s') !! demo_path = None) (λ _ _, False).
Proof.
  intros s. eapply wp_mono; [exact (delete_between_stat_and_lock (L2Demo.cfg "fifo") demo_key (encode "abc") s
    eq_refl eq_refl eq_refl)| |done].
  intros bm s' (-> & _ & Hf). split; [reflexivity|exact Hf].
Defined.

(** An adapter that hit once, now in front of a backend that fails every call. *)
Lemma lookup_renews_health_witness :
  let s := add_stat "lookup_hits" 1 (L2Demo.start (MemDfs.mkMem ∅ ∅ ∅ false [Some L2Demo.dead])) in
  wp (_execute_lookup (L2Demo.cfg "fifo") [demo_key] (Some 3) 0) s
    (λ _ s', _healthy_locked (_stats s') = Some true) (λ _ _, False).
Proof.
  intros s. apply (lookup_renews_health (L2Demo.cfg "fifo") [demo_key] (Some 3) 0 s).
  - split; split; vm_compute; intros [=].
  - vm_compute. reflexivity.
Defined.

Lemma outage_is_reported_every_tick_witness :
  let tick h := mkStatus ∅ 0 0 None h None in
  _status_loop [tick (Some true); tick (Some false); tick (Some false); tick (Some true)] None None =
    [[LStatus]; [LUnhealthy; LStatusUnhealthy]; [LStatusUnhealthy]; [LRecovered]] ∧
  LStatusUnhealthy ∈ [LStatusUnhealthy].
Proof.
  intros tick. split; [vm_compute; reflexivity|].
  exact (proj1 (outage_is_reported_every_tick
    [tick (Some true); tick (Some false); tick (Some false); tick (Some true)] None None 2
    (tick (Some false)) [LStatusUnhealthy] eq_refl eq_refl) eq_refl).
Defined.
