(* ===== verification/FairDispatcher.v ===== *)
(** * Round-robin dispatch of load items: [_FairDispatcher] of [mp/l2_adapter.py]

    The dispatcher thread takes one item from each active task in turn, waits
    for an I/O slot and hands the item to the pool.  [run] registers a task and
    blocks until its items are done.  The state is that of the object: the
    queues by token, the round-robin order and position, the free slots, the
    item the dispatcher thread holds while it waits for a slot, the items on the
    pool, and for every call of [run] its result list and countdown.  The
    threads interleave as a step relation. *)
From S2P Require Import Prelude.
Open Scope Z_scope.
Open Scope py_scope.

Section Fair.
Context {Item : Type} (fn : Item → res bool).

(** [_one]: what ends up in the result slot of an item.  What [except
    Exception] does not catch leaves the slot at None. *)
Definition value (x : Item) : option bool :=
  match fn x with Ok b => Some b | Raise e => if is_exception e then Some false else None end.

(** The locals of a call of [run]. *)
Record rstate := mkRun { r_items : list Item; results : list (option bool); left_ : Z; done_ : bool }.

Abbreviation entry := (nat * Item)%type.
Record fair := mkFair {
  _queues : gmap Z (list entry); _order : list Z; _rr : Z; _next : Z;
  _slots : Z; held : option (Z * entry); running : list (Z * entry);
  runs : gmap Z rstate; _stop : bool }.

Definition init_fair (slots : Z) : fair := mkFair ∅ [] 0 0 slots None [] ∅ false.

(** [enumerate(items)] *)
Definition enumerate (items : list Item) : list entry := imap pair items.

(** [run], up to the wait: an empty batch returns at once and is not registered. *)
Definition run_enter (items : list Item) (s : fair) : fair :=
  if bool_decide (items = []) then s else
  let token := _next s in
  mkFair (<[token := enumerate items]> (_queues s)) (_order s ++ [token]) (_rr s) (token + 1)
    (_slots s) (held s) (running s)
    (<[token := mkRun items (replicate (length items) None) (len items) false]> (runs s)) (_stop s).

(** The locked part of one turn of [_loop]: the next item in round-robin order. *)
Definition pick (qs : gmap Z (list entry)) (order : list Z) (rr : Z)
  : option (Z * entry * (gmap Z (list entry) * list Z * Z)) :=
  match order with
  | [] => None
  | _ =>
      let rr := rr mod len order in
      match order !! Z.to_nat rr with
      | None => None
      | Some token =>
          match qs !! token with
          | Some (e :: q) =>
              match q with
              | [] => Some (token, e, (delete token qs, delete (Z.to_nat rr) order, rr))
              | _ => Some (token, e, (<[token := q]> qs, order, rr + 1))
              end
          | _ => None
          end
      end
  end.
Definition loop_pick (s : fair) : option fair :=
  match held s with
  | Some _ => None
  | None =>
      match pick (_queues s) (_order s) (_rr s) with
      | Some (token, e, (qs, order, rr)) =>
          Some (mkFair qs order rr (_next s) (_slots s) (Some (token, e)) (running s) (runs s) (_stop s))
      | None => None
      end
  end.

(** [self._slots.acquire()] and the submission to the pool. *)
Definition loop_submit (s : fair) : option fair :=
  match held s with
  | Some e =>
      if 0 <? _slots s
      then Some (mkFair (_queues s) (_order s) (_rr s) (_next s) (_slots s - 1) None (running s ++ [e]) (runs s) (_stop s))
      else None
  | None => None
  end.

(** [_one] on a pool thread, for the [j]-th running item. *)
Definition fill (i : nat) (x : Item) (r : rstate) : rstate :=
  mkRun (r_items r) (<[i := value x]> (results r)) (left_ r - 1) (done_ r || (left_ r - 1 =? 0)).
Definition _one (j : nat) (s : fair) : option fair :=
  match running s !! j with
  | Some (token, (i, x)) =>
      Some (mkFair (_queues s) (_order s) (_rr s) (_next s) (_slots s + 1) (held s) (delete j (running s))
        (alter (fill i x) token (runs s)) (_stop s))
  | None => None
  end.

(** [close]: the dispatcher thread ends at its next look at [_stop]. *)
Definition close (s : fair) : fair :=
  mkFair (_queues s) (_order s) (_rr s) (_next s) (_slots s) (held s) (running s) (runs s) true.

Inductive fstep : fair → fair → Prop :=
| f_close s : fstep s (close s)
| f_run items s : fstep s (run_enter items s)
| f_pick s s' : _stop s = false → loop_pick s = Some s' → fstep s s'
| f_submit s s' : loop_submit s = Some s' → fstep s s'
| f_one j s s' : _one j s = Some s' → fstep s s'.

(** ** The invariant *)

(** The entries of a task that are not done: queued, held or running. *)
Definition flying (s : fair) : list (Z * entry) := option_list (held s) ++ running s.
Definition mine (t : Z) (l : list (Z * entry)) : list entry := snd <$> filter (λ e, e.1 = t) l.
Definition ents (s : fair) (t : Z) : list entry := default [] (_queues s !! t) ++ mine t (flying s).

Record run_ok (es : list entry) (r : rstate) : Prop := mkRunOk {
  ro_nodup : NoDup es.*1;
  ro_len : length (results r) = length (r_items r);
  ro_left : left_ r = len es;
  ro_done : done_ r = bool_decide (left_ r = 0);
  ro_vals : ∀ i x, r_items r !! i = Some x → i ∉ es.*1 → results r !! i = Some (value x);
  ro_ents : ∀ i x, (i, x) ∈ es → r_items r !! i = Some x }.

Record finv (n : Z) (s : fair) : Prop := mkFinv {
  fi_runs : ∀ t r, runs s !! t = Some r → run_ok (ents s t) r;
  fi_known : ∀ t, ents s t ≠ [] → is_Some (runs s !! t);
  fi_fresh : ∀ t, is_Some (runs s !! t) → t < _next s;
  fi_order : ∀ t, t ∈ _order s ↔ is_Some (_queues s !! t);
  fi_nodup : NoDup (_order s);
  fi_full : ∀ t, _queues s !! t ≠ Some [];
  fi_slots : _slots s + len (running s) = n ∧ 0 ≤ _slots s }.

Lemma run_ok_perm es es' r : es ≡ₚ es' → run_ok es r → run_ok es' r.
Proof.
  intros Hp [H1 H2 H3 H4 H5 H6]. constructor; try done.
  - by rw -Hp.
  - rw H3 /len. by rw Hp.
  - intros i x. rw -Hp. apply H5.
  - intros i x. rw -Hp. apply H6.
Qed.

Lemma run_ok_fill i x es r : run_ok ((i, x) :: es) r → run_ok es (fill i x r).
Proof.
  intros [H1 H2 H3 H4 H5 H6]. cbn in *. apply NoDup_cons in H1 as [Hi H1].
  assert (r_items r !! i = Some x) as Hx by (apply H6; by left).
  assert (i < length (results r))%nat as Hlt by (rw H2; by eapply lookup_lt_Some).
  assert (left_ r - 1 = len es) as Hl by (rw H3; solve_len).
  constructor; cbn; [done|by rw length_insert|done| | |].
  - rw H4 Hl. repeat case_bool_decide; try done; [rw H3 in H; solve_len| |].
    + destruct (Z.eqb_spec (len es) 0); [done|lia].
    + destruct (Z.eqb_spec (len es) 0); [lia|done].
  - intros j y Hy Hj. destruct (decide (j = i)) as [->|Hne].
    + rw Hx in Hy. injection Hy as <-. by rw list_lookup_insert_eq.
    + rw list_lookup_insert_ne //. apply H5; [done|]. rw not_elem_of_cons. done.
  - intros j y Hy. apply H6. by right.
Qed.

Lemma run_ok_start items : items ≠ [] →
  run_ok (enumerate items) (mkRun items (replicate (length items) None) (len items) false).
Proof.
  intros Hne. assert ((enumerate items).*1 = seq 0 (length items)) as Hs.
  { rw /enumerate. apply list_eq. intros i. rw list_lookup_fmap list_lookup_imap.
    destruct (items !! i) eqn:E; cbn.
    - rw lookup_seq_lt //. by eapply lookup_lt_Some.
    - rw lookup_seq_ge //. by apply lookup_ge_None. }
  constructor; cbn.
  - rw Hs. apply NoDup_seq.
  - apply length_replicate.
  - by rw /len /enumerate length_imap.
  - destruct items; [done|]. by rw bool_decide_false.
  - intros i x Hi%lookup_lt_Some. rw Hs elem_of_seq. lia.
  - intros i x. rw /enumerate elem_of_lookup_imap. intros (j & y & [= -> ->] & Hj). done.
Qed.

Lemma mine_app t l k : mine t (l ++ k) = mine t l ++ mine t k.
Proof. by rw /mine filter_app fmap_app. Qed.
Lemma mine_one t t' e : mine t [(t', e)] = if bool_decide (t' = t) then [e] else [].
Proof. rw /mine filter_cons. cbn. case_bool_decide; [by rw decide_True|by rw decide_False]. Qed.

(** What a pick does: the first entry of a queue leaves it. *)
Lemma pick_spec (qs : gmap Z (list entry)) order rr t e qs' order' rr' :
  pick qs order rr = Some (t, e, (qs', order', rr')) →
  (∀ t', t' ∈ order ↔ is_Some (qs !! t')) → NoDup order → (∀ t', qs !! t' ≠ Some []) →
  (∃ q, qs !! t = Some (e :: q) ∧ default [] (qs' !! t) = q ∧ ∀ t', t' ≠ t → qs' !! t' = qs !! t') ∧
  (∀ t', t' ∈ order' ↔ is_Some (qs' !! t')) ∧ NoDup order' ∧ (∀ t', qs' !! t' ≠ Some []).
Proof.
  rw /pick. destruct order as [|o order0] eqn:Eo; [done|]. rw -Eo. clear Eo o order0.
  destruct (order !! Z.to_nat (rr mod len order)) as [t0|] eqn:Et; [|done].
  destruct (qs !! t0) as [[|e0 [|e1 q]]|] eqn:Eq; try done; intros [= <- <- <- <- <-] Hord Hnd Hfull.
  - split; [|split_and!].
    + exists []. split_and!; [done|by rw lookup_delete_eq|]. intros t' Ht'. by rw lookup_delete_ne.
    + intros t'. pose proof (delete_Permutation _ _ _ Et) as Hp. rw {1}Hp in Hnd. apply NoDup_cons in Hnd as [Hnt _].
      destruct (decide (t' = t0)) as [->|Hne].
      * rw lookup_delete_eq. split; [by intros|by intros []].
      * rw lookup_delete_ne // -Hord. assert (t' ∈ order ↔ t' = t0 ∨ t' ∈ delete (Z.to_nat (rr mod len order)) order) as ->.
        { by rw {1}Hp elem_of_cons. }
        naive_solver.
    + rw (delete_Permutation _ _ _ Et) in Hnd. by apply NoDup_cons in Hnd as [_ ?].
    + intros t'. destruct (decide (t' = t0)) as [->|]; [by rw lookup_delete_eq|by rw lookup_delete_ne].
  - split; [|split_and!].
    + exists (e1 :: q). split_and!; [done|by rw lookup_insert_eq|]. intros t' Ht'. by rw lookup_insert_ne.
    + intros t'. rw Hord. destruct (decide (t' = t0)) as [->|]; [rw lookup_insert_eq Eq; split; by eexists|by rw lookup_insert_ne].
    + done.
    + intros t'. destruct (decide (t' = t0)) as [->|]; [by rw lookup_insert_eq|by rw lookup_insert_ne].
Qed.

Lemma finv_init n : 0 ≤ n → finv n (init_fair n).
Proof.
  intros Hn. constructor; cbn.
  - intros t r. by rw lookup_empty.
  - intros t. by rw /ents /= lookup_empty.
  - intros t. rw lookup_empty. by intros [].
  - intros t. rw lookup_empty. split; [by intros ?%elem_of_nil|by intros []].
  - constructor.
  - intros t. by rw lookup_empty.
  - split; [solve_len|done].
Qed.

Lemma finv_run n items s : finv n s → finv n (run_enter items s).
Proof.
  intros [H1 H2 H3 H4 H5 H6 H7]. rw /run_enter. case_bool_decide as Hne; [done|].
  assert (runs s !! _next s = None) as Hfresh.
  { destruct (runs s !! _next s) eqn:E; [|done]. specialize (H3 _ (mk_is_Some _ _ E)). lia. }
  assert (ents s (_next s) = []) as Hnone.
  { destruct (ents s (_next s)) eqn:E; [done|]. destruct (H2 (_next s)) as [r Hr]; [by rw E|]. congruence. }
  assert (_queues s !! _next s = None) as Hnq.
  { rw /ents in Hnone. apply app_nil in Hnone as [Hq _]. destruct (_queues s !! _next s) as [q|] eqn:E; [|done].
    cbn in Hq. subst. by destruct (H6 (_next s)). }
  assert (mine (_next s) (flying s) = []) as Hnm by (rw /ents in Hnone; by apply app_nil in Hnone as [_ ?]).
  constructor; cbn.
  - intros t r. rw /ents /=. destruct (decide (t = _next s)) as [->|Hnt].
    + rw !lookup_insert_eq. intros [= <-]. rw /= /flying /= -/(flying s) Hnm app_nil_r. by apply run_ok_start.
    + rw !lookup_insert_ne //. apply H1.
  - intros t. rw /ents /=. destruct (decide (t = _next s)) as [->|Hnt]; [rw !lookup_insert_eq; intros _; by eexists|].
    rw !lookup_insert_ne //. apply H2.
  - intros t. destruct (decide (t = _next s)) as [->|Hnt]; [lia|]. rw lookup_insert_ne //. intros Ht%H3. lia.
  - intros t. rw elem_of_app list_elem_of_singleton H4.
    destruct (decide (t = _next s)) as [->|Hnt]; [rw lookup_insert_eq; split; [by eexists|by right]|].
    rw lookup_insert_ne //. naive_solver.
  - apply NoDup_app. split_and!; [done| |apply NoDup_singleton].
    intros t Ht ->%list_elem_of_singleton. apply H4 in Ht as [? ?]. congruence.
  - intros t. destruct (decide (t = _next s)) as [->|Hnt]; [|by rw lookup_insert_ne].
    rw lookup_insert_eq. intros [= He]. apply Hne. destruct items; [done|]. done.
  - done.
Qed.

Lemma finv_pick n s s' : loop_pick s = Some s' → finv n s → finv n s'.
Proof.
  rw /loop_pick. destruct (held s) eqn:Eh; [done|].
  destruct (pick _ _ _) as [[[t e] [[qs order] rr]]|] eqn:Ep; [|done]. intros [= <-] [H1 H2 H3 H4 H5 H6 H7].
  apply pick_spec in Ep as ((q & Hq & Hq' & Hother) & Hord & Hnd & Hfull); [|done..].
  assert (∀ t', ents (mkFair qs order rr (_next s) (_slots s) (Some (t, e)) (running s) (runs s) (_stop s)) t' ≡ₚ ents s t') as Hents.
  { intros t'. rw /ents /flying /= Eh /=. change ((t, e) :: running s) with ([(t, e)] ++ running s).
    rw mine_app mine_one. case_bool_decide as E; [subst t'|].
    - rw Hq' Hq /=. solve_Permutation.
    - by rw Hother. }
  constructor; cbn; try done.
  - intros t' r Hr. eapply run_ok_perm; [symmetry; apply Hents|by apply H1].
  - intros t' Hne. apply H2. intros Heq. apply Hne. apply Permutation_nil_r. by rw -Heq Hents.
Qed.

Lemma finv_submit n s s' : loop_submit s = Some s' → finv n s → finv n s'.
Proof.
  rw /loop_submit. destruct (held s) as [e|] eqn:Eh; [|done]. destruct (0 <? _slots s) eqn:Es; [|done].
  intros [= <-] [H1 H2 H3 H4 H5 H6 H7].
  assert (∀ t', ents (mkFair (_queues s) (_order s) (_rr s) (_next s) (_slots s - 1) None (running s ++ [e]) (runs s) (_stop s)) t' ≡ₚ ents s t') as Hents.
  { intros t'. rw /ents /flying /= Eh /=. change (e :: running s) with ([e] ++ running s). rw !mine_app. solve_Permutation. }
  constructor; cbn; try done.
  - intros t' r Hr. eapply run_ok_perm; [symmetry; apply Hents|by apply H1].
  - intros t' Hne. apply H2. intros Heq. apply Hne. apply Permutation_nil_r. by rw -Heq Hents.
  - rw len_app. cbn. split; [solve_len|lia].
Qed.

Lemma finv_one n j s s' : _one j s = Some s' → finv n s → finv n s'.
Proof.
  rw /_one. destruct (running s !! j) as [[t [i x]]|] eqn:Ej; [|done].
  intros [= <-] [H1 H2 H3 H4 H5 H6 H7]. pose proof (delete_Permutation _ _ _ Ej) as Hp.
  set (s' := mkFair _ _ _ _ _ _ _ _ _).
  assert (∀ t', ents s t' ≡ₚ mine t' [(t, (i, x))] ++ ents s' t') as Hents.
  { intros t'. rw /ents /flying /= !mine_app. assert (mine t' (running s) ≡ₚ mine t' [(t, (i, x))] ++ mine t' (delete j (running s))) as ->.
    { rw /mine {1}Hp. by rw -fmap_app -filter_app. }
    solve_Permutation. }
  constructor; cbn; try done.
  - intros t' r. pose proof (Hents t') as He. rw mine_one in He. case_bool_decide as E; [subst t'|].
    + rw lookup_alter_eq. destruct (runs s !! t) as [r0|] eqn:Er; [|done]. intros [= <-].
      apply run_ok_fill. eapply run_ok_perm; [exact He|by apply H1].
    + rw lookup_alter_ne //. intros Hr. eapply run_ok_perm; [exact He|by apply H1].
  - intros t' Hne. destruct (H2 t') as [r Hr]. { intros Hnil. pose proof (Hents t') as He. rw Hnil in He.
      apply Permutation_nil_l in He. symmetry in He. apply app_nil in He as [_ He]. done. }
    destruct (decide (t = t')) as [->|]; [rw lookup_alter_eq Hr; by eexists|rw lookup_alter_ne //; by eexists].
  - intros t' Ht'. apply H3. destruct (decide (t = t')) as [->|]; [|by rw lookup_alter_ne in Ht'].
    rw lookup_alter_eq in Ht'. by destruct (runs s !! t').
  - split; [|lia]. rw /len (length_delete _ j); [by eexists|]. apply lookup_lt_Some in Ej. rw /len in H7. lia.
Qed.

Lemma finv_step n s s' : fstep s s' → finv n s → finv n s'.
Proof.
  intros []; [by intros []; constructor|by apply finv_run|by apply finv_pick|by apply finv_submit|by eapply finv_one].
Qed.

(** A pick succeeds whenever there is an active task. *)
Lemma pick_ready (qs : gmap Z (list entry)) order rr :
  order ≠ [] → (∀ t, t ∈ order ↔ is_Some (qs !! t)) → (∀ t, qs !! t ≠ Some []) → is_Some (pick qs order rr).
Proof.
  intros Hne Hord Hfull. rw /pick. destruct order as [|o order0] eqn:Eo; [done|]. rw -Eo. rw -Eo in Hord. clear Hne.
  destruct (lookup_lt_is_Some_2 order (Z.to_nat (rr mod len order))) as [t Ht].
  { assert (0 < len order) as Hl by (subst; solve_len). pose proof (Z.mod_pos_bound rr (len order) Hl). unfold len in *. lia. }
  rw Ht. destruct (proj1 (Hord t)) as [q Hq]; [by eapply list_elem_of_lookup_2|]. rw Hq.
  destruct q as [|e [|e1 q]]; [by destruct (Hfull t)|by eexists|by eexists].
Qed.

Inductive freach (n : Z) : fair → Prop :=
| fr_init : freach n (init_fair n)
| fr_step s s' : freach n s → fstep s s' → freach n s'.

Lemma freach_inv n s : 0 ≤ n → freach n s → finv n s.
Proof. intros Hn. induction 1; [by apply finv_init|by eapply finv_step]. Qed.

(** ** Properties *)

(** C27: the dispatcher is a parallel map.  However the calls of [run], the
    dispatcher thread and the pool threads interleave, a call whose event is set
    has in its list the result of every item, in input order (an item that
    raised counts as [False], or is None if [except Exception] does not catch
    what it raised), and never more items are on the pool than there are slots. *)
Theorem fair_results_in_input_order n s :
  0 ≤ n → freach n s →
  len (running s) ≤ n ∧
  ∀ t r, runs s !! t = Some r → done_ r = true → results r = value <$> r_items r.
Proof.
  intros Hn Hr. destruct (freach_inv n s Hn Hr) as [H1 _ _ _ _ _ H7]. split; [lia|].
  intros t r Ht Hd. destruct (H1 t r Ht) as [_ Hlen Hleft Hdone Hvals _].
  rw Hdone in Hd. apply bool_decide_eq_true in Hd. rw Hd in Hleft. symmetry in Hleft.
  apply len_zero_inv in Hleft. rw Hleft in Hvals.
  apply list_eq_same_length with (n := length (r_items r)); [by rw length_fmap|done|].
  intros i x y Hi Hx Hy. rw list_lookup_fmap in Hy. destruct (r_items r !! i) as [z|] eqn:Hz; [|done].
  rw (Hvals i z Hz) in Hx; [by intros ?%elem_of_nil|]. by simplify_eq/=.
Qed.

(** Work left: an item is queued, then held, then on the pool. *)
Definition queued (qs : gmap Z (list entry)) (order : list Z) : Z :=
  foldr (λ t a, len (default [] (qs !! t)) + a) 0 order.
Definition work (s : fair) : Z :=
  3 * queued (_queues s) (_order s) + 2 * len (option_list (held s)) + len (running s).

Lemma queued_nonneg qs l : 0 ≤ queued qs l.
Proof. rw /queued. induction l as [|t l IH]; cbn; [lia|]. pose proof (len_nonneg (default [] (qs !! t))). lia. Qed.
Lemma queued_perm qs l l' : l ≡ₚ l' → queued qs l = queued qs l'.
Proof. rw /queued. induction 1; cbn in *; lia. Qed.
Lemma queued_ext qs qs' l : (∀ t, t ∈ l → qs !! t = qs' !! t) → queued qs l = queued qs' l.
Proof.
  intros Heq. induction l as [|t l IH]; [done|]. rw /queued /= -/(queued qs l) -/(queued qs' l).
  rw IH; [intros; apply Heq; by right|]. by rw Heq; [left|].
Qed.

Lemma pick_queued (qs : gmap Z (list entry)) order rr t e qs' order' rr' :
  pick qs order rr = Some (t, e, (qs', order', rr')) → NoDup order → queued qs' order' = queued qs order - 1.
Proof.
  rw /pick. destruct order as [|o order0] eqn:Eo; [done|]. rw -Eo. clear Eo o order0.
  destruct (order !! Z.to_nat (rr mod len order)) as [t0|] eqn:Et; [|done].
  pose proof (delete_Permutation _ _ _ Et) as Hp.
  destruct (qs !! t0) as [[|e0 [|e1 q]]|] eqn:Eq; try done; intros [= <- <- <- <- <-] Hnd;
    rw (queued_perm qs _ _ Hp); pose proof Hnd as Hnd'; rw {1}Hp in Hnd'; apply NoDup_cons in Hnd' as [Hnt _].
  - rw {2}/queued /= -/(queued qs _) Eq. rw (queued_ext (delete t0 qs) qs); [|unfold len; cbn; lia].
    intros t' Ht'. rw lookup_delete_ne //. by intros ->.
  - rw (queued_perm (<[t0 := e1 :: q]> qs) _ _ Hp). rw /queued /= -/(queued (<[t0 := e1 :: q]> qs) _) -/(queued qs _) lookup_insert_eq Eq.
    rw (queued_ext (<[t0 := e1 :: q]> qs) qs); [|unfold len; cbn; lia].
    intros t' Ht'. rw lookup_insert_ne //. by intros ->.
Qed.

(** A step of the dispatcher or of the pool. *)
Definition works (s s' : fair) : Prop :=
  (_stop s = false ∧ loop_pick s = Some s') ∨ loop_submit s = Some s' ∨ ∃ j, _one j s = Some s'.

Lemma works_decreases n s s' : finv n s → works s s' → work s' < work s.
Proof.
  intros Hinv [[_ Hs]|[Hs|[j Hs]]].
  - rw /loop_pick in Hs. destruct (held s) eqn:Eh; [done|].
    destruct (pick _ _ _) as [[[t e] [[qs order] rr]]|] eqn:Ep; [|done]. injection Hs as <-.
    apply pick_queued in Ep; [|by destruct Hinv]. rw /work /= Ep Eh. unfold len. cbn. lia.
  - rw /loop_submit in Hs. destruct (held s) eqn:Eh; [|done]. destruct (0 <? _slots s); [|done].
    injection Hs as <-. rw /work /= Eh len_app. unfold len. cbn. lia.
  - rw /_one in Hs. destruct (running s !! j) as [[t [i x]]|] eqn:Ej; [|done]. injection Hs as <-.
    rw /work /= /len (length_delete _ j); [by eexists|]. apply lookup_lt_Some in Ej. lia.
Qed.

(** C28: no call of [run] waits forever while the dispatcher is open.  With at
    least one slot, as long as a call is not done the dispatcher or the pool can make a step, and every such
    step brings the remaining work strictly down, so without further calls all
    of them are done after at most [work s] steps. *)
Theorem fair_run_returns n s :
  0 < n → freach n s → _stop s = false →
  0 ≤ work s ∧
  (∀ s', works s s' → work s' < work s) ∧
  ((∃ t r, runs s !! t = Some r ∧ done_ r = false) → ∃ s', works s s').
Proof.
  intros Hn Hr Hstop. pose proof (freach_inv n s ltac:(lia) Hr) as Hinv. split_and!.
  - rw /work. pose proof (len_nonneg (running s)). pose proof (len_nonneg (option_list (held s))).
    pose proof (queued_nonneg (_queues s) (_order s)). lia.
  - intros s'. by eapply works_decreases.
  - intros (t & r & Ht & Hd). destruct Hinv as [H1 _ _ H4 H5 H6 H7].
    destruct (running s) as [|[t0 [i x]] rest] eqn:Er; last first.
    { eexists. right; right. exists 0%nat. rw /_one Er. done. }
    destruct (held s) as [e|] eqn:Eh.
    { eexists. right; left. rw /loop_submit Eh. rw (proj2 (Z.ltb_lt 0 (_slots s))); [solve_len|done]. }
    destruct (H1 t r Ht) as [_ _ Hleft Hdone _ _]. rw Hdone in Hd. apply bool_decide_eq_false in Hd.
    rw Hleft /ents /flying Eh Er app_nil_r in Hd.
    destruct (pick_ready (_queues s) (_order s) (_rr s)) as (y & Hy); try done.
    { intros Ho. apply Hd. destruct (_queues s !! t) eqn:Eq; [|done].
      assert (t ∈ _order s) as Hin by (apply H4; by eexists). rw Ho in Hin. by apply elem_of_nil in Hin. }
    destruct y as [[t1 e1] [[qs order] rr]]. eexists. left. split; [done|]. by rw /loop_pick Eh Hy.
Qed.

(** *** Closing *)

(** A closed dispatcher takes nothing from a queue any more. *)
Definition stranded (t : Z) (q : list entry) (s : fair) : Prop := _stop s = true ∧ _queues s !! t = Some q.
Lemma stranded_step n t q s s' : finv n s → fstep s s' → stranded t q s → stranded t q s'.
Proof.
  intros Hinv Hstep [Hs Hq]. rw /stranded. destruct Hstep as [s|items s|s s' Hno _|s s' E|j s s' E]; [by split| | | |].
  - rw /run_enter. case_bool_decide; [by split|]. cbn. split; [done|]. rw lookup_insert_ne //. intros Ht.
    destruct (fi_known n s Hinv t) as [r Hr].
    + rw /ents Hq /=. destruct q; [by destruct (fi_full n s Hinv t)|done].
    + assert (t < _next s) by (apply (fi_fresh n s Hinv); by eexists). lia.
  - by rw Hs in Hno.
  - rw /loop_submit in E. destruct (held s); [|done]. destruct (0 <? _slots s); [|done]. by injection E as <-.
  - rw /_one in E. destruct (running s !! j) as [[u [i x]]|]; [|done]. by injection E as <-.
Qed.

(** C30: closing strands the calls that are still queued: once [close] has run, a
    call with an item in its queue is never done, whatever happens after (its
    [run] waits forever); a call whose items have all left the queue still ends,
    as the dispatcher and the pool can go on with it. *)
Theorem closing_strands_queued_calls n s s' t :
  0 < n → freach n s → _stop s = true → rtc fstep s s' →
  (is_Some (_queues s !! t) → ∃ r, runs s' !! t = Some r ∧ done_ r = false) ∧
  (∀ r, runs s' !! t = Some r → done_ r = false → _queues s' !! t = None → ∃ s2, works s' s2).
Proof.
  intros Hn Hr Hs Hsteps. assert (finv n s) as Hinv by (eapply freach_inv; [lia|done]).
  assert (finv n s') as Hinv'.
  { clear -Hinv Hsteps. induction Hsteps; [done|]. apply IHHsteps. by eapply finv_step. }
  split.
  - intros [q Hq]. assert (stranded t q s') as [_ Hq'].
    { assert (stranded t q s) as Hst by done. clear -Hinv Hsteps Hst. induction Hsteps as [s|s s1 s2 H1 H2 IH]; [done|].
      apply IH; [by eapply finv_step|by eapply stranded_step]. }
    assert (ents s' t ≠ []) as Hne.
    { rw /ents Hq' /=. destruct q; [by destruct (fi_full n s' Hinv' t)|done]. }
    destruct (fi_known n s' Hinv' t Hne) as [r Ht]. exists r. split; [done|].
    destruct (fi_runs n s' Hinv' t r Ht) as [_ _ Hleft Hdone _ _]. rw Hdone Hleft bool_decide_eq_false.
    by intros H0%len_zero_inv.
  - intros r Ht Hd Hq. destruct Hinv' as [H1 _ _ _ _ _ H7].
    destruct (H1 t r Ht) as [_ _ Hleft Hdone _ _]. rw Hdone Hleft /ents Hq /= in Hd. apply bool_decide_eq_false in Hd.
    destruct (running s') as [|[t0 [i x]] rest] eqn:Er; last first.
    { eexists. right; right. exists 0%nat. rw /_one Er. done. }
    destruct (held s') as [e|] eqn:Eh; [|by rw /flying Eh Er in Hd].
    eexists. right; left. rw /loop_submit Eh. rw (proj2 (Z.ltb_lt 0 (_slots s'))); [solve_len|done].
Qed.

(** *** Fairness *)

(** A history of the dispatcher between two states: the tokens it picks, in
    order, and how many tasks arrive. *)
Inductive serves : list Z → Z → fair → fair → Prop :=
| sv_nil s : serves [] 0 s s
| sv_run items ps n s s' : items ≠ [] → serves ps n (run_enter items s) s' → serves ps (n + 1) s s'
| sv_pick t e ps n s s1 s' : _stop s = false → loop_pick s = Some s1 → held s1 = Some (t, e) →
    serves ps n s1 s' → serves (t :: ps) n s s'
| sv_submit ps n s s1 s' : loop_submit s = Some s1 → serves ps n s1 s' → serves ps n s s'
| sv_one j ps n s s1 s' : _one j s = Some s1 → serves ps n s1 s' → serves ps n s s'
| sv_close ps n s s' : serves ps n (close s) s' → serves ps n s s'.

(** Positions before it: each pick brings a task one position closer. *)
Lemma pick_distance (qs : gmap Z (list entry)) order rr t i t0 e qs' order' rr' d :
  pick qs order rr = Some (t0, e, (qs', order', rr')) →
  order !! i = Some t → (Z.of_nat i - rr) mod len order = d →
  (d = 0 ∧ t0 = t) ∨
  (0 < d ∧ ∃ i', order' !! i' = Some t ∧ (Z.of_nat i' - rr') mod len order' = d - 1).
Proof.
  rw /pick. destruct order as [|o order0] eqn:Eo; [done|]. rw -Eo. clear Eo o order0.
  intros Hp Hi Hd. pose proof (lookup_lt_Some _ _ _ Hi) as Hlt. set (n := len order) in *.
  assert (0 < n) as Hn by (unfold n, len; lia).
  pose proof (Z.mod_pos_bound rr n Hn) as Hr. set (r := rr mod n) in *.
  assert (rr = n * (rr / n) + r) as Hrr by (unfold r; apply Z.div_mod; lia).
  assert ((Z.of_nat i - r) mod n = d) as Hd'.
  { rw -Hd Hrr. replace (Z.of_nat i - (n * (rr / n) + r)) with (Z.of_nat i - r + - (rr / n) * n) by lia.
    by rw Z_mod_plus_full. }
  assert (Z.of_nat i < n) as Hin by (unfold n, len; lia).
  destruct (order !! Z.to_nat r) as [t1|] eqn:Et; [|done].
  destruct (decide (Z.of_nat i = r)) as [Heq|Hne].
  { left. replace (Z.to_nat r) with i in Et by lia. split; [|destruct (qs !! t1) as [[|? []]|]; congruence].
    by rw -Hd' Heq Z.sub_diag. }
  right. assert (d = if bool_decide (r < Z.of_nat i) then Z.of_nat i - r else Z.of_nat i - r + n) as ->.
  { rw -Hd'. symmetry. case_bool_decide; [apply Z.mod_unique with 0|apply Z.mod_unique with (-1)]; lia. }
  split; [case_bool_decide; lia|].
  destruct (qs !! t1) as [[|e0 [|e1 q]]|]; try done; injection Hp as <- <- <- <- <-.
  - assert (len (delete (Z.to_nat r) order) = n - 1) as Hn'.
    { unfold n, len. rw length_delete; [by eexists|]. lia. }
    rw Hn'. case_bool_decide as Hlt'.
    + exists (i - 1)%nat. rw list_lookup_delete_ge; [lia|]. replace (S (i - 1)) with i by lia. split; [done|].
      symmetry. apply Z.mod_unique with 0; lia.
    + exists i. rw list_lookup_delete_lt; [lia|]. split; [done|]. symmetry.
      destruct (decide (Z.of_nat i - r + n - 1 < n - 1)).
      * apply Z.mod_unique with (-1); lia.
      * lia.
  - exists i. split; [done|]. symmetry. fold n. case_bool_decide; [apply Z.mod_unique with 0|apply Z.mod_unique with (-1)]; lia.
Qed.

(** The position stays within the list, or just behind its end. *)
Definition rr_ok (s : fair) : Prop := 0 ≤ _rr s ≤ len (_order s).

Lemma pick_rr (qs : gmap Z (list entry)) order rr t e qs' order' rr' :
  pick qs order rr = Some (t, e, (qs', order', rr')) → 0 ≤ rr' ≤ len order'.
Proof.
  rw /pick. destruct order as [|o order0] eqn:Eo; [done|]. rw -Eo. assert (0 < len order) as Hn by (subst; solve_len).
  clear Eo o order0. pose proof (Z.mod_pos_bound rr (len order) Hn).
  destruct (order !! Z.to_nat (rr mod len order)) as [t0|] eqn:Et; [|done].
  destruct (qs !! t0) as [[|e0 [|e1 q]]|]; try done; intros [= <- <- <- <- <-]; [|lia].
  rw /len (length_delete _ _); [by eexists|]. unfold len in *. lia.
Qed.

Lemma rr_step s s' : fstep s s' → rr_ok s → rr_ok s'.
Proof.
  rw /rr_ok. destruct 1 as [s|items s|s s' _ E|s s' E|j s s' E]; [done|..].
  - rw /run_enter. case_bool_decide; [done|]. cbn. rw len_app. change (len [_next s]) with 1. lia.
  - rw /loop_pick in E. destruct (held s); [done|]. destruct (pick _ _ _) as [[[t e] [[qs order] rr]]|] eqn:Ep; [|done].
    injection E as <-. intros _. by eapply pick_rr.
  - rw /loop_submit in E. destruct (held s); [|done]. destruct (0 <? _slots s); [|done]. by injection E as <-.
  - rw /_one in E. destruct (running s !! j) as [[u [i x]]|]; [|done]. by injection E as <-.
Qed.
Lemma freach_rr n s : freach n s → rr_ok s.
Proof. induction 1; [done|by eapply rr_step]. Qed.

(** The picks before that of [t]: from the position, round the list. *)
Definition turn_of (t : Z) (s : fair) (d : Z) : Prop :=
  ∃ i, _order s !! i = Some t ∧ (Z.of_nat i - _rr s) mod len (_order s) = d.

(** An arrival goes to the end of the list: it is at most one pick more. *)
Lemma arrival_distance (order : list Z) rr t i u : 0 ≤ rr ≤ len order → order !! i = Some t →
  (order ++ [u]) !! i = Some t ∧
  (Z.of_nat i - rr) mod len (order ++ [u]) ≤ (Z.of_nat i - rr) mod len order + 1.
Proof.
  intros Hrr Hi. split; [by apply lookup_app_l_Some|]. apply lookup_lt_Some in Hi as Hlt.
  rw len_app. change (len [u]) with 1. assert (Z.of_nat i < len order) as Hin by (unfold len; lia).
  destruct (decide (rr ≤ Z.of_nat i)).
  - rw !Z.mod_small; lia.
  - rw -(Z.mod_unique (Z.of_nat i - rr) (len order) (-1) (Z.of_nat i - rr + len order)); [lia|lia|].
    rw -(Z.mod_unique (Z.of_nat i - rr) (len order + 1) (-1) (Z.of_nat i - rr + len order + 1)); lia.
Qed.

Lemma serves_bound n t ps k s s' : serves ps k s s' → finv n s → rr_ok s →
  ∀ d, turn_of t s d → t ∉ ps → len ps ≤ d + k.
Proof.
  induction 1 as [s|items ps k s s' Hne _ IH|t0 e ps k s s1 s' Hst Hp Hh _ IH|ps k s s1 s' E _ IH|j ps k s s1 s' E _ IH|ps k s s' _ IH];
    intros Hinv Hrr d Hd Hni.
  - destruct Hd as (i & Hi & <-). apply lookup_lt_Some in Hi.
    pose proof (Z.mod_pos_bound (Z.of_nat i - _rr s) (len (_order s)) ltac:(unfold len; lia)). change (len (@nil Z)) with 0. lia.
  - destruct Hd as (i & Hi & <-). destruct (arrival_distance _ _ _ _ (_next s) Hrr Hi) as [Hi' Hd'].
    assert (_order (run_enter items s) = _order s ++ [_next s] ∧ _rr (run_enter items s) = _rr s) as [Ho Hr].
    { rw /run_enter bool_decide_false //. }
    assert (fstep s (run_enter items s)) as Hf by constructor.
    specialize (IH (finv_step _ _ _ Hf Hinv) (rr_step _ _ Hf Hrr) _ (ex_intro _ i (conj (eq_trans (f_equal (lookup i) Ho) Hi') eq_refl)) Hni).
    rw Ho Hr in IH. lia.
  - assert (fstep s s1) as Hf by by constructor. apply not_elem_of_cons in Hni as [Hne Hni].
    destruct Hd as (i & Hi & Hd). pose proof Hp as Hp'. rw /loop_pick in Hp'. destruct (held s); [done|].
    destruct (pick _ _ _) as [[[t1 e1] [[qs order] rr]]|] eqn:Ep; [|done]. injection Hp' as <-. cbn in Hh. injection Hh as -> ->.
    destruct (pick_distance _ _ _ t i _ _ _ _ _ d Ep Hi Hd) as [[_ ->]|(Hpos & i' & Hi' & Hd')]; [done|].
    specialize (IH (finv_step _ _ _ Hf Hinv) (rr_step _ _ Hf Hrr) (d - 1) (ex_intro _ i' (conj Hi' Hd')) Hni).
    unfold len in IH |- *. cbn [length]. lia.
  - assert (fstep s s1) as Hf by by apply f_submit. apply (IH (finv_step _ _ _ Hf Hinv) (rr_step _ _ Hf Hrr)); [|done].
    rw /loop_submit in E. destruct (held s); [|done]. destruct (0 <? _slots s); [|done]. by injection E as <-.
  - assert (fstep s s1) as Hf by by eapply f_one. apply (IH (finv_step _ _ _ Hf Hinv) (rr_step _ _ Hf Hrr)); [|done].
    rw /_one in E. destruct (running s !! j) as [[u [i x]]|]; [|done]. by injection E as <-.
  - apply (IH (finv_step _ _ _ (f_close s) Hinv)); done.
Qed.


(** *** What arrivals can do *)

(** Task 0 has items left, the position is behind it, and nothing is running. *)
Definition behind (s : fair) : Prop :=
  _stop s = false ∧ _order s = [0] ∧ _rr s = 1 ∧ held s = None ∧ running s = [] ∧ 0 < _slots s ∧ 0 < _next s ∧
  ∃ e q, _queues s !! 0 = Some (e :: q).

Lemma behind_round (x : Item) s : behind s → ∃ s', serves [_next s] 1 s s' ∧ behind s'.
Proof.
  intros (Hst & Ho & Hrr & Hh & Hru & Hsl & Hnx & e & q & Hq). destruct s as [qs order rr nx sl he ru rs st]. cbn in *. subst.
  set (s1 := run_enter [x] (mkFair qs [0] 1 nx sl None [] rs false)).
  assert (loop_pick s1 = Some (mkFair (delete nx (<[nx := [(0%nat, x)]]> qs)) [0] 1 (nx + 1) sl (Some (nx, (0%nat, x))) [] (runs s1) false)) as Hp.
  { rw /loop_pick /s1 /run_enter bool_decide_false //=. rw /pick. change (1 mod len [0; nx]) with 1. cbn.
    by rw lookup_insert_eq. }
  eexists. split.
  - apply (sv_run [x] [nx] 0); [done|]. fold s1. eapply (sv_pick nx (0%nat, x) [] 0 _ _ _); [reflexivity|exact Hp|reflexivity|].
    eapply sv_submit; [rw /loop_submit /= (proj2 (Z.ltb_lt 0 sl)) //|]. eapply (sv_one 0); [done|]. apply sv_nil.
  - split_and!; try done; cbn; [lia|lia|]. exists e, q. rw lookup_delete_ne; [lia|]. rw lookup_insert_ne //. lia.
Qed.

(** A task that arrives just before every pick keeps an older one waiting:
    the position is behind the end of the list, where the new task goes, and the
    older task is not picked however many picks there are. *)
Lemma arrivals_can_starve_a_task (x : Item) (m : nat) : ∃ s ps s', freach 1 s ∧ is_Some (_queues s !! 0) ∧
  serves ps (Z.of_nat m) s s' ∧ length ps = m ∧ 0 ∉ ps.
Proof.
  assert (∀ s, behind s → ∃ ps s', serves ps (Z.of_nat m) s s' ∧ length ps = m ∧ 0 ∉ ps) as Hloop.
  { assert (∀ ps1 k1 s s1, serves ps1 k1 s s1 → ∀ ps2 k2 s2, serves ps2 k2 s1 s2 → serves (ps1 ++ ps2) (k1 + k2) s s2) as Happ.
    { induction 1; intros ps2 k2 s2 Hs2; cbn [app]; [done|..]; try by econstructor; eauto.
      replace (n + 1 + k2) with (n + k2 + 1) by lia. econstructor; eauto. }
    induction m as [|m IH]; intros s Hs.
    { exists [], s. split; [constructor|]. split; [done|]. by intros ?%elem_of_nil. }
    destruct (behind_round x s Hs) as (s1 & H1 & Hs1). destruct (IH s1 Hs1) as (ps & s2 & H2 & Hl & Hni).
    exists ([_next s] ++ ps), s2. split; [|split; [by cbn; rw Hl|]].
    - replace (Z.of_nat (S m)) with (1 + Z.of_nat m) by lia. by eapply Happ.
    - apply not_elem_of_cons. split; [|done]. destruct Hs as (_ & _ & _ & _ & _ & _ & ? & _). lia. }
  set (s0 := run_enter [x; x] (init_fair 1)).
  set (s1 := default s0 (loop_pick s0)). set (s2 := default s1 (loop_submit s1)). set (s3 := default s2 (_one 0 s2)).
  exists s3. destruct (Hloop s3) as (ps & s' & Hs & Hl & Hni).
  { split_and!; try done. by exists (1%nat, x), []. }
  exists ps, s'. split_and!; try done. eapply fr_step; [eapply fr_step; [eapply fr_step; [eapply fr_step; [apply fr_init|]|]|]|].
  - apply (f_run [x; x]).
  - by apply (f_pick _ s1).
  - by apply (f_submit _ s2).
  - by apply (f_one 0 _ s3).
Qed.
End Fair.

(** ** Witnesses: two calls of [run] that share two slots *)
Definition demo_fn (x : Z) : res bool := if x =? 0 then Raise (DaosError 1) else Ok (0 <? x).
Abbreviation zfair := (fair (Item:=Z)).
Definition demo_pick (s : zfair) : zfair := default s (loop_pick s).
Definition demo_submit (s : zfair) : zfair := default s (loop_submit s).
Definition demo_one (j : nat) (s : zfair) : zfair := default s (_one demo_fn j s).
Definition demo0 : zfair := run_enter [5] (run_enter [7; 0; -1] (init_fair 2)).
Definition demo1 : zfair := demo_submit (demo_pick (demo_submit (demo_pick demo0))).
(** The second call is done after its only item, served second. *)
Definition demo2 : zfair := demo_one 1 demo1.

Lemma demo0_reach : freach demo_fn 2 demo0.
Proof. eapply fr_step; [eapply fr_step; [apply fr_init|apply f_run]|apply f_run]. Qed.
Lemma demo1_reach : freach demo_fn 2 demo1.
Proof.
  eapply (fr_step _ _ (demo_pick (demo_submit (demo_pick demo0)))); [|apply f_submit; reflexivity].
  eapply (fr_step _ _ (demo_submit (demo_pick demo0))); [|apply f_pick; reflexivity].
  eapply (fr_step _ _ (demo_pick demo0)); [|apply f_submit; reflexivity].
  eapply (fr_step _ _ demo0); [apply demo0_reach|apply f_pick; reflexivity].
Qed.
Lemma demo2_reach : freach demo_fn 2 demo2.
Proof. eapply (fr_step _ _ demo1); [apply demo1_reach|apply (f_one demo_fn 1); reflexivity]. Qed.

Lemma fair_results_in_input_order_witness :
  ∃ r, runs demo2 !! 1 = Some r ∧ done_ r = true ∧ results r = [Some true] ∧ len (running demo2) ≤ 2.
Proof.
  destruct (fair_results_in_input_order demo_fn 2 demo2) as [Hl Hr]; [lia|apply demo2_reach|].
  eexists. split; [reflexivity|]. split; [reflexivity|]. split; [|exact Hl].
  etrans; [apply (Hr 1); reflexivity|reflexivity].
Defined.

Lemma fair_run_returns_witness : ∃ s', works demo_fn demo2 s'.
Proof.
  destruct (fair_run_returns demo_fn 2 demo2) as (_ & _ & Hw); [lia|apply demo2_reach|reflexivity|].
  apply Hw. exists 0. eexists. split; reflexivity.
Defined.

(** The dispatcher is closed while the first call has an item on the pool and
    two in its queue: that call never ends. *)
Lemma closing_strands_queued_calls_witness :
  let s := close demo1 in ∃ r, runs (demo_one 0 s) !! 0 = Some r ∧ done_ r = false.
Proof.
  intros s. apply (closing_strands_queued_calls demo_fn 2 s (demo_one 0 s) 0).
  - lia.
  - eapply (fr_step _ _ demo1); [apply demo1_reach|apply f_close].
  - reflexivity.
  - apply rtc_once, (f_one demo_fn 0). reflexivity.
  - eexists. reflexivity.
Defined.

