(* ===== verification/GdsBackend.v ===== *)
(** * The GPU-direct backend: [DaosGdsBackend] of [gds_backend.py]

    A storage plugin that writes KV objects from GPU memory in the v2 page
    format and publishes them by rename.  GPU transfers ([dfs_read_gpu],
    [dfs_write_gpu]) and the rename are further entry points of libdfs with
    their own laws; GPU memory objects are those of [ConnBase], with
    [ref_count_up] and the tensor test added; the metadata codec
    is the [MetaCodec] interface, which [GdsMeta] implements.  The
    middle component of the state holds what the backend object keeps.  Here
    each operation runs without interruption, and [pool_map] gives every item
    the thread of the worker that takes it; [GdsThreads] interleaves the
    operations at their accesses of the known keys. *)
From Stdlib Require Import Ascii.
From S2P Require Import Prelude PyStruct Sha256 SerdeV2 DfsBinding Keys ConnBase ConnDfs.
Open Scope Z_scope.
Open Scope py_scope.

#[export] Instance pykey_eq_dec : EqDecision pykey.
Proof. solve_decision. Defined.
#[export] Instance pykey_countable : Countable pykey.
Proof.
  refine (inj_countable' (λ k, (layer_id k, to_string k, str_key k, mro_to_string k))
    (λ '(l, t, s, m), mkKey l t s m) _). by intros [].
Defined.

(** ** GPU entry points *)
Class LibDfsGpu (W : Type) := {
  gpu_ok : bool;                                     (* the GPU-direct build is loaded *)
  dfs_read_gpu : Z → Z → Z → W → Z * bytes * W;      (* obj off size: rc, bytes landed *)
  dfs_write_gpu : Z → Z → bytes → W → Z * W;         (* obj off data: rc *)
}.

Section GpuCalls.
Context {W : Type} `{LibDfsGpu W}.
Definition read_gpu_into (obj offset length : Z) : M W bytes := λ w,
  if negb gpu_ok then (Raise RuntimeError, w) else checked (dfs_read_gpu obj offset length w).
Definition write_gpu_from (obj offset : Z) (data : bytes) : M W Z := λ w,
  if negb gpu_ok then (Raise RuntimeError, w) else
  let '(rc, w') := dfs_write_gpu obj offset data w in
  if negb (rc =? 0) then (Raise (DaosError rc), w') else (Ok (len data), w').
End GpuCalls.

(** ** The CUDA driver: return codes of the three calls *)
Class CudaDriver := { cuInit : Z; cuDevicePrimaryCtxRetain : Z; cuCtxSetCurrent : Z }.

(** Further operations of memory objects. *)
Class GpuObjs (A : Type) := {
  ref_count_up : Z → A → A;
  has_tensor : Z → A → bool;        (* obj.tensor is not None and is on the GPU *)
}.

(** ** State

    Beside the attributes of the backend, the book says which thread the code
    is running on ([thread]), which threads have a current CUDA context
    ([self._tls]), and which workers will run the next tasks of the pool: the
    pool's choice, not the program's, so that a theorem about every book is
    about every choice. *)
Record gbook := mkBook {
  _known : gset pykey; _put_tasks : gset pykey; gstats : gmap string Z;
  cu_loaded : bool; tls_ctx : gset nat; thread : nat; workers : list nat; uuids : nat }.
Definition set_known (k : gset pykey) (b : gbook) : gbook :=
  mkBook k (_put_tasks b) (gstats b) (cu_loaded b) (tls_ctx b) (thread b) (workers b) (uuids b).
Definition set_put_tasks (p : gset pykey) (b : gbook) : gbook :=
  mkBook (_known b) p (gstats b) (cu_loaded b) (tls_ctx b) (thread b) (workers b) (uuids b).
Definition bump (name : string) (n : Z) (b : gbook) : gbook :=
  mkBook (_known b) (_put_tasks b) (<[name := default 0 (gstats b !! name) + n]> (gstats b))
    (cu_loaded b) (tls_ctx b) (thread b) (workers b) (uuids b).
Definition set_thread (t : nat) (b : gbook) : gbook :=
  mkBook (_known b) (_put_tasks b) (gstats b) (cu_loaded b) (tls_ctx b) t (workers b) (uuids b).
Definition set_workers (l : list nat) (b : gbook) : gbook :=
  mkBook (_known b) (_put_tasks b) (gstats b) (cu_loaded b) (tls_ctx b) (thread b) l (uuids b).
(** [getattr(self._tls, "ctx", False)] *)
Definition has_ctx (b : gbook) : bool := bool_decide (thread b ∈ tls_ctx b).

(** The settings of a backend. *)
Record gsettings := mkGset { g_root : string; store_enabled : bool }.

Section Backend.
Context {D A : Type} `{LibDfs D} `{LibDfsGpu D} `{MetaCodec} `{!LocalCpu A} `{!GpuObjs A} `{CudaDriver}.
(** [uuid.uuid4().hex[:8]]: the [i]-th value drawn. *)
Context (uuid4 : nat → string) (cfg : gsettings).
Abbreviation G := (conn D gbook A).

Definition onB (f : gbook → gbook) : M G unit := onO (λ b, (Ok tt, f b)).
Definition getB {X} (f : gbook → X) : M G X := onO (λ b, (Ok (f b), b)).
Definition onM (f : A → A) : M G unit := onA (λ a, (tt, f a)).

(** A function that runs on another thread: on thread [t], or on the worker
    that takes the task. *)
Definition inB (f : gbook → gbook) (s : G) : G := mkConn (c_dfs s) (f (c_obj s)) (c_mem s).
Definition on_thread {X} (t : nat) (m : M G X) : M G X := λ s,
  let '(r, s') := m (inB (set_thread t) s) in (r, inB (set_thread (thread (c_obj s))) s').
Definition on_pool {X} (m : M G X) : M G X := λ s,
  let b := c_obj s in
  on_thread (default (thread b) (head (workers b))) m (inB (set_workers (tail (workers b))) s).

(** The library is the process's, the context is the thread's. *)
Definition _ensure_cuda_ctx : M G unit := onO (λ b,
  if has_ctx b then (Ok tt, b) else
  let ready := cu_loaded b in
  if negb ready && negb (cuInit =? 0) then (Raise RuntimeError, b) else
  if negb ready && negb (cuDevicePrimaryCtxRetain =? 0) then (Raise RuntimeError, b) else
  let b := mkBook (_known b) (_put_tasks b) (gstats b) true (tls_ctx b) (thread b) (workers b) (uuids b) in
  if negb (cuCtxSetCurrent =? 0) then (Raise RuntimeError, b) else
  (Ok tt, mkBook (_known b) (_put_tasks b) (gstats b) (cu_loaded b) ({[thread b]} ∪ tls_ctx b) (thread b)
            (workers b) (uuids b))).

Definition _path (key : pykey) : string :=
  let p := key_to_path key in
  if bool_decide (g_root cfg = V2_PREFIX) then p
  else (g_root cfg +:+ String.substring 3 (String.length p - 3) p)%string.

(** *** The known keys, each access under [_known_lock] *)
Definition is_known (key : pykey) : M G bool := getB (λ b, bool_decide (key ∈ _known b)).
Definition learn (key : pykey) : M G unit := onB (λ b, set_known ({[key]} ∪ _known b) b).
Definition forget (key : pykey) : M G unit := onB (λ b, set_known (_known b ∖ {[key]}) b).

(** *** Lookups *)
Definition stat_present (key : pykey) : M G bool :=
  try_except (let! r := onD (stat_size (_path key)) in ret (bool_decide (r ≠ None)))
    (λ e, if is_daos_error e then Some (ret false) else None).
Definition contains (key : pykey) : M G bool :=
  let! _ := _ensure_cuda_ctx in
  let! known := is_known key in
  if known then ret true else
  let! present := stat_present key in
  let! _ := if present then learn key else ret tt in
  ret present.

Fixpoint count_leading (l : list bool) : Z :=
  match l with true :: l => 1 + count_leading l | _ => 0 end.
Definition batched_contains (keys : list pykey) : M G Z :=
  let! hits := pool_map (λ k, on_pool (contains k)) keys in ret (count_leading hits).
Definition exists_in_put_tasks (key : pykey) : M G bool := getB (λ b, bool_decide (key ∈ _put_tasks b)).

(** *** Store *)

(** The loop of [batched_submit_put_task]: the puts handed to the pool. *)
Fixpoint submit_puts (l : list (pykey * Z)) : M G (list (pykey * Z)) :=
  match l with
  | [] => ret []
  | (key, obj) :: l =>
      let! busy := exists_in_put_tasks key in
      if busy then submit_puts l else
      let! _ := onB (λ b, set_put_tasks ({[key]} ∪ _put_tasks b) b) in
      let! _ := onM (ref_count_up obj) in
      let! rest := submit_puts l in
      ret ((key, obj) :: rest)
  end.
Definition batched_submit_put_task (keys : list pykey) (objs : list Z) : M G (option (list (pykey * Z))) :=
  if negb (store_enabled cfg) then ret None else
  let! futs := submit_puts (zip keys objs) in ret (Some futs).

Definition new_uuid : M G string := onO (λ b,
  (Ok (uuid4 (uuids b)), mkBook (_known b) (_put_tasks b) (gstats b) (cu_loaded b) (tls_ctx b) (thread b) (workers b) (S (uuids b)))).

(** Header page, then the payload from GPU memory, under the temporary name. *)
Definition write_temp (tmp : string) (m obj_bytes : bytes) : M G unit :=
  let n := len obj_bytes in
  let! h := onD (open_rdwr_create tmp 0) in
  let! wrote := try_finally
    (let! page := lift (pack_header m n STATE_COMMITTED) in
     let! _ := onD (write_obj_from h 0 page) in
     onD (write_gpu_from h payload_offset obj_bytes))
    (modD (close_obj h)) in
  if negb (wrote =? n) then raise (OSError 0) else ret tt.

(** The rename onto the final name. *)
Definition base_name (p : string) : string := snd (rpartition "/"%char p).
Definition publish (tmp final : string) : M G unit :=
  let! parent := onD (lookup_ (g_root cfg) DFS_RDWR) in
  try_finally (onD (move parent (base_name tmp) parent (base_name final))) (modD (release parent)).

(** From the tensor to the rename; the result is the size of the payload. *)
Definition store_file (key : pykey) (obj : Z) : M G Z :=
  let! tensor := asks (has_tensor obj) in
  if negb tensor then raise AssertionError else
  let! b := asks (byte_array obj) in
  let! sh := asks (get_shapes obj) in
  let! dt := asks (get_dtypes obj) in
  let! fm := asks (get_memory_format obj) in
  let m := serialize (mkMeta (len b) sh dt fm) in
  let final := _path key in
  let! nonce := new_uuid in
  let tmp := temp_path final nonce in
  let! _ := write_temp tmp m b in
  let! _ := publish tmp final in
  ret (len b).
Definition stored (key : pykey) (n : Z) : M G unit :=
  let! _ := learn key in
  let! _ := onB (bump "put" 1) in
  onB (bump "put_bytes" n).

(** The [try] block of [_put_one]; the callback's own errors are swallowed there. *)
Definition put_body (key : pykey) (obj : Z) : M G unit :=
  let! _ := _ensure_cuda_ctx in
  let! present := contains key in
  if present then ret tt else
  let! n := store_file key obj in
  stored key n.

(** The [finally] block. *)
Definition put_done (key : pykey) (obj : Z) (s : G) : G :=
  mkConn (c_dfs s) (set_put_tasks (_put_tasks (c_obj s) ∖ {[key]}) (c_obj s)) (ref_count_down obj (c_mem s)).
Definition _put_one (key : pykey) (obj : Z) : M G unit :=
  try_finally
    (try_except (put_body key obj) (λ e, if is_exception e then Some (ret tt) else None))
    (put_done key obj).

(** *** Retrieve *)

(** After the open: the header, the allocation, the payload.  The key is
    learnt by the caller: nothing between the last statistics and the return can
    raise, so that it makes no difference that the [except] covers it. *)
Definition get_inner (h : Z) : M G (option Z) :=
  let! page := onD (read_obj h 0 HEADER_SIZE) in
  match parse_header page true with
  | Raise (BadHeader _) => let! _ := onB (bump "miss" 1) in ret None
  | Raise e => raise e
  | Ok hdr =>
      let! md := lift (deserialize (meta hdr)) in
      let! o := onA (allocate (md_shapes md) (md_dtypes md) (md_fmt md)) in
      match o with
      | None => let! _ := onB (bump "alloc_fail" 1) in ret None
      | Some m =>
          let! tensor := asks (has_tensor m) in
          if negb tensor then let! _ := onB (bump "alloc_fail" 1) in ret None else
          let n := payload_len hdr in
          let! size := asks (λ a, len (byte_array m a)) in
          if negb (n =? size) then let! _ := onM (ref_count_down m) in ret None else
          (* an exception from here on finds [obj] set *)
          try_except
            (let! d := onD (read_gpu_into h payload_offset n) in
             if n <? len d then raise (Overflow (len d - n)) else
             let! _ := onM (poke m d) in
             if negb (len d =? n) then let! _ := onM (ref_count_down m) in ret None else
             let! _ := onB (bump "get" 1) in
             let! _ := onB (bump "get_bytes" n) in
             ret (Some m))
            (λ e, if is_exception e then Some (let! _ := onM (ref_count_down m) in ret None) else None)
      end
  end.
Definition read_object (h : Z) : M G (option Z) :=
  try_except (get_inner h) (λ e, if is_exception e then Some (ret None) else None).

Definition open_object (key : pykey) : M G (option Z) :=
  let! _ := _ensure_cuda_ctx in
  try_except (let! h := onD (open_rdonly (_path key)) in ret (Some h))
    (λ e, match daos_rc e with
          | Some rc => if rc =? ENOENT then Some (let! _ := onB (bump "miss" 1) in ret None) else None
          | None => None
          end).
Definition get_blocking (key : pykey) : M G (option Z) :=
  let! o := open_object key in
  match o with
  | None => ret None
  | Some h =>
      try_finally
        (let! r := read_object h in
         let! _ := match r with Some _ => learn key | None => ret tt end in ret r)
        (modD (close_obj h))
  end.

(** Release every object of a list of results. *)
Fixpoint release_all (l : list (option Z)) : M G unit :=
  match l with
  | [] => ret tt
  | Some m :: l => let! _ := onM (ref_count_down m) in release_all l
  | None :: l => release_all l
  end.

(** [next((i for i, o in enumerate(res) if o is None), None)] *)
Fixpoint first_none {X} (l : list (option X)) : option nat :=
  match l with
  | [] => None
  | None :: _ => Some O
  | Some _ :: l => S <$> first_none l
  end.
Definition batched_get_blocking (keys : list pykey) : M G (list (option Z)) :=
  let! res := pool_map (λ k, on_pool (get_blocking k)) keys in
  match first_none res with
  | None => ret res
  | Some cut =>
      let! _ := release_all (drop (S cut) res) in
      ret (take cut res ++ replicate (length res - cut) None)
  end.

(** [batched_get_non_blocking]: the loop over the gathered results. *)
Fixpoint prefix_loop (failed : bool) (l : list (option Z)) : M G (list Z) :=
  match l with
  | [] => ret []
  | None :: l => prefix_loop true l
  | Some m :: l =>
      if failed then (let! _ := onM (ref_count_down m) in prefix_loop true l)
      else (let! out := prefix_loop false l in ret (m :: out))
  end.
Definition batched_get_non_blocking (keys : list pykey) : M G (list Z) :=
  let! res := pool_map (λ k, on_pool (get_blocking k)) keys in prefix_loop false res.

(** *** Removal *)
Definition unlink (key : pykey) : M G bool :=
  try_except (onD (DfsBinding.remove (_path key)))
    (λ e, if is_daos_error e then Some (ret false) else None).
Definition remove (key : pykey) : M G bool := let! _ := forget key in unlink key.
Fixpoint batched_remove (keys : list pykey) : M G Z :=
  match keys with
  | [] => ret 0
  | k :: keys => let! r := remove k in let! n := batched_remove keys in ret ((if r then 1 else 0) + n)
  end.
End Backend.

(** ** What the further entry points document *)
Definition join (d n : string) : string := (d +:+ String "/" n)%string.

(** [mounted d]: the directory [d] exists for the whole run ([mkdir_p] made it). *)
Class GpuLaws (W : Type) `{LibDfsLaws W} `{LibDfsGpu W} := {
  mounted : string → Prop;
  read_gpu_law h off size w rc b w' p c :
    dfs_read_gpu h off size w = (rc, b, w') →
    hs w !! h = Some p → fs w !! p = Some c → 0 ≤ off → 0 ≤ size →
    (up w → up w') ∧ fs w' = fs w ∧ hs w' = hs w ∧
    (rc = 0 → b = slice c off (off + size)) ∧ (up w → rc = 0);
  write_gpu_law h off d w rc w' p c :
    dfs_write_gpu h off d w = (rc, w') →
    hs w !! h = Some p → fs w !! p = Some c → 0 ≤ off →
    (up w → up w') ∧ hs w' = hs w ∧
    (rc = 0 → fs w' = <[p := write_at c off d]> (fs w)) ∧
    (rc ≠ 0 → ∃ k, fs w' = <[p := write_at c off (take k d)]> (fs w)) ∧
    (up w → rc = 0);
  lookup_law path flags w rc h w' :
    dfs_lookup path flags w = (rc, h, w') →
    (up w → up w') ∧ fs w' = fs w ∧
    (rc = 0 → hs w !! h = None ∧ hs w' = <[h := path]> (hs w)) ∧
    (rc ≠ 0 → hs w' = hs w) ∧ (up w → mounted path → rc = 0);
  release_law h w rc w' :
    dfs_release h w = (rc, w') → (up w → up w') ∧ fs w' = fs w ∧ hs w' = delete h (hs w);
  move_law d n d' n' w rc w' p p' :
    dfs_move d n d' n' w = (rc, w') → hs w !! d = Some p → hs w !! d' = Some p' →
    (up w → up w') ∧ hs w' = hs w ∧
    (rc = 0 → ∃ c, fs w !! join p n = Some c ∧
       fs w' = <[join p' n' := c]> (delete (join p n) (fs w))) ∧
    (rc ≠ 0 → fs w' = fs w) ∧
    (up w → is_Some (fs w !! join p n) → rc = 0);
}.

Class GpuObjsLaws (A : Type) `{LocalCpuLaws A} `{GpuObjs A} := {
  ref_count_up_law m a o :
    live a !! m = Some o →
    live (ref_count_up m a) =
      <[m := mkMobj (mo_bytes o) (mo_refs o + 1) (mo_shapes o) (mo_dtypes o) (mo_fmt o)]> (live a);
}.

(** ** Specification: what a published file holds *)
Section GdsDecode.
Context `{MetaCodec}.
Definition gds_decode (c : bytes) : option (RemoteMetadata * bytes) :=
  match parse_header (slice c 0 HEADER_SIZE) true with
  | Raise _ => None
  | Ok hdr =>
      match deserialize (meta hdr) with
      | Raise _ => None
      | Ok md =>
          let p := slice c HEADER_SIZE (HEADER_SIZE + payload_len hdr) in
          if bool_decide (len p = payload_len hdr) then Some (md, p) else None
      end
  end.
End GdsDecode.

Lemma len_pack_header mt pl st page : pack_header mt pl st = Ok page → len page = HEADER_SIZE.
Proof.
  intros Hp. apply pack_header_inv in Hp as [(Hm & _) ->]. rw len_app len_header_body. rw MAX_META_4060 in Hm.
  rw /len /zeros length_replicate /HEADER_SIZE. unfold len in Hm. lia.
Qed.

Lemma struct_pack_raises fmt vs e : struct_pack fmt vs = Raise e → e = StructError.
Proof.
  revert vs. induction fmt as [|f fmt IH]; intros [|v vs]; cbn; [done|by intros [=]..|].
  destruct (pack1 f v) as [b|e'] eqn:E1; cbn.
  - destruct (struct_pack fmt vs) as [bs|e'] eqn:E2; cbn; [done|]. intros [= <-]. by eapply IH.
  - intros [= <-]. move: E1. rw /pack1. repeat case_match; by intros [= <-].
Qed.
Lemma pack_header_raises mt pl st e : pack_header mt pl st = Raise e → is_exception e = true.
Proof.
  rw /pack_header /pack_fixed_meta /_crc. repeat (case_match; [by intros [= <-]|]).
  destruct (struct_pack _ _) as [b|e'] eqn:E1; cbn [res_bind].
  - destruct (struct_pack fixed_fmt _) as [b'|e'] eqn:E2; cbn [res_bind]; [done|].
    intros [= <-]. by rw (struct_pack_raises _ _ _ E2).
  - intros [= <-]. by rw (struct_pack_raises _ _ _ E1).
Qed.

Lemma parse_header_payload_nonneg page rc hdr : parse_header page rc = Ok hdr → 0 ≤ payload_len hdr.
Proof.
  intros Hp. assert (FIXED_SIZE ≤ len page) as Hl.
  { move: Hp. rw /parse_header. destruct (Z.ltb_spec (len page) FIXED_SIZE); [done|lia]. }
  destruct (page_fields _ Hl) as (mg & v & st & ml & rs & pl & crc & rest & -> & Hmg & Hv & Hst & Hml & Hrs & Hpl & Hcrc).
  rw parse_header_fields // in Hp. cbn zeta in Hp. repeat (case_match; [done|]). injection Hp as <-. by destruct Hpl.
Qed.

(** ** Specifications *)
Section GdsSpecs.
Context {D A : Type} `{LibDfsLaws D} `{!LibDfsGpu D} `{!GpuLaws D} `{MetaCodecLaws}
  `{!LocalCpu A} `{!LocalCpuLaws A} `{!GpuObjs A} `{!GpuObjsLaws A} `{CudaDriver}.
Context (uuid4 : nat → string) (cfg : gsettings).
Hypothesis uuid_flat : ∀ i, no_char "/" (uuid4 i) = true.
Abbreviation G := (conn D gbook A).
Implicit Types s : G.
Abbreviation files s := (fs (c_dfs s)).
Abbreviation handles s := (hs (c_dfs s)).
Abbreviation path := (_path cfg).

Lemma gds_decode_written md b page rest :
  meta_ok md → pack_header (serialize md) (len b) STATE_COMMITTED = Ok page →
  gds_decode ((page ++ b) ++ rest) = Some (md, b).
Proof.
  intros Hmd Hp. pose proof (len_pack_header _ _ _ _ Hp) as Hl.
  apply pack_header_inv in Hp as [Ha Hpage]. rw /gds_decode -!app_assoc slice_app_l //.
  rw {1}Hpage parse_header_body //. cbn [negb andb]. cbn [meta payload_len].
  rw Z.eqb_refl. cbn [negb meta payload_len]. rw deserialize_serialize //. rw slice_app_mid //; [by rw Hl|]. by rw bool_decide_true.
Qed.

(** *** Names *)
Lemma substring_all x : String.substring 0 (String.length x) x = x.
Proof. induction x as [|a x IH]; [done|]. cbn. by rw IH. Qed.

Lemma path_shape key : path key = join (g_root cfg) (hexdigest (encode (own_string key))).
Proof.
  rw /_path /join /key_to_path. generalize (hexdigest (encode (own_string key))). intros h.
  case_bool_decide as E; [by rw E|]. f_equal.
  change (V2_PREFIX +:+ "/" +:+ h)%string with (String "/" (String "v" (String "2" (String "/" h)))).
  cbn [String.length Nat.sub]. rw ?Nat.sub_0_r. cbn [String.substring].
  change (String.substring 0 (String.length (String "/" h)) (String "/" h) = String "/" h). apply substring_all.
Qed.

Lemma base_name_join d n : no_char "/" n = true → base_name (join d n) = n.
Proof. intros Hn. by rw /base_name /rpartition rpart_last. Qed.

Lemma base_of_path key : join (g_root cfg) (base_name (path key)) = path key.
Proof. rw path_shape base_name_join //. apply all_hex_no_char; [done|]. apply hexdigest_hex. Qed.

(** The temporary name is in the same directory and is no published name. *)
Lemma temp_shape key nonce :
  temp_path (path key) nonce =
  join (g_root cfg) (".tmp-" +:+ hexdigest (encode (own_string key)) +:+ "-" +:+ nonce)%string.
Proof.
  rw path_shape /temp_path /rpartition rpart_hex; [apply hexdigest_hex|]. done.
Qed.
Lemma base_of_temp key i :
  join (g_root cfg) (base_name (temp_path (path key) (uuid4 i))) = temp_path (path key) (uuid4 i).
Proof.
  rw temp_shape base_name_join //. rw !no_char_app uuid_flat. cbn [no_char]. rw all_hex_no_char //.
  apply hexdigest_hex.
Qed.
Lemma string_app_cancel (d a b : string) : (d +:+ a = d +:+ b)%string → a = b.
Proof. intros Heq. by apply string_app_inj in Heq as [_ ?]. Qed.
Lemma temp_not_published key key' nonce : temp_path (path key) nonce ≠ path key'.
Proof.
  rw temp_shape path_shape /join. intros Heq%string_app_cancel. injection Heq as Heq.
  destruct (hexdigest_cons (encode (own_string key'))) as (c & x & E & Hc). rw E in Heq.
  injection Heq as <- _. done.
Qed.

(** *** The primitive steps *)
Lemma write_gpu_from_spec h off d w p c :
  hs w !! h = Some p → fs w !! p = Some c → 0 ≤ off →
  wp (write_gpu_from h off d) w
    (λ n w', n = len d ∧ fs w' = <[p := write_at c off d]> (fs w) ∧
       hs w' = hs w ∧ (up w → up w'))
    (λ e w', is_exception e = true ∧ hs w' = hs w ∧ (up w → gpu_ok = false) ∧
       ∃ k, fs w' = <[p := write_at c off (take k d)]> (fs w)).
Proof.
  intros Hh Hc Ho. rw /wp /write_gpu_from. destruct gpu_ok eqn:Eg; simpl.
  - destruct (dfs_write_gpu h off d w) as [rc w'] eqn:E.
    eapply write_gpu_law in E as (Hup & Hhs & Hz & Hn & Hok); try done.
    destruct (Z.eqb_spec rc 0) as [->|]; simpl; [naive_solver|].
    split_and!; [done|done|naive_solver|by apply Hn].
  - split_and!; try done. exists O. rw take_0 /= insert_id //.
Qed.

Lemma read_gpu_into_spec h off n w p c :
  hs w !! h = Some p → fs w !! p = Some c → 0 ≤ off → 0 ≤ n →
  wp (read_gpu_into h off n) w
    (λ b w', b = slice c off (off + n) ∧ frame w w')
    (λ e w', is_exception e = true ∧ frame w w' ∧ (up w → gpu_ok = false)).
Proof.
  intros Hh Hc Ho Hn. rw /wp /read_gpu_into. destruct gpu_ok eqn:Eg; simpl; [|done].
  rw /checked. destruct (dfs_read_gpu h off n w) as [[rc b] w'] eqn:E.
  eapply read_gpu_law in E as (Hup & Hf & Hhs & Hb & Hok); try done.
  destruct (Z.eqb_spec rc 0) as [->|]; simpl; [by rw Hb|].
  split_and!; [done|done|naive_solver].
Qed.

(** What one step leaves alone. *)
Definition same_mem s s' : Prop := c_obj s' = c_obj s ∧ c_mem s' = c_mem s.

(** The CUDA driver works. *)
Definition cuda_ok : Prop := cuInit = 0 ∧ cuDevicePrimaryCtxRetain = 0 ∧ cuCtxSetCurrent = 0.

(** Only the CUDA fields of the bookkeeping differ. *)
Definition same_book (b b' : gbook) : Prop :=
  _known b' = _known b ∧ _put_tasks b' = _put_tasks b ∧ gstats b' = gstats b ∧ uuids b' = uuids b.

Lemma ctx_bound k p g c x t w u : has_ctx (mkBook k p g c ({[t]} ∪ x) t w u) = true.
Proof. rw /has_ctx /=. apply bool_decide_eq_true_2, elem_of_union. left. by apply elem_of_singleton. Qed.

Lemma ensure_cuda_ctx_spec s :
  wp _ensure_cuda_ctx s
    (λ _ s', c_dfs s' = c_dfs s ∧ c_mem s' = c_mem s ∧ same_book (c_obj s) (c_obj s') ∧ has_ctx (c_obj s') = true)
    (λ e s', e = RuntimeError ∧ c_dfs s' = c_dfs s ∧ c_mem s' = c_mem s ∧
       same_book (c_obj s) (c_obj s') ∧ ¬ cuda_ok ∧ has_ctx (c_obj s) = false).
Proof.
  apply wp_onO. rw /wp /_ensure_cuda_ctx. destruct (has_ctx (c_obj s)) eqn:Et; simpl; [done|].
  assert (∀ c, same_book (c_obj s) (mkBook (_known (c_obj s)) (_put_tasks (c_obj s)) (gstats (c_obj s)) true
    c (thread (c_obj s)) (workers (c_obj s)) (uuids (c_obj s)))) as Hsame by done.
  rw /cuda_ok. destruct (cu_loaded (c_obj s)); simpl.
  - destruct (Z.eqb_spec cuCtxSetCurrent 0); simpl; split_and!; try done; [apply ctx_bound|by intros (? & ? & ?)].
  - destruct (Z.eqb_spec cuInit 0); simpl; [|split_and!; try done; by intros (? & ? & ?)].
    destruct (Z.eqb_spec cuDevicePrimaryCtxRetain 0); simpl; [|split_and!; try done; by intros (? & ? & ?)].
    destruct (Z.eqb_spec cuCtxSetCurrent 0); simpl; split_and!; try done; [apply ctx_bound|by intros (? & ? & ?)].
Qed.

(** The temporary file: header page and payload over whatever was there. *)
Lemma write_temp_spec tmp m b s :
  let old := default [] (files s !! tmp) in
  wp (write_temp tmp m b) s
    (λ _ s', ∃ page, pack_header m (len b) STATE_COMMITTED = Ok page ∧
       files s' = <[tmp := write_at old 0 (page ++ b)]> (files s) ∧
       handles s' = handles s ∧ (up (c_dfs s) → up (c_dfs s')) ∧ same_mem s s')
    (λ e s', is_exception e = true ∧ handles s' = handles s ∧ same_mem s s' ∧
       (files s' = files s ∨ ∃ x, files s' = <[tmp := x]> (files s)) ∧
       (up (c_dfs s) → gpu_ok = true → ¬ is_ok (pack_header m (len b) STATE_COMMITTED))).
Proof.
  intros old. rw /write_temp. apply wp_bind, wp_onD. wp_use (open_rdwr_create_spec tmp 0 (c_dfs s)).
  2:{ intros e w ((Hf & Hh & _) & rc & -> & _ & Hup). split_and!; try done; [by left|]. naive_solver. }
  intros h w1 (Hf1 & Hn & Hh1 & Hu1). apply wp_bind, wp_finally. fold old in Hf1.
  assert (∀ w, hs w = hs w1 → hs (close_obj h w) = handles s) as Hcl.
  { intros w Hw. destruct (close_obj_spec h w) as (_ & -> & _). by rw Hw Hh1 delete_insert_id. }
  assert (∀ w, fs (close_obj h w) = fs w) as Hcf by (intros w; apply close_obj_spec).
  apply wp_bind, wp_lift. destruct (pack_header m (len b) STATE_COMMITTED) as [page|e] eqn:Ep.
  2:{ rw /= Hcf Hcl // Hf1. assert (is_exception e = true) as He.
      { by eapply pack_header_raises. }
      split_and!; try done; [by right; eexists|]. by intros _ _ []. }
  apply wp_bind, wp_onD. simpl.
  wp_use (write_obj_from_spec h 0 page w1 tmp old);
    [by rw Hh1 lookup_insert_eq|by rw Hf1 lookup_insert_eq|done| |].
  2:{ intros e w (Hh2 & Hu2 & [rc ->] & k & Hf2). rw /= Hcf Hcl // Hf2 Hf1 insert_insert_eq.
      split_and!; try done; [by right; eexists|]. intros Hu. naive_solver. }
  intros n1 w2 (_ & Hf2 & Hh2 & Hu2). apply wp_onD. simpl.
  pose proof (len_pack_header _ _ _ _ Ep) as Hlp. rw /payload_offset -Hlp.
  wp_use (write_gpu_from_spec h (len page) b w2 tmp (write_at old 0 page));
    [by rw Hh2 Hh1 lookup_insert_eq|by rw Hf2 lookup_insert_eq|apply len_nonneg| |].
  2:{ intros e w (He & Hh3 & Hu3 & k & Hf3). rw /= Hcf Hcl; [by rw Hh3 Hh2|].
      rw Hf3 Hf2 Hf1 !insert_insert_eq. split_and!; try done; [by right; eexists|].
      intros Hu Hg. rw Hu3 in Hg; [auto|done]. }
  intros n w3 (-> & Hf3 & Hh3 & Hu3). rw Z.eqb_refl. apply wp_ret. rw /= Hcf Hcl; [by rw Hh3 Hh2|].
  exists page. rw Hf3 Hf2 Hf1 !insert_insert_eq write_at_two. split_and!; try done.
  intros Hu. apply close_obj_spec. auto.
Qed.

Lemma publish_spec key i c s :
  let tmp := temp_path (path key) (uuid4 i) in
  files s !! tmp = Some c →
  wp (publish cfg tmp (path key)) s
    (λ _ s', files s' = <[path key := c]> (delete tmp (files s)) ∧ handles s' = handles s ∧
       (up (c_dfs s) → up (c_dfs s')) ∧ same_mem s s')
    (λ e s', is_exception e = true ∧ files s' = files s ∧ handles s' = handles s ∧ same_mem s s' ∧
       (up (c_dfs s) → ¬ mounted (g_root cfg))).
Proof.
  intros tmp Hc. rw /publish. apply wp_bind, wp_onD. rw {1}/wp /lookup_ /checked.
  destruct (dfs_lookup (g_root cfg) DFS_RDWR (c_dfs s)) as [[rc d] w1] eqn:El.
  apply lookup_law in El as (Hu1 & Hf1 & Hz1 & Hn1 & Hm1).
  destruct (Z.eqb_spec rc 0) as [->|Hrc]; simpl.
  2:{ split_and!; try done; naive_solver. }
  destruct (Hz1 eq_refl) as [Hd Hh1]. clear Hz1 Hn1 Hm1. apply wp_finally, wp_onD. rw {1}/wp /move. simpl.
  destruct (dfs_move d (base_name tmp) d (base_name (path key)) w1) as [rc w2] eqn:Em.
  eapply move_law in Em as (Hu2 & Hh2 & Hz2 & Hn2 & Hm2); [|by rw Hh1 lookup_insert_eq..].
  rw base_of_temp -/tmp base_of_path Hf1 in Hz2 Hm2.
  assert (∀ w, fs (release d w) = fs w ∧ hs (release d w) = delete d (hs w) ∧ (up w → up (release d w))) as Hrel.
  { intros w. rw /release. destruct (dfs_release d w) as [rc' w'] eqn:Er.
    by apply release_law in Er as (? & ? & ?). }
  destruct (Hrel w2) as (Hf3 & Hh3 & Hu3). rw Hh2 Hh1 delete_insert_id // in Hh3.
  destruct (Z.eqb_spec rc 0) as [->|Hrc]; simpl.
  - destruct (Hz2 eq_refl) as (c' & Hc' & Hf2). rw Hf3 Hf2 Hh3. simplify_eq. split_and!; try done. auto.
  - rw Hf3 Hh3 Hn2 // Hf1. split_and!; try done. intros Hu. naive_solver.
Qed.

(** What [contains] may change: the set of known keys, by a key that is there. *)
Definition learns key s s' : Prop :=
  _known (c_obj s') = _known (c_obj s) ∨
  (_known (c_obj s') = {[key]} ∪ _known (c_obj s) ∧ is_Some (files s !! path key)).
Definition rest_book (b b' : gbook) : Prop := _put_tasks b' = _put_tasks b ∧ uuids b' = uuids b.

Lemma stat_present_spec key s :
  wp (stat_present cfg key) s
    (λ r s', frame (c_dfs s) (c_dfs s') ∧ same_mem s s' ∧ (r = true → is_Some (files s !! path key)) ∧
       (up (c_dfs s) → r = bool_decide (is_Some (files s !! path key))))
    (λ _ _, False).
Proof.
  rw /stat_present. apply wp_except, wp_bind, wp_onD. wp_use (stat_size_spec (path key) (c_dfs s)).
  2:{ intros e w (Hf & Hu & rc & ->). change (is_daos_error (DaosError rc)) with true. by apply wp_ret. }
  intros r w (Hf & ->). apply wp_ret. destruct (files s !! path key) as [c|] eqn:Ec; split_and!; try done; by eexists.
Qed.

Lemma contains_spec key s :
  wp (contains cfg key) s
    (λ r s', frame (c_dfs s) (c_dfs s') ∧ c_mem s' = c_mem s ∧ rest_book (c_obj s) (c_obj s') ∧
       learns key s s' ∧ has_ctx (c_obj s') = true ∧ (r = true → key ∈ _known (c_obj s')) ∧
       (key ∈ _known (c_obj s) → r = true ∧ _known (c_obj s') = _known (c_obj s)) ∧
       (up (c_dfs s) → key ∉ _known (c_obj s) → r = bool_decide (is_Some (files s !! path key))))
    (λ e s', e = RuntimeError ∧ c_dfs s' = c_dfs s ∧ c_mem s' = c_mem s ∧ same_book (c_obj s) (c_obj s') ∧
       ¬ cuda_ok ∧ has_ctx (c_obj s) = false).
Proof.
  rw /contains. apply wp_bind. eapply wp_mono; [apply ensure_cuda_ctx_spec| |naive_solver].
  intros _ s1 (Hd1 & Hm1 & (Hk1 & Hp1 & Hg1 & Hi1) & Ht1). apply wp_bind, wp_onO. rw {1}/wp.
  destruct s1 as [d1 b1 a1]. simpl in *. subst d1 a1.
  case_bool_decide as Hin; rw Hk1 in Hin.
  { apply wp_ret. split_and!; try done; [by left|by rw Hk1]. }
  apply wp_bind. eapply wp_mono; [apply stat_present_spec| |done].
  intros r s2 (Hf & [Hb2 Hm2] & Hpres & Hup). simpl in *. rw /learns /rest_book. destruct r.
  - rw /bind /wp /learn /onB /onO. rw /= Hb2 /= Hk1. split_and!; try done; [by right; eauto|set_solver|auto].
  - apply wp_bind, wp_ret, wp_ret. rw Hb2 /=. split_and!; try done; [by left|auto].
Qed.

Definition obj_meta (o : mobj) : RemoteMetadata :=
  mkMeta (len (mo_bytes o)) (mo_shapes o) (mo_dtypes o) (mo_fmt o).
(** Published files are as they were, and so are the open handles. *)
Definition untouched s s' : Prop :=
  (∀ k, files s' !! path k = files s !! path k) ∧ handles s' = handles s.
(** The file of [key] is the complete object [o]; the other published files
    are as they were. *)
Definition published key o s s' : Prop :=
  (handles s' = handles s) ∧ (∃ c, files s' !! path key = Some c ∧
    (meta_ok (obj_meta o) → gds_decode c = Some (obj_meta o, mo_bytes o))) ∧
  ∀ k, path k ≠ path key → files s' !! path k = files s !! path k.
(** When a store cannot fail. *)
Definition can_store key obj (o : mobj) s : Prop :=
  up (c_dfs s) ∧ gpu_ok = true ∧ (cuda_ok ∨ has_ctx (c_obj s) = true) ∧ mounted (g_root cfg) ∧
  has_tensor obj (c_mem s) = true ∧
  is_ok (pack_header (serialize (obj_meta o)) (len (mo_bytes o)) STATE_COMMITTED) ∧
  (key ∉ _known (c_obj s)) ∧ files s !! path key = None.

(** [o] is what the accessors of the object [obj] return. *)
Definition views obj (o : mobj) (a : A) : Prop :=
  byte_array obj a = mo_bytes o ∧ get_shapes obj a = mo_shapes o ∧
  get_dtypes obj a = mo_dtypes o ∧ get_memory_format obj a = mo_fmt o.
Lemma live_views obj o a : live a !! obj = Some o → views obj o a.
Proof. intros Ho. split; [by apply byte_array_law|]. by apply layout_law. Qed.
Definition view obj (a : A) : mobj :=
  mkMobj (byte_array obj a) 0 (get_shapes obj a) (get_dtypes obj a) (get_memory_format obj a).

(** The outcome of a store: nothing visible, or the whole object. *)
Definition put_outcome key o s s' : Prop :=
  _put_tasks (c_obj s') = _put_tasks (c_obj s) ∧ (key ∈ _known (c_obj s) → untouched s s') ∧
  ((untouched s s' ∧ learns key s s') ∨
   (published key o s s' ∧ _known (c_obj s') = {[key]} ∪ _known (c_obj s))).

Lemma temp_untouched key i s s' :
  handles s' = handles s →
  files s' = files s ∨ (∃ x, files s' = <[temp_path (path key) (uuid4 i) := x]> (files s)) →
  untouched s s'.
Proof.
  intros Hh Hf. split; [|done]. intros k. destruct Hf as [->|[x ->]]; [done|].
  rw lookup_insert_ne //. apply temp_not_published.
Qed.

Lemma write_published key i o page c s s1 s2 :
  let tmp := temp_path (path key) (uuid4 i) in
  pack_header (serialize (obj_meta o)) (len (mo_bytes o)) STATE_COMMITTED = Ok page →
  c = write_at (default [] (files s !! tmp)) 0 (page ++ mo_bytes o) →
  files s1 = <[tmp := c]> (files s) → handles s1 = handles s →
  files s2 = <[path key := c]> (delete tmp (files s1)) → handles s2 = handles s1 →
  published key o s s2.
Proof.
  intros tmp Hp Hc Hf1 Hh1 Hf2 Hh2. split; [congruence|]. split.
  - exists c. rw Hf2 lookup_insert_eq. split; [done|]. intros Hm.
    rw Hc write_at_over. by apply gds_decode_written.
  - intros k Hk. rw Hf2 lookup_insert_ne // Hf1 lookup_delete_ne; [apply temp_not_published|].
    rw lookup_insert_ne //. apply temp_not_published.
Qed.

(** The book keeps its keys: those it knows and those with a pending put. *)
Definition same_keys (b b' : gbook) : Prop := _known b' = _known b ∧ _put_tasks b' = _put_tasks b.

Lemma store_file_spec key obj o s :
  views obj o (c_mem s) →
  wp (store_file uuid4 cfg key obj) s
    (λ n s', n = len (mo_bytes o) ∧ c_mem s' = c_mem s ∧ same_keys (c_obj s) (c_obj s') ∧
       published key o s s' ∧ (up (c_dfs s) → up (c_dfs s')))
    (λ e s', is_exception e = true ∧ c_mem s' = c_mem s ∧ same_keys (c_obj s) (c_obj s') ∧ untouched s s' ∧
       ¬ (up (c_dfs s) ∧ gpu_ok = true ∧ mounted (g_root cfg) ∧ has_tensor obj (c_mem s) = true ∧
          is_ok (pack_header (serialize (obj_meta o)) (len (mo_bytes o)) STATE_COMMITTED))).
Proof.
  intros (Hvb & Hvs & Hvd & Hvf). rw /store_file. apply wp_bind, wp_asks.
  destruct (has_tensor obj (c_mem s)) eqn:Etn; simpl; [|apply wp_raise; split_and!; try done; naive_solver].
  do 4 apply wp_bind, wp_asks. rw Hvb Hvs Hvd Hvf. fold (obj_meta o).
  apply wp_bind, wp_onO. rw {1}/wp. simpl. apply wp_bind.
  set (i := uuids (c_obj s)). set (tmp := temp_path (path key) (uuid4 i)).
  set (s3 := mkConn (c_dfs s) _ (c_mem s)).
  eapply wp_mono; [apply write_temp_spec| |].
  2:{ intros e s' (He & Hh & [Hb Hm] & Hf & Hc). split_and!; [done|by rw Hm|by rw Hb| |].
      - by eapply temp_untouched.
      - intros (Hup & Hg & _ & _ & Hpk). by apply Hc. }
  intros _ s4 (page & Hpage & Hf4 & Hh4 & Hu4 & Hb4 & Hm4). apply wp_bind.
  eapply wp_mono; [apply publish_spec; by rw Hf4 lookup_insert_eq| |].
  2:{ intros e s' (He & Hf & Hh & [Hb Hm] & Hc). split_and!; [done|by rw Hm Hm4|by rw Hb Hb4| |].
      - eapply (temp_untouched key i); [by rw Hh Hh4|]. right. eexists. by rw Hf Hf4.
      - intros (Hup & _ & Hmt & _). apply Hc; [by apply Hu4|done]. }
  intros _ s5 (Hf5 & Hh5 & Hu5 & Hb5 & Hm5). apply wp_ret.
  split_and!; [done|by rw Hm5 Hm4|by rw Hb5 Hb4| |by auto].
  by eapply (write_published key i _ _ _ s s4 s5).
Qed.

Lemma put_body_spec key obj o s :
  views obj o (c_mem s) →
  wp (put_body uuid4 cfg key obj) s
    (λ _ s', c_mem s' = c_mem s ∧ put_outcome key o s s' ∧
       (can_store key obj o s → up (c_dfs s') ∧ published key o s s'))
    (λ e s', is_exception e = true ∧ c_mem s' = c_mem s ∧ put_outcome key o s s' ∧ ¬ can_store key obj o s).
Proof.
  intros Hv. rw /put_body. apply wp_bind. eapply wp_mono; [apply ensure_cuda_ctx_spec| |].
  2:{ intros e s' (-> & Hd & Hm & (Hk & Hp & _) & Hc & Ht). split_and!; try done.
      - split; [done|]. rw /untouched Hd. split; [done|]. left. split; [done|by left].
      - intros (_ & _ & Hok & _). rw Ht in Hok. naive_solver. }
  intros _ s1 (Hd1 & Hm1 & (Hk1 & Hp1 & _ & Hi1) & Ht1). apply wp_bind.
  eapply wp_mono; [apply contains_spec| |]; cycle 1.
  { intros e s' (_ & _ & _ & _ & _ & Hbad). congruence. }
  intros r s2 (Hf2 & Hm2 & (Hp2 & _) & Hl2 & _ & Hr & Hold & Hnew).
  rw /learns Hk1 Hd1 in Hl2. rw Hk1 in Hold Hnew. rw Hd1 in Hf2 Hnew. rw Hm1 in Hm2. rw Hp1 in Hp2.
  clear s1 Hd1 Hm1 Hk1 Hp1 Hi1 Ht1. destruct Hf2 as (Hff & Hfh & Hfu).
  assert (∀ s', untouched s2 s' → same_keys (c_obj s2) (c_obj s') → put_outcome key o s s') as Hnothing.
  { intros s' [Hu Hh] [Hk Hp]. split; [congruence|].
    assert (untouched s s') by (split; [intros k; by rw Hu Hff|by rw Hh Hfh]).
    split; [done|]. left. split; [done|]. rw /learns Hk. exact Hl2. }
  destruct r.
  { apply wp_ret. split_and!; [done|by apply Hnothing|]. intros (Hup & _ & _ & _ & _ & _ & Hnk & Hnone).
    specialize (Hnew Hup Hnk). rw Hnone in Hnew. by case_bool_decide. }
  apply wp_bind. eapply wp_mono; [apply (store_file_spec key obj o); by rw Hm2| |].
  2:{ intros e s' (He & Hm & Hk & Hu & Hno). rw Hm2 in Hm, Hno. split_and!; try done; [by apply Hnothing|].
      intros (Hup & Hg & _ & Hmt & Ht & Hpk & _). apply Hno. split_and!; auto. }
  intros n s5 (-> & Hm5 & [Hk5 Hp5] & (Hh5 & Hc5 & Ho5) & Hu5).
  assert (published key o s s5) as Hpub.
  { split; [by rw Hh5|]. split; [done|]. intros k Hk. by rw Ho5 // Hff. }
  rw /stored /learn /bind /onB /onO /wp. simpl. split; [by rw Hm5|]. split.
  - split; [by rw /= Hp5|]. split; [by intros [? _]%Hold|].
    right. split; [done|]. rw /= Hk5. destruct Hl2 as [->|[-> _]]; set_solver.
  - intros (Hup & _). split; [|done]. by apply Hu5, Hfu.
Qed.

(** *** Loads *)

(** An object that the allocator handed out without a tensor stays allocated. *)
Definition tensorless s s' : Prop :=
  ∃ m md b, allocated (c_mem s) m md b (c_mem s') ∧ has_tensor m (c_mem s') = false.
(** The complete object of [c] can be brought to the GPU. *)
Definition loadable (c : bytes) md p s : Prop :=
  gds_decode c = Some (md, p) ∧ len p = size_of (md_shapes md) (md_dtypes md) (md_fmt md) ∧
  up (c_dfs s) ∧ gpu_ok = true ∧
  ∃ m, fst (allocate (md_shapes md) (md_dtypes md) (md_fmt md) (c_mem s)) = Some m ∧
       has_tensor m (snd (allocate (md_shapes md) (md_dtypes md) (md_fmt md) (c_mem s))) = true.
(** What loading the file of content [c] does, before the key is learnt. *)
Definition load_outcome (c : bytes) (r : option Z) s s' : Prop :=
  same_keys (c_obj s) (c_obj s') ∧
  match r with
  | Some m => ∃ md p, gds_decode c = Some (md, p) ∧ allocated (c_mem s) m md p (c_mem s')
  | None => (live (c_mem s') = live (c_mem s) ∨ tensorless s s') ∧ ∀ md p, ¬ loadable c md p s
  end.
Definition get_outcome key (c : bytes) (r : option Z) s s' : Prop :=
  _put_tasks (c_obj s') = _put_tasks (c_obj s) ∧
  match r with
  | Some m => _known (c_obj s') = {[key]} ∪ _known (c_obj s) ∧
      ∃ md p, gds_decode c = Some (md, p) ∧ allocated (c_mem s) m md p (c_mem s')
  | None => _known (c_obj s') = _known (c_obj s) ∧
      (live (c_mem s') = live (c_mem s) ∨ tensorless s s') ∧ ∀ md p, ¬ loadable c md p s
  end.

(** From the GPU read on, into the object [m] of memory [b]. *)
Lemma get_read_spec key h c md b a0 m n s :
  handles s !! h = Some (path key) → files s !! path key = Some c →
  allocated a0 m md b (c_mem s) → 0 ≤ n → n = len b →
  wp (try_except
        (let! d := onD (read_gpu_into h payload_offset n) in
         if n <? len d then raise (Overflow (len d - n)) else
         let! _ := onM (poke m d) in
         if negb (len d =? n) then let! _ := onM (ref_count_down m) in ret None else
         let! _ := onB (bump "get" 1) in
         let! _ := onB (bump "get_bytes" n) in
         ret (Some m))
        (λ e, if is_exception e then Some (let! _ := onM (ref_count_down m) in ret None) else None)) s
    (λ r s', frame (c_dfs s) (c_dfs s') ∧ same_keys (c_obj s) (c_obj s') ∧
       let d := slice c HEADER_SIZE (HEADER_SIZE + n) in
       match r with
       | Some m' => m' = m ∧ len d = n ∧
           allocated a0 m md d (c_mem s')
       | None => live (c_mem s') = live a0 ∧
           (up (c_dfs s) → gpu_ok = true → len d ≠ n)
       end)
    (λ _ _, False).
Proof.
  intros Hh Hc Ha Hn Hb. apply wp_except, wp_bind, wp_onD.
  wp_use (read_gpu_into_spec h payload_offset n (c_dfs s) (path key) c); try done.
  2:{ intros e w (He & Hf & Hu). rw He. rw /bind /onM /onA /wp /=. split_and!; try done.
      - by eapply allocated_release.
      - intros Hup Hg. rw Hu // in Hg. }
  intros d w [-> Hf]. rw /payload_offset. set (d := slice c HEADER_SIZE (HEADER_SIZE + n)).
  assert (len d ≤ n) as Hd by (pose proof (slice_short c HEADER_SIZE (HEADER_SIZE + n)); rw /d; unfold HEADER_SIZE in *; lia).
  destruct (Z.ltb_spec n (len d)); [lia|].
  pose proof (allocated_poke _ _ _ _ _ d Ha ltac:(lia)) as Ha'.
  rw /bind {1}/onM /onA. cbn. destruct (Z.eqb_spec (len d) n) as [Heq|Hne]; cbn.
  - rw /wp /onB /onO. cbn. split_and!; try done.
    rw drop_ge in Ha'; [unfold len in *; lia|]. by rw app_nil_r in Ha'.
  - rw /wp /onM /onA. cbn. split_and!; try done. by eapply allocated_release.
Qed.

#[local] Opaque HEADER_SIZE slice.
Lemma get_inner_spec key h c s :
  handles s !! h = Some (path key) → files s !! path key = Some c →
  wp (get_inner h) s
    (λ r s', frame (c_dfs s) (c_dfs s') ∧ load_outcome c r s s')
    (λ e s', is_exception e = true ∧ frame (c_dfs s) (c_dfs s') ∧ load_outcome c None s s').
Proof.
  intros Hh Hc. rw /get_inner. apply wp_bind, wp_onD.
  wp_use (read_obj_spec h 0 HEADER_SIZE (c_dfs s) (path key) c); try done.
  2:{ intros e w (Hf & Hu & rc & -> & _). split_and!; try done. split_and!; try done; [by left|].
      intros md p (_ & _ & ? & _). done. }
  intros page w [-> Hf]. rw Z.add_0_l.
  assert (∀ e, is_exception e = true → parse_header (slice c 0 HEADER_SIZE) true = Raise e →
    ∀ md p, ¬ loadable c md p s) as Hbad.
  { intros e _ He md p (Hd & _). by rw /gds_decode He in Hd. }
  destruct (parse_header (slice c 0 HEADER_SIZE) true) as [hdr|e] eqn:Eh; last first.
  { destruct (parse_header_raises _ _ _ Eh) as [why ->]. rw /bind /onB /onO /wp. cbn.
    split; [done|]. split_and!; try done; [by left|]. exact (Hbad (BadHeader why) eq_refl eq_refl). }
  clear Hbad. apply wp_bind, wp_lift. destruct (deserialize (meta hdr)) as [md|e] eqn:Ed; last first.
  { split; [by eapply deserialize_raises|]. split; [done|]. split_and!; try done; [by left|].
    intros md p (Hd & _). by rw /gds_decode Eh Ed in Hd. }
  set (n := payload_len hdr). assert (0 ≤ n) as Hn by (by eapply parse_header_payload_nonneg).
  assert (gds_decode c = let p := slice c HEADER_SIZE (HEADER_SIZE + n) in
    if bool_decide (len p = n) then Some (md, p) else None) as Hdec by (by rw /gds_decode Eh Ed).
  apply wp_bind, wp_onA. cbn. intros mo a Hal. pose proof (allocate_law _ _ _ _ _ _ Hal) as Hl.
  assert (∀ md' p', loadable c md' p' s → md' = md ∧ p' = slice c HEADER_SIZE (HEADER_SIZE + n)) as Hld.
  { intros md' p' (Hd & _). rw Hdec in Hd. cbn in Hd. case_bool_decide; naive_solver. }
  destruct mo as [m|]; last first.
  { rw /bind /onB /onO /wp. cbn. split; [done|]. split_and!; try done; [by left|].
    intros md' p' Hl'. destruct (Hld _ _ Hl') as [-> _]. destruct Hl' as (_ & _ & _ & _ & m & Hm & _). by rw Hal in Hm. }
  destruct Hl as (Hfr & b & Hlb & Hlive).
  assert (allocated (c_mem s) m md b a) as Ha by done.
  apply wp_bind, wp_asks. cbn. destruct (has_tensor m a) eqn:Et; cbn; last first.
  { rw /bind /onB /onO /wp. cbn. split; [done|]. split_and!; try done; [right; by exists m, md, b|].
    intros md' p' Hl'. destruct (Hld _ _ Hl') as [-> _]. destruct Hl' as (_ & _ & _ & _ & m' & Hm & Ht).
    rw Hal in Hm Ht. cbn in Hm, Ht. congruence. }
  apply wp_bind, wp_asks. cbn. rw (allocated_bytes _ _ _ _ _ Ha) Hlb -/n.
  destruct (Z.eqb_spec n (size_of (md_shapes md) (md_dtypes md) (md_fmt md))) as [Hsz|Hsz]; cbn; last first.
  { rw /bind /onM /onA /wp. cbn. split; [done|]. split_and!; try done; [left; by eapply allocated_release|].
    intros md' p' Hl'. destruct (Hld _ _ Hl') as [-> ->]. destruct Hl' as (Hd & Hs & _).
    rw Hdec in Hd. cbn in Hd. case_bool_decide as Hln; [|done]. congruence. }
  destruct Hf as (Hff & Hfh & Hfu). set (s1 := mkConn w (c_obj s) a).
  wp_use (get_read_spec key h c md b (c_mem s) m n s1); try done; [by rw /= Hfh|by rw /= Hff|by rw Hlb|].
  intros r s' (Hf' & Hp & Hr). split; [by transitivity w|]. split; [done|]. destruct r as [m'|].
  - destruct Hr as (-> & Hld' & Ha'). eexists md, _. split; [|exact Ha'].
    rw Hdec. cbn. by rw bool_decide_true.
  - destruct Hr as (Hlv & Hup). split_and!; [by left|]. intros md' p' Hl'.
    destruct (Hld _ _ Hl') as [-> ->]. destruct Hl' as (Hd & _ & Hu & Hg & _).
    rw Hdec in Hd. cbn in Hd. case_bool_decide; [|done]. by apply Hup; [apply Hfu|..].
Qed.

Lemma load_outcome_weaken c r s s1 s' :
  c_mem s1 = c_mem s → same_keys (c_obj s) (c_obj s1) → (up (c_dfs s) → up (c_dfs s1)) →
  load_outcome c r s1 s' → load_outcome c r s s'.
Proof.
  intros Hm [Hk Hp] Hu [[Hk' Hp'] Hr]. rw /load_outcome /same_keys Hk' Hp' Hk Hp. split; [done|].
  rw Hm in Hr. destruct r as [m|]; [done|]. destruct Hr as (Hl & Hno). split.
  - destruct Hl as [Hl|Hl]; [by left|right]. by rw /tensorless Hm in Hl.
  - intros md p Hl'. apply (Hno md p). rw /loadable Hm. rw /loadable in Hl'. naive_solver.
Qed.

Lemma read_object_spec key h c s :
  handles s !! h = Some (path key) → files s !! path key = Some c →
  wp (read_object h) s (λ r s', frame (c_dfs s) (c_dfs s') ∧ load_outcome c r s s') (λ _ _, False).
Proof.
  intros Hh Hc. apply wp_except. wp_use (get_inner_spec key h c s Hh Hc); [done|].
  intros e s' (He & Hr). rw He. by apply wp_ret.
Qed.

Lemma open_object_spec key s :
  wp (open_object cfg key) s
    (λ r s', c_mem s' = c_mem s ∧ same_keys (c_obj s) (c_obj s') ∧
       match r with
       | Some h => ∃ c, files s !! path key = Some c ∧ files s' = files s ∧ handles s !! h = None ∧
           handles s' = <[h := path key]> (handles s) ∧ (up (c_dfs s) → up (c_dfs s'))
       | None => files s !! path key = None ∧ frame (c_dfs s) (c_dfs s')
       end)
    (λ e s', frame (c_dfs s) (c_dfs s') ∧ c_mem s' = c_mem s ∧ same_keys (c_obj s) (c_obj s') ∧
       ((e = RuntimeError ∧ ¬ cuda_ok ∧ has_ctx (c_obj s) = false) ∨ (¬ up (c_dfs s) ∧ ∃ rc, e = DaosError rc))).
Proof.
  rw /open_object. apply wp_bind. eapply wp_mono; [apply ensure_cuda_ctx_spec| |].
  2:{ intros e s' (-> & Hd & Hm & (Hk & Hp & _) & Hc & Ht). rw Hd. split_and!; try done. by left. }
  intros _ s1 (Hd1 & Hm1 & (Hk1 & Hp1 & _ & _) & _). apply wp_except, wp_bind, wp_onD.
  rw Hd1. wp_use (open_rdonly_spec (path key) (c_dfs s)).
  2:{ intros e w (Hf & rc & -> & He & Hu). simpl. destruct (Z.eqb_spec rc ENOENT) as [->|Hrc].
      - rw /bind /onB /onO /wp. cbn. by rw He.
      - cbn. split_and!; try done. right. split; [by intros Hup; apply Hrc, Hu|by eexists]. }
  intros h w (c & Hc & Hf & Hn & Hh & Hu). apply wp_ret. split_and!; try done. by exists c.
Qed.

Lemma close_frame h p s s1 s' :
  handles s !! h = None → files s1 = files s → handles s1 = <[h := p]> (handles s) →
  (up (c_dfs s) → up (c_dfs s1)) → frame (c_dfs s1) (c_dfs s') → frame (c_dfs s) (c_dfs (modD (close_obj h) s')).
Proof.
  intros Hn Hf Hh Hu (Hff & Hfh & Hfu). destruct (close_obj_spec h (c_dfs s')) as (Hcf & Hch & Hcu).
  rw /frame /= Hcf Hch Hff Hfh /= Hf Hh delete_insert_id //. split_and!; auto.
Qed.

Lemma get_blocking_spec key s :
  wp (get_blocking cfg key) s
    (λ r s', frame (c_dfs s) (c_dfs s') ∧
       match files s !! path key with
       | Some c => get_outcome key c r s s'
       | None => r = None ∧ c_mem s' = c_mem s ∧ _known (c_obj s') = _known (c_obj s) ∧
           _put_tasks (c_obj s') = _put_tasks (c_obj s)
       end)
    (λ e s', frame (c_dfs s) (c_dfs s') ∧ c_mem s' = c_mem s ∧ _known (c_obj s') = _known (c_obj s) ∧
       _put_tasks (c_obj s') = _put_tasks (c_obj s) ∧
       ((e = RuntimeError ∧ ¬ cuda_ok ∧ has_ctx (c_obj s) = false) ∨ (¬ up (c_dfs s) ∧ ∃ rc, e = DaosError rc))).
Proof.
  rw /get_blocking. apply wp_bind. eapply wp_mono; [apply open_object_spec| |].
  2:{ intros e s' (Hf & Hm & [Hk Hp] & Hr). by split_and!. }
  intros [h|] s1 (Hm & Hk & Hr).
  2:{ destruct Hr as [-> Hf]. apply wp_ret. by destruct Hk. }
  destruct Hr as (c & Hc & Hf & Hn & Hh & Hu). rw Hc. apply wp_finally, wp_bind.
  eapply wp_mono; [apply (read_object_spec key h c); [by rw Hh lookup_insert_eq|by rw Hf]| |done].
  intros r s2 [Hf2 Hl]. apply (load_outcome_weaken c r s s1 s2 Hm Hk Hu) in Hl. destruct Hl as [[Hk2 Hp2] Hl].
  destruct r as [m|].
  - rw /learn /bind /onB /onO /wp. cbn. split; [exact (close_frame h _ s s1 s2 Hn Hf Hh Hu Hf2)|].
    split; [done|]. by rw /= Hk2.
  - apply wp_bind, wp_ret, wp_ret. split; [exact (close_frame h _ s s1 s2 Hn Hf Hh Hu Hf2)|]. split; [done|]. split; [done|exact Hl].
Qed.

(** *** On another thread *)

(** What does not look at the thread is as it was. *)
Lemma wp_on_thread {X} t (m : M G X) s Q E :
  wp m (inB (set_thread t) s) (λ r s', Q r (inB (set_thread (thread (c_obj s))) s'))
    (λ e s', E e (inB (set_thread (thread (c_obj s))) s')) → wp (on_thread t m) s Q E.
Proof. rw /wp /on_thread. by destruct (m (inB (set_thread t) s)) as [[r|e] s']. Qed.
Lemma wp_on_pool {X} (m : M G X) s Q E :
  (∀ t l, let s1 := inB (set_thread t) (inB (set_workers l) s) in
     wp m s1 (λ r s', Q r (inB (set_thread (thread (c_obj s))) s'))
       (λ e s', E e (inB (set_thread (thread (c_obj s))) s'))) → wp (on_pool m) s Q E.
Proof. intros Hm. rw /on_pool. apply (wp_on_thread _ m (inB _ s)), Hm. Qed.

Lemma pool_get_spec key s :
  wp (on_pool (get_blocking cfg key)) s
    (λ r s', frame (c_dfs s) (c_dfs s') ∧
       match files s !! path key with
       | Some c => get_outcome key c r s s'
       | None => r = None ∧ c_mem s' = c_mem s ∧ _known (c_obj s') = _known (c_obj s) ∧
           _put_tasks (c_obj s') = _put_tasks (c_obj s)
       end)
    (λ e s', (e = RuntimeError ∧ ¬ cuda_ok) ∨ (¬ up (c_dfs s) ∧ ∃ rc, e = DaosError rc)).
Proof.
  apply wp_on_pool. intros t l s1. eapply wp_mono; [apply get_blocking_spec|done|].
  intros e s' (_ & _ & _ & _ & [(He & Hc & _)|Hu]); [by left|by right].
Qed.

(** A store never raises; the reference taken at submission is dropped and the
    key leaves the pending set whatever happened. *)
Lemma put_one_spec key obj o s :
  views obj o (c_mem s) →
  wp (_put_one uuid4 cfg key obj) s
    (λ _ s', c_mem s' = ref_count_down obj (c_mem s) ∧
       _put_tasks (c_obj s') = _put_tasks (c_obj s) ∖ {[key]} ∧
       (key ∈ _known (c_obj s) → untouched s s') ∧
       ((untouched s s' ∧ learns key s s') ∨
        (published key o s s' ∧ _known (c_obj s') = {[key]} ∪ _known (c_obj s))) ∧
       (can_store key obj o s → up (c_dfs s') ∧ published key o s s'))
    (λ _ _, False).
Proof.
  intros Ho. apply wp_finally, wp_except. wp_use (put_body_spec key obj o s Ho).
  - intros _ s' (Hm & (Hp & Hun & Hout) & Hcan). cbn. rw Hm Hp. done.
  - intros e s' (He & Hm & (Hp & Hun & Hout) & Hcan). rw He. apply wp_ret. cbn. rw Hm Hp. split_and!; try done.
Qed.

Lemma pool_put_spec key obj o s :
  views obj o (c_mem s) → cuda_ok →
  wp (on_pool (_put_one uuid4 cfg key obj)) s
    (λ _ s', c_mem s' = ref_count_down obj (c_mem s) ∧
       _put_tasks (c_obj s') = _put_tasks (c_obj s) ∖ {[key]} ∧
       (can_store key obj o s → up (c_dfs s') ∧ published key o s s'))
    (λ _ _, False).
Proof.
  intros Ho Hcu. apply wp_on_pool. intros t l s1. eapply wp_mono; [by apply (put_one_spec key obj o)| |done].
  intros _ s' (Hm & Hp & _ & _ & Hcan). split; [done|]. split; [done|].
  intros (? & ? & _ & ? & ? & ? & ? & ?). apply Hcan. split_and!; try done. by left.
Qed.

(** *** Several objects *)

(** [l] are the objects handed out over [a0] and still held, each once. *)
Definition held (a0 : A) (l : list (Z * mobj)) (a : A) : Prop :=
  NoDup l.*1 ∧ Forall (λ x, live a0 !! x.1 = None ∧ mo_refs x.2 = 1) l ∧
  live a = list_to_map l ∪ live a0.

Lemma held_nil a0 a : live a = live a0 → held a0 [] a.
Proof. intros Ha. split_and!; [constructor|constructor|]. by rw /= left_id_L. Qed.

Lemma held_cons a0 m md b a1 l a :
  allocated a0 m md b a1 → held a1 l a →
  held a0 ((m, mkMobj b 1 (md_shapes md) (md_dtypes md) (md_fmt md)) :: l) a.
Proof.
  intros [Hn Ha] (Hnd & Hf & Hl). assert (m ∉ l.*1) as Hm.
  { intros (x & -> & Hx)%list_elem_of_fmap. rw Forall_forall in Hf. destruct (Hf _ Hx) as [Hbad _].
    by rw Ha lookup_insert_eq in Hbad. }
  split_and!.
  - by constructor.
  - constructor; [done|]. eapply Forall_impl; [exact Hf|]. intros x [Hx Hr]. split; [|done].
    rw Ha in Hx. by apply lookup_insert_None in Hx as [? _].
  - rw Hl Ha /=. rw -insert_union_r; [by apply not_elem_of_list_to_map|]. by rw insert_union_l.
Qed.

Lemma held_release a0 l1 m o l2 a :
  held a0 (l1 ++ (m, o) :: l2) a → held a0 (l1 ++ l2) (ref_count_down m a).
Proof.
  intros (Hnd & Hf & Hl). rw fmap_app /= in Hnd. apply Forall_app in Hf as [Hf1 Hf2].
  apply Forall_cons in Hf2 as [[Hn Hr] Hf2]. cbn in Hn, Hr.
  assert (NoDup (m :: (l1 ++ l2).*1)) as [Hm Hnd']%NoDup_cons.
  { eapply NoDup_Permutation_proper; [|exact Hnd]. rw fmap_app. by rw Permutation_middle. }
  split_and!; [done|by apply Forall_app|].
  assert (list_to_map (l1 ++ (m, o) :: l2) =@{gmap Z mobj} <[m := o]> (list_to_map (l1 ++ l2))) as Hmap.
  { etrans; [apply (list_to_map_proper _ ((m, o) :: l1 ++ l2))|done].
    - rw fmap_app. cbn. exact Hnd.
    - by rw Permutation_middle. }
  rw Hmap in Hl. rw (ref_count_down_law m a o); [by rw Hl -insert_union_l lookup_insert_eq|].
  rw Hr /= Hl -insert_union_l delete_insert_id //.
  apply lookup_union_None. split; [by apply not_elem_of_list_to_map|done].
Qed.

(** [x] is the complete object published under [key], or a miss. *)
Definition is_object_of s key (o : mobj) : Prop :=
  ∃ c md, files s !! path key = Some c ∧ gds_decode c = Some (md, mo_bytes o) ∧
    mo_shapes o = md_shapes md ∧ mo_dtypes o = md_dtypes md ∧ mo_fmt o = md_fmt md.
Definition hit s key (x : option (Z * mobj)) : Prop :=
  match x with Some x => is_object_of s key x.2 | None => True end.
Abbreviation ids objs := (fmap (M:=option) fst <$> objs).

Lemma gets_run keys s :
  up (c_dfs s) → cuda_ok → (∀ m a, has_tensor m a = true) →
  ∃ objs s', pool_run (λ k, on_pool (get_blocking cfg k)) keys s = (Ok <$> ids objs, s') ∧
    frame (c_dfs s) (c_dfs s') ∧ held (c_mem s) (omap id objs) (c_mem s') ∧ Forall2 (hit s) keys objs.
Proof.
  intros Hup Hcu Ht. revert s Hup. induction keys as [|key keys IH]; intros s Hup; simpl.
  { exists [], s. split_and!; try done. by apply held_nil. }
  pose proof (pool_get_spec key s) as Hg. rw /wp in Hg.
  destruct (on_pool (get_blocking cfg key) s) as [[r|e] s1].
  2:{ destruct Hg as [[_ ?]|[? _]]; done. }
  destruct Hg as [Hf1 Hr]. destruct Hf1 as (Hff & Hfh & Hfu).
  destruct (IH s1) as (objs & s2 & Hrun & Hf2 & Hheld & Hall); [auto|].
  assert (frame (c_dfs s) (c_dfs s2)) as Hf by (by transitivity (c_dfs s1)).
  assert (Forall2 (hit s) keys objs) as Hall'.
  { eapply Forall2_impl; [exact Hall|]. intros k [x|]; [|done]. by rw /hit /is_object_of Hff. }
  assert ((∃ m md b, r = Some m ∧ allocated (c_mem s) m md b (c_mem s1) ∧
      is_object_of s key (mkMobj b 1 (md_shapes md) (md_dtypes md) (md_fmt md))) ∨
    (r = None ∧ live (c_mem s1) = live (c_mem s))) as Hcase.
  { destruct (files s !! path key) as [c|] eqn:Ec.
    - destruct Hr as [_ Hr]. destruct r as [m|].
      + destruct Hr as (_ & md & b & Hd & Ha). left. exists m, md, b. split_and!; try done. by exists c, md.
      + right. destruct Hr as (_ & [Hl|(m & md & b & _ & Hbad)] & _); [done|]. by rw Ht in Hbad.
    - right. destruct Hr as (-> & -> & _). done. }
  rw Hrun. destruct Hcase as [(m & md & b & -> & Ha & Hobj)|[-> Hl]].
  - eexists (Some (m, _) :: objs), s2. split; [done|]. split; [done|]. cbn. split; [by eapply held_cons|].
    by constructor.
  - exists (None :: objs), s2. split; [done|]. split; [done|]. cbn. split; [|by constructor].
    destruct Hheld as (H1' & H2' & H3'). split_and!; [done| |by rw H3' Hl]. by rw -Hl.
Qed.

Lemma release_all_held (a0 : A) pre (tl : list (option (Z * mobj))) s :
  held a0 (pre ++ omap id tl) (c_mem s) →
  wp (release_all (ids tl)) s
    (λ _ s', c_dfs s' = c_dfs s ∧ c_obj s' = c_obj s ∧ held a0 pre (c_mem s')) (λ _ _, False).
Proof.
  revert s. induction tl as [|[[m o]|] tl IH]; intros s Hh; cbn.
  - change (held a0 (pre ++ []) (c_mem s)) in Hh. by rw app_nil_r in Hh.
  - apply wp_bind. apply wp_onA. intros _ a [= _ <-].
    wp_use (IH (mkConn (c_dfs s) (c_obj s) (ref_count_down m (c_mem s)))); [|done..].
    apply (held_release a0 pre m o (omap id tl)). exact Hh.
  - by apply IH.
Qed.

Lemma first_none_app {X} (l : list X) tl :
  first_none ((Some <$> l) ++ None :: tl) = Some (length l).
Proof. induction l as [|x l IH]; [done|]. cbn. by rw IH. Qed.
Lemma first_none_all {X} (l : list X) : first_none (Some <$> l) = None.
Proof. induction l as [|x l IH]; [done|]. cbn. by rw IH. Qed.
Lemma omap_somes {X} (l : list X) tl : omap id ((Some <$> l) ++ tl) = l ++ omap id tl.
Proof. induction l as [|x l IH]; [done|]. cbn. by rw -IH. Qed.
Lemma pool_map_run {W X Y} (f : X → M W Y) l w ys w' :
  pool_run f l w = (Ok <$> ys, w') → pool_map f l w = (Ok ys, w').
Proof.
  rw /pool_map. intros ->. f_equal. clear. induction ys as [|y ys IH]; [done|]. cbn. by rw IH.
Qed.

(** C25: loading a batch returns a prefix: on a backend that answers, the
    result is the complete objects of the first keys, one per key in order,
    and None from the first miss on; exactly those objects stay allocated,
    each with one reference (those read after the miss were released), no file
    changes and no handle stays open. *)
Theorem batched_get_is_a_prefix keys s :
  up (c_dfs s) → cuda_ok → (∀ m a, has_tensor m a = true) →
  wp (batched_get_blocking cfg keys) s
    (λ res s', ∃ objs, res = (Some <$> objs.*1) ++ replicate (length keys - length objs) None ∧
       held (c_mem s) objs (c_mem s') ∧ frame (c_dfs s) (c_dfs s') ∧
       Forall2 (λ key x, is_object_of s key x.2) (take (length objs) keys) objs)
    (λ _ _, False).
Proof.
  intros Hup Hcu Ht. destruct (gets_run keys s Hup Hcu Ht) as (objs & s1 & Hrun & Hf & Hheld & Hall).
  rw /batched_get_blocking /wp /bind (pool_map_run _ _ _ _ _ Hrun).
  destruct (some_prefix_spec objs) as (tl & Heq & Htl). set (pre := some_prefix objs) in *.
  assert (length keys = length objs) as Hlen by (by eapply Forall2_length).
  rw Heq in Hall, Hheld. rw omap_somes in Hheld. apply Forall2_app_inv_r in Hall as (k1 & k2 & Hk1 & _ & ->).
  assert (length k1 = length pre) as Hl1 by (apply Forall2_length in Hk1; by rw length_fmap in Hk1).
  assert (Forall2 (λ key x, is_object_of s key x.2) (take (length pre) (k1 ++ k2)) pre) as Hpre.
  { rw take_app_length' //. exact (proj1 (Forall2_fmap_r _ _ _ _) Hk1). }
  assert (ids objs = (Some <$> pre.*1) ++ ids tl) as Hids by (rw {1}Heq fmap_app -!list_fmap_compose //).
  rw Hids. destruct Htl as [->|[tl' ->]].
  - cbn. rw app_nil_r first_none_all. exists pre. cbn in Hheld. rw !app_nil_r in Hheld, Heq.
    split_and!; try done. rw Hlen Heq length_fmap Nat.sub_diag. by rw app_nil_r.
  - change (ids (None :: tl')) with (None :: ids tl') in *.
    assert (drop (S (length pre)) ((Some <$> pre.*1) ++ None :: ids tl') = ids tl') as Hdrop.
    { rw drop_app_ge !length_fmap; [lia|]. by replace (S (length pre) - length pre)%nat with 1%nat by lia. }
    rw first_none_app length_fmap Hdrop.
    pose proof (release_all_held (c_mem s) pre tl' s1 Hheld) as Hrel. rw /wp in Hrel.
    destruct (release_all (ids tl') s1) as [[[]|e] s2]; [|done]. destruct Hrel as (Hd & _ & Hh2).
    cbn. exists pre. split; [|rw Hd; done].
    rw take_app_length'; [by rw !length_fmap|]. by rw Hlen -(length_fmap (fmap (M:=option) fst) objs) Hids.
Qed.

Lemma prefix_loop_failed l s :
  prefix_loop true l s = match release_all l s with (Ok _, s') => (Ok [], s') | (Raise e, s') => (Raise e, s') end.
Proof.
  revert s. induction l as [|[m|] l IH]; intros s; [done|..|by apply IH].
  cbn. rw /bind /onM /onA. apply IH.
Qed.
Lemma prefix_loop_spec l s :
  prefix_loop false l s =
    match release_all (drop (S (length (some_prefix l))) l) s with
    | (Ok _, s') => (Ok (some_prefix l), s')
    | (Raise e, s') => (Raise e, s')
    end.
Proof.
  revert s. induction l as [|[m|] l IH]; intros s; [done|..].
  - cbn -[release_all drop]. rw /bind IH. cbn [drop]. by destruct (release_all _ s) as [[]].
  - cbn -[release_all]. rw drop_0. apply prefix_loop_failed.
Qed.

Lemma some_prefix_somes {X} (l : list X) k : some_prefix ((Some <$> l) ++ replicate (S k) None) = l.
Proof. induction l as [|x l IH]; [done|]. cbn. by rw IH. Qed.

(** The asynchronous prefetch and the blocking batch load are the same
    operation: from any state, and whatever fails, they leave the same state
    and the prefetch returns the objects of the blocking load's prefix (or
    the same exception). *)
Theorem prefetch_agrees_with_batched_get keys s :
  batched_get_non_blocking cfg keys s =
    match batched_get_blocking cfg keys s with
    | (Ok res, s') => (Ok (some_prefix res), s')
    | (Raise e, s') => (Raise e, s')
    end.
Proof.
  rw /batched_get_non_blocking /batched_get_blocking /bind.
  destruct (pool_map (λ k, on_pool (get_blocking cfg k)) keys s) as [[res|e] s1]; [|done].
  rw prefix_loop_spec. destruct (some_prefix_spec res) as (tl & Heq & Htl).
  set (pre := some_prefix res) in *. rw Heq. destruct Htl as [->|[tl' ->]].
  - rw app_nil_r first_none_all. rw drop_ge; [rw length_fmap; lia|]. cbn.
    rw app_nil_r in Heq. by rw -Heq.
  - rw first_none_app. destruct (release_all _ s1) as [[[]|e] s2]; [|done]. cbn. do 2 f_equal.
    rw take_app_length'; [by rw length_fmap|]. rw length_app length_fmap /=.
    replace (length pre + S (length tl') - length pre)%nat with (S (length tl')) by lia.
    symmetry. apply some_prefix_somes.
Qed.

(** [batched_submit_put_task] and then the pool. *)
Definition store_all (keys : list pykey) (objs : list Z) : M G unit :=
  let! futs := batched_submit_put_task cfg keys objs in
  match futs with
  | None => ret tt
  | Some l => let! _ := pool_map (λ x, on_pool (_put_one uuid4 cfg x.1 x.2)) l in ret tt
  end.

(** The submission of one object takes one reference and marks the key. *)
Lemma submit_one key obj s :
  store_enabled cfg = true → key ∉ _put_tasks (c_obj s) →
  batched_submit_put_task cfg [key] [obj] s =
    (Ok (Some [(key, obj)]), mkConn (c_dfs s) (set_put_tasks ({[key]} ∪ _put_tasks (c_obj s)) (c_obj s))
       (ref_count_up obj (c_mem s))).
Proof.
  intros He Hk. rw /batched_submit_put_task He. cbn. rw /bind. cbn. by rw bool_decide_false.
Qed.

Lemma up_down obj o (a : A) :
  live a !! obj = Some o → 1 ≤ mo_refs o → live (ref_count_down obj (ref_count_up obj a)) = live a.
Proof.
  intros Ho Hr. pose proof (ref_count_up_law obj a o Ho) as Hup.
  erewrite ref_count_down_law; [|by rw Hup lookup_insert_eq]. cbn.
  destruct (Z.eqb_spec (mo_refs o + 1) 1); [lia|]. rw Hup insert_insert_eq.
  replace (mo_refs o + 1 - 1) with (mo_refs o) by lia. destruct o. by rw insert_id.
Qed.

(** What the GPU backend stores it loads back: on a backend that answers,
    submitting an object for a new key and running the put publishes the file
    and returns the reference, and loading the key gives a fresh GPU object
    with the same bytes and layout (a miss only if the GPU buffer is full);
    the key is no longer pending and no handle is open. *)
Theorem gds_put_then_get key obj o s :
  live (c_mem s) !! obj = Some o → 1 ≤ mo_refs o → meta_ok (obj_meta o) →
  len (mo_bytes o) = size_of (mo_shapes o) (mo_dtypes o) (mo_fmt o) →
  (∀ m a, has_tensor m a = true) → store_enabled cfg = true → key ∉ _put_tasks (c_obj s) →
  cuda_ok → can_store key obj o s →
  wp (let! _ := store_all [key] [obj] in get_blocking cfg key) s
    (λ r s', ∃ a1, live a1 = live (c_mem s) ∧ (key ∉ _put_tasks (c_obj s')) ∧ handles s' = handles s ∧
       match r with
       | Some m => allocated a1 m (obj_meta o) (mo_bytes o) (c_mem s')
       | None => live (c_mem s') = live (c_mem s) ∧
                 fst (allocate (mo_shapes o) (mo_dtypes o) (mo_fmt o) a1) = None
       end)
    (λ _ _, False).
Proof.
  intros Ho Hr Hmeta Hsz Ht He Hk Hcu Hcan. apply wp_bind. rw /store_all. apply wp_bind.
  rw {1}/wp submit_one //. set (s1 := mkConn _ _ _). cbn [fst snd pool_map pool_run].
  pose proof (ref_count_up_law obj (c_mem s) o Ho) as Hlup.
  set (o1 := mkMobj (mo_bytes o) (mo_refs o + 1) (mo_shapes o) (mo_dtypes o) (mo_fmt o)) in *.
  assert (live (c_mem s1) !! obj = Some o1) as Ho1 by (by rw /s1 /= Hlup lookup_insert_eq).
  pose proof (pool_put_spec key obj o1 s1 (live_views _ _ _ Ho1) Hcu) as Hput. rw /wp in Hput.
  rw /wp /bind /pool_map /=. destruct (on_pool (_put_one uuid4 cfg key obj) s1) as [[[]|e] s2]; [|done]. cbn.
  destruct Hput as (Hm2 & Hp2 & Hpub). destruct Hpub as [Hup2 (Hh2 & (c & Hc & Hdec) & _)].
  { destruct Hcan as (? & ? & ? & ? & ? & ? & ? & ?). by split_and!. }
  specialize (Hdec Hmeta). pose proof (get_blocking_spec key s2) as Hg. rw /wp in Hg.
  destruct (get_blocking cfg key s2) as [[r|e] s3].
  2:{ destruct Hg as (_ & _ & _ & _ & [(_ & ? & _)|[? _]]); done. }
  rw Hc in Hg. destruct Hg as [(Hff & Hfh & _) [Hp3 Hr3]]. exists (c_mem s2).
  assert (live (c_mem s2) = live (c_mem s)) as Hl2 by (rw Hm2 /s1; by eapply up_down).
  split_and!; [done|rw Hp3 Hp2; set_solver|by rw Hfh Hh2|]. destruct r as [m|].
  - destruct Hr3 as (_ & md & p & Hd & Ha). by simplify_eq.
  - destruct Hr3 as (_ & Hl & Hno). split.
    + rw -Hl2. destruct Hl as [Hl|(m & md & b & _ & Hbad)]; [done|]. by rw Ht in Hbad.
    + destruct (allocate (mo_shapes o) (mo_dtypes o) (mo_fmt o) (c_mem s2)) as [[m|] a'] eqn:Ea; [|done].
      exfalso. apply (Hno (obj_meta o) (mo_bytes o)). destruct Hcan as (_ & Hg' & _).
      split_and!; try done. exists m. cbn. rw Ea. split; [done|apply Ht].
Qed.

(** C24: publication is atomic: whatever call of a put fails, at any byte, the
    published files are as they were, or the file of the key is the complete
    object and the others are as they were; the put never raises, it drops its
    reference, the key is no longer pending and no handle stays open. *)
Theorem put_publishes_all_or_nothing key obj o s :
  live (c_mem s) !! obj = Some o → meta_ok (obj_meta o) →
  wp (_put_one uuid4 cfg key obj) s
    (λ _ s', ((∀ k, files s' !! path k = files s !! path k) ∨
        (∃ c, files s' !! path key = Some c ∧ gds_decode c = Some (obj_meta o, mo_bytes o)) ∧
        (∀ k, path k ≠ path key → files s' !! path k = files s !! path k)) ∧
       handles s' = handles s ∧ (key ∉ _put_tasks (c_obj s')) ∧
       c_mem s' = ref_count_down obj (c_mem s))
    (λ _ _, False).
Proof.
  intros Ho Hm. eapply wp_mono; [apply put_one_spec, live_views, Ho| |done].
  intros _ s' (Ha & Hp & _ & Hout & _). rw Hp. split; [|split; [|split; [set_solver|done]]].
  - destruct Hout as [[[Hu _] _]|[(_ & (c & Hc & Hd) & Hoth) _]]; [by left|right]. eauto.
  - destruct Hout as [[[_ Hh] _]|[(Hh & _) _]]; done.
Qed.

(** *** Removals *)
Lemma unlink_spec key s :
  wp (unlink cfg key) s
    (λ _ s', same_mem s s' ∧ (∀ k, path k ≠ path key → files s' !! path k = files s !! path k) ∧
       (files s' !! path key = files s !! path key ∨ files s' !! path key = None))
    (λ _ _, False).
Proof.
  apply wp_except, wp_onD. wp_use (remove_spec (path key) (c_dfs s)).
  - intros r w (_ & _ & _ & Hf). split; [done|]. split; [|right; by rw /= Hf lookup_delete_eq].
    intros k Hk. by rw /= Hf lookup_delete_ne.
  - intros e w ((Hf & _) & _ & rc & ->). change (is_daos_error (DaosError rc)) with true. apply wp_ret.
    by rw /= Hf; split_and!; [..|left].
Qed.

(** *** Histories *)
Inductive gop := OContains (k : pykey) | OPut (k : pykey) (m : Z) | OGet (k : pykey) | ORemove (k : pykey).
Definition op_key (o : gop) : pykey :=
  match o with OContains k | OPut k _ | OGet k | ORemove k => k end.
Definition gexec (o : gop) : M G unit :=
  match o with
  | OContains k => let! _ := contains cfg k in ret tt
  | OPut k m => _put_one uuid4 cfg k m
  | OGet k => let! _ := get_blocking cfg k in ret tt
  | ORemove k => let! _ := remove cfg k in ret tt
  end.
(** A history: every operation runs, whether the previous ones raised or not. *)
Definition gruns (l : list gop) s : G := foldl (λ s o, snd (gexec o s)) s l.

(** What one operation does to the published files and to the known keys. *)
Definition op_effect (o : gop) s s' : Prop :=
  let key := op_key o in
  (∀ k, path k ≠ path key → files s' !! path k = files s !! path k) ∧
  match o with
  | ORemove _ => _known (c_obj s') = _known (c_obj s) ∖ {[key]} ∧
      (files s' !! path key = files s !! path key ∨ files s' !! path key = None)
  | _ => (is_Some (files s !! path key) → is_Some (files s' !! path key)) ∧
      (_known (c_obj s') = _known (c_obj s) ∨
       (_known (c_obj s') = {[key]} ∪ _known (c_obj s) ∧ is_Some (files s' !! path key)))
  end.

Lemma same_files_effect o s s' :
  files s' = files s → (∀ k, o ≠ ORemove k) → learns (op_key o) s s' → op_effect o s s'.
Proof.
  intros Hf Hno Hl. rw /op_effect Hf. split; [done|]. destruct o; try done. by destruct (Hno k).
Qed.

Lemma gexec_effect o s : op_effect o s (snd (gexec o s)).
Proof.
  destruct o as [k|k m|k|k]; cbn.
  - pose proof (contains_spec k s) as Hc. rw /wp in Hc. rw /bind.
    destruct (contains cfg k s) as [[r|e] s']; cbn.
    + destruct Hc as ((Hf & _) & _ & _ & Hl & _). by apply same_files_effect.
    + destruct Hc as (_ & Hd & _ & (Hk & _) & _). apply same_files_effect; [by rw Hd|done|by left].
  - pose proof (put_one_spec k m (view m (c_mem s)) s) as Hp. rw /wp in Hp.
    destruct (_put_one uuid4 cfg k m s) as [[r|e] s']; cbn; [|by destruct Hp].
    destruct Hp as (_ & _ & _ & [[[Hu _] Hl]|[(_ & (c & Hc & _) & Hoth) Hk]] & _); [done|..].
    + split; [by intros|]. cbn. split; [by rw Hu|]. rw Hu. exact Hl.
    + split; [done|]. cbn. rw Hc. eauto.
  - pose proof (get_blocking_spec k s) as Hg. rw /wp in Hg. rw /bind.
    destruct (get_blocking cfg k s) as [[r|e] s']; cbn; destruct Hg as ((Hf & _) & Hg).
    + apply same_files_effect; [done..|]. cbn. destruct (files s !! path k) as [c|] eqn:Ec.
      * destruct Hg as [_ Hr]. destruct r as [m|]; [right|left]; [|by destruct Hr].
        destruct Hr as [-> _]. rw Ec. eauto.
      * left. by destruct Hg as (_ & _ & -> & _).
    + apply same_files_effect; [done..|]. left. by destruct Hg as (_ & -> & _).
  - pose proof (unlink_spec k (inB (λ b, set_known (_known b ∖ {[k]}) b) s)) as Hu. rw /wp in Hu.
    rw /remove /bind /forget {1}/onB {1}/onO. cbn -[unlink]. fold (inB (λ b, set_known (_known b ∖ {[k]}) b) s).
    destruct (unlink cfg k _) as [[r|e] s']; [|done]. cbn -[unlink].
    destruct Hu as ([Hb _] & Hoth & Hf). split; [exact Hoth|]. by rw Hb.
Qed.

(** No operation but a removal creates or deletes the file of a known key. *)
Lemma known_op_keeps_absent o s :
  (∀ k, o ≠ ORemove k) → op_key o ∈ _known (c_obj s) →
  files s !! path (op_key o) = None → files (snd (gexec o s)) !! path (op_key o) = None.
Proof.
  intros Hno Hk Hn. destruct o as [k|k m|k|k]; cbn in *; [..|by destruct (Hno k)].
  - pose proof (contains_spec k s) as Hc. rw /wp in Hc. rw /bind.
    destruct (contains cfg k s) as [[r|e] s']; cbn; [by destruct Hc as ((-> & _) & _)|].
    by destruct Hc as (_ & -> & _).
  - pose proof (put_one_spec k m (view m (c_mem s)) s) as Hp. rw /wp in Hp.
    destruct (_put_one uuid4 cfg k m s) as [[r|e] s']; cbn; [|by destruct Hp].
    destruct Hp as (_ & _ & Hun & _); [done|]. destruct (Hun Hk) as [-> _]. done.
  - pose proof (get_blocking_spec k s) as Hg. rw /wp in Hg. rw /bind.
    by destruct (get_blocking cfg k s) as [[r|e] s']; cbn; destruct Hg as ((-> & _) & _).
Qed.

(** Once a known object disappears from DAOS by other hands, the key is
    stuck: after any history of lookups, puts and loads of any keys (this one
    included), with any faults, [contains] still answers yes without asking DAOS,
    no put has stored it and every load misses; only [remove] of that key ends it. *)
Theorem vanished_object_is_never_stored_again key ops s :
  cuda_ok →
  key ∈ _known (c_obj s) → files s !! path key = None →
  Forall (λ o, (∀ k, o ≠ ORemove k) ∧ (path (op_key o) = path key → op_key o = key)) ops →
  let s' := gruns ops s in
  fst (contains cfg key s') = Ok true ∧ files s' !! path key = None ∧
  (up (c_dfs s') → fst (get_blocking cfg key s') = Ok None).
Proof.
  intros Hcu Hk Hn Hops s'. assert (key ∈ _known (c_obj s') ∧ files s' !! path key = None) as [Hk' Hn'].
  { revert s s' Hk Hn. induction Hops as [|o ops [Hno Hkey] _ IH]; intros s s' Hk Hn; [done|].
    apply IH; clear IH; change ((λ s o, snd (gexec o s)) s o) with (snd (gexec o s)).
    - destruct (gexec_effect o s) as [_ Heff]. destruct o as [k|k m|k|k]; [..|by destruct (Hno k)]; destruct Heff as [_ [->|[-> _]]]; set_solver.
    - destruct (decide (path (op_key o) = path key)) as [Heq|Hne]; [|].
      2:{ destruct (gexec_effect o s) as [Hoth _]. rw Hoth; [congruence|done]. }
      apply Hkey in Heq. subst key. by apply known_op_keeps_absent. }
  clearbody s'. pose proof (contains_spec key s') as Hc. pose proof (get_blocking_spec key s') as Hg. rw /wp in Hc Hg.
  split_and!; [|done|].
  - destruct (contains cfg key s') as [[r|e] s2]; cbn.
    + destruct Hc as (_ & _ & _ & _ & _ & _ & Hr & _). by destruct (Hr Hk') as [-> _].
    + by destruct Hc as (_ & _ & _ & _ & ? & _).
  - intros Hup'. destruct (get_blocking cfg key s') as [[r|e] s2]; cbn.
    + rw Hn' in Hg. by destruct Hg as (_ & -> & _).
    + by destruct Hg as (_ & _ & _ & _ & [(_ & ? & _)|[? _]]).
Qed.
End GdsSpecs.

(** ** Concrete runs *)
Module GdsDemo.
Definition m_write_gpu (h off : Z) (d : bytes) (w : MemDfs.mem) : Z * MemDfs.mem :=
  let '(rc, _, w') := MemDfs.m_write h off d w in (rc, w').
#[global] Instance gpu : LibDfsGpu MemDfs.mem :=
  {| gpu_ok := true; dfs_read_gpu := MemDfs.m_read; dfs_write_gpu := m_write_gpu |}.
#[global] Program Instance gpu_laws : GpuLaws MemDfs.mem := {| mounted _ := True |}.
Next Obligation.
  intros h off size w rc b w' p c Hr Hp Hc Ho Hs. change (dfs_sys_read h off size w = (rc, b, w')) in Hr.
  by destruct (read_law h off size w rc b w' p c Hr Hp Hc Ho Hs) as (? & ? & ? & ? & _ & ?).
Qed.
Next Obligation.
  intros h off d w rc w' p c. cbn. rw /m_write_gpu. destruct (MemDfs.m_write h off d w) as [[rc' n] w1] eqn:E.
  change (dfs_sys_write h off d w = (rc', n, w1)) in E. intros [= <- <-] Hp Hc Ho.
  change (hs w !! h = Some p) in Hp. change (fs w !! p = Some c) in Hc. destruct (write_law h off d w rc' n w1 p c E Hp Hc Ho) as (? & ? & Hz & ? & ?).
  split_and!; try done. intros Hrc. by destruct (Hz Hrc).
Qed.
Next Obligation.
  intros path flags w rc h w'. cbn. rw /MemDfs.opens. intros [= <- <- <-]. cbn.
  split_and!; try done. intros _. split; [apply MemDfs.fresh_handle|done].
Qed.
Next Obligation. intros h w rc w'. cbn. by intros [= <- <-]. Qed.
Next Obligation.
  intros d n d' n' w rc w' p p'. cbn. rw /MemDfs.m_move.
  destruct (MemDfs.pop w) as [f w1] eqn:E. apply MemDfs.pop_spec in E as (Ef & Eh & _ & _ & Eu).
  intros Hr Hp Hp'. destruct f as [f|].
  { injection Hr as <- <-. rw Ef Eh. split_and!; try done; intros Hu; by apply Eu in Hu as []. }
  rw Eh Hp Hp' Ef in Hr. change (MemDfs.join p n) with (join p n) in Hr.
  change (MemDfs.join p' n') with (join p' n') in Hr.
  destruct (MemDfs.m_files w !! join p n) as [c|] eqn:Ec; injection Hr as <- <-; cbn; rw ?Eh ?Ef.
  - split_and!; [intros Hu; destruct (Eu Hu) as [-> _]; exact Hu|done|by exists c|done..].
  - split_and!; [intros Hu; destruct (Eu Hu) as [-> _]; exact Hu|done|done|done|by intros _ []].
Qed.

Definition m_up (m : Z) (a : MemLM.mem) : MemLM.mem :=
  let o := MemLM.m_get m a in
  MemLM.m_set m (mkMobj (mo_bytes o) (mo_refs o + 1) (mo_shapes o) (mo_dtypes o) (mo_fmt o)) a.
#[global] Instance gobjs : GpuObjs MemLM.mem := {| ref_count_up := m_up; has_tensor _ _ := true |}.
#[global] Program Instance gobjs_laws : GpuObjsLaws MemLM.mem.
Next Obligation. intros m a o Ho. by rw /= /m_up /MemLM.m_get Ho. Qed.
#[global] Instance cuda : CudaDriver := {| cuInit := 0; cuDevicePrimaryCtxRetain := 0; cuCtxSetCurrent := 0 |}.

Definition uuid (i : nat) : string := "00000000".
Definition cfg : gsettings := mkGset "/v2" true.
Definition key (s : string) : pykey := mkKey None (Some s) "" [].
Definition book (known : gset pykey) : gbook := mkBook known ∅ ∅ false ∅ 0 [] 0.
Definition world (files : gmap string bytes) known (faults : list (option MemDfs.fault))
  : conn MemDfs.mem gbook MemLM.mem :=
  mkConn (MemDfs.mkMem files ∅ ∅ false faults) (book known) (DemoDfs.mem 100).
Lemma uuid_ok i : no_char "/" (uuid i) = true.
Proof. done. Qed.
Lemma cuda_works : cuda_ok.
Proof. done. Qed.
Lemma meta_fits : meta_ok (obj_meta DemoDfs.obj).
Proof. by split; vm_compute. Qed.
End GdsDemo.

Lemma gds_put_then_get_witness :
  let s := GdsDemo.world ∅ ∅ [] in
  wp (let! _ := store_all GdsDemo.uuid GdsDemo.cfg [GdsDemo.key "k"] [7] in
      get_blocking GdsDemo.cfg (GdsDemo.key "k")) s
    (λ r s', ∃ a1 : MemLM.mem, live a1 = live (c_mem s) ∧
       match r with
       | Some m => allocated a1 m (obj_meta DemoDfs.obj) (encode "kvkv") (c_mem s')
       | None => fst (allocate 4 tt tt a1) = None
       end) (λ _ _, False).
Proof.
  intros s. eapply wp_mono.
  - apply (gds_put_then_get GdsDemo.uuid GdsDemo.cfg GdsDemo.uuid_ok (GdsDemo.key "k") 7 DemoDfs.obj s);
      [reflexivity|vm_compute; intros [=]|apply GdsDemo.meta_fits|reflexivity|reflexivity|reflexivity
      |apply not_elem_of_empty|apply GdsDemo.cuda_works|].
    split; [reflexivity|]. split; [reflexivity|]. split; [left; apply GdsDemo.cuda_works|].
    split; [exact I|]. split; [reflexivity|]. split; [vm_compute; exact I|].
    split; [apply not_elem_of_empty|reflexivity].
  - intros r s' (a1 & Ha & _ & _ & Hr). exists a1. split; [exact Ha|]. destruct r; [exact Hr|apply Hr].
  - intros e s' [].
Defined.

(** The GPU write of the payload fails after two bytes. *)
Lemma put_publishes_all_or_nothing_witness :
  let s := GdsDemo.world ∅ ∅ [None; None; None; Some (MemDfs.mkFault 1011 2)] in
  let s' := snd (_put_one GdsDemo.uuid GdsDemo.cfg (GdsDemo.key "k") 7 s) in
  hs (c_dfs s') = ∅ ∧ GdsDemo.key "k" ∉ _put_tasks (c_obj s').
Proof.
  intros s s'. pose proof (put_publishes_all_or_nothing GdsDemo.uuid GdsDemo.cfg GdsDemo.uuid_ok
    (GdsDemo.key "k") 7 DemoDfs.obj s eq_refl GdsDemo.meta_fits) as Hw. unfold s'. rw /wp in Hw.
  destruct (_put_one GdsDemo.uuid GdsDemo.cfg (GdsDemo.key "k") 7 s) as [[[]|e] s1]; [|destruct Hw].
  destruct Hw as (_ & Hh & Hk & _). split; [exact Hh|exact Hk].
Defined.

(** Two keys: the first has been stored, the second is missing; the two loads
    run on two workers. *)
Lemma batched_get_is_a_prefix_witness :
  let s := inB (set_workers [1%nat; 2%nat])
    (snd (_put_one GdsDemo.uuid GdsDemo.cfg (GdsDemo.key "k") 7 (GdsDemo.world ∅ ∅ []))) in
  let '(r, s') := batched_get_blocking GdsDemo.cfg [GdsDemo.key "k"; GdsDemo.key "l"] s in
  r = Ok [Some 0; None] ∧ ∃ o, held (c_mem s) [(0, o)] (c_mem s') ∧ is_object_of GdsDemo.cfg s (GdsDemo.key "k") o.
Proof.
  intros s. pose proof (batched_get_is_a_prefix GdsDemo.cfg [GdsDemo.key "k"; GdsDemo.key "l"] s) as Hw.
  assert (fst (batched_get_blocking GdsDemo.cfg [GdsDemo.key "k"; GdsDemo.key "l"] s) = Ok [Some 0; None]) as Hr.
  { vm_compute. reflexivity. }
  rw /wp in Hw. destruct (batched_get_blocking _ _ s) as [r s']. simpl in Hr. subst r. split; [reflexivity|].
  destruct Hw as (objs & Hres & Hh & _ & Ho); [vm_compute; reflexivity|apply GdsDemo.cuda_works|reflexivity|].
  destruct objs as [|[m o] [|x objs]]; simpl in Hres; try discriminate. injection Hres as <-. exists o.
  split; [exact Hh|]. apply Forall2_cons in Ho as [Ho _]. exact Ho.
Defined.

Lemma vanished_object_is_never_stored_again_witness :
  let k := GdsDemo.key "k" in
  let s := GdsDemo.world ∅ {[k]} [] in
  let s' := gruns GdsDemo.uuid GdsDemo.cfg [OPut k 7; OGet k] s in
  fst (contains GdsDemo.cfg k s') = Ok true ∧ fs (c_dfs s') !! _path GdsDemo.cfg k = None.
Proof.
  intros k s s'. destruct (vanished_object_is_never_stored_again GdsDemo.uuid GdsDemo.cfg GdsDemo.uuid_ok k
    [OPut k 7; OGet k] s) as (Hc & Hf & _); [apply GdsDemo.cuda_works|exact (proj2 (elem_of_singleton k k) eq_refl)|reflexivity| |].
  - repeat constructor; discriminate.
  - split; [exact Hc|exact Hf].
Defined.

(** A failing load of one key loses the objects of the others: when the
    open of the second of two keys fails, the batch raises the DAOS error and
    the object read for the first key stays allocated, held by nobody. *)
Theorem failed_batch_leaks_its_hits :
  let k := GdsDemo.key "k" in let l := GdsDemo.key "l" in
  let s0 := GdsDemo.world ∅ ∅ [] in
  let s1 := snd (_put_one GdsDemo.uuid GdsDemo.cfg k 7 s0) in
  let s := mkConn (MemDfs.mkMem (fs (c_dfs s1)) ∅ ∅ false [None; None; None; Some (MemDfs.mkFault 1011 0)])
             (c_obj s1) (c_mem s0) in
  ∃ s', batched_get_blocking GdsDemo.cfg [k; l] s = (Raise (DaosError (-1011)), s') ∧
    size (live (c_mem s)) = 1%nat ∧ size (live (c_mem s')) = 2%nat.
Proof.
  intros k l s0 s1 s. exists (snd (batched_get_blocking GdsDemo.cfg [k; l] s)).
  split; [|by split; vm_compute]. apply run_of. vm_compute. reflexivity.
Qed.

(** A put that fails leaves its temporary file behind: the payload write fails
    and the namespace holds one file more than before. *)
Lemma failed_put_leaves_its_temporary :
  let s := GdsDemo.world ∅ ∅ [None; None; None; Some (MemDfs.mkFault 1011 2)] in
  let s' := snd (_put_one GdsDemo.uuid GdsDemo.cfg (GdsDemo.key "k") 7 s) in
  size (fs (c_dfs s)) = 0%nat ∧ size (fs (c_dfs s')) = 1%nat ∧
  fs (c_dfs s') !! _path GdsDemo.cfg (GdsDemo.key "k") = None.
Proof. split_and!; by vm_compute. Qed.
