(* ===== verification/GdsThreads.v ===== *)
(** * The known keys under threads: [DaosGdsBackend] of [gds_backend.py]

    [contains], [_put_one], [get_blocking] and [remove] run on many threads, and
    [_known_lock] is held only around single accesses of [_known]: between the
    lookup, the [stat] and the [add] of [contains], between the rename and the
    [add] of a put, between the read and the [add] of a load and between the
    [discard] and the unlink of a removal other threads run.  Here an operation
    of [GdsBackend] is cut at these points ([tstep]) and the threads take their
    steps in any order.  Between two cuts a put touches the published files by
    its one rename, and a load by none, so that the calls of libdfs in between
    are one step. *)
From Stdlib Require Import Ascii.
From S2P Require Import Prelude DfsBinding Keys ConnBase ConnDfs GdsBackend.
Open Scope Z_scope.
Open Scope py_scope.

(** Where a thread is in its operation. *)
Inductive pc :=
| Begin
| Statting                   (* not in [_known]; [stat_size] is next *)
| Found                      (* the file is there; [add] is next *)
| Storing | Renamed (n : Z)  (* a put: the file, then [add] and the counters *)
| Ending                     (* a put: [finally] *)
| Loaded (h : Z)             (* a load: the object is complete; [add] is next *)
| Closing (h : Z)            (* a load: [finally] *)
| Unlinking.                 (* a removal: discarded; the unlink is next *)

Section Threads.
Context {D A : Type} `{LibDfs D} `{LibDfsGpu D} `{MetaCodec} `{!LocalCpu A} `{!GpuObjs A} `{CudaDriver}.
Context (uuid4 : nat → string) (cfg : gsettings).
Abbreviation G := (conn D gbook A).

(** A put calls [contains] in its [try] block. *)
Definition is_put (o : gop) : bool := match o with OPut _ _ => true | _ => false end.
Definition after_contains (o : gop) : option pc := if is_put o then Some Ending else None.
Definition look (o : gop) : M G bool :=
  let! _ := if is_put o then _ensure_cuda_ctx else ret tt in
  let! _ := _ensure_cuda_ctx in
  is_known (op_key o).

Definition tstep (o : gop) (c : pc) (s : G) : option pc * G :=
  let key := op_key o in
  match c, o with
  | Begin, ORemove _ => (Some Unlinking, snd (forget key s))
  | Begin, OGet _ =>
      match open_object cfg key s with
      | (Ok (Some h), s1) =>
          let '(r, s2) := read_object h s1 in
          (Some (match r with Ok (Some _) => Loaded h | _ => Closing h end), s2)
      | (_, s1) => (None, s1)
      end
  | Begin, _ =>
      let '(r, s1) := look o s in
      (match r with Ok false => Some Statting | _ => after_contains o end, s1)
  | Statting, _ =>
      let '(r, s1) := stat_present cfg key s in
      (match r with
       | Ok true => Some Found
       | Ok false => if is_put o then Some Storing else None
       | Raise _ => after_contains o
       end, s1)
  | Found, _ => (after_contains o, snd (learn key s))
  | Storing, OPut _ m =>
      let '(r, s1) := store_file uuid4 cfg key m s in
      (Some (match r with Ok n => Renamed n | Raise _ => Ending end), s1)
  | Renamed n, _ => (Some Ending, snd (stored key n s))
  | Ending, OPut _ m => (None, put_done key m s)
  | Loaded h, _ => (Some (Closing h), snd (learn key s))
  | Closing h, _ => (None, modD (close_obj h) s)
  | Unlinking, _ => (None, snd (unlink cfg key s))
  | _, _ => (None, s)
  end.

(** A thread that runs alone. *)
Fixpoint alone (fuel : nat) (o : gop) (x : option pc * G) : option pc * G :=
  match fuel, x with
  | S fuel, (Some c, s) => alone fuel o (tstep o c s)
  | _, _ => x
  end.

(** ** The process *)
Record sys := mkSys { st : G; threads : list (nat * gop * option pc) }.
Inductive event := Spawn (t : nat) (o : gop) | Run (i : nat).

Definition gstep (e : event) (S : sys) : option sys :=
  match e with
  | Spawn t o => Some (mkSys (st S) (threads S ++ [(t, o, Some Begin)]))
  | Run i =>
      match threads S !! i with
      | Some (t, o, Some c) =>
          let '(c', s') := tstep o c (inB (set_thread t) (st S)) in
          Some (mkSys s' (<[i := (t, o, c')]> (threads S)))
      | _ => None
      end
  end.
Fixpoint run (es : list event) (S : sys) : option sys :=
  match es with [] => Some S | e :: es => gstep e S ≫= run es end.

(** No removal overlaps another call on its key: the condition under which a
    new operation may start. *)
Definition is_removal (o : gop) : bool := match o with ORemove _ => true | _ => false end.
Definition clash (o o' : gop) : bool :=
  bool_decide (op_key o = op_key o') && (is_removal o || is_removal o').
Definition apart (S : sys) (o : gop) : bool :=
  forallb (λ x : nat * gop * option pc, match x with (_, o', Some _) => negb (clash o o') | _ => true end) (threads S).
Fixpoint allowed (K : gset pykey) (es : list event) (S : sys) : bool :=
  match es with
  | [] => true
  | e :: es =>
      match e with Spawn _ o => bool_decide (op_key o ∈ K) && apart S o | Run _ => true end &&
      match gstep e S with Some S' => allowed K es S' | None => false end
  end.
End Threads.

Section Facts.
Context {D A : Type} `{LibDfsLaws D} `{!LibDfsGpu D} `{!GpuLaws D} `{MetaCodecLaws}
  `{!LocalCpu A} `{!LocalCpuLaws A} `{!GpuObjs A} `{!GpuObjsLaws A} `{CudaDriver}.
Context (uuid4 : nat → string) (cfg : gsettings).
Hypothesis uuid_flat : ∀ i, no_char "/" (uuid4 i) = true.
Abbreviation G := (conn D gbook A).
Implicit Types s : G.
Abbreviation files s := (fs (c_dfs s)).
Abbreviation path := (_path cfg).

(** *** The steps of an operation are the operation *)
Lemma alone_is_the_operation o s : alone uuid4 cfg 5 o (Some Begin, s) = (None, snd (gexec uuid4 cfg o s)).
Proof.
  destruct o as [k|k m|k|k]; rw /gexec /=.
  - rw /look /contains /bind /=. destruct (_ensure_cuda_ctx s) as [[[]|e] s1]; [|done].
    rw /is_known /getB /onO /=. case_bool_decide; [done|]. set (s2 := mkConn _ _ _). rw /=.
    by destruct (stat_present cfg k s2) as [[[]|e] s3].
  - rw /look /_put_one /put_body /contains /try_finally /try_except /bind /=.
    destruct (_ensure_cuda_ctx s) as [[[]|e] s1]; [|by destruct (is_exception e)].
    destruct (_ensure_cuda_ctx s1) as [[[]|e] s2]; [|by destruct (is_exception e)].
    rw /is_known /getB /onO /=. case_bool_decide; [done|]. set (s3 := mkConn _ _ _). rw /=.
    destruct (stat_present cfg k s3) as [[[]|e] s4]; rw /=; [done| |by destruct (is_exception e)].
    destruct (store_file uuid4 cfg k m s4) as [[n|e] s5]; rw /=; [done|by destruct (is_exception e)].
  - rw /get_blocking /bind /try_finally /bind /=. destruct (open_object cfg k s) as [[[h|]|e] s1]; try done.
    rw /=. by destruct (read_object h s1) as [[[m|]|e] s2].
  - rw /remove /bind /=. by destruct (unlink cfg k _) as [[]].
Qed.

(** *** What one step does *)

(** The points a thread of [o] can be at. *)
Definition fits (o : gop) (c : pc) : bool :=
  match c, o with
  | Begin, _ => true
  | (Statting | Found), (OContains _ | OPut _ _) => true
  | (Storing | Renamed _ | Ending), OPut _ _ => true
  | (Loaded _ | Closing _), OGet _ => true
  | Unlinking, ORemove _ => true
  | _, _ => false
  end.
(** The file has been seen, and the [add] is next. *)
Definition seen (c : pc) : bool := match c with Found | Renamed _ | Loaded _ => true | _ => false end.

Definition discards (o : gop) (c : pc) : bool := match c, o with Begin, ORemove _ => true | _, _ => false end.

Record effect (o : gop) (c : pc) (c' : option pc) (s s' : G) : Prop := mkEffect {
  eff_others : ∀ k, path k ≠ path (op_key o) → files s' !! path k = files s !! path k;
  eff_stays : c ≠ Unlinking → is_Some (files s !! path (op_key o)) → is_Some (files s' !! path (op_key o));
  eff_known : _known (c_obj s') =
    if seen c then {[op_key o]} ∪ _known (c_obj s)
    else if discards o c then _known (c_obj s) ∖ {[op_key o]} else _known (c_obj s);
  eff_next : ∀ c2, c' = Some c2 → fits o c2 = true ∧ (seen c2 = true → is_Some (files s' !! path (op_key o)));
}.

(** A step that leaves the published files and the known keys alone. *)
Lemma effect_quiet o c c' s s' :
  (∀ k, files s' !! path k = files s !! path k) → _known (c_obj s') = _known (c_obj s) →
  seen c = false → discards o c = false →
  (∀ c2, c' = Some c2 → fits o c2 = true ∧ (seen c2 = true → is_Some (files s' !! path (op_key o)))) →
  effect o c c' s s'.
Proof.
  intros Hf Hk Hs Hr Hn. split; [by intros k _|by rw Hf|by rw Hs Hr|done].
Qed.
Lemma effect_learns o c c' s s' :
  fs (c_dfs s') = files s → _known (c_obj s') = {[op_key o]} ∪ _known (c_obj s) →
  seen c = true → (∀ c2, c' = Some c2 → fits o c2 = true ∧ seen c2 = false) → effect o c c' s s'.
Proof.
  intros Hf Hk Hs Hn. split; [by rw Hf|by rw Hf|by rw Hs|]. intros c2 Hc2. destruct (Hn c2 Hc2) as [? Hz].
  split; [done|]. by rw Hz.
Qed.

Lemma look_quiet o s : files (snd (look o s)) = files s ∧ _known (c_obj (snd (look o s))) = _known (c_obj s).
Proof.
  assert (∀ s, files (snd (_ensure_cuda_ctx s)) = files s ∧
    _known (c_obj (snd (_ensure_cuda_ctx s))) = _known (c_obj s)) as He.
  { intros s1. pose proof (ensure_cuda_ctx_spec s1) as Hw. rw /wp in Hw.
    destruct (_ensure_cuda_ctx s1) as [[[]|e] s2]; simpl.
    - by destruct Hw as (-> & _ & (? & _) & _).
    - by destruct Hw as (_ & -> & _ & (? & _) & _). }
  assert (∀ s, files (snd ((let! _ := _ensure_cuda_ctx in is_known (op_key o)) s)) = files s ∧
    _known (c_obj (snd ((let! _ := _ensure_cuda_ctx in is_known (op_key o)) s))) = _known (c_obj s)) as Hl.
  { intros s1. rw /bind. specialize (He s1). by destruct (_ensure_cuda_ctx s1) as [[[]|e] s2]. }
  rw /look {1 3}/bind. destruct (is_put o); [|apply Hl].
  specialize (He s). destruct (_ensure_cuda_ctx s) as [[[]|e] s2]; [|done]. simpl in He.
  destruct (Hl s2) as [-> ->]. done.
Qed.

Lemma begin_lookup_effect o s : (is_put o = true ∨ ∃ k, o = OContains k) →
  let '(c', s') := tstep uuid4 cfg o Begin s in effect o Begin c' s s'.
Proof.
  intros Ho. pose proof (look_quiet o s) as [Hf Hk].
  destruct o as [k|k m|k|k]; try (by destruct Ho as [?|[? ?]]);
    rw /tstep; destruct (look _ s) as [r s1]; simpl in Hf, Hk;
    (apply effect_quiet; [by rw Hf|done..|]); destruct r as [[]|e]; by intros c2 [= <-].
Qed.

Lemma stat_effect o s : fits o Statting = true →
  let '(c', s') := tstep uuid4 cfg o Statting s in effect o Statting c' s s'.
Proof.
  intros Hfit. pose proof (stat_present_spec cfg (op_key o) s) as Hw. rw /wp in Hw. rw /tstep.
  destruct (stat_present cfg (op_key o) s) as [[r|e] s1]; [|by destruct o].
  destruct Hw as ((Hf & _) & [Hb _] & Hr & _).
  destruct o; try done; (apply effect_quiet; [by rw Hf|by rw Hb|done..|]);
    intros c2 Hc2; destruct r; simplify_eq/=; (split; [done|]); rw ?Hf //; intros _; by apply Hr.
Qed.

Lemma load_effect k s :
  let '(c', s') := tstep uuid4 cfg (OGet k) Begin s in effect (OGet k) Begin c' s s'.
Proof.
  pose proof (open_object_spec cfg k s) as Hw. rw /wp in Hw. rw /tstep. simpl op_key.
  destruct (open_object cfg k s) as [[[h|]|e] s1].
  - destruct Hw as (_ & [Hk _] & c & Hc & Hf & Hn & Hh & _).
    assert (hs (c_dfs s1) !! h = Some (path k)) as Hh1 by by rw Hh lookup_insert_eq.
    assert (files s1 !! path k = Some c) as Hc1 by by rw Hf.
    pose proof (read_object_spec cfg k h c s1 Hh1 Hc1) as Hr. rw /wp in Hr.
    destruct (read_object h s1) as [[r|e] s2]; [|done]. destruct Hr as ((Hf2 & _) & [Hk2 _] & _).
    apply effect_quiet; [by rw Hf2 Hf|by rw Hk2|done..|].
    intros c2 [= <-]. destruct r; (split; [done|]); [|done]. intros _. rw Hf2 Hf Hc. by eexists.
  - destruct Hw as (_ & [Hk _] & _ & (Hf & _)). apply effect_quiet; [by rw Hf|done..].
  - destruct Hw as ((Hf & _) & _ & [Hk _] & _). apply effect_quiet; [by rw Hf|done..].
Qed.

Lemma store_effect k m s :
  let '(c', s') := tstep uuid4 cfg (OPut k m) Storing s in effect (OPut k m) Storing c' s s'.
Proof.
  pose proof (store_file_spec uuid4 cfg uuid_flat k m (view m (c_mem s)) s ltac:(by split)) as Hw. rw /wp in Hw.
  rw /tstep. simpl op_key. destruct (store_file uuid4 cfg k m s) as [[n|e] s1].
  - destruct Hw as (_ & _ & [Hk _] & (_ & (c & Hc & _) & Hoth) & _).
    split; simpl; [done|by rw Hc|done|]. intros c2 [= <-]. split; [done|]. rw Hc. by eexists.
  - destruct Hw as (_ & _ & [Hk _] & [Hu _] & _). apply effect_quiet; [done..|]. by intros c2 [= <-].
Qed.

Lemma tstep_effect o c s : fits o c = true →
  let '(c', s') := tstep uuid4 cfg o c s in effect o c c' s s'.
Proof.
  intros Hfit. destruct c as [| | | |n| |h|h|].
  - destruct o as [k|k m|k|k]; [apply begin_lookup_effect; eauto..|apply load_effect|].
    split; [done|done|done|]. by intros c2 [= <-].
  - by apply stat_effect.
  - destruct o; try done; (apply effect_learns; [done..|]); by intros c2 [= <-].
  - destruct o; try done. apply store_effect.
  - destruct o; try done; (apply effect_learns; [done..|]); by intros c2 [= <-].
  - destruct o; try done; by apply effect_quiet.
  - destruct o; try done; (apply effect_learns; [done..|]); by intros c2 [= <-].
  - destruct o; try done. pose proof (close_obj_spec h (c_dfs s)) as (Hf & _). by apply effect_quiet; [rw /= Hf|..].
  - destruct o as [| | |k]; try done. pose proof (unlink_spec cfg k s) as Hw. rw /wp in Hw. rw /tstep. simpl op_key.
    destruct (unlink cfg k s) as [[r|e] s1]; [|done]. destruct Hw as ([Hb _] & Hoth & _).
    split; [done|done|by rw Hb|done].
Qed.

Lemma only_a_discard_unlinks o c s : fst (tstep uuid4 cfg o c s) = Some Unlinking → discards o c = true.
Proof.
  destruct c, o as [k|k m|k|k]; rw /tstep; try done;
    repeat match goal with
    | |- context [let '(_, _) := ?m in _] => destruct m as [[[]|] ?]; try done
    | |- context [match ?m with _ => _ end] => destruct m as [[[]|] ?]; try done
    end.
Qed.

(** *** The invariant *)
Section Invariant.
Context (K : gset pykey).
Hypothesis names : ∀ k k', k ∈ K → k' ∈ K → path k = path k' → k = k'.

(** A thread at [c] in [o], in a process whose state is [s]. *)
Definition at_ease s (o : gop) (c : pc) : Prop :=
  op_key o ∈ K ∧ fits o c = true ∧ (seen c = true → is_Some (files s !! path (op_key o))) ∧
  (c = Unlinking → op_key o ∉ _known (c_obj s)).

Record tinv (S : sys (D := D) (A := A)) : Prop := mkTinv {
  inv_threads : ∀ i t o c, threads S !! i = Some (t, o, Some c) → at_ease (st S) o c;
  inv_apart : ∀ i j t o c t' o' c', i ≠ j → threads S !! i = Some (t, o, Some c) →
    threads S !! j = Some (t', o', Some c') → clash o o' = false;
  inv_known : _known (c_obj (st S)) ⊆ K;
  inv_stored : ∀ k, k ∈ _known (c_obj (st S)) → is_Some (files (st S) !! path k);
}.

Lemma clash_sym o o' : clash o o' = clash o' o.
Proof. rw /clash orb_comm. f_equal. apply bool_decide_ext. done. Qed.
Lemma apart_spec (S : sys (D := D) (A := A)) o : apart S o = true →
  ∀ i t o' c, threads S !! i = Some (t, o', Some c) → clash o o' = false.
Proof.
  intros Ha i t o' c Hi. rw /apart forallb_forall in Ha. apply list_elem_of_lookup_2, list_elem_of_In in Hi.
  specialize (Ha _ Hi). by apply negb_true_iff in Ha.
Qed.
Lemma unlinking_removal o : fits o Unlinking = true → is_removal o = true.
Proof. by destruct o. Qed.

(** The other threads, when [o] takes a step. *)
Lemma at_ease_others o c c' s s' o' c1 :
  effect o c c' s s' → at_ease s o c → clash o o' = false → at_ease s o' c1 → at_ease s' o' c1.
Proof.
  intros [Ho Hs Hk _] (HoK & Hfit & _) Hcl (HoK' & Hfit' & Hseen & Hun). split; [done|]. split; [done|].
  assert (is_removal o = true ∨ is_removal o' = true → op_key o' ≠ op_key o) as Hne.
  { intros Hr Heq. rw /clash in Hcl. rw -Heq bool_decide_eq_true_2 // in Hcl. simpl in Hcl.
    apply orb_false_iff in Hcl as [H1' H2']. destruct Hr; congruence. }
  split.
  - intros Hc1. specialize (Hseen Hc1). destruct (decide (path (op_key o') = path (op_key o))) as [Hp|Hp].
    + apply names in Hp; [|done..]. rw Hp in Hseen |- *. apply Hs; [|done]. intros ->.
      apply Hne; [|done]. left. by apply unlinking_removal.
    + by rw Ho.
  - intros ->. specialize (Hun eq_refl). assert (op_key o' ≠ op_key o) as Hd.
    { apply Hne. right. by apply unlinking_removal. }
    rw Hk. destruct (seen c), (discards o c); set_solver.
Qed.

Lemma tinv_run i S S' : gstep uuid4 cfg (Run i) S = Some S' → tinv S → tinv S'.
Proof.
  intros Hst [Ht Ha Hk Hs]. rw /gstep in Hst. destruct (threads S !! i) as [[[t o] [c|]]|] eqn:Hi; try done.
  pose proof (Ht i t o c Hi) as Hme. set (s := inB (set_thread t) (st S)) in *.
  change (at_ease s o c) in Hme. pose proof (tstep_effect o c s) as Heff.
  pose proof (only_a_discard_unlinks o c s) as Hund. destruct Hme as (HoK & Hfit & Hseen & Hun).
  specialize (Heff Hfit). destruct (tstep uuid4 cfg o c s) as [c' s'] eqn:Etst. injection Hst as <-.
  pose proof Heff as [Ho Hstay Hkn Hnext]. simpl in Hund.
  assert (∀ j t1 o1 c1, j ≠ i → threads S !! j = Some (t1, o1, Some c1) → at_ease s' o1 c1) as Hoth.
  { intros j t1 o1 c1 Hji Hj. eapply (at_ease_others o c c' s s'); [done|done| |by eapply Ht].
    by eapply (Ha i j). }
  split; simpl.
  - intros j t1 o1 c1 Hj. apply list_lookup_insert_Some in Hj as [(<- & Heq & _)|[Hne Hj]]; [|by eapply Hoth].
    injection Heq as -> -> ->. destruct (Hnext c1 eq_refl) as [Hf1 Hs1]. split_and!; try done.
    intros ->. specialize (Hund eq_refl). rw Hkn Hund. destruct c; try done. simpl. set_solver.
  - intros j j' t1 o1 c1 t2 o2 c2 Hne Hj Hj'. apply list_lookup_insert_Some in Hj as [(<- & Heq & _)|[Hni Hj]];
      apply list_lookup_insert_Some in Hj' as [(<- & Heq' & _)|[Hni' Hj']]; try done.
    + injection Heq as -> -> ->. by eapply (Ha i j').
    + injection Heq' as -> -> ->. by eapply (Ha j i).
    + by eapply (Ha j j').
  - rw Hkn. destruct (seen c), (discards o c); set_solver.
  - intros k Hin. assert (k ∈ _known (c_obj (st S)) ∨ k = op_key o ∧ seen c = true) as Hcase.
    { rw Hkn in Hin. destruct (seen c), (discards o c); set_solver. }
    assert (k ∈ K) as HkK by (destruct Hcase as [?|[-> _]]; [by apply Hk|done]).
    assert (is_Some (files s !! path k)) as Hf by (destruct Hcase as [?|[-> ?]]; [by apply Hs|by apply Hseen]).
    destruct (decide (path k = path (op_key o))) as [Hp|Hp]; [|by rw Ho].
    apply names in Hp; [|done..]. subst k. apply Hstay; [|done]. intros ->.
    apply (Hun eq_refl). destruct Hcase as [?|[_ Hbad]]; [done|]. discriminate.
Qed.

Lemma tinv_spawn t o S S' :
  gstep uuid4 cfg (Spawn t o) S = Some S' → op_key o ∈ K → apart S o = true → tinv S → tinv S'.
Proof.
  intros [= <-] HoK Hap [Ht Ha Hk Hs]. pose proof (apart_spec _ _ Hap) as Hclash. split; simpl; [| |done|done].
  - intros j t1 o1 c1 [Hj|[Hl Hj]]%lookup_app_Some; [by eapply Ht|].
    apply list_lookup_singleton_Some in Hj as [_ [= <- <- <-]]. by split_and!.
  - intros j j' t1 o1 c1 t2 o2 c2 Hne Hj Hj'. apply lookup_app_Some in Hj as [Hj|[Hl Hj]];
      apply lookup_app_Some in Hj' as [Hj'|[Hl' Hj']].
    + by eapply (Ha j j').
    + apply list_lookup_singleton_Some in Hj' as [_ [= <- <- <-]]. rw clash_sym. by eapply Hclash.
    + apply list_lookup_singleton_Some in Hj as [_ [= <- <- <-]]. by eapply Hclash.
    + apply list_lookup_singleton_Some in Hj as [? _], Hj' as [? _]. lia.
Qed.

Lemma tinv_history es S S' :
  allowed uuid4 cfg K es S = true → run uuid4 cfg es S = Some S' → tinv S → tinv S'.
Proof.
  revert S. induction es as [|e es IH]; intros S; simpl; [by intros _ [= <-]|].
  intros [Hsp Hal]%andb_true_iff. destruct (gstep uuid4 cfg e S) as [S1|] eqn:Hst; [|done]. simpl.
  intros Hrun HS. apply (IH S1 Hal Hrun). destruct e as [t o|i]; [|by eapply tinv_run].
  apply andb_true_iff in Hsp as [HK Hap]. apply bool_decide_eq_true in HK. by eapply tinv_spawn.
Qed.
End Invariant.

(** C26: no known key is a lie while this backend is the only one that removes
    and no removal overlaps another call on its key.  Threads look up, put,
    load and remove keys of [K] (with different file names) in any
    interleaving, with any faults of libdfs, and only a removal is kept apart,
    from calls on the same key.  Then, in every state on the way, each key of
    the set has its published file, so that the shortcut of [contains] never
    reports a key that is not there. *)
Theorem known_keys_are_stored (K : gset pykey) es s S' :
  (∀ k k', k ∈ K → k' ∈ K → path k = path k' → k = k') → _known (c_obj s) ⊆ K →
  (∀ k, k ∈ _known (c_obj s) → is_Some (files s !! path k)) →
  allowed uuid4 cfg K es (mkSys s []) = true → run uuid4 cfg es (mkSys s []) = Some S' →
  (_known (c_obj (st S')) ⊆ K) ∧
  (∀ k, k ∈ _known (c_obj (st S')) → is_Some (files (st S') !! path k)) ∧
  ∀ k b s2, look (OContains k) (st S') = (Ok true, b) → stat_present cfg k b = (Ok false, s2) → ¬ up (c_dfs b).
Proof.
  intros Hn HK Hs Hal Hrun. assert (tinv K S') as [_ _ HK' Hs'].
  { eapply tinv_history; [done..|]. split; simpl; [| |done|done]; intros *; by rw ?lookup_nil. }
  split; [done|]. split; [done|]. intros k b s2 Hl Hst Hup.
  pose proof (look_quiet (OContains k) (st S')) as [Hf Hk]. rw Hl /= in Hf, Hk.
  assert (k ∈ _known (c_obj b)) as Hin.
  { rw /look /bind /= in Hl. destruct (_ensure_cuda_ctx (st S')) as [[[]|e] s1]; [|done].
    rw /is_known /getB /onO /= in Hl. injection Hl as Hb <-. by apply bool_decide_eq_true in Hb. }
  rw Hk in Hin. pose proof (stat_present_spec cfg k b) as Hw. rw /wp Hst in Hw.
  destruct Hw as (_ & _ & _ & Hr). specialize (Hr Hup). symmetry in Hr. apply bool_decide_eq_false in Hr.
  apply Hr. rw Hf. by apply Hs'.
Qed.
End Facts.

(** ** Concrete runs *)
Module GdsThreadsDemo.
Import GdsDemo.
Abbreviation W := (conn MemDfs.mem gbook MemLM.mem).
Definition k : pykey := key "k".
Definition start : W := world ∅ ∅ [].
(** The object is there and this process has not seen it yet. *)
Definition stored_k : W :=
  let s := snd (_put_one uuid cfg k 7 start) in inB (set_known ∅) s.
Definition known_and_stored (S : sys (D := MemDfs.mem) (A := MemLM.mem)) : bool * bool :=
  (bool_decide (k ∈ _known (c_obj (st S))), bool_decide (is_Some (fs (c_dfs (st S)) !! _path cfg k))).
End GdsThreadsDemo.
Import GdsDemo GdsThreadsDemo.

(** A put, two lookups and a load of one key interleave on four threads; when
    they have ended the key is removed and looked up. *)
Lemma known_keys_are_stored_witness :
  let es := [Spawn 1 (OPut k 7); Spawn 2 (OContains k); Run 0; Run 1; Run 0; Run 0; Spawn 3 (OContains k);
             Run 1; Run 2; Run 0; Run 1; Spawn 4 (OGet k); Run 3; Run 0; Run 2; Run 3; Run 2; Run 3] in
  ∃ S', run uuid cfg es (mkSys start []) = Some S' ∧ known_and_stored S' = (true, true) ∧
    is_Some (fs (c_dfs (st S')) !! _path cfg k).
Proof.
  intros es.
  assert (known_and_stored <$> run uuid cfg es (mkSys start []) = Some (true, true)) as Hend by (vm_compute; reflexivity).
  destruct (run uuid cfg es (mkSys start [])) as [S'|] eqn:Hrun; [|discriminate]. injection Hend as Hk Hf.
  destruct (known_keys_are_stored uuid cfg uuid_ok {[k]} es start S') as (_ & Hs & _).
  - intros k1 k2 H1%elem_of_singleton H2%elem_of_singleton _. by rw H1 H2.
  - apply empty_subseteq.
  - intros k1 H1. destruct (not_elem_of_empty (C := gset pykey) k1 H1).
  - vm_compute. reflexivity.
  - exact Hrun.
  - exists S'. split; [reflexivity|]. split; [by rw /known_and_stored Hk Hf|].
    apply Hs. by apply bool_decide_eq_true in Hk.
Defined.

(** The condition is needed: a lookup has seen the file, a removal discards the
    key and unlinks the file, and the [add] of the lookup comes last.  The key
    is known, its file is gone, and nobody else has touched it. *)
Lemma lookup_racing_a_removal :
  known_and_stored <$> run uuid cfg
    [Spawn 1 (OContains k); Spawn 2 (ORemove k); Run 0; Run 0; Run 1; Run 1; Run 0] (mkSys stored_k []) =
  Some (true, false).
Proof. vm_compute. reflexivity. Qed.

(** One thread's context is not another's: the lookup on thread 2 binds its own. *)
Example contexts_are_per_thread :
  (λ S, tls_ctx (c_obj (st S))) <$> run uuid cfg [Spawn 1 (OContains k); Run 0; Spawn 2 (OContains k)] (mkSys start []) =
    Some {[1%nat]} ∧
  (λ S, tls_ctx (c_obj (st S))) <$> run uuid cfg
    [Spawn 1 (OContains k); Run 0; Spawn 2 (OContains k); Run 1] (mkSys start []) = Some {[1%nat; 2%nat]}.
Proof. split; vm_compute; reflexivity. Qed.
