(* ===== verification/GdsMeta.v ===== *)
(** * The metadata of the GPU backend: [_meta_pack] and [_meta_unpack] of
    [gds_backend.py], and the backend with it.

    The codec is the JSON of [Json].  What it reads of torch and of LMCache
    ([str] of a dtype, [getattr(torch, n)], [torch.Size], [MemoryFormat]) is
    the interface [Torch].  The codec implements [MetaCodec] and its laws, so
    that every theorem of [GdsBackend] holds of the backend as it is written;
    [tensors_round_trip] is the round trip without any assumption on the codec,
    for tensor groups whose metadata fits the header page, which
    [metadata_fits] bounds. *)
From Stdlib Require Import Ascii.
From S2P Require Import Prelude Json SerdeV2 DfsBinding ObjBinding Keys ConnBase ConnDfs GdsBackend.
Open Scope Z_scope.
Open Scope py_scope.

(** ** What is read of torch and of LMCache *)
Class Torch := {
  tobj : Type;                          (* the attributes of the module torch, its dtypes among them *)
  str_of : tobj → pystr;                (* str(d) *)
  torch_attr : pystr → res tobj;        (* getattr(torch, n) *)
  torch_Size : json → res (list Z);     (* torch.Size(s) *)
  memfmt : Type;
  fmt_value : memfmt → Z;               (* fmt.value *)
  MemoryFormat : Z → res memfmt;        (* MemoryFormat(n) *)
  int_of_float : pystr → res Z;         (* int(x) of the float this text denotes *)
}.

(** The characters of an identifier. *)
Definition ident (c : Z) : bool :=
  is_digit c || ((65 <=? c) && (c <=? 90)) || (c =? 95) || ((97 <=? c) && (c <=? 122)).

Class TorchLaws `{Torch} := {
  is_dtype : tobj → Prop;
  (* a dtype prints as "torch.NAME", and NAME is an attribute of torch *)
  dtype_name d : is_dtype d → ∃ n, str_of d = codes "torch." ++ n ∧ forallb ident n = true ∧ torch_attr n = Ok d;
  size_law l : Forall (λ n, 0 ≤ n) l → torch_Size (JList (map JInt l)) = Ok l;
  format_law f : MemoryFormat (fmt_value f) = Ok f;
  torch_attr_raises n e : torch_attr n = Raise e → is_exception e = true;
  torch_Size_raises j e : torch_Size j = Raise e → is_exception e = true;
  MemoryFormat_raises n e : MemoryFormat n = Raise e → is_exception e = true;
  int_of_float_raises t e : int_of_float t = Raise e → is_exception e = true;
}.

(** ** Python operations of the codec *)

(** [s.replace(pat, "")]; [k] characters of a match are still to be skipped. *)
Fixpoint remove_all (pat : pystr) (k : nat) (s : pystr) : pystr :=
  match s with
  | [] => []
  | c :: s' =>
      match k with
      | S k => remove_all pat k s'
      | O => match strip_prefix pat s with
             | Some _ => remove_all pat (length pat - 1) s'
             | None => c :: remove_all pat 0 s'
             end
      end
  end.

(** [d[key]]: a [KeyError], or a [TypeError] on something that is no dict. *)
Definition getitem (d : json) (key : string) : res json :=
  match d with
  | JObj d => match dict_get (codes key) d with Some v => Ok v | None => Raise OtherError end
  | _ => Raise OtherError
  end.
(** [for x in v] *)
Definition iterate (v : json) : res (list json) :=
  match v with
  | JList l => Ok l
  | JStr s => Ok (map (λ c, JStr [c]) s)
  | JObj d => Ok (map (λ kv, JStr kv.1) d)
  | _ => Raise OtherError
  end.

Section Codec.
Context `{Torch}.

(** [int(v)] *)
Definition int_of (v : json) : res Z :=
  match v with
  | JInt z => Ok z
  | JBool b => Ok (if b then 1 else 0)
  | JFloat t => int_of_float t
  | JStr s => py_int s
  | _ => Raise OtherError
  end.
Definition getattr_torch (n : json) : res tobj :=
  match n with JStr s => torch_attr s | _ => Raise OtherError end.

#[global] Instance torch_types : LMTypes | 0 :=
  {| Shapes := list (list Z); Dtypes := list tobj; Fmt := memfmt |}.

Definition dtype_text (d : tobj) : pystr := remove_all (codes "torch.") 0 (str_of d).
Definition meta_doc (length : Z) (shapes : list (list Z)) (dtypes : list tobj) (fmt : memfmt) : json :=
  JObj [(codes "length", JInt length);
        (codes "shapes", JList (map (λ s, JList (map JInt s)) shapes));
        (codes "dtypes", JList (map (λ d, JStr (dtype_text d)) dtypes));
        (codes "fmt", JInt (fmt_value fmt))].
Definition _meta_pack (length : Z) shapes dtypes fmt : bytes :=
  ascii_encode (dumps (meta_doc length shapes dtypes fmt)).

Definition _meta_unpack (meta : bytes) : res RemoteMetadata :=
  let? text := decode meta in
  let? d := loads text in
  let? s := getitem d "shapes" in let? s := iterate s in let? shapes := res_map torch_Size s in
  let? n := getitem d "dtypes" in let? n := iterate n in let? dtypes := res_map getattr_torch n in
  let? l := getitem d "length" in let? length := int_of l in
  let? f := getitem d "fmt" in let? f := int_of f in let? fmt := MemoryFormat f in
  Ok (mkMeta length shapes dtypes fmt).

#[global] Instance json_codec : MetaCodec := {|
  serialize m := _meta_pack (md_length m) (md_shapes m) (md_dtypes m) (md_fmt m);
  deserialize := _meta_unpack |}.
End Codec.

(** ** The codec's own lemmas *)
Lemma strip_prefix_app p s r : strip_prefix p s = Some r → s = p ++ r.
Proof.
  revert s. induction p as [|a p IH]; intros [|c s]; simpl; try by intros [= <-].
  case_match eqn:E; [|done]. apply Z.eqb_eq in E as ->. intros Hs%IH. by rw Hs.
Qed.
Lemma strip_prefix_self p s : strip_prefix p (p ++ s) = Some s.
Proof. induction p as [|a p IH]; simpl; [done|]. by rw Z.eqb_refl. Qed.

(** A text without dots holds no "torch.". *)
Lemma remove_all_none n : forallb ident n = true → remove_all (codes "torch.") 0 n = n.
Proof.
  induction n as [|c n IH]; intros Hn; [done|]. cbn [remove_all].
  destruct (strip_prefix (codes "torch.") (c :: n)) as [r|] eqn:E.
  - apply strip_prefix_app in E. rw E forallb_app in Hn. apply andb_prop in Hn as [Hn _]. by vm_compute in Hn.
  - cbn [forallb] in Hn. apply andb_prop in Hn as [_ Hn]. by rw IH.
Qed.
Lemma remove_prefix n : forallb ident n = true → remove_all (codes "torch.") 0 (codes "torch." ++ n) = n.
Proof.
  intros Hn. change (codes "torch." ++ n) with (116 :: 111 :: 114 :: 99 :: 104 :: 46 :: n).
  change (remove_all (codes "torch.") 0 n = n). by apply remove_all_none.
Qed.

Lemma ident_scalar c : ident c = true → scalar c = true.
Proof. rw /ident /scalar /surrogate /is_digit. lia. Qed.
Lemma ident_ok n : forallb ident n = true → str_ok n = true.
Proof.
  rw /str_ok. induction n as [|c n IH]; [done|]. cbn. intros [Hc Hn]%andb_prop. by rw ident_scalar // IH.
Qed.

Lemma forallb_map {A B} (f : A → B) (p : B → bool) l : forallb p (map f l) = forallb (λ x, p (f x)) l.
Proof. induction l as [|x l IH]; cbn; [done|]. by rw IH. Qed.

Section CodecLaws.
Context `{TorchLaws}.

Lemma dtype_text_spec d : is_dtype d →
  torch_attr (dtype_text d) = Ok d ∧ forallb ident (dtype_text d) = true.
Proof. intros (n & Hs & Hn & Ha)%dtype_name. rw /dtype_text Hs remove_prefix //. Qed.

(** What the codec can hold: sizes that torch accepts, and dtypes. *)
Definition tensor_meta (m : RemoteMetadata) : Prop :=
  Forall (Forall (λ n, 0 ≤ n)) (md_shapes m) ∧ Forall is_dtype (md_dtypes m).

Lemma meta_doc_ok n shapes dtypes fmt : Forall is_dtype dtypes → json_ok (meta_doc n shapes dtypes fmt) = true.
Proof.
  intros Hd. rw /meta_doc. cbn [json_ok forallb]. rw !forallb_map !andb_true_r.
  assert (forallb (λ x : list Z, json_ok (JList (map JInt x))) shapes = true) as ->.
  { induction shapes as [|s l IH]; [done|]. cbn [forallb]. rw IH. cbn. by induction s. }
  assert (forallb (λ x : tobj, json_ok (JStr (dtype_text x))) dtypes = true) as ->.
  { induction Hd as [|d l Hd _ IH]; [done|]. cbn [forallb]. rw IH. cbn.
    rw ident_ok //. by apply dtype_text_spec. }
  by vm_compute.
Qed.

(** Packing a length, shapes, dtypes and a memory format as JSON bytes and
    unpacking them gives the same values, for any number of tensors, with the
    dtypes found again in torch by their printed names. *)
Lemma meta_roundtrip n shapes dtypes fmt :
  Forall (Forall (λ n, 0 ≤ n)) shapes → Forall is_dtype dtypes →
  _meta_unpack (_meta_pack n shapes dtypes fmt) = Ok (mkMeta n shapes dtypes fmt).
Proof.
  intros Hs Hd. pose proof (meta_doc_ok n shapes dtypes fmt Hd) as Hok.
  rw /_meta_unpack /_meta_pack decode_ascii; [by apply dumps_printable|]. cbn [res_bind].
  rw loads_dumps //. cbn [res_bind].
  assert (res_map torch_Size (map (λ s, JList (map JInt s)) shapes) = Ok shapes) as Hsh.
  { clear Hok. induction Hs as [|s l Hs _ IH]; [done|]. cbn [map res_map]. rw size_law //= IH //. }
  assert (res_map getattr_torch (map (λ d, JStr (dtype_text d)) dtypes) = Ok dtypes) as Hdt.
  { clear Hok. induction Hd as [|d l Hd _ IH]; [done|]. cbn [map res_map getattr_torch].
    rw (proj1 (dtype_text_spec d Hd)) /= IH //. }
  change (getitem (meta_doc n shapes dtypes fmt) "shapes") with (Ok (JList (map (λ s, JList (map JInt s)) shapes))).
  cbn [res_bind iterate]. rw Hsh. cbn [res_bind].
  change (getitem (meta_doc n shapes dtypes fmt) "dtypes") with (Ok (JList (map (λ d, JStr (dtype_text d)) dtypes))).
  cbn [res_bind iterate]. rw Hdt. cbn [res_bind].
  change (getitem (meta_doc n shapes dtypes fmt) "length") with (Ok (JInt n)).
  change (getitem (meta_doc n shapes dtypes fmt) "fmt") with (Ok (JInt (fmt_value fmt))).
  cbn [res_bind int_of]. by rw format_law.
Qed.

Lemma res_map_raises {A B} (f : A → res B) l e :
  (∀ x e, f x = Raise e → is_exception e = true) → res_map f l = Raise e → is_exception e = true.
Proof.
  intros Hf. induction l as [|x l IH]; cbn; [done|]. destruct (f x) as [y|e'] eqn:E; cbn.
  - destruct (res_map f l) eqn:El; cbn; [done|]. intros [= <-]. by apply IH.
  - intros [= <-]. by eapply Hf.
Qed.
Lemma bind_raises {A B} (r : res A) (k : A → res B) e :
  (∀ e, r = Raise e → is_exception e = true) → (∀ a e, k a = Raise e → is_exception e = true) →
  res_bind r k = Raise e → is_exception e = true.
Proof. intros Hr Hk. destruct r; cbn; [apply Hk|intros [= <-]; by apply Hr]. Qed.

(** Down the chain of binds: one goal per call. *)
Ltac bind_raises_tac := try (apply bind_raises; [intros ?|intros ? ?; bind_raises_tac]).

Lemma int_of_raises v e : int_of v = Raise e → is_exception e = true.
Proof.
  destruct v; cbn; try (by intros [= <-]); [apply int_of_float_raises|].
  intros Hi. by apply py_int_raises in Hi as ->.
Qed.
Lemma getitem_raises d k e : getitem d k = Raise e → is_exception e = true.
Proof. rw /getitem. repeat case_match; intros [= <-]; done. Qed.
Lemma iterate_raises v e : iterate v = Raise e → is_exception e = true.
Proof. destruct v; cbn; by intros [= <-]. Qed.
Lemma getattr_raises n e : getattr_torch n = Raise e → is_exception e = true.
Proof. destruct n; cbn; try (by intros [= <-]). apply torch_attr_raises. Qed.

(** Whatever the page holds, unpacking it raises nothing that
    [except Exception] of the load does not catch. *)
Lemma meta_unpack_raises b e : _meta_unpack b = Raise e → is_exception e = true.
Proof.
  rw /_meta_unpack. bind_raises_tac.
  - intros Hu. by apply utf8_raises in Hu as ->.
  - intros Hl. by apply loads_raises in Hl as ->.
  - apply getitem_raises.
  - apply iterate_raises.
  - apply res_map_raises, torch_Size_raises.
  - apply getitem_raises.
  - apply iterate_raises.
  - apply res_map_raises, getattr_raises.
  - apply getitem_raises.
  - apply int_of_raises.
  - apply getitem_raises.
  - apply int_of_raises.
  - apply MemoryFormat_raises.
  - done.
Qed.

#[global] Program Instance json_codec_laws : MetaCodecLaws := {| meta_ok := tensor_meta |}.
Next Obligation. intros [n sh dt fm] [Hs Hd]. cbn. by apply meta_roundtrip. Qed.
Next Obligation. intros b e. apply meta_unpack_raises. Qed.
End CodecLaws.

(** ** The metadata fits the header page *)
Lemma len_ascii s : len (ascii_encode s) = len s.
Proof. by rw /len /ascii_encode length_fmap. Qed.
Lemma len_map {A B} (f : A → B) l : len (map f l) = len l.
Proof. by rw /len length_map. Qed.

Lemma len_dump_ident s : forallb ident s = true → len (dump_str s) = len s + 2.
Proof.
  intros Hs. rw /dump_str !len_app. assert (escape_all s = s) as ->; [|rw /len /=; lia].
  induction s as [|c s IH]; [done|]. cbn [forallb] in Hs. apply andb_prop in Hs as [Hc Hs].
  cbn [escape_all]. rw IH // /escape. rw /ident /is_digit in Hc.
  replace (c =? 34) with false by lia. replace (c =? 92) with false by lia. replace (c =? 10) with false by lia.
  replace (c =? 13) with false by lia. replace (c =? 9) with false by lia. replace (c =? 12) with false by lia.
  replace (c =? 8) with false by lia. by replace ((32 <=? c) && (c <=? 126)) with true by lia.
Qed.

(** An array of values of at most [k] characters each. *)
Lemma len_dump_list {A} (f : A → json) (l : list A) k :
  Forall (λ x, len (dumps (f x)) ≤ k) l → len (dumps (JList (map f l))) ≤ 2 + (k + 1) * len l.
Proof.
  intros Hl. cbn [dumps]. rw !len_app map_map. pose proof (length_join 44 (map (λ x, dumps (f x)) l)) as Hj.
  rw len_map in Hj. pose proof (sum_len_bound (map (λ x, dumps (f x)) l) k) as Hs. rw len_map in Hs.
  assert (sum_len (map (λ x, dumps (f x)) l) ≤ k * len l).
  { apply Hs. apply Forall_forall. intros s (x & <- & Hx)%list_elem_of_In%in_map_iff.
    rw Forall_forall in Hl. apply Hl. by apply list_elem_of_In. }
  change (len [91]) with 1. change (len [93]) with 1. lia.
Qed.

Lemma len_dump_obj d : len (dumps (JObj d)) ≤ 2 + sum_len (map dump_pair d) + len d.
Proof.
  change (dumps (JObj d)) with ([123] ++ Json.join 44 (map dump_pair d) ++ [125]). rw !len_app.
  pose proof (length_join 44 (map dump_pair d)) as Hj. rw len_map in Hj.
  change (len [123]) with 1. change (len [125]) with 1. lia.
Qed.

Lemma len_dump_pair k v : len (dump_pair (k, v)) = len (dump_str k) + (1 + len (dumps v)).
Proof. rw /dump_pair len_app. unfold len. cbn [length]. lia. Qed.

Section Fits.
Context `{TorchLaws}.

(** Tensor groups as they come: at most 16 tensors of at most 8 dimensions. *)
Definition moderate (n : Z) (shapes : list (list Z)) (dtypes : list tobj) (fmt : memfmt) : Prop :=
  u64 n ∧ 0 ≤ fmt_value fmt < 2 ^ 32 ∧
  len shapes ≤ 16 ∧ Forall (λ s, len s ≤ 8 ∧ Forall (λ d, 0 ≤ d < 2 ^ 63) s) shapes ∧
  len dtypes ≤ 16 ∧ Forall (λ d, is_dtype d ∧ len (dtype_text d) ≤ 32) dtypes.

Lemma moderate_meta n shapes dtypes fmt : moderate n shapes dtypes fmt → tensor_meta (mkMeta n shapes dtypes fmt).
Proof.
  intros (_ & _ & _ & Hs & _ & Hd). split; cbn.
  - eapply Forall_impl; [exact Hs|]. intros l [_ Hl]. eapply Forall_impl; [exact Hl|].
    intros z Hz. cbn beta in *. lia.
  - eapply Forall_impl; [exact Hd|]. by intros d [].
Qed.

Lemma len_meta_pack n shapes dtypes fmt :
  moderate n shapes dtypes fmt → len (_meta_pack n shapes dtypes fmt) ≤ 3300.
Proof.
  intros (Hn & Hf & Hs & Hss & Hd & Hds). rw /_meta_pack len_ascii. etrans; [apply len_dump_obj|].
  assert (len (dumps (JInt n)) ≤ 20) by (cbn [dumps]; apply length_dump_int; rw /u64 in Hn; lia).
  assert (len (dumps (JInt (fmt_value fmt))) ≤ 20) by (cbn [dumps]; apply length_dump_int; lia).
  assert (len (dumps (JList (map (λ s, JList (map JInt s)) shapes))) ≤ 2 + 163 * len shapes) as Hls.
  { etrans; [apply (len_dump_list _ _ 162)|lia]. eapply Forall_impl; [exact Hss|]. intros s [Hl Hz]. cbn beta.
    etrans; [apply (len_dump_list _ _ 19)|lia]. eapply Forall_impl; [exact Hz|]. intros z Hz'. cbn beta in *.
    cbn [dumps]. apply length_dump_int; lia. }
  assert (len (dumps (JList (map (λ d, JStr (dtype_text d)) dtypes))) ≤ 2 + 35 * len dtypes) as Hld.
  { etrans; [apply (len_dump_list _ _ 34)|lia]. eapply Forall_impl; [exact Hds|]. intros d [Hdt Hl]. cbn beta.
    change (len (dump_str (dtype_text d)) ≤ 34). rw len_dump_ident; [by apply dtype_text_spec|lia]. }
  rw /meta_doc. cbn [map sum_len foldr]. rw !len_dump_pair.
  change (len (dump_str (codes "length"))) with 8. change (len (dump_str (codes "shapes"))) with 8.
  change (len (dump_str (codes "dtypes"))) with 8. change (len (dump_str (codes "fmt"))) with 5.
  change (len [_; _; _; _]) with 4. lia.
Qed.
Lemma moderate_args n shapes dtypes fmt pl : moderate n shapes dtypes fmt → u64 pl →
  header_args (_meta_pack n shapes dtypes fmt) pl STATE_COMMITTED.
Proof.
  intros Hm Hpl. pose proof (len_meta_pack _ _ _ _ Hm). split_and!; [rw MAX_META_4060; lia|done|by right].
Qed.

(** The metadata of a tensor group fits the header page and survives it:
    for up to 16 tensors of up to 8 dimensions, with any 64-bit payload length,
    the packed metadata takes at most 3300 of the 4060 bytes, [pack_header]
    makes a page of 4096 bytes, and parsing and unpacking that page gives the
    payload length, the shapes, the dtypes and the format back. *)
Theorem metadata_page_round_trip n shapes dtypes fmt pl :
  moderate n shapes dtypes fmt → u64 pl →
  len (_meta_pack n shapes dtypes fmt) ≤ 3300 ∧
  ∃ page hdr, pack_header (_meta_pack n shapes dtypes fmt) pl STATE_COMMITTED = Ok page ∧
    len page = HEADER_SIZE ∧ parse_header page true = Ok hdr ∧ payload_len hdr = pl ∧
    _meta_unpack (meta hdr) = Ok (mkMeta n shapes dtypes fmt).
Proof.
  intros Hm Hpl. split; [by apply len_meta_pack|]. pose proof (moderate_args _ _ _ _ _ Hm Hpl) as Ha.
  pose proof (pack_header_ok _ _ _ Ha) as Hp. do 2 eexists. split; [exact Hp|].
  split; [by eapply len_pack_header|]. rw parse_header_body //. cbn [negb andb]. rw Z.eqb_refl.
  split_and!; [done..|]. apply moderate_meta in Hm as [Hs Hd]. by apply meta_roundtrip.
Qed.
End Fits.

(** ** The backend with its codec *)
Section RoundTrip.
Context {D A : Type} `{LibDfsLaws D} `{!LibDfsGpu D} `{!GpuLaws D} `{TorchLaws}
  `{!LocalCpu A} `{!LocalCpuLaws A} `{!GpuObjs A} `{!GpuObjsLaws A} `{CudaDriver}.
Context (uuid4 : nat → string) (cfg : gsettings).
Hypothesis uuid_flat : ∀ i, no_char "/"%char (uuid4 i) = true.
Implicit Types s : conn D gbook A.

(** C23: a tensor group stored by the GPU backend is the tensor group loaded:
    on a backend that answers, submitting a group of at most 16 tensors for a
    new key, running the put and loading the key gives a fresh GPU object with
    the same bytes, shapes, dtypes and format (a miss only if the GPU buffer
    is full); the key is no longer pending and no handle is open.  The page,
    its CRC, the JSON metadata and the rename are the code's own. *)
Theorem tensors_round_trip key obj (o : mobj) s :
  live (c_mem s) !! obj = Some o → 1 ≤ mo_refs o →
  moderate (len (mo_bytes o)) (mo_shapes o) (mo_dtypes o) (mo_fmt o) →
  len (mo_bytes o) = size_of (mo_shapes o) (mo_dtypes o) (mo_fmt o) →
  (∀ m a, has_tensor m a = true) → store_enabled cfg = true →
  up (c_dfs s) → gpu_ok = true → cuda_ok → mounted (g_root cfg) →
  key ∉ _put_tasks (c_obj s) → key ∉ _known (c_obj s) → fs (c_dfs s) !! _path cfg key = None →
  wp (let! _ := store_all uuid4 cfg [key] [obj] in get_blocking cfg key) s
    (λ r s', ∃ a1, live a1 = live (c_mem s) ∧ (key ∉ _put_tasks (c_obj s')) ∧ hs (c_dfs s') = hs (c_dfs s) ∧
       match r with
       | Some m => allocated a1 m (obj_meta o) (mo_bytes o) (c_mem s')
       | None => live (c_mem s') = live (c_mem s) ∧
                 fst (allocate (mo_shapes o) (mo_dtypes o) (mo_fmt o) a1) = None
       end)
    (λ _ _, False).
Proof.
  intros Ho Hr Hm Hsz Ht He Hup Hg Hcu Hmt Hp Hk Hf.
  assert (is_ok (pack_header (serialize (obj_meta o)) (len (mo_bytes o)) STATE_COMMITTED)) as Hpk.
  { change (is_ok (pack_header (_meta_pack (len (mo_bytes o)) (mo_shapes o) (mo_dtypes o) (mo_fmt o))
      (len (mo_bytes o)) STATE_COMMITTED)).
    rw (pack_header_ok _ _ _ (moderate_args _ _ _ _ _ Hm (proj1 Hm))). exact I. }
  refine (gds_put_then_get uuid4 cfg uuid_flat key obj o s Ho Hr _ Hsz Ht He Hp Hcu _).
  - exact (moderate_meta _ _ _ _ Hm).
  - exact (conj Hup (conj Hg (conj (or_introl Hcu) (conj Hmt (conj (Ht obj (c_mem s)) (conj Hpk (conj Hk Hf))))))).
Qed.
End RoundTrip.

(** ** A concrete torch and allocator *)
Module TorchDemo.
(** A dtype is its name; a size is a list of non-negative integers. *)
Definition size_of_json (j : json) : res (list Z) :=
  match j with
  | JList l => res_map (λ v, match v with JInt z => if z <? 0 then Raise OtherError else Ok z | _ => Raise OtherError end) l
  | _ => Raise OtherError
  end.
#[global] Instance torch : Torch := {|
  tobj := pystr; str_of n := codes "torch." ++ n;
  torch_attr n := if forallb ident n then Ok n else Raise OtherError;
  torch_Size := size_of_json; memfmt := bool; fmt_value b := if b then 2 else 1;
  MemoryFormat z := if z =? 2 then Ok true else if z =? 1 then Ok false else Raise ValueError;
  int_of_float _ := Raise OtherError |}.
#[global] Program Instance torch_laws : TorchLaws := {| is_dtype n := forallb ident n = true |}.
Next Obligation. intros n Hn. exists n. cbn. by rw Hn. Qed.
Next Obligation.
  intros l Hl. cbn. induction Hl as [|z l Hz _ IH]; [done|]. cbn [map size_of_json res_map] in *.
  replace (z <? 0) with false by lia. cbn [res_bind]. by rw IH.
Qed.
Next Obligation. by intros []. Qed.
Next Obligation. intros n e. cbn. destruct (forallb ident n); by intros [= <-]. Qed.
Next Obligation.
  intros j e. destruct j; cbn; try (by intros [= <-]). apply res_map_raises. intros v e'.
  destruct v; try (by intros [= <-]). case_match; by intros [= <-].
Qed.
Next Obligation. intros z e. cbn. repeat case_match; by intros [= <-]. Qed.
Next Obligation. intros t e. cbn. by intros [= <-]. Qed.

(** Two bytes an element. *)
Definition nbytes (sh : list (list Z)) : Z := foldr (λ s n, 2 * foldr Z.mul 1 s + n) 0 sh.
Record mem := mkMem { t_objs : gmap Z mobj; t_budget : Z }.
Definition t_get (m : Z) (a : mem) : mobj := default (mkMobj [] 0 [] [] false) (t_objs a !! m).
Definition t_set (m : Z) (o : mobj) (a : mem) : mem := mkMem (<[m := o]> (t_objs a)) (t_budget a).
Definition t_alloc (sh : list (list Z)) (dt : list pystr) (fm : bool) (a : mem) : option Z * mem :=
  if t_budget a <? nbytes sh then (None, a) else
  let m := fresh (dom (t_objs a)) in
  (Some m, mkMem (<[m := mkMobj (zeros (Z.to_nat (nbytes sh))) 1 sh dt fm]> (t_objs a)) (t_budget a - nbytes sh)).
Definition t_poke (m : Z) (d : bytes) (a : mem) : mem :=
  let o := t_get m a in
  t_set m (mkMobj (d ++ drop (length d) (mo_bytes o)) (mo_refs o) (mo_shapes o) (mo_dtypes o) (mo_fmt o)) a.
Definition t_count (k : Z) (m : Z) (a : mem) : mem :=
  let o := t_get m a in
  if mo_refs o + k =? 0 then mkMem (delete m (t_objs a)) (t_budget a + nbytes (mo_shapes o))
  else t_set m (mkMobj (mo_bytes o) (mo_refs o + k) (mo_shapes o) (mo_dtypes o) (mo_fmt o)) a.
#[global] Instance cpu : LocalCpu mem := {|
  allocate := t_alloc; byte_array m a := mo_bytes (t_get m a);
  get_shapes m a := mo_shapes (t_get m a); get_dtypes m a := mo_dtypes (t_get m a);
  get_memory_format m a := mo_fmt (t_get m a); poke := t_poke; ref_count_down := t_count (-1) |}.
#[global] Program Instance cpu_laws : LocalCpuLaws mem :=
  {| live := t_objs; size_of sh _ _ := Z.max 0 (nbytes sh) |}.
Next Obligation.
  intros sh dt fm a r a'. cbn. rw /t_alloc. destruct (t_budget a <? nbytes sh); intros [= <- <-]; [done|].
  split; [apply not_elem_of_dom, is_fresh|]. eexists. split; [|done].
  rw /len /zeros length_replicate. lia.
Qed.
Next Obligation. intros m a o Ho. by rw /= /t_get Ho. Qed.
Next Obligation. intros m a o Ho. by rw /= /t_get Ho. Qed.
Next Obligation. intros m d a o Ho _. by rw /= /t_poke /t_get Ho. Qed.
Next Obligation.
  intros m a o Ho. rw /= /t_count /t_get Ho /=. destruct (Z.eqb_spec (mo_refs o) 1).
  - by replace (mo_refs o + -1 =? 0) with true by lia.
  - by replace (mo_refs o + -1 =? 0) with false by lia.
Qed.
#[global] Instance gobjs : GpuObjs mem := {| ref_count_up m a :=
    let o := t_get m a in
    t_set m (mkMobj (mo_bytes o) (mo_refs o + 1) (mo_shapes o) (mo_dtypes o) (mo_fmt o)) a;
  has_tensor _ _ := true |}.
#[global] Program Instance gobjs_laws : GpuObjsLaws mem.
Next Obligation. intros m a o Ho. by rw /= /t_get Ho. Qed.

(** A [2 x 1 x 3] half-precision tensor. *)
Definition obj : mobj := mkMobj (encode "kvkvkvkvkvkv") 1 [[2; 1; 3]] [codes "float16"] true.
Definition world (budget : Z) : conn MemDfs.mem gbook mem :=
  mkConn (MemDfs.mkMem ∅ ∅ ∅ false []) (GdsDemo.book ∅) (mkMem {[7 := obj]} budget).
Lemma obj_moderate : moderate (len (mo_bytes obj)) (mo_shapes obj) (mo_dtypes obj) (mo_fmt obj).
Proof.
  split; [vm_compute; by split|]. split; [vm_compute; by split|]. split; [by vm_compute|].
  split; [repeat constructor; by vm_compute|]. split; [by vm_compute|]. repeat constructor; by vm_compute.
Qed.

(** The bytes on the wire. *)
Example packed_text : decode (_meta_pack 12 [[2; 1; 3]] [codes "float16"] true) =
  Ok (123 :: 34 :: codes "length" ++ 34 :: codes ":12," ++ 34 :: codes "shapes" ++ 34 :: codes ":[[2,1,3]]," ++
      34 :: codes "dtypes" ++ 34 :: codes ":[" ++ 34 :: codes "float16" ++ 34 :: codes "]," ++
      34 :: codes "fmt" ++ 34 :: codes ":2}").
Proof. by vm_compute. Qed.
End TorchDemo.

Lemma metadata_page_round_trip_witness :
  let m := _meta_pack 12 [[2; 1; 3]] [codes "float16"] true in
  ∃ page hdr, pack_header m 12 STATE_COMMITTED = Ok page ∧ parse_header page true = Ok hdr ∧
    _meta_unpack (meta hdr) = Ok (mkMeta 12 [[2; 1; 3]] [codes "float16"] true).
Proof.
  destruct (metadata_page_round_trip (H := TorchDemo.torch) 12 [[2; 1; 3]] [codes "float16"] true 12
    TorchDemo.obj_moderate) as (_ & page & hdr & Hp & _ & Hh & _ & Hu).
  - vm_compute. by split.
  - exists page, hdr. split; [exact Hp|]. split; [exact Hh|exact Hu].
Defined.

Lemma tensors_round_trip_witness :
  let s := TorchDemo.world 100 in let k := GdsDemo.key "k" in
  wp (let! _ := store_all GdsDemo.uuid GdsDemo.cfg [k] [7] in get_blocking GdsDemo.cfg k) s
    (λ r s', ∃ a1 : TorchDemo.mem, live a1 = live (c_mem s) ∧
       match r with
       | Some m => allocated a1 m (obj_meta TorchDemo.obj) (encode "kvkvkvkvkvkv") (c_mem s')
       | None => fst (allocate (mo_shapes TorchDemo.obj) (mo_dtypes TorchDemo.obj) (mo_fmt TorchDemo.obj) a1) = None
       end) (λ _ _, False).
Proof.
  intros s k. eapply wp_mono.
  - apply (tensors_round_trip GdsDemo.uuid GdsDemo.cfg GdsDemo.uuid_ok k 7 TorchDemo.obj s);
      [reflexivity|vm_compute; congruence|apply TorchDemo.obj_moderate|reflexivity|reflexivity|reflexivity|reflexivity
      |reflexivity|apply GdsDemo.cuda_works|exact I|apply not_elem_of_empty|apply not_elem_of_empty|reflexivity].
  - intros r s' (a1 & Ha & _ & _ & Hr). exists a1. split; [exact Ha|]. destruct r; [exact Hr|apply Hr].
  - intros e s' [].
Defined.
