(* ===== verification/StreamPatch.v ===== *)
(** * Streaming loads in the MP server: [mp/streaming_patch.py]

    [StreamingL2Proxy] wraps an L2 adapter: a load is split into sub-batches,
    each sub-batch is published in L1 as soon as it has landed, and the caller
    sees one task with one bitmap.  The wrapped adapter is the class [L2Loads]
    (submit and query of load tasks) with the contract [L2LoadsLaws]; the proxy
    is shown to keep that same contract.  LMCache's L1 manager is the class
    [L1Manager].  [_patched_fwrr], the status query, the janitor and the
    sub-batched transfer follow.  Here each method runs to its end; [StreamOnce]
    has several proxies on the module's state, and the interleaving of their
    accesses to it. *)
From S2P Require Import Prelude.
Open Scope Z_scope.
Open Scope py_scope.

(** ** The adapter a proxy wraps *)
Class L2Loads (I Key : Type) := {
  isubmit : list Key → list Z → I → Z * I;          (* submit_load_task *)
  iquery : Z → I → option (list bool) * I;          (* query_load_result *)
}.

(** LMCache's L1 manager: finishing a write makes the keys readable. *)
Class L1Manager (L Key : Type) := {
  finish_write_and_reserve_read : list Key → L → L;
  unsafe_read : Key → L → option Z;
}.

(** [bm.test(i)] *)
Definition test (bm : list bool) (i : nat) : bool := default false (bm !! i).

Section Proxy.
Context {I L Key : Type} `{Countable Key} `{!L2Loads I Key} `{!L1Manager L Key}.

(** One sub-batch: the inner task, its keys, its bitmap once known. *)
Record sub := mkSub { s_tid : Z; s_keys : list Key; s_bm : option (list bool) }.
(** What belongs to the module and not to a proxy: every proxy and the patched
    methods of the server have it in common. *)
Record shared := mkShared {
  g_l1 : L; g_captured : bool;           (* the L1 manager; _state["l1"] is set to it *)
  g_early : gset Key; g_ready : gset Key }.
(** A proxy's own fields, and the module's state it works on. *)
Record proxy := mkProxy { p_inner : I; p_next : Z; p_outer : gmap Z (list sub * nat); p_shared : shared }.

Definition init_shared (l1 : L) : shared := mkShared l1 false ∅ ∅.
Definition init_proxy (i : I) (l1 : L) : proxy := mkProxy i (Z.shiftl 1 40) ∅ (init_shared l1).
Definition set_inner (i : I) (p : proxy) : proxy := mkProxy i (p_next p) (p_outer p) (p_shared p).
Definition set_outer (o : gmap Z (list sub * nat)) (p : proxy) : proxy :=
  mkProxy (p_inner p) (p_next p) o (p_shared p).
Definition set_shared (g : shared) (p : proxy) : proxy := mkProxy (p_inner p) (p_next p) (p_outer p) g.

(** The three accesses of a publication to the module's state, and the two of
    [_patched_fwrr]; each is under a lock of its own. *)
Definition mark_early (ok : list Key) (g : shared) : shared :=
  mkShared (g_l1 g) (g_captured g) (list_to_set ok ∪ g_early g) (g_ready g).
Definition _orig_fwrr (ks : list Key) (g : shared) : shared :=
  mkShared (finish_write_and_reserve_read ks (g_l1 g)) (g_captured g) (g_early g) (g_ready g).
Definition notify_ready (ok : list Key) (g : shared) : shared :=
  mkShared (g_l1 g) (g_captured g) (g_early g) (list_to_set ok ∪ g_ready g).
(** The keys that were not finished early; the others are skipped, once. *)
Definition skip_early (keys : list Key) (g : shared) : list Key * shared :=
  let skip := filter (λ k, k ∈ g_early g) keys in
  (filter (λ k, k ∉ skip) keys,
   mkShared (g_l1 g) (g_captured g) (g_early g ∖ list_to_set skip) (g_ready g)).

(** [for i in range(0, len(keys), self._sub)]; [n] is [self._sub]. *)
Fixpoint submit_subs (fuel n : nat) (keys : list Key) (objects : list Z) (i : I) : list sub * I :=
  match fuel, keys with
  | S fuel, _ :: _ =>
      let ks := take n keys in
      let '(tid, i) := isubmit ks (take n objects) i in
      let '(subs, i) := submit_subs fuel n (drop n keys) (drop n objects) i in
      (mkSub tid ks None :: subs, i)
  | _, _ => ([], i)
  end.

Definition submit_load_task (_sub : Z) (keys : list Key) (objects : list Z) (p : proxy) : Z * proxy :=
  let n := Z.to_nat (Z.max 1 _sub) in
  let '(subs, i) := submit_subs (length keys) n keys objects (p_inner p) in
  let outer := p_next p in
  (outer, mkProxy i (outer + 1) (<[outer := (subs, length keys)]> (p_outer p)) (p_shared p)).

(** [[k for i, k in enumerate(s["keys"]) if bm.test(i)]] *)
Fixpoint hit_keys (keys : list Key) (bm : list bool) : list Key :=
  match keys with
  | [] => []
  | k :: keys => if test bm 0 then k :: hit_keys keys (drop 1 bm) else hit_keys keys (drop 1 bm)
  end.

(** One turn of the loop of [query_load_result]: a sub-batch that has just
    landed is published in L1. *)
Definition publish_early (ok : list Key) (p : proxy) : proxy :=
  match ok, g_captured (p_shared p) with
  | _ :: _, true => set_shared (notify_ready ok (_orig_fwrr ok (mark_early ok (p_shared p)))) p
  | _, _ => p
  end.
Definition poll_sub (s : sub) (p : proxy) : sub * proxy :=
  match s_bm s with
  | Some _ => (s, p)
  | None =>
      let '(r, i) := iquery (s_tid s) (p_inner p) in
      match r with
      | None => (s, set_inner i p)
      | Some bm => (mkSub (s_tid s) (s_keys s) (Some bm), publish_early (hit_keys (s_keys s) bm) (set_inner i p))
      end
  end.
Fixpoint poll_subs (l : list sub) (p : proxy) : list sub * proxy :=
  match l with
  | [] => ([], p)
  | s :: l =>
      let '(s, p) := poll_sub s p in
      let '(l, p) := poll_subs l p in (s :: l, p)
  end.

(** The bitmap over all sub-batches, if each has one. *)
Definition sub_bits (s : sub) : list bool :=
  (λ i, test (default [] (s_bm s)) i) <$> seq 0 (length (s_keys s)).
Definition assemble (n : nat) (subs : list sub) : list bool :=
  let bits := concat (sub_bits <$> subs) in take n bits ++ replicate (n - length bits) false.
Definition all_landed (subs : list sub) : bool := forallb (λ s, bool_decide (is_Some (s_bm s))) subs.

Definition query_load_result (tid : Z) (p : proxy) : option (list bool) * proxy :=
  match p_outer p !! tid with
  | None => let '(r, i) := iquery tid (p_inner p) in (r, set_inner i p)
  | Some (subs, n) =>
      let '(subs, p) := poll_subs subs p in
      if negb (all_landed subs)
      then (None, set_outer (<[tid := (subs, n)]> (p_outer p)) p)
      else (Some (assemble n subs), set_outer (delete tid (p_outer p)) p)
  end.

Definition _patched_fwrr (keys : list Key) (g : shared) : shared :=
  let '(rest, g) := skip_early keys g in
  match rest with [] => g | _ => _orig_fwrr rest g end.

(** *** Status and clean-up *)

(** [_query], once the lookup has decided [hits] of [n_l2] keys. *)
Definition status_bits (hits : Z) (n_l2 : nat) : list bool :=
  let m := Z.to_nat (Z.min hits (Z.of_nat n_l2)) in replicate m true ++ replicate (n_l2 - m) false.
Definition _query (rid : Z) (lookup : option Z) (n_l2 : nat) (drain : gset Z) : option (list bool) * gset Z :=
  if rid =? -1 then (None, drain) else
  match lookup with
  | None => (None, drain)
  | Some hits => (Some (status_bits hits n_l2), {[rid]} ∪ drain)
  end.
(** [_wait]: one observation per turn of its loop, up to the first at or after
    the deadline: what the lookup has decided, and whether the result came. *)
Fixpoint wait_turns (turns : list (option Z * bool)) : bool :=
  match turns with
  | [] => false
  | (Some _, _) :: _ => true
  | (None, came) :: turns => if came then true else wait_turns turns
  end.
Definition _wait (rid : Z) (orig : bool) (turns : list (option Z * bool)) : bool :=
  if rid =? -1 then orig else wait_turns turns.

(** One pass of [_janitor]: the controller [pc] is asked for each request of a
    snapshot of the set; what it has a result for (its exceptions are dropped)
    leaves the set. *)
Fixpoint janitor_pass {P} (query_prefetch_result : Z → P → res (option unit) * P)
    (rids : list Z) (pc : P) (drain : gset Z) : P * gset Z :=
  match rids with
  | [] => (pc, drain)
  | rid :: rids =>
      let '(r, pc) := query_prefetch_result rid pc in
      janitor_pass query_prefetch_result rids pc
        (match r with Ok (Some _) => drain ∖ {[rid]} | _ => drain end)
  end.
Definition _janitor {P} (query_prefetch_result : Z → P → res (option unit) * P) (pc : P) (drain : gset Z)
  : P * gset Z := janitor_pass query_prefetch_result (elements drain) pc drain.

(** *** The sub-batched transfer *)
Inductive slot := Landed (o : Z) | Pending (k : Key).
(** [_read] *)
Definition _read (l1 : L) (keys : list Key) : list slot :=
  (λ k, match unsafe_read k l1 with Some o => Landed o | None => Pending k end) <$> keys.

(** [_resolve]: [obs] is the L1 manager at each wake-up before the deadline. *)
Definition all_readable (keys : list Key) (l1 : L) : bool :=
  forallb (λ k, bool_decide (is_Some (unsafe_read k l1))) keys.
Fixpoint _resolve (obs : list L) (keys : list Key) : res (L * list L) :=
  match obs with
  | [] => Raise RuntimeError
  | l1 :: obs' => if all_readable keys l1 then Ok (l1, obs) else _resolve obs' keys
  end.

Definition pend_keys (part : list slot) : list Key :=
  omap (λ m, match m with Pending k => Some k | Landed _ => None end) part.
Definition fill_in (l1 : L) (m : slot) : slot :=
  match m with
  | Landed o => Landed o
  | Pending k => match unsafe_read k l1 with Some o => Landed o | None => Pending k end
  end.

(** One sub-batch: its placeholders are resolved. *)
Definition fill_part (part : list slot) (obs : list L) : res (list slot * list L) :=
  match pend_keys part with
  | [] => Ok (part, obs)
  | pend => let? (l1, obs) := _resolve obs pend in Ok (fill_in l1 <$> part, obs)
  end.

(** One call of the transfer kernel: block ids by group, objects, skipped tokens. *)
Record call := mkCall { c_blocks : list (list Z); c_part : list slot; c_skip : Z }.

(** [[b[i * c:(i + len(part)) * c] for b, c in zip(block_ids_gpu, bpc)]] *)
Definition cut_blocks (i k : nat) (blocks : list (list Z)) (bpc : list nat) : list (list Z) :=
  zip_with (λ b c, take (k * c) (drop (i * c) b)) blocks bpc.

Fixpoint transfer_loop (fuel n i : nat) (blocks : list (list Z)) (bpc : list nat) (skip : Z)
    (objs : list slot) (obs : list L) : res (list call) :=
  match fuel, objs with
  | S fuel, _ :: _ =>
      let part := take n objs in
      let? (part, obs) := fill_part part obs in
      let? calls := transfer_loop fuel n (i + n) blocks bpc skip (drop n objs) obs in
      Ok (mkCall (cut_blocks i (length part) blocks bpc) part (if (i =? 0)%nat then skip else 0) :: calls)
  | _, _ => Ok []
  end.

Definition _transfer (_sub : Z) (h2d : bool) (blocks : list (list Z)) (objs : list slot) (skip : Z)
    (obs : list L) : res (list call) :=
  let n := length objs in
  if (n =? 0)%nat || bool_decide (pend_keys objs = []) || negb h2d then Ok [mkCall blocks objs skip] else
  let bpc := (λ b, (length b / n)%nat) <$> blocks in
  transfer_loop n (Z.to_nat (Z.max 1 _sub)) 0 blocks bpc skip objs obs.
End Proxy.
Arguments sub : clear implicits.
Arguments slot : clear implicits.
Arguments call : clear implicits.
Arguments shared L Key {_ _}.
Arguments proxy I L Key {_ _}.

(** ** An early status is honest and is cleaned up *)
Section Status.
Context {P : Type} (query_prefetch_result : Z → P → res (option unit) * P).

Lemma status_bits_spec hits n i : length (status_bits hits n) = n ∧
  ((i < n)%nat → status_bits hits n !! i = Some (bool_decide (Z.of_nat i < hits))).
Proof.
  rw /status_bits. set (m := Z.to_nat (Z.min hits (Z.of_nat n))).
  assert (m ≤ n)%nat as Hm by lia. split; [rw length_app !length_replicate; lia|]. intros Hi.
  destruct (decide (i < m)%nat) as [Him|Him].
  - rw lookup_app_l; [rw length_replicate; lia|]. rw lookup_replicate_2 //. rw bool_decide_true //. lia.
  - rw lookup_app_r; [rw length_replicate; lia|]. rw length_replicate lookup_replicate_2; [lia|].
    rw bool_decide_false //. lia.
Qed.

Lemma janitor_pass_spec rids pc drain :
  let '(pc', drain') := janitor_pass query_prefetch_result rids pc drain in
  drain' ⊆ drain ∧ drain ∖ list_to_set rids ⊆ drain' ∧
  ((∀ r q, ∃ q', query_prefetch_result r q = (Ok (Some tt), q')) → drain' ⊆ drain ∖ list_to_set rids) ∧
  ((∀ r q, (query_prefetch_result r q).1 ≠ Ok (Some tt)) → drain' = drain).
Proof.
  revert pc drain. induction rids as [|r rids IH]; intros pc drain; cbn; [clear; split_and!; set_solver|].
  destruct (query_prefetch_result r pc) as [x pc1] eqn:E.
  specialize (IH pc1 (match x with Ok (Some _) => drain ∖ {[r]} | _ => drain end)).
  destruct (janitor_pass query_prefetch_result rids pc1 _) as [pc' drain'].
  destruct IH as (H1 & H2 & H3 & H4). destruct x as [[[]|]|e].
  - split_and!.
    + clear -H1. set_solver.
    + clear -H2. set_solver.
    + intros Hall. specialize (H3 Hall). clear -H3. set_solver.
    + intros Hno. specialize (Hno r pc). by rw E in Hno.
  - split_and!; [done| |intros Hall; destruct (Hall r pc) as [q' Hq]; by rw E in Hq|done].
    clear -H2. set_solver.
  - split_and!; [done| |intros Hall; destruct (Hall r pc) as [q' Hq]; by rw E in Hq|done].
    clear -H2. set_solver.
Qed.

(** The early status of a request is one bit per key found in the second
    level, set for exactly the keys before the first miss; waiting on such a
    request returns at once; the request is left for the janitor, whose pass
    forgets it if its result is there and keeps it if not. *)
Theorem early_status_is_drained rid hits n came turns orig drain pc :
  rid ≠ -1 →
  let '(bits, drain1) := _query rid (Some hits) n drain in
  (∃ b, bits = Some b ∧ length b = n ∧ ∀ i, (i < n)%nat → b !! i = Some (bool_decide (Z.of_nat i < hits))) ∧
  _wait rid orig ((Some hits, came) :: turns) = true ∧
  rid ∈ drain1 ∧
  ((∀ r q, ∃ q', query_prefetch_result r q = (Ok (Some tt), q')) →
     rid ∉ (_janitor query_prefetch_result pc drain1).2) ∧
  ((∀ r q, (query_prefetch_result r q).1 ≠ Ok (Some tt)) → (_janitor query_prefetch_result pc drain1).2 = drain1).
Proof.
  intros Hr. rw /_query /_wait. destruct (Z.eqb_spec rid (-1)); [done|].
  pose proof (janitor_pass_spec (elements ({[rid]} ∪ drain)) pc ({[rid]} ∪ drain)) as Hj. rw /_janitor.
  destruct (janitor_pass _ _ _ _) as [pc' d']. destruct Hj as (_ & _ & H3 & H4). split_and!; [|done|apply elem_of_union_l, elem_of_singleton; done| |exact H4].
  - exists (status_bits hits n). split_and!; [done|by apply (status_bits_spec hits n 0)|]. intros i. by apply status_bits_spec.
  - intros Hall. specialize (H3 Hall). rw list_to_set_elements_L in H3. clear -H3. set_solver.
Qed.
End Status.

(** ** The contract of an adapter's load tasks

    [itask] are the tasks submitted and not yet delivered, [iused] the buffers
    handed over so far, each once.  A query of a task that has not completed
    changes neither; the bitmap of a completed task is delivered once and has
    one bit per key, each keeping the promise [V] (for instance: a set bit means
    that the buffer holds the key's data), and a promise kept stays kept.
    [iok] is the adapter's own invariant. *)
Class L2LoadsLaws (I : Type) {Key : Type} `{!L2Loads I Key} (V : I → Key → Z → bool → Prop) := {
  itask : I → gmap Z (list Key * list Z);
  iused : I → gset Z;
  iok : I → Prop;
  isubmit_law ks os i t i' :
    iok i → length os = length ks → NoDup os → (∀ o, o ∈ os → o ∉ iused i) → isubmit ks os i = (t, i') →
    iok i' ∧ itask i !! t = None ∧ itask i' = <[t := (ks, os)]> (itask i) ∧
    iused i' = list_to_set os ∪ iused i ∧ ∀ k o b, V i k o b → V i' k o b;
  iquery_law t i r i' :
    iok i → iquery t i = (r, i') →
    iok i' ∧ iused i' = iused i ∧ (∀ k o b, V i k o b → V i' k o b) ∧
    match r with
    | None => itask i' = itask i
    | Some bm => ∃ ks os, itask i !! t = Some (ks, os) ∧ Forall3 (V i') ks os bm ∧ itask i' = delete t (itask i)
    end;
}.

Section Contract.
Context {I L Key : Type} `{Countable Key} `{!L2Loads I Key} `{!L1Manager L Key}.
Context (V : I → Key → Z → bool → Prop) `{!L2LoadsLaws I V}.
Implicit Types (p : proxy I L Key) (subs : list (sub Key)).

(** A sub-batch is an open task of the adapter, or has kept its promise. *)
Definition sub_ok (i : I) (s : sub Key) (os : list Z) : Prop :=
  match s_bm s with
  | None => itask i !! s_tid s = Some (s_keys s, os)
  | Some bm => Forall3 (V i) (s_keys s) os bm
  end.
Definition open_tids subs : list Z := s_tid <$> filter (λ s, s_bm s = None) subs.
Definition outer_ok (i : I) (ks : list Key) (os : list Z) subs (n : nat) : Prop :=
  n = length ks ∧ NoDup (open_tids subs) ∧
  ∃ oss, ks = concat (s_keys <$> subs) ∧ os = concat oss ∧ Forall2 (sub_ok i) subs oss.

(** Promises kept in [i] are kept in [i']. *)
Definition vmono (i i' : I) : Prop := ∀ k o b, V i k o b → V i' k o b.
#[local] Instance vmono_preorder : PreOrder vmono.
Proof. split; [by intros i k o b|]. intros i1 i2 i3 H12 H23 k o b HV. by apply H23, H12. Qed.

(** The proxy's own tasks are [T]. *)
Record pinv (T : gmap Z (list Key * list Z)) p : Prop := mkPinv {
  pi_iok : iok (p_inner p);
  pi_ok t : match T !! t, p_outer p !! t with
            | Some (ks, os), Some (subs, n) => outer_ok (p_inner p) ks os subs n
            | None, None => True
            | _, _ => False
            end;
  pi_disj t t' e e' : p_outer p !! t = Some e → p_outer p !! t' = Some e' → t ≠ t' →
    open_tids e.1 ## open_tids e'.1;
  pi_fresh t : p_next p ≤ t → p_outer p !! t = None }.

Lemma open_cons s subs :
  open_tids (s :: subs) = (match s_bm s with Some _ => [] | None => [s_tid s] end) ++ open_tids subs.
Proof. rw /open_tids. destruct (s_bm s) eqn:E; [rw filter_cons_False //; congruence|by rw filter_cons_True]. Qed.

(** Open tasks stay as they are when others come and go. *)
Lemma sub_ok_frame i i' s os : vmono i i' →
  (s_bm s = None → itask i' !! s_tid s = itask i !! s_tid s) → sub_ok i s os → sub_ok i' s os.
Proof.
  rw /sub_ok. intros Hv. destruct (s_bm s); [|intros Hf; by rw Hf].
  intros _ HV. eapply Forall3_impl; [exact HV|apply Hv].
Qed.
Lemma subs_ok_frame i i' subs oss : vmono i i' →
  (∀ t, t ∈ open_tids subs → itask i' !! t = itask i !! t) →
  Forall2 (sub_ok i) subs oss → Forall2 (sub_ok i') subs oss.
Proof.
  intros Hv Hf Hall. induction Hall as [|s os subs oss Hs _ IH]; [constructor|]. rw open_cons in Hf. constructor.
  - eapply sub_ok_frame; [exact Hv| |exact Hs]. intros E. apply Hf. rw E. set_solver.
  - apply IH. set_solver.
Qed.
Lemma open_in_itask i subs oss t :
  Forall2 (sub_ok i) subs oss → t ∈ open_tids subs → is_Some (itask i !! t).
Proof.
  intros Hall. induction Hall as [|s os subs oss Hs _ IH]; [set_solver|]. rw open_cons elem_of_app.
  rw /sub_ok in Hs. destruct (s_bm s); [set_solver|]. intros [->%list_elem_of_singleton|Ht]; eauto.
Qed.

(** *** Submission *)
Lemma submit_subs_spec fuel n ks os i subs i' :
  iok i → NoDup os → (∀ o, o ∈ os → o ∉ iused i) →
  (1 ≤ n)%nat → (length ks ≤ fuel)%nat → length os = length ks → submit_subs fuel n ks os i = (subs, i') →
  (iok i' ∧ vmono i i' ∧ iused i' = list_to_set os ∪ iused i) ∧
  (∀ t, t ∉ s_tid <$> subs → itask i' !! t = itask i !! t) ∧
  (∀ t, t ∈ s_tid <$> subs → itask i !! t = None) ∧
  NoDup (s_tid <$> subs) ∧ open_tids subs = s_tid <$> subs ∧
  ∃ oss, ks = concat (s_keys <$> subs) ∧ os = concat oss ∧ Forall2 (sub_ok i') subs oss.
Proof.
  intros Hiok Hno Hus Hn. revert ks os i subs i' Hiok Hno Hus.
  induction fuel as [|fuel IH]; intros ks os i subs i' Hiok Hno Hus Hfuel Hlen.
  { destruct ks; [|simpl in Hfuel; lia]. destruct os; [|done]. intros [= <- <-].
    split_and!; [done..|set_solver|done|set_solver|constructor|done|]. by exists []. }
  destruct ks as [|k ks]; cbn.
  { destruct os; [|done]. intros [= <- <-]. split_and!; [done..|set_solver|done|set_solver|constructor|done|].
    by exists []. }
  set (all := k :: ks) in *. change (take n (k :: ks)) with (take n all). change (drop n (k :: ks)) with (drop n all).
  assert (∀ o, o ∈ take n os ∨ o ∈ drop n os → o ∈ os) as Hin
    by (intros o Ho; by rw -(take_drop n os) elem_of_app).
  rw -(take_drop n os) in Hno. apply NoDup_app in Hno as (Hno1 & Hsep & Hno2).
  destruct (isubmit (take n all) (take n os) i) as [tid i1] eqn:E1.
  apply isubmit_law in E1 as (Hok1 & Hfr & Hi1 & Hu1 & Hv1);
    [|done|rw !length_take; lia|done|intros o Ho; apply Hus, Hin; by left].
  destruct (submit_subs fuel n (drop n all) (drop n os) i1) as [subs2 i2] eqn:E2.
  intros [= <- <-]. apply IH in E2 as ((Hok2 & Hv2 & Hu2) & Hold & Hnew & Hnd & Hop & oss & Hks & Hos & Hall); cycle 1.
  { done. }
  { done. }
  { intros o Ho. rw Hu1 elem_of_union elem_of_list_to_set. intros [Ho'|Ho']; [by apply (Hsep o)|].
    apply (Hus o); [|done]. apply Hin. by right. }
  { rw length_drop. rw /all /= in Hfuel |- *. lia. }
  { rw !length_drop. lia. }
  assert (tid ∉ s_tid <$> subs2) as Htid.
  { intros Ht. apply Hnew in Ht. by rw Hi1 lookup_insert_eq in Ht. }
  split_and!; [done|by etrans| | | | | |].
  - rw Hu2 Hu1 -{3}(take_drop n os) list_to_set_app_L. set_solver.
  - cbn. intros t Ht. rw Hold; [set_solver|]. rw Hi1 lookup_insert_ne //. set_solver.
  - cbn. intros t [->|Ht]%elem_of_cons; [done|]. apply Hnew in Ht. rw Hi1 in Ht.
    by apply lookup_insert_None in Ht as [? _].
  - cbn. by constructor.
  - rw open_cons /= Hop //.
  - exists (take n os :: oss). cbn. rw -Hks -Hos !take_drop. split_and!; try done. constructor; [|done].
    rw /sub_ok /= Hold // Hi1 lookup_insert_eq //.
Qed.

(** *** Queries *)
Lemma publish_early_frame ok p :
  p_inner (publish_early ok p) = p_inner p ∧ p_outer (publish_early ok p) = p_outer p ∧
  p_next (publish_early ok p) = p_next p.
Proof. rw /publish_early. by destruct ok, (g_captured (p_shared p)). Qed.

Lemma poll_sub_spec s os p s' p' :
  iok (p_inner p) → sub_ok (p_inner p) s os → poll_sub s p = (s', p') →
  (iok (p_inner p') ∧ vmono (p_inner p) (p_inner p')) ∧
  s_keys s' = s_keys s ∧ sub_ok (p_inner p') s' os ∧
  (∀ t, t ∉ open_tids [s] → itask (p_inner p') !! t = itask (p_inner p) !! t) ∧
  (open_tids [s'] = open_tids [s] ∨ open_tids [s'] = []) ∧ p_outer p' = p_outer p ∧ p_next p' = p_next p.
Proof.
  rw !open_cons. rw /poll_sub /sub_ok. destruct (s_bm s) as [bm|] eqn:Eb.
  { intros Hiok Hs [= <- <-]. rw Eb. split_and!; try done. by left. }
  intros Hiok Hs. destruct (iquery (s_tid s) (p_inner p)) as [r i'] eqn:Eq.
  apply iquery_law in Eq as (Hok' & _ & Hv & Eq); [|done].
  destruct r as [bm|]; intros [= <- <-].
  - destruct Eq as (ks & os' & Ht & HV & Hi). rw Hs in Ht. injection Ht as <- <-.
    destruct (publish_early_frame (hit_keys (s_keys s) bm) (set_inner i' p)) as (-> & -> & ->). cbn.
    split_and!; try done; [|by right]. intros t Ht. rw Hi lookup_delete_ne //. set_solver.
  - cbn. rw Eb Eq. split_and!; try done. by left.
Qed.

Lemma poll_subs_spec subs oss p subs' p' :
  iok (p_inner p) → Forall2 (sub_ok (p_inner p)) subs oss → NoDup (open_tids subs) → poll_subs subs p = (subs', p') →
  (iok (p_inner p') ∧ vmono (p_inner p) (p_inner p')) ∧
  s_keys <$> subs' = s_keys <$> subs ∧ Forall2 (sub_ok (p_inner p')) subs' oss ∧
  (∀ t, t ∉ open_tids subs → itask (p_inner p') !! t = itask (p_inner p) !! t) ∧
  open_tids subs' ⊆ open_tids subs ∧ NoDup (open_tids subs') ∧ p_outer p' = p_outer p ∧ p_next p' = p_next p.
Proof.
  revert oss p subs' p'. induction subs as [|s subs IH]; intros oss' p subs' p' Hiok Hall0 Hnd; cbn [poll_subs].
  { intros [= <- <-]. by split_and!. }
  apply Forall2_cons_inv_l in Hall0 as (os & oss & Hs & Hall & ->).
  change (s :: subs) with ([s] ++ subs) in *.
  assert (∀ a b, open_tids (a ++ b) = open_tids a ++ open_tids b) as Happ.
  { intros a b. by rw /open_tids filter_app fmap_app. }
  rw Happ in Hnd |- *. apply NoDup_app in Hnd as (Hnd1 & Hdisj & Hnd2).
  destruct (poll_sub s p) as [s1 p1] eqn:E1. destruct (poll_subs subs p1) as [subs2 p2] eqn:E2.
  intros [= <- <-]. apply (poll_sub_spec s os) in E1 as ((Hok1 & Hv1) & Hk1 & Hs1 & Hf1 & Ho1 & Hq1 & Hn1); [|done..].
  apply (IH oss) in E2 as ((Hok2 & Hv2) & Hk2 & Hs2 & Hf2 & Ho2 & Hnd2' & Hq2 & Hn2); [|done| |exact Hnd2]; cycle 1.
  { eapply subs_ok_frame; [exact Hv1| |exact Hall]. intros t Ht. apply Hf1. intros Ht'. by apply (Hdisj t). }
  assert (open_tids [s1] ⊆ open_tids [s]) as Hsub1.
  { destruct Ho1 as [->| ->]; [done|]. intros t Ht. by apply elem_of_nil in Ht. }
  change (s1 :: subs2) with ([s1] ++ subs2). rw Happ. split_and!.
  - done.
  - by etrans.
  - cbn. by rw Hk1 Hk2.
  - constructor; [|done]. eapply sub_ok_frame; [exact Hv2| |exact Hs1]. intros Eb. apply Hf2.
    apply Hdisj, Hsub1. rw open_cons Eb. apply elem_of_app. left. apply list_elem_of_here.
  - intros t [Ht1 Ht2]%not_elem_of_app. rw Hf2 //. by apply Hf1.
  - intros t [Ht|Ht]%elem_of_app; apply elem_of_app; [left; by apply Hsub1|right; by apply Ho2].
  - apply NoDup_app. split_and!; [destruct Ho1 as [->| ->]; [done|constructor]| |done].
    intros t Ht Ht'. apply (Hdisj t); [by apply Hsub1|by apply Ho2].
  - congruence.
  - congruence.
Qed.

Lemma sub_bits_all (s : sub Key) bm : s_bm s = Some bm → length bm = length (s_keys s) → sub_bits s = bm.
Proof.
  intros Hb Hl. apply list_eq. intros i. rw /sub_bits Hb /=. rw list_lookup_fmap.
  destruct (decide (i < length bm)%nat) as [Hi|Hi].
  - rw lookup_seq_lt; [lia|]. cbn. rw /test. destruct (lookup_lt_is_Some_2 bm i Hi) as [b ->]. done.
  - rw lookup_seq_ge; [lia|]. rw lookup_ge_None_2 //. lia.
Qed.

Lemma assemble_promise i subs oss n :
  Forall2 (sub_ok i) subs oss → all_landed subs = true → n = length (concat (s_keys <$> subs)) →
  Forall3 (V i) (concat (s_keys <$> subs)) (concat oss) (assemble n subs).
Proof.
  intros Hall Hl Hn.
  assert (Forall3 (V i) (concat (s_keys <$> subs)) (concat oss) (concat (sub_bits <$> subs))) as HV.
  { clear Hn. induction Hall as [|s os subs oss Hs _ IH]; [constructor|]. cbn in Hl |- *.
    apply andb_prop in Hl as [Hb Hl]. apply bool_decide_eq_true_1 in Hb as [bm Hb].
    rw /sub_ok Hb in Hs. rw (sub_bits_all s bm) //; [symmetry; by eapply Forall3_length_lr|].
    apply Forall3_app; [done|by apply IH]. }
  pose proof (Forall3_length_lr _ _ _ _ HV) as Hlen. rw -Hn in Hlen.
  rw /assemble. rw take_ge; [lia|]. rw -Hlen Nat.sub_diag /= app_nil_r //.
Qed.

(** A submission registers one new task. *)
Lemma submit_keeps_contract _sub T p ks os t p' :
  pinv T p → length os = length ks → NoDup os → (∀ o, o ∈ os → o ∉ iused (p_inner p)) →
  submit_load_task _sub ks os p = (t, p') →
  T !! t = None ∧ pinv (<[t := (ks, os)]> T) p' ∧ vmono (p_inner p) (p_inner p').
Proof.
  intros [Hiok Hok Hdisj Hfresh] Hlen Hno Hus. rw /submit_load_task.
  destruct (submit_subs (length ks) (Z.to_nat (Z.max 1 _sub)) ks os (p_inner p)) as [subs i'] eqn:E.
  intros [= <- <-]. apply submit_subs_spec in E as ((Hok' & Hv & _) & Hold & Hnew & Hnd & Hop & oss & Hks & Hos & Hall);
    [|first [done|lia]..].
  assert (p_outer p !! p_next p = None) as Hpn by (apply Hfresh; lia).
  assert (T !! p_next p = None) as HTn.
  { specialize (Hok (p_next p)). rw Hpn in Hok. by destruct (T !! p_next p) as [[]|]. }
  assert (∀ t e, p_outer p !! t = Some e → open_tids e.1 ## open_tids subs) as Hsep.
  { intros t [subs' n] He x Hx Hx'. cbn in Hx. specialize (Hok t). rw He in Hok.
    destruct (T !! t) as [[ks' os']|]; [|done]. destruct Hok as (_ & _ & oss' & _ & _ & Hall').
    destruct (open_in_itask _ _ _ _ Hall' Hx) as [? Hin]. rw Hop in Hx'. apply Hnew in Hx'. congruence. }
  split; [done|]. split; [|exact Hv]. split; cbn.
  - done.
  - intros t. destruct (decide (t = p_next p)) as [->|Hne].
    + rw !lookup_insert_eq. split_and!; [done|by rw Hop|eauto].
    + rw !lookup_insert_ne //. specialize (Hok t). destruct (T !! t) as [[ks' os']|], (p_outer p !! t) as [[subs' n]|] eqn:Ep; try done.
      destruct Hok as (Hn & Hnd' & oss' & Hks' & Hos' & Hall'). split_and!; try done. exists oss'. split_and!; try done.
      eapply subs_ok_frame; [exact Hv| |exact Hall']. intros x Hx. apply Hold. rw -Hop. intros Hx'. by apply (Hsep t _ Ep x).
  - intros t t' e e' He He' Hne. apply lookup_insert_Some in He as [[<- <-]|[? He]], He' as [[<- <-]|[? He']]; [done|..|by eapply Hdisj].
    + cbn. intros x Hx Hx'. by apply (Hsep _ _ He' x).
    + cbn. by eapply Hsep.
  - intros t Ht. rw lookup_insert_ne; [lia|]. apply Hfresh. lia.
Qed.

(** A query keeps the task until it can deliver all of it. *)
Lemma query_keeps_contract T p t r p' :
  pinv T p → is_Some (T !! t) → query_load_result t p = (r, p') →
  vmono (p_inner p) (p_inner p') ∧
  match r with
  | None => pinv T p'
  | Some bm => ∃ ks os, T !! t = Some (ks, os) ∧ Forall3 (V (p_inner p')) ks os bm ∧ pinv (delete t T) p'
  end.
Proof.
  intros [Hiok Hok Hdisj Hfresh] [[ks os] HT]. rw /query_load_result. pose proof (Hok t) as Hokt. rw HT in Hokt.
  destruct (p_outer p !! t) as [[subs n]|] eqn:Ep; [|done]. destruct Hokt as (Hn & Hnd & oss & Hks & Hos & Hall).
  destruct (poll_subs subs p) as [subs' p1] eqn:E.
  apply (poll_subs_spec subs oss) in E as ((Hok' & Hv) & Hk & Hall' & Hf & Hsub & Hnd' & Hq & Hnx); [|done..].
  assert (∀ t' ks' os' subs'' n', t' ≠ t → p_outer p !! t' = Some (subs'', n') → outer_ok (p_inner p) ks' os' subs'' n' →
    outer_ok (p_inner p1) ks' os' subs'' n') as Hoth.
  { intros t' ks' os' subs'' n' Hne He (Hn' & Hnd'' & oss' & Hks' & Hos' & Hall''). split_and!; try done.
    exists oss'. split_and!; try done. eapply subs_ok_frame; [exact Hv| |exact Hall'']. intros x Hx. apply Hf.
    intros Hx'. by apply (Hdisj _ _ _ _ He Ep Hne x). }
  destruct (all_landed subs') eqn:El; intros [= <- <-]; cbn; (split; [exact Hv|]).
  - exists ks, os. split; [done|]. split.
    { rw Hks Hos -Hk. eapply assemble_promise; [done|done|]. by rw Hk -Hks. }
    split; cbn; rw ?Hq; [done|..].
    + intros t'. destruct (decide (t' = t)) as [->|Hne]; [by rw !lookup_delete_eq|]. rw !lookup_delete_ne //.
      specialize (Hok t'). destruct (T !! t') as [[]|], (p_outer p !! t') as [[]|] eqn:Ep'; try done. by eapply Hoth.
    + intros t1 t2 e e' [_ He]%lookup_delete_Some [_ He']%lookup_delete_Some. by eapply Hdisj.
    + intros t' Ht'. apply lookup_delete_None. right. apply Hfresh. lia.
  - split; cbn; rw ?Hq; [done|..].
    + intros t'. destruct (decide (t' = t)) as [->|Hne].
      { rw HT lookup_insert_eq. split_and!; try done. exists oss. by rw Hk. }
      rw lookup_insert_ne //. specialize (Hok t').
      destruct (T !! t') as [[]|], (p_outer p !! t') as [[]|] eqn:Ep'; try done. by eapply Hoth.
    + intros t1 t2 e e' He He' Hne. apply lookup_insert_Some in He as [[<- <-]|[? He]], He' as [[<- <-]|[? He']]; [done|..|by eapply Hdisj]; cbn.
      * pose proof (Hdisj _ _ _ _ Ep He' Hne). set_solver.
      * pose proof (Hdisj _ _ _ _ He Ep Hne). set_solver.
    + intros t' Ht'. rw Hnx in Ht'. rw lookup_insert_ne; [|by apply Hfresh]. intros ->. rw (Hfresh _ Ht') in Ep. done.
Qed.

(** The answers of the adapter to the sub-batches it is asked about. *)
Fixpoint replies (tids : list Z) (i : I) : list (option (list bool)) * I :=
  match tids with
  | [] => ([], i)
  | t :: tids =>
      let '(r, i) := iquery t i in
      let '(rs, i) := replies tids i in (r :: rs, i)
  end.
Definition unanswered (tids : list Z) (rs : list (option (list bool))) : list Z :=
  fst <$> filter (λ x : Z * option (list bool), x.2 = None) (zip tids rs).

Lemma poll_subs_replies subs p subs' p' rs i' :
  poll_subs subs p = (subs', p') → replies (open_tids subs) (p_inner p) = (rs, i') →
  p_inner p' = i' ∧ p_outer p' = p_outer p ∧ open_tids subs' = unanswered (open_tids subs) rs ∧
  all_landed subs' = bool_decide (Forall is_Some rs).
Proof.
  revert p subs' p' rs i'. induction subs as [|s subs IH]; intros p subs' p' rs i'; cbn [poll_subs].
  { by intros [= <- <-] [= <- <-]. }
  destruct (poll_sub s p) as [s1 p1] eqn:E1. destruct (poll_subs subs p1) as [subs2 p2] eqn:E2. intros [= <- <-].
  rw open_cons. rw /poll_sub in E1. destruct (s_bm s) as [bm|] eqn:Eb.
  { injection E1 as <- <-. cbn [app]. intros Hr. destruct (IH _ _ _ _ _ E2 Hr) as (H1 & H2 & H3 & H4).
    split_and!; [done|done|by rw open_cons Eb|]. by rw /= Eb H4. }
  cbn [app replies]. destruct (iquery (s_tid s) (p_inner p)) as [r i1] eqn:Eq.
  destruct (replies (open_tids subs) i1) as [rs1 i2] eqn:Er. intros [= <- <-].
  assert (p_inner p1 = i1 ∧ p_outer p1 = p_outer p ∧ (s_bm s1 = None ↔ r = None) ∧ s_tid s1 = s_tid s) as (Hi & Ho & Hn & Ht).
  { destruct r as [bm|]; injection E1 as <- <-; [|by rw Eb].
    by destruct (publish_early_frame (hit_keys (s_keys s) bm) (set_inner i1 p)) as (-> & -> & _). }
  destruct (IH p1 subs2 p2 rs1 i2 E2) as (H1 & H2 & H3 & H4); [by rw Hi|].
  split_and!; [done|congruence| |].
  - rw open_cons H3 /unanswered /=. rw filter_cons. destruct r as [bm|].
    + destruct (s_bm s1); [done|]. by destruct Hn as [Hn _]; specialize (Hn eq_refl).
    + by rw (proj2 Hn eq_refl) /= Ht.
  - cbn. rw -/(all_landed subs2) H4. destruct r as [bm|].
    + destruct (s_bm s1); [|by destruct Hn as [Hn _]; specialize (Hn eq_refl)].
      rw (bool_decide_true (is_Some (Some l))); [by eexists|]. cbn [andb]. apply bool_decide_ext.
      rw Forall_cons. split; [intros; split; [by eexists|done]|tauto].
    + rw (proj2 Hn eq_refl). symmetry. rw (bool_decide_false (Forall is_Some (None :: rs1))); [|done].
      rw Forall_cons. by intros [[] _].
Qed.

Lemma query_delivers t p subs n rs i' :
  p_outer p !! t = Some (subs, n) → replies (open_tids subs) (p_inner p) = (rs, i') →
  let '(r, p') := query_load_result t p in
  p_inner p' = i' ∧
  if bool_decide (Forall is_Some rs) then is_Some r ∧ p_outer p' = delete t (p_outer p)
  else r = None ∧ ∃ subs', p_outer p' = <[t := (subs', n)]> (p_outer p) ∧ open_tids subs' = unanswered (open_tids subs) rs.
Proof.
  intros Hp Hr. rw /query_load_result Hp. destruct (poll_subs subs p) as [subs' p1] eqn:E.
  destruct (poll_subs_replies _ _ _ _ _ _ E Hr) as (Hi & Ho & Hu & ->).
  case_bool_decide; cbn; rw Ho; [split_and!; [done|by eexists|done]|]. split_and!; [done|done|by exists subs'].
Qed.

(** C18: the streaming proxy keeps the contract of the adapter it wraps.
    Submitting a load of any size into buffers not used before, in sub-batches
    of any size, registers one new task.  A query asks the adapter once about
    each sub-batch that has not landed yet.  If the adapter answers all of
    them, the query delivers, and the task is gone: one bit per key in the
    order of the keys, each keeping the adapter's own promise.  If not, it
    returns None and keeps the task, with exactly the sub-batches that were
    not answered left to ask about.  The promises already kept stay kept and
    other tasks of the proxy are not disturbed. *)
Theorem proxy_keeps_the_contract _sub T p :
  pinv T p →
  (∀ ks os t p', length os = length ks → NoDup os → (∀ o, o ∈ os → o ∉ iused (p_inner p)) →
     submit_load_task _sub ks os p = (t, p') →
     T !! t = None ∧ pinv (<[t := (ks, os)]> T) p' ∧ ∀ k o b, V (p_inner p) k o b → V (p_inner p') k o b) ∧
  (∀ t r p', is_Some (T !! t) → query_load_result t p = (r, p') →
     (∀ k o b, V (p_inner p) k o b → V (p_inner p') k o b) ∧
     match r with
     | None => pinv T p'
     | Some bm => ∃ ks os, T !! t = Some (ks, os) ∧ Forall3 (V (p_inner p')) ks os bm ∧ pinv (delete t T) p'
     end) ∧
  (∀ t subs n rs i', p_outer p !! t = Some (subs, n) → replies (open_tids subs) (p_inner p) = (rs, i') →
     let '(r, p') := query_load_result t p in
     p_inner p' = i' ∧
     if bool_decide (Forall is_Some rs) then is_Some r ∧ p_outer p' = delete t (p_outer p)
     else r = None ∧ ∃ subs', p_outer p' = <[t := (subs', n)]> (p_outer p) ∧
       open_tids subs' = unanswered (open_tids subs) rs).
Proof.
  intros Hp. split; [|split].
  - intros ks os t p'. by apply submit_keeps_contract.
  - intros t r p'. by apply query_keeps_contract.
  - intros t subs n rs i'. apply query_delivers.
Qed.
End Contract.

(** ** The sub-batched transfer *)
Section Transfer.
Context {L Key : Type} `{!L1Manager L Key}.
Implicit Types (objs : list (slot Key)) (obs : list L).

(** [m'] is the object that [m] stands for, read from L1 at some wake-up. *)
Definition filled obs (m m' : slot Key) : Prop :=
  match m with
  | Landed o => m' = Landed o
  | Pending k => ∃ l1 o, l1 ∈ obs ∧ unsafe_read k l1 = Some o ∧ m' = Landed o
  end.

Lemma resolve_ok obs keys l1 obs' :
  _resolve obs keys = Ok (l1, obs') →
  all_readable keys l1 = true ∧ l1 ∈ obs ∧ obs' `suffix_of` obs.
Proof.
  induction obs as [|l obs IH]; [done|]. cbn. destruct (all_readable keys l) eqn:E.
  - intros [= <- <-]. split_and!; [done|apply list_elem_of_here|done].
  - intros Hr. destruct (IH Hr) as (? & ? & ?). split_and!; [done|by apply list_elem_of_further|by apply suffix_cons_r].
Qed.

Lemma fill_in_filled obs part l1 :
  l1 ∈ obs → all_readable (pend_keys part) l1 = true → Forall2 (filled obs) part (fill_in l1 <$> part).
Proof.
  intros Hl. rw /pend_keys. induction part as [|m part IH]; cbn; [constructor|].
  destruct m as [o|k]; cbn; [by intros Hr; constructor; [|apply IH]|].
  intros [Hk Hr]%andb_prop. apply bool_decide_eq_true_1 in Hk as [o Ho]. constructor; [|by apply IH].
  cbn. rw Ho. by exists l1, o.
Qed.
Lemma no_pending_filled obs part : pend_keys part = [] → Forall2 (filled obs) part part.
Proof.
  rw /pend_keys. induction part as [|m part IH]; cbn; [constructor|].
  destruct m as [o|k]; cbn; [|done]. intros Hr. by constructor; [|apply IH].
Qed.
Lemma filled_mono obs obs' m m' : obs' `suffix_of` obs → filled obs' m m' → filled obs m m'.
Proof.
  intros [pre ->]. destruct m; [done|]. intros (l1 & o & Hl & Ho & ->). exists l1, o. split_and!; try done.
  apply elem_of_app. by right.
Qed.

Lemma fill_part_ok part obs part' obs' :
  fill_part part obs = Ok (part', obs') → Forall2 (filled obs) part part' ∧ obs' `suffix_of` obs.
Proof.
  rw /fill_part. destruct (pend_keys part) as [|k ks] eqn:Ep.
  { intros [= <- <-]. split; [by apply no_pending_filled|done]. }
  destruct (_resolve obs (k :: ks)) as [[l1 o]|] eqn:Er; cbn; [|done]. intros [= <- <-].
  apply resolve_ok in Er as (Hr & Hl & Hs). rw -Ep in Hr. split; [by apply fill_in_filled|done].
Qed.

Lemma cut_step {X} (b : list X) i n len c :
  let k := Nat.min n len in
  take (k * c) (drop (i * c) b) ++ take ((len - n) * c) (drop ((i + n) * c) b) = take (len * c) (drop (i * c) b).
Proof.
  intros k. destruct (decide (n ≤ len)%nat) as [Hle|Hgt].
  - replace k with n by lia. rw Nat.mul_add_distr_r -drop_drop. replace (len * c)%nat with (n * c + (len - n) * c)%nat by nia.
    by rw take_take_drop.
  - replace k with len by lia. replace (len - n)%nat with 0%nat by lia. by rw take_0 app_nil_r.
Qed.

Lemma transfer_loop_spec fuel n i blocks bpc skip objs obs calls :
  (1 ≤ n)%nat → (length objs ≤ fuel)%nat →
  transfer_loop fuel n i blocks bpc skip objs obs = Ok calls →
  Forall2 (filled obs) objs (concat (c_part <$> calls)) ∧
  (∀ g b c, blocks !! g = Some b → bpc !! g = Some c →
     concat ((λ x, default [] (c_blocks x !! g)) <$> calls) = take (length objs * c) (drop (i * c) b)) ∧
  (∀ j x, calls !! j = Some x → c_skip x = if ((i =? 0) && (j =? 0))%nat then skip else 0).
Proof.
  intros Hn. revert i objs obs calls. induction fuel as [|fuel IH]; intros i objs obs calls Hf.
  { destruct objs; [|cbn in Hf; lia]. intros [= <-]. split_and!; [constructor|done|done]. }
  destruct objs as [|m objs]; cbn [transfer_loop].
  { intros [= <-]. split_and!; [constructor|done|done]. }
  set (all := m :: objs) in *. change (take n (m :: objs)) with (take n all). change (drop n (m :: objs)) with (drop n all).
  destruct (fill_part (take n all) obs) as [[part obs1]|] eqn:Ep; cbn [res_bind]; [|done].
  apply fill_part_ok in Ep as [Hpart Hsuf].
  destruct (transfer_loop fuel n (i + n) blocks bpc skip (drop n all) obs1) as [rest|] eqn:Er; cbn [res_bind]; [|done].
  intros [= <-]. apply IH in Er as (Hfill & Hcut & Hskip); [|rw length_drop; rw /all /= in Hf |- *; lia].
  pose proof (Forall2_length _ _ _ Hpart) as Hlen. rw length_take in Hlen. split_and!.
  - cbn. rw -(take_drop n all). apply Forall2_app; [done|].
    eapply Forall2_impl; [exact Hfill|]. intros x y. by apply filled_mono.
  - intros g b c Hg Hc. cbn. rw (Hcut g b c Hg Hc) length_drop -(cut_step b i n (length all) c) Hlen. f_equal.
    by rw /cut_blocks lookup_zip_with Hg Hc.
  - intros [|j] x; cbn; [by intros [= <-]; rw andb_true_r|]. intros Hx. rw (Hskip _ _ Hx) andb_false_r.
    destruct (Nat.eqb_spec (i + n) 0); [lia|done].
Qed.

(** C32: the sub-batched transfer moves what one transfer would: the
    sub-batches together carry every object once and in order, each
    placeholder replaced by the object L1 had for its key, and for every
    group the block ids of the sub-batches are those of the whole request in
    order (all of them when the objects share the blocks evenly); only the
    first sub-batch skips tokens. *)
Theorem transfer_covers_the_request _sub blocks objs skip obs calls :
  pend_keys objs ≠ [] → _transfer _sub true blocks objs skip obs = Ok calls →
  let n := length objs in
  Forall2 (filled obs) objs (concat (c_part <$> calls)) ∧
  (∀ g b, blocks !! g = Some b →
     concat ((λ x, default [] (c_blocks x !! g)) <$> calls) = take (n * (length b / n)) b ∧
     (Nat.divide n (length b) → concat ((λ x, default [] (c_blocks x !! g)) <$> calls) = b)) ∧
  (∀ j x, calls !! j = Some x → c_skip x = if (j =? 0)%nat then skip else 0).
Proof.
  intros Hp. rw /_transfer (bool_decide_eq_false_2 _ Hp).
  assert (length objs ≠ 0)%nat as Hn by (by destruct objs).
  destruct (Nat.eqb_spec (length objs) 0); [done|]. cbn [orb negb].
  intros Hrun. apply transfer_loop_spec in Hrun as (Hfill & Hcut & Hskip); [|lia|done].
  split_and!; [done| |exact Hskip]. intros g b Hg. specialize (Hcut g b (length b / length objs)%nat Hg).
  rw list_lookup_fmap Hg in Hcut. specialize (Hcut eq_refl). rw drop_0 in Hcut.
  split; [exact Hcut|]. intros [q Hq]. rw Hcut take_ge; [|done]. rw Hq Nat.div_mul //. lia.
Qed.

(** The transfer waits, it does not give up early: if at the last wake-up
    every placeholder can be read, it succeeds. *)
Lemma resolve_last obs keys l1 :
  last obs = Some l1 → all_readable keys l1 = true → ∃ l obs', _resolve obs keys = Ok (l, obs') ∧ last obs' = Some l1.
Proof.
  induction obs as [|l obs IH]; [done|]. intros Hl Hr. cbn [_resolve]. destruct (all_readable keys l) eqn:E; [by eauto|].
  destruct obs as [|l' obs]; [|by apply IH]. injection Hl as ->. congruence.
Qed.

(** A streamed retrieve ends: if every key still in flight is readable in
    L1 at the last wake-up before the deadline, the transfer completes. *)
Theorem transfer_completes _sub h2d blocks objs skip obs l1 :
  last obs = Some l1 → (∀ k, k ∈ pend_keys objs → is_Some (unsafe_read k l1)) →
  ∃ calls, _transfer _sub h2d blocks objs skip obs = Ok calls.
Proof.
  intros Hl Hr. rw /_transfer. case_match; [by eexists|].
  set (bpc := fmap (M:=list) _ _). set (n := Z.to_nat (Z.max 1 _sub)). clearbody bpc n. clear H.
  generalize (length objs) 0%nat. intros fuel. revert objs obs Hl Hr.
  induction fuel as [|fuel IH]; intros objs obs Hl Hr i; [by eexists|]. cbn [transfer_loop].
  destruct objs as [|m objs]; [by eexists|]. set (all := m :: objs) in *.
  assert (∀ k, k ∈ pend_keys (take n all) ∨ k ∈ pend_keys (drop n all) → k ∈ pend_keys all) as Hsplit.
  { intros k Hk. rw -(take_drop n all) /pend_keys omap_app elem_of_app. exact Hk. }
  assert (∃ part obs', fill_part (take n all) obs = Ok (part, obs') ∧ last obs' = Some l1) as (part & obs' & Hp & Hl').
  { rw /fill_part. destruct (pend_keys (take n all)) as [|k ks] eqn:Ep; [by eauto|].
    destruct (resolve_last obs (k :: ks) l1 Hl) as (l & obs' & -> & Hl').
    - apply forallb_forall. intros x Hx. apply bool_decide_eq_true_2, Hr, Hsplit. left. by apply list_elem_of_In.
    - cbn. eauto. }
  rw Hp. cbn [res_bind]. destruct (IH (drop n all) obs' Hl' (λ k Hk, Hr k (Hsplit k (or_intror Hk))) (i + n)%nat) as [calls Hc].
  rw Hc. cbn [res_bind]. by eexists.
Qed.
End Transfer.

(** ** A concrete adapter and L1 manager

    Every task completes at once, with all keys found. *)
Module StreamDemo.
Record tasks := mkTasks { open : gmap Z (list Z * list Z); handed : gset Z }.
#[global] Instance loads : L2Loads tasks Z := {|
  isubmit ks os i := let t := fresh (dom (open i)) in
    (t, mkTasks (<[t := (ks, os)]> (open i)) (list_to_set os ∪ handed i));
  iquery t i := match open i !! t with
                | Some (ks, os) => if (length os =? length ks)%nat
                                   then (Some (replicate (length ks) true), mkTasks (delete t (open i)) (handed i))
                                   else (None, i)
                | None => (None, i)
                end |}.
(** A set bit is promised for every key. *)
Definition V (_ : tasks) (k o : Z) (b : bool) : Prop := b = true.
#[global] Program Instance loads_laws : L2LoadsLaws tasks V := {| itask := open; iused := handed; iok _ := True |}.
Next Obligation. intros ks os i t i' _ _ _ _ [= <- <-]. split_and!; [done|apply not_elem_of_dom, is_fresh|done..]. Qed.
Next Obligation.
  intros t i r i' _. cbn. destruct (open i !! t) as [[ks os]|] eqn:Ei; [|by intros [= <- <-]].
  destruct (Nat.eqb_spec (length os) (length ks)) as [Hl|]; intros [= <- <-]; [|done].
  split_and!; [done..|]. exists ks, os. split; [done|]. split; [|done]. clear Ei. revert os Hl.
  induction ks as [|k ks IH]; intros [|o os] [=]; constructor; [done|by apply IH].
Qed.
Definition l1 : Type := gmap Z nat.
#[global] Instance manager : L1Manager l1 Z := {|
  finish_write_and_reserve_read ks l := foldr (λ k l, <[k := S (default 0%nat (l !! k))]> l) l ks;
  unsafe_read k l := if bool_decide (is_Some (l !! k)) then Some (10 * k) else None |}.
Definition start : proxy tasks l1 Z := init_proxy (mkTasks ∅ ∅) ∅.
End StreamDemo.

(** Three keys in sub-batches of two. *)
Lemma proxy_keeps_the_contract_witness :
  let '(t, p) := submit_load_task 2 [1; 2; 3] [7; 8; 9] StreamDemo.start in
  pinv StreamDemo.V {[t := ([1; 2; 3], [7; 8; 9])]} p.
Proof.
  assert (pinv StreamDemo.V ∅ StreamDemo.start) as H0 by (split; [exact I|intros t; reflexivity|intros; discriminate|reflexivity]).
  destruct (proxy_keeps_the_contract StreamDemo.V 2 ∅ StreamDemo.start H0) as (Hs & _).
  destruct (submit_load_task 2 [1; 2; 3] [7; 8; 9] StreamDemo.start) as [t p] eqn:E.
  destruct (Hs [1; 2; 3] [7; 8; 9] t p eq_refl) as (_ & Hp & _); [..|exact E|exact Hp].
  - apply (bool_decide_unpack _). vm_compute. exact I.
  - intros o _. apply not_elem_of_empty.
Defined.

(** Key 5 lands at the second wake-up. *)
Lemma transfer_covers_the_request_witness :
  let objs := [Landed 40; Pending 5; Landed 60] in
  let obs : list StreamDemo.l1 := [∅; {[5 := 1%nat]}] in
  ∃ calls, _transfer 2 true [[10; 11; 12; 13; 14; 15]] objs 3 obs = Ok calls ∧
    concat ((λ x, default [] (c_blocks x !! 0%nat)) <$> calls) = [10; 11; 12; 13; 14; 15].
Proof.
  intros objs obs. eexists. split; [vm_compute; reflexivity|].
  destruct (transfer_covers_the_request 2 [[10; 11; 12; 13; 14; 15]] objs 3 obs
    _ (ltac:(discriminate)) eq_refl) as (_ & Hb & _).
  destruct (Hb 0%nat [10; 11; 12; 13; 14; 15] eq_refl) as [_ Hall]. apply Hall. exists 2%nat. reflexivity.
Defined.

Lemma transfer_completes_witness :
  ∃ calls, _transfer 2 true [[10; 11]] [Pending 5; Landed 6] 0 [∅ : StreamDemo.l1; {[5 := 1%nat]}] = Ok calls.
Proof.
  apply (transfer_completes 2 true [[10; 11]] [Pending 5; Landed 6] 0 [∅ : StreamDemo.l1; {[5 := 1%nat]}] {[5 := 1%nat]} eq_refl).
  intros k [->|[]%elem_of_nil]%elem_of_cons. exists 50. reflexivity.
Defined.
