(* ===== verification/StreamOnce.v ===== *)
(** * Every write is finished once: the proxies, the server and L1

    The state of [streaming_patch.py] that is global to the module ([_early],
    [_ready], the L1 manager) is shared by every proxy the server creates and by
    the patched [finish_write_and_reserve_read] of the server's own threads.
    Here the process has any number of proxies on one [shared] state, and its
    threads interleave between every two accesses to it: a publication marks
    the keys, calls L1, and notifies; a finish of the server takes the marks
    away and calls L1 for the rest.  What a thread has still to do is an entry
    of the list of jobs.  [query_load_result] of [StreamPatch], which runs
    without interruption, is one of the schedules ([query_is_a_schedule]). *)
From S2P Require Import Prelude StreamPatch.
Open Scope Z_scope.
Open Scope py_scope.

(** [fin_count l k]: how often the L1 manager was asked to finish the write of
    [k].  A second finish of one write is an error of the caller. *)
Class L1Laws (L : Type) {Key : Type} `{EqDecision Key} `{!L1Manager L Key} := {
  fin_count : L → Key → nat;
  finish_law ks l k :
    fin_count (finish_write_and_reserve_read ks l) k = (fin_count l k + length (filter (λ x, x = k) ks))%nat;
}.

Section Process.
Context {I L Key : Type} `{Countable Key} `{!L2Loads I Key} `{!L1Manager L Key} `{!L1Laws L}.
Implicit Types (k : Key) (ks ok : list Key) (g : shared L Key).

(** What is left of a publication, or of a finish of the server. *)
Inductive job :=
| JMark ok               (* [with _early_lock: _early.update(ok)] *)
| JFinish ok             (* [_orig_fwrr(l1, ok)] *)
| JNotify ok             (* [with _ready_cv: _ready.update(ok)] *)
| JRest ks.              (* [_orig_fwrr(self, rest, extra_count)] *)

(** The fields of a proxy. *)
Record own := mkOwn { o_inner : I; o_next : Z; o_outer : gmap Z (list (sub Key) * nat) }.
Record process := mkProcess { pr_own : list own; pr_shared : shared L Key; pr_jobs : list job }.

Definition join (o : own) g : proxy I L Key := mkProxy (o_inner o) (o_next o) (o_outer o) g.
Definition own_of (p : proxy I L Key) : own := mkOwn (p_inner p) (p_next p) (p_outer p).
Definition set_own (j : nat) (o : own) (s : process) : process :=
  mkProcess (<[j := o]> (pr_own s)) (pr_shared s) (pr_jobs s).

(** One turn of the loop of [query_load_result], for the [n]-th sub-batch of
    task [t]; [l1] is what the call has read of [_state["l1"]]. *)
Definition poll_turn (l1 : bool) (t : Z) (n : nat) (o : own) : option (own * list job) :=
  match o_outer o !! t with
  | None => None
  | Some (subs, total) =>
      match subs !! n with
      | None => None
      | Some s =>
          match s_bm s with
          | Some _ => Some (o, [])
          | None =>
              let '(r, i) := iquery (s_tid s) (o_inner o) in
              match r with
              | None => Some (mkOwn i (o_next o) (o_outer o), [])
              | Some bm =>
                  let subs := <[n := mkSub (s_tid s) (s_keys s) (Some bm)]> subs in
                  Some (mkOwn i (o_next o) (<[t := (subs, total)]> (o_outer o)),
                        match hit_keys (s_keys s) bm with
                        | (_ :: _) as ok => if l1 then [JMark ok] else []
                        | [] => []
                        end)
              end
          end
      end
  end.

(** The end of [query_load_result]: the task is forgotten when all has landed. *)
Definition deliver (t : Z) (o : own) : own :=
  match o_outer o !! t with
  | Some (subs, _) => if all_landed subs then mkOwn (o_inner o) (o_next o) (delete t (o_outer o)) else o
  | None => o
  end.

Definition run_job (w : job) g : shared L Key * list job :=
  match w with
  | JMark ok => (mark_early ok g, [JFinish ok])
  | JFinish ok => (_orig_fwrr ok g, [JNotify ok])
  | JNotify ok => (notify_ready ok g, [])
  | JRest ks => (_orig_fwrr ks g, [])
  end.

Definition occurs ks k : nat := length (filter (λ x, x = k) ks).
Definition b2n (b : bool) : nat := if b then 1%nat else 0%nat.
Definition early g k : nat := b2n (bool_decide (k ∈ g_early g)).
(** The finishes a job is about to ask L1 for. *)
Definition due (w : job) k : nat :=
  match w with JFinish ok => occurs ok k | JRest ks => occurs ks k | _ => 0%nat end.
Definition all_due (l : list job) k : nat := foldr (λ w n, (due w k + n)%nat) 0%nat l.
(** A key published while the mark of its last publication stands, or twice
    in one sub-batch: the set holds one mark for the two. *)
Definition overlapping (w : job) g k : nat :=
  match w with JMark ok => (occurs ok k + early g k - early (mark_early ok g) k)%nat | _ => 0%nat end.

(** The histories of a process, with two counts per key: how often the server
    asked for its finish, and its overlapping publications. *)
Inductive history : process → (Key → nat) → (Key → nat) → Prop :=
| h_init l1 : (∀ k, fin_count l1 k = 0%nat) → history (mkProcess [] (init_shared l1) []) (λ _, 0%nat) (λ _, 0%nat)
| h_create i s a v : history s a v →
    history (mkProcess (pr_own s ++ [mkOwn i (Z.shiftl 1 40) ∅]) (pr_shared s) (pr_jobs s)) a v
| h_capture s a v : history s a v →
    history (mkProcess (pr_own s)
      (mkShared (g_l1 (pr_shared s)) true (g_early (pr_shared s)) (g_ready (pr_shared s))) (pr_jobs s)) a v
| h_submit n ks os j o s a v : history s a v → pr_own s !! j = Some o →
    history (set_own j (own_of (snd (submit_load_task n ks os (join o (pr_shared s))))) s) a v
| h_poll l1 j o t n o' new s a v : history s a v → pr_own s !! j = Some o →
    (l1 = true → g_captured (pr_shared s) = true) → poll_turn l1 t n o = Some (o', new) →
    history (mkProcess (<[j := o']> (pr_own s)) (pr_shared s) (pr_jobs s ++ new)) a v
| h_deliver j o t s a v : history s a v → pr_own s !! j = Some o →
    history (set_own j (deliver t o) s) a v
| h_pass j o t s a v : history s a v → pr_own s !! j = Some o → o_outer o !! t = None →
    history (set_own j (mkOwn (snd (iquery t (o_inner o))) (o_next o) (o_outer o)) s) a v
| h_ask ks rest g s a v : history s a v → NoDup ks → skip_early ks (pr_shared s) = (rest, g) →
    history (mkProcess (pr_own s) g (pr_jobs s ++ match rest with [] => [] | _ => [JRest rest] end))
      (λ k, (a k + occurs ks k)%nat) v
| h_job n w g new s a v : history s a v → pr_jobs s !! n = Some w → run_job w (pr_shared s) = (g, new) →
    history (mkProcess (pr_own s) g (delete n (pr_jobs s) ++ new)) a
      (λ k, (v k + overlapping w (pr_shared s) k)%nat).

Lemma occurs_nodup ks k : NoDup ks → occurs ks k = b2n (bool_decide (k ∈ ks)).
Proof.
  rw /occurs. induction 1 as [|x ks Hx _ IH]; [done|]. rw filter_cons. destruct (decide (x = k)) as [->|Hne]; cbn.
  - rw IH (bool_decide_eq_false_2 (k ∈ ks)) // (bool_decide_eq_true_2 (k ∈ k :: ks)) //. apply list_elem_of_here.
  - rw IH. f_equal. apply bool_decide_ext. set_solver.
Qed.
Lemma occurs_in ks k : k ∈ ks ↔ (0 < occurs ks k)%nat.
Proof.
  rw /occurs. induction ks as [|x ks IH]; [split; [by intros ?%elem_of_nil|cbn; lia]|].
  rw filter_cons elem_of_cons IH. destruct (decide (x = k)) as [->|Hne]; cbn; [split; [lia|by left]|]. naive_solver.
Qed.

Lemma all_due_app l l' k : all_due (l ++ l') k = (all_due l k + all_due l' k)%nat.
Proof. rw /all_due. induction l as [|w l IH]; cbn; lia. Qed.
Lemma all_due_delete l n w k : l !! n = Some w → all_due l k = (due w k + all_due (delete n l) k)%nat.
Proof.
  intros Hn. rw delete_take_drop -{1}(take_drop_middle l n w Hn) !all_due_app.
  change (all_due (w :: drop (S n) l) k) with (due w k + all_due (drop (S n) l) k)%nat. lia.
Qed.

Lemma mark_early_count ok g k : (early (mark_early ok g) k ≤ occurs ok k + early g k)%nat ∧
  (early g k ≤ early (mark_early ok g) k)%nat.
Proof.
  assert (k ∈ g_early (mark_early ok g) ↔ k ∈ ok ∨ k ∈ g_early g) as Hm.
  { cbn. by rw elem_of_union elem_of_list_to_set. }
  rw /early (bool_decide_ext _ _ Hm). pose proof (occurs_in ok k) as Ho.
  destruct (decide (k ∈ ok)) as [Hk|Hk]; [apply Ho in Hk as Hpos|];
    repeat case_bool_decide; cbn; first [lia|exfalso; tauto].
Qed.

Lemma skip_early_count ks rest g g' k : NoDup ks → skip_early ks g = (rest, g') →
  g_l1 g' = g_l1 g ∧ (occurs ks k + early g' k = occurs rest k + early g k)%nat.
Proof.
  intros Hnd. rw /skip_early. set (skip := filter (λ k, k ∈ g_early g) ks). intros [= <- <-]. split; [done|].
  rw !occurs_nodup //; [by apply NoDup_filter|]. rw /early. cbn [g_early].
  assert (k ∈ filter (λ k, k ∉ skip) ks ↔ k ∈ ks ∧ k ∉ g_early g) as Hrest.
  { rw /skip !list_elem_of_filter. naive_solver. }
  assert (k ∈ g_early g ∖ list_to_set skip ↔ k ∈ g_early g ∧ k ∉ ks) as Hskip.
  { rw elem_of_difference elem_of_list_to_set /skip list_elem_of_filter. naive_solver. }
  rw (bool_decide_ext _ _ Hrest) (bool_decide_ext _ _ Hskip).
  destruct (decide (k ∈ ks)), (decide (k ∈ g_early g)); repeat case_bool_decide; cbn; naive_solver lia.
Qed.

Lemma poll_turn_due l1 t n o o' new k : poll_turn l1 t n o = Some (o', new) → all_due new k = 0%nat.
Proof.
  rw /poll_turn. destruct (o_outer o !! t) as [[subs m]|]; [|done]. destruct (subs !! n) as [s|]; [|done].
  destruct (s_bm s); [by intros [= _ <-]|]. destruct (iquery _ _) as [[bm|] i]; [|by intros [= _ <-]].
  intros [= _ <-]. by destruct (hit_keys _ _), l1.
Qed.


(** *** A query that is not interrupted *)

Lemma h_publish ok o j s a v : history s a v → pr_jobs s = [] → pr_own s !! j = Some o →
  g_captured (pr_shared s) = true →
  ∀ o' t n, poll_turn true t n o = Some (o', [JMark ok]) →
  ∃ v', history (mkProcess (<[j := o']> (pr_own s)) (notify_ready ok (_orig_fwrr ok (mark_early ok (pr_shared s)))) []) a v'.
Proof.
  intros Hh Hj Ho Hc o' t n Hp. pose proof (h_poll true j o t n o' [JMark ok] s a v Hh Ho (λ _, Hc) Hp) as H1.
  rw Hj /= in H1.
  pose proof (h_job 0 (JMark ok) _ _ _ _ _ H1 eq_refl eq_refl) as H2.
  pose proof (h_job 0 (JFinish ok) _ _ _ _ _ H2 eq_refl eq_refl) as H3.
  pose proof (h_job 0 (JNotify ok) _ _ _ _ _ H3 eq_refl eq_refl) as H4. by eexists.
Qed.

Lemma poll_subs_schedule owns outer j t m a subs : ∀ pre subs' (p p' : proxy I L Key) v,
  (j < length owns)%nat →
  history (mkProcess (<[j := mkOwn (p_inner p) (p_next p) (<[t := (pre ++ subs, m)]> outer)]> owns) (p_shared p) []) a v →
  poll_subs subs p = (subs', p') →
  ∃ v', history (mkProcess (<[j := mkOwn (p_inner p') (p_next p') (<[t := (pre ++ subs', m)]> outer)]> owns)
                  (p_shared p') []) a v'.
Proof.
  induction subs as [|s subs IH]; intros pre subs' p p' v Hj Hh; cbn [poll_subs]; [intros [= <- <-]; by eexists|].
  destruct (poll_sub s p) as [s1 p1] eqn:E1. destruct (poll_subs subs p1) as [subs2 p2] eqn:E2. intros [= <- <-].
  assert (∃ v', history (mkProcess (<[j := mkOwn (p_inner p1) (p_next p1) (<[t := (pre ++ s1 :: subs, m)]> outer)]> owns)
                  (p_shared p1) []) a v') as [v1 H1]; cycle 1.
  { rw cons_middle app_assoc in H1. destruct (IH (pre ++ [s1]) subs2 p1 p2 v1 Hj H1 E2) as [v2 H2].
    exists v2. by rw -app_assoc in H2. }
  set (o := mkOwn (p_inner p) (p_next p) (<[t := (pre ++ s :: subs, m)]> outer)) in Hh.
  set (st := mkProcess (<[j := o]> owns) (p_shared p) []) in Hh.
  assert (pr_own st !! j = Some o) as Ho by by apply list_lookup_insert_eq.
  assert (∀ l1, poll_turn l1 t (length pre) o =
    match s_bm s with
    | Some _ => Some (o, [])
    | None => let '(r, i) := iquery (s_tid s) (p_inner p) in
        match r with
        | None => Some (mkOwn i (p_next p) (o_outer o), [])
        | Some bm => Some (mkOwn i (p_next p) (<[t := (pre ++ mkSub (s_tid s) (s_keys s) (Some bm) :: subs, m)]> outer),
            match hit_keys (s_keys s) bm with (_ :: _) as ok => if l1 then [JMark ok] else [] | [] => [] end)
        end
    end) as Hturn.
  { intros l1. rw /poll_turn /o. cbn [o_outer o_inner o_next]. rw lookup_insert_eq list_lookup_middle //.
    destruct (s_bm s); [done|]. destruct (iquery _ _) as [[bm|] i]; [|done].
    rw insert_app_r_alt // Nat.sub_diag insert_insert_eq. done. }
  rw /poll_sub in E1. destruct (s_bm s) as [bm|]; [injection E1 as <- <-; by exists v|].
  destruct (iquery (s_tid s) (p_inner p)) as [[bm|] i] eqn:Eq; injection E1 as <- <-; cycle 1.
  { pose proof (h_poll false j o t (length pre) _ _ st a v Hh Ho (λ H, ltac:(discriminate)) (Hturn false)) as H2.
    cbn [pr_own st pr_shared pr_jobs app] in H2. rw list_insert_insert_eq in H2. by eexists. }
  destruct (hit_keys (s_keys s) bm) as [|k0 ks] eqn:Ek.
  { pose proof (h_poll false j o t (length pre) _ _ st a v Hh Ho (λ H, ltac:(discriminate)) (Hturn false)) as H2.
    cbn [pr_own st pr_shared pr_jobs app] in H2. rw list_insert_insert_eq in H2. by eexists. }
  rw /publish_early. cbn [p_shared set_inner]. destruct (g_captured (p_shared p)) eqn:Ec.
  - destruct (h_publish (k0 :: ks) o j st a v Hh eq_refl Ho Ec _ t (length pre) (Hturn true)) as [v2 H2].
    cbn [pr_own st pr_shared] in H2. rw list_insert_insert_eq in H2. by eexists.
  - pose proof (h_poll false j o t (length pre) _ _ st a v Hh Ho (λ H, ltac:(discriminate)) (Hturn false)) as H2.
    cbn [pr_own st pr_shared pr_jobs app] in H2. rw list_insert_insert_eq in H2. by eexists.
Qed.

(** [query_load_result] is the schedule in which the other threads wait. *)
Lemma query_is_a_schedule s a v j o t : history s a v → pr_jobs s = [] → pr_own s !! j = Some o →
  let p' := snd (query_load_result t (join o (pr_shared s))) in
  ∃ v', history (mkProcess (<[j := own_of p']> (pr_own s)) (p_shared p') []) a v'.
Proof.
  intros Hh Hj Ho. pose proof (lookup_lt_Some _ _ _ Ho) as Hlt. rw /query_load_result. cbn [p_outer join].
  destruct (o_outer o !! t) as [[subs m]|] eqn:Et; cycle 1.
  { pose proof (h_pass j o t s a v Hh Ho Et) as H1. rw /set_own Hj in H1. cbn [p_inner join].
    destruct (iquery t (o_inner o)) as [r i]. cbn in H1 |- *. by exists v. }
  destruct (poll_subs subs (join o (pr_shared s))) as [subs' p1] eqn:E.
  destruct (poll_subs_schedule (pr_own s) (o_outer o) j t m a subs [] subs' (join o (pr_shared s)) p1 v Hlt) as [v1 H1]; [|done|].
  { cbn [app p_inner p_next p_shared join]. rw insert_id // list_insert_id; [by destruct o|]. destruct s. cbn in Hj. by rw -Hj. }
  cbn [app] in H1. assert (p_outer p1 = o_outer o) as Hp1.
  { assert (∀ l (q q' : proxy I L Key) l', poll_subs l q = (l', q') → p_outer q' = p_outer q) as Hf; [|by apply Hf in E].
    clear. induction l as [|x l IH]; intros q q' l'; cbn [poll_subs]; [by intros [= _ <-]|].
    destruct (poll_sub x q) as [x1 q1] eqn:E1. destruct (poll_subs l q1) as [l2 q2] eqn:E2. intros [= _ <-].
    rw (IH _ _ _ E2). rw /poll_sub in E1. destruct (s_bm x); [by injection E1 as _ <-|].
    destruct (iquery _ _) as [[bm|] i]; injection E1 as _ <-; [|done].
    by destruct (publish_early_frame (hit_keys (s_keys x) bm) (set_inner i q)) as (_ & -> & _). }
  destruct (all_landed subs') eqn:El; cbn [negb snd]; rw Hp1; [|by exists v1].
  set (o1 := mkOwn (p_inner p1) (p_next p1) (<[t := (subs', m)]> (o_outer o))) in H1.
  assert (<[j := o1]> (pr_own s) !! j = Some o1) as Ho1 by by apply list_lookup_insert_eq.
  pose proof (h_deliver j o1 t _ a v1 H1 Ho1) as H2. rw /set_own /deliver in H2. cbn [pr_own pr_shared pr_jobs] in H2.
  assert (o_outer o1 !! t = Some (subs', m)) as Hl by apply lookup_insert_eq.
  rw Hl El list_insert_insert_eq /= delete_insert_eq in H2. by exists v1.
Qed.
End Process.

(** ** Concrete histories, on the adapter and the L1 manager of [StreamDemo] *)
Module OnceDemo.
Import StreamDemo.
#[global] Program Instance manager_laws : L1Laws l1 := {| fin_count l k := default 0%nat (l !! k) |}.
Next Obligation.
  intros ks l k. induction ks as [|x ks IH]; [cbn; lia|]. rw filter_cons. cbn [foldr finish_write_and_reserve_read manager].
  cbn in IH. destruct (decide (x = k)) as [->|Hne]; [by rw lookup_insert_eq /= IH Nat.add_succ_r|by rw lookup_insert_ne].
Qed.
Abbreviation process := (@process tasks l1 Z _ _).
Abbreviation history := (@history tasks l1 Z _ _ _ _ _).
Definition zero (k : Z) : nat := 0%nat.
Definition start : process := mkProcess [mkOwn (mkTasks ∅ ∅) (Z.shiftl 1 40) ∅] (mkShared ∅ true ∅ ∅) [].
Lemma start_history : history start zero zero.
Proof. apply (h_capture (mkProcess _ (init_shared ∅) [])), (h_create _ (mkProcess [] _ [])), h_init. reflexivity. Qed.

(** The proxy's load of [ks] in one sub-batch, and the turn that finds it done. *)
Definition own0 (s : process) : own := default (mkOwn (mkTasks ∅ ∅) 0 ∅) (pr_own s !! 0%nat).
Definition submit (ks : list Z) (s : process) : process :=
  set_own 0 (own_of (snd (submit_load_task 8 ks ks (join (own0 s) (pr_shared s))))) s.
Definition turn (t : Z) (s : process) : process :=
  match poll_turn true t 0 (own0 s) with
  | Some (o, new) => mkProcess (<[0%nat := o]> (pr_own s)) (pr_shared s) (pr_jobs s ++ new)
  | None => s
  end.
Definition job0 (s : process) : process :=
  match pr_jobs s with
  | w :: l => let '(g, new) := run_job w (pr_shared s) in mkProcess (pr_own s) g (l ++ new)
  | [] => s
  end.
Definition ask (ks : list Z) (s : process) : process :=
  let '(rest, g) := skip_early ks (pr_shared s) in
  mkProcess (pr_own s) g (pr_jobs s ++ match rest with [] => [] | _ => [JRest rest] end).
Definition published (t : Z) (s : process) : process := job0 (job0 (job0 (turn t s))).

Lemma submit_history ks s a v : history s a v → is_Some (pr_own s !! 0%nat) → history (submit ks s) a v.
Proof.
  intros Hh [o Ho]. assert (own0 s = o) as Eo by by rw /own0 Ho. rw /submit Eo. by apply h_submit.
Qed.
Lemma turn_history t s a v : history s a v → is_Some (pr_own s !! 0%nat) → g_captured (pr_shared s) = true →
  history (turn t s) a v.
Proof.
  intros Hh [o Ho] Hc. assert (own0 s = o) as Eo by by rw /own0 Ho. rw /turn Eo.
  destruct (poll_turn true t 0 o) as [[o' new]|] eqn:E; [|done]. by eapply h_poll.
Qed.
Lemma job0_history s a v : history s a v → ∃ v', history (job0 s) a v' ∧
  ∀ k, v' k = (v k + match pr_jobs s with w :: _ => overlapping w (pr_shared s) k | [] => 0 end)%nat.
Proof.
  intros Hh. rw /job0. destruct s as [owns g [|w l]]; cbn; [by exists v|].
  destruct (run_job w g) as [g' new] eqn:E. eexists. split; [by apply (h_job 0 w g' new _ _ _ Hh eq_refl)|done].
Qed.
Lemma ask_history ks s a v : NoDup ks → history s a v → history (ask ks s) (λ k, (a k + occurs ks k)%nat) v.
Proof. intros Hnd Hh. rw /ask. destruct (skip_early ks (pr_shared s)) as [rest g] eqn:E. by apply h_ask. Qed.
End OnceDemo.
Import OnceDemo.


(** What an overlap costs: key 2 is loaded and published twice before the
    server asks for its finishes.  There is one mark, so the second of them is
    not skipped, and L1 is asked three times to finish two writes. *)
Lemma overlapping_publication_finishes_twice :
  ∃ s a v, history s a v ∧ pr_jobs s = [] ∧ a 2 = 2%nat ∧ v 2 = 1%nat ∧ fin_count (g_l1 (pr_shared s)) 2 = 3%nat.
Proof.
  set (t := Z.shiftl 1 40).
  pose proof (submit_history [2] start zero zero start_history (mk_is_Some _ _ eq_refl)) as H1.
  pose proof (turn_history t _ _ _ H1 (mk_is_Some _ _ eq_refl) eq_refl) as H2.
  destruct (job0_history _ _ _ H2) as (v1 & H3 & V1). destruct (job0_history _ _ _ H3) as (v2 & H4 & V2).
  destruct (job0_history _ _ _ H4) as (v3 & H5 & V3).
  pose proof (submit_history [2] _ _ _ H5 (mk_is_Some _ _ eq_refl)) as H6.
  pose proof (turn_history (t + 1) _ _ _ H6 (mk_is_Some _ _ eq_refl) eq_refl) as H7.
  destruct (job0_history _ _ _ H7) as (v4 & H8 & V4). destruct (job0_history _ _ _ H8) as (v5 & H9 & V5).
  destruct (job0_history _ _ _ H9) as (v6 & H10 & V6).
  pose proof (ask_history [2] _ _ _ (NoDup_singleton 2) H10) as H11.
  pose proof (ask_history [2] _ _ _ (NoDup_singleton 2) H11) as H12.
  destruct (job0_history _ _ _ H12) as (v7 & H13 & V7). eexists _, _, v7.
  split; [exact H13|]. split; [vm_compute; reflexivity|]. split; [vm_compute; reflexivity|].
  split; [|vm_compute; reflexivity]. rw V7 V6 V5 V4 V3 V2 V1. vm_compute. reflexivity.
Qed.
