(* ===== verification/L2Served.v ===== *)
(** * The MP adapter behind the streaming proxy

    The server's prefetch controller loads through [StreamingL2Proxy], and the
    proxy through [DaosL2Adapter], whose tasks run on worker threads between
    any two calls.  Here the adapter, together with the order in which its
    workers take the queued tasks, implements the contract [L2LoadsLaws] that
    the proxy relies on, with stores, lookups and loads queued together and
    whatever the backend answers: a bit that is set means that the buffer holds
    the stored bytes of the key.  The end-to-end theorem composes it with the
    proxy's own refinement. *)
From S2P Require Import Prelude DfsBinding L2Config L2Adapter L2Tasks StreamPatch.
Open Scope Z_scope.
Open Scope py_scope.

(** A relation that every item of a pool call keeps. *)
Lemma keeps_pool_map_in {W A B} (R : W → W → Prop) `{!PreOrder R} (f : A → M W B) l :
  (∀ x, x ∈ l → keeps R (f x)) → keeps R (pool_map f l).
Proof.
  intros Hf w. assert (R w (snd (pool_run f l w))) as Hr.
  { revert w. induction l as [|x l IH]; intros w; cbn; [done|].
    pose proof (Hf x (list_elem_of_here _ _) w) as Hx. destruct (f x w) as [r w1].
    specialize (IH (λ y Hy, Hf y (list_elem_of_further _ _ _ Hy)) w1). destruct (pool_run f l w1). by etrans. }
  rw /pool_map. by destruct (pool_run f l w).
Qed.

(** ** Tasks on any backend *)
Section AnyBackend.
Context {D K : Type} `{LibDfsLaws D} `{Clock K}.
Context (cfg : DaosL2AdapterConfig).
Abbreviation St := (adapter D K).
Implicit Types s : St.
Abbreviation files s := (fs (a_dfs s)).
Abbreviation path := (_path cfg).

(** Buffers keep their length. *)
Definition same_sizes s s' : Prop := ∀ o, length (_cbuf o s') = length (_cbuf o s).
#[local] Instance same_sizes_preorder : PreOrder same_sizes.
Proof. split; [by intros s|]. intros s1 s2 s3 Ha Hb o. by rw Hb. Qed.

(** What a load did to one key: a hit leaves the start of the file in the
    buffer, a miss has a reason. *)
Definition landed s s' (k : ObjectKey) (o : Z) (ok : bool) : Prop :=
  match ok with
  | true => ∃ c, files s !! path k = Some c ∧ (length (_cbuf o s) ≤ length c)%nat ∧
      _cbuf o s' = take (length (_cbuf o s)) c
  | false => files s !! path k = None ∨ ¬ up (a_dfs s) ∨
      ∃ c, files s !! path k = Some c ∧ (length c < length (_cbuf o s))%nat
  end.

Lemma load_item k o r s s' : load_outcome r (path k) o s s' →
  frame (a_dfs s) (a_dfs s') ∧ same_sizes s s' ∧ (∀ o', o' ≠ o → _cbuf o' s' = _cbuf o' s) ∧ landed s s' k o r.
Proof.
  intros [Hfr Hr]. split; [done|].
  assert (∀ d o', a_l1 s' = <[o := d]> (a_l1 s) → _cbuf o' s' = if bool_decide (o = o') then d else _cbuf o' s) as Hins.
  { intros d o' Hl. rw /_cbuf Hl. case_bool_decide; [subst; by rw lookup_insert_eq|by rw lookup_insert_ne]. }
  assert (a_l1 s' = a_l1 s → same_sizes s s' ∧ ∀ o', o' ≠ o → _cbuf o' s' = _cbuf o' s) as Hsame.
  { intros Hl. split; intros o'; by rw /_cbuf Hl. }
  assert (∀ d, a_l1 s' = <[o := d]> (a_l1 s) → length d = length (_cbuf o s) →
    same_sizes s s' ∧ ∀ o', o' ≠ o → _cbuf o' s' = _cbuf o' s) as Hone.
  { intros d Hl Hd. split; intros o'; rw (Hins _ o' Hl); [by case_bool_decide; subst|].
    intros Hne. by rw bool_decide_false. }
  destruct r.
  - destruct Hr as (c & Hc & Hle & Hl). destruct (Hone _ Hl) as [? ?]; [rw length_take; unfold len in *; lia|].
    split_and!; [done..|]. exists c. rw (Hins _ o Hl) bool_decide_true //. unfold len in Hle. split_and!; [done|lia|done].
  - destruct Hr as [[Hl [Hn|Hu]]|(c & Hc & Hlt & Hl)].
    + destruct (Hsame Hl). split_and!; [done..|by left].
    + destruct (Hsame Hl). split_and!; [done..|by right; left].
    + unfold len in Hlt. destruct (Hone _ Hl) as [? ?]; [rw length_app length_drop; lia|].
      split_and!; [done..|]. right; right. exists c. split; [done|lia].
Qed.

Lemma landed_start s0 s s' k o r :
  frame (a_dfs s0) (a_dfs s) → same_sizes s0 s → landed s s' k o r → landed s0 s' k o r.
Proof. intros (Hf & _ & Hu) Hs. rw /landed (Hs o) Hf. destruct r; [done|]. naive_solver. Qed.

(** Several loads into different buffers. *)
Lemma load_pool_any (f : ObjectKey * Z → M St bool) l s :
  NoDup l.*2 → (∀ x s, wp (f x) s (λ r s', load_outcome r (path x.1) x.2 s s') (λ _ _, False)) →
  wp (pool_map f l) s
    (λ oks s', length oks = length l ∧ frame (a_dfs s) (a_dfs s') ∧ same_sizes s s' ∧
       (∀ o, o ∉ l.*2 → _cbuf o s' = _cbuf o s) ∧ Forall2 (λ x ok, landed s s' x.1 x.2 ok) l oks) (λ _ _, False).
Proof.
  intros Hnd Hf. rw /wp /pool_map.
  assert (∃ oks s', pool_run f l s = (Ok <$> oks, s') ∧ length oks = length l ∧ frame (a_dfs s) (a_dfs s') ∧
    same_sizes s s' ∧ (∀ o, o ∉ l.*2 → _cbuf o s' = _cbuf o s) ∧
    Forall2 (λ x ok, landed s s' x.1 x.2 ok) l oks) as (oks & s' & -> & Hall); cycle 1.
  { assert (res_map id (Ok <$> oks) = Ok oks) as ->; [|done]. clear. induction oks as [|b oks IH]; [done|]. cbn. by rw IH. }
  revert s. induction l as [|[k o] l IH]; intros s.
  { exists [], s. by split_and!. }
  cbn in Hnd. apply NoDup_cons in Hnd as [Ho Hnd]. cbn [pool_run]. pose proof (Hf (k, o) s) as Hitem. rw /wp in Hitem.
  destruct (f (k, o) s) as [[r|e] s1]; [|done]. apply load_item in Hitem as (Hfr1 & Hz1 & Hb1 & Hl1).
  destruct (IH Hnd s1) as (oks & s' & Hrun & Hlen & Hfr & Hz & Hb & Hall). rw Hrun.
  exists (r :: oks), s'. split_and!.
  - done.
  - cbn. by rw Hlen.
  - by eapply frame_trans.
  - by etrans.
  - cbn. intros o' Ho'. rw Hb; [set_solver|]. apply Hb1. set_solver.
  - constructor.
    + cbn in *. destruct r; [|exact Hl1]. destruct Hl1 as (c & ? & ? & Hc). exists c. split_and!; try done.
      by rw Hb.
    + eapply Forall2_impl; [exact Hall|]. intros x ok. by apply landed_start.
Qed.

(** What any task leaves alone, and what a load reports. *)
Definition ran (tid : Z) (t : task) s s' : Prop :=
  _next_task_id s' = _next_task_id s ∧ pending s' = pending s ∧ (up (a_dfs s) → up (a_dfs s')) ∧ same_sizes s s' ∧
  match t with
  | TStore keys _ => _completed_load s' = _completed_load s ∧ (∀ o, _cbuf o s' = _cbuf o s) ∧
      ∀ p, p ∉ path <$> keys → files s' !! p = files s !! p
  | TLookup _ _ => _completed_load s' = _completed_load s ∧ (∀ o, _cbuf o s' = _cbuf o s) ∧ files s' = files s
  | TLoad keys objs => files s' = files s ∧ (∀ o, o ∉ objs → _cbuf o s' = _cbuf o s) ∧
      ∃ bm, _completed_load s' = <[tid := bm]> (_completed_load s) ∧ Forall3 (landed s s') keys objs bm
  end.

(** Only the files of [ps] may change. *)
Definition stores_only (ps : list string) s s' : Prop :=
  a_l1 s' = a_l1 s ∧ (up (a_dfs s) → up (a_dfs s')) ∧ ∀ p, p ∉ ps → files s' !! p = files s !! p.
#[local] Instance stores_only_preorder ps : PreOrder (stores_only ps).
Proof.
  split; [by intros s|]. intros s1 s2 s3 (Ha & Hb & Hc) (Hd & He & Hf). split_and!; [by rw Hd|auto|].
  intros p Hp. by rw Hf // Hc.
Qed.
Lemma store_only_one k o ps : path k ∈ ps → keeps (stores_only ps) (_store_one cfg (k, o)).
Proof.
  intros Hk s. pose proof (store_one_spec cfg k o s) as Hw. rw /wp in Hw.
  destruct (_store_one cfg (k, o) s) as [[r|e] s']; [|done]. destruct Hw as (Hl & _ & Hu & Hf). cbn. split_and!; [done..|].
  intros p Hp. assert (p ≠ path k) as Hne by (by intros ->).
  destruct Hf as [(_ & -> & _)|[(_ & _ & ->)|(_ & _ & [->|[n ->]])]]; [done| |done|]; by rw lookup_insert_ne.
Qed.

Lemma sizes_of_l1 s s' : a_l1 s' = a_l1 s → same_sizes s s'.
Proof. intros Hl o. by rw /_cbuf Hl. Qed.
Lemma cbuf_of_l1 s s' o : a_l1 s' = a_l1 s → _cbuf o s' = _cbuf o s.
Proof. intros Hl. by rw /_cbuf Hl. Qed.

(** The three tasks' effect on the namespace and the buffers. *)
Lemma execute_store_io keys objs tid s :
  wp (_execute_store cfg keys objs tid) s (λ _ s', stores_only (path <$> keys) s s') (λ _ _, False).
Proof.
  apply wp_bind, monotonic_spec. intros t0 s1 Hq1. destruct (quiet_io _ _ Hq1) as [Hd1 Hl1].
  assert (∀ s2 s3, stores_only (path <$> keys) s1 s2 → a_dfs s3 = a_dfs s2 → a_l1 s3 = a_l1 s2 →
    stores_only (path <$> keys) s s3) as Hdone.
  { intros s2 s3 (Ha & Hb & Hc) Hd3 Hl3. rw /stores_only Hd3 Hl3 Ha Hl1 -Hd1. by split_and!. }
  apply wp_bind, wp_except, wp_bind.
  eapply wp_mono; [apply (wp_and_keeps (stores_only (path <$> keys)) _ s1 (λ _ _, True))| |done].
  { apply keeps_pool_map_in; [apply _|]. intros [k o] Hx. apply store_only_one, list_elem_of_fmap_2.
    exact (elem_of_zip_l _ _ _ _ Hx). }
  { apply pool_total. intros [k o] s2. by wp_use store_one_spec. }
  intros rs s2 [_ Hs2]. apply wp_quiet; [keeps_tac|apply store_tally_total|]. intros t s3 Hq3. destruct (quiet_io _ _ Hq3) as [Hd3 Hl3].
  apply store_epilogue_spec. intros s4 (_ & _ & _ & _ & Hd4 & Hl4) _ _ _. eapply Hdone; [exact Hs2|congruence..].
Qed.

Lemma execute_lookup_io keys expected tid s :
  wp (_execute_lookup cfg keys expected tid) s
    (λ _ s', frame (a_dfs s) (a_dfs s') ∧ a_l1 s' = a_l1 s) (λ _ _, False).
Proof.
  apply wp_bind, monotonic_spec. intros t0 s1 Hq1. destruct (quiet_io _ _ Hq1) as [Hd1 Hl1]. rw -Hd1 -Hl1.
  apply wp_bind, wp_except, wp_bind.
  eapply wp_mono; [apply (pool_map_ok _ _ _ (λ _ s', frame (a_dfs s1) (a_dfs s') ∧ a_l1 s' = a_l1 s1) (λ _, True))| |done].
  - done.
  - intros i [k e] s2 _ [Hfr Hl2]. wp_use lookup_one_spec; [|done]. intros r s3 (Hfr3 & Hl3 & _).
    split; [done|]. split; [by eapply frame_trans|congruence].
  - intros hits s2 [[Hfr Hl2] _]. apply wp_bind, wp_modify, wp_ret. apply lookup_epilogue_spec.
    intros s3 (_ & _ & _ & _ & Hd3 & Hl3) _ _ _. rw lock_hits_io in Hd3. rw lock_hits_l1 in Hl3. by rw Hd3 Hl3.
Qed.

Lemma zip_landed s s' keys objs oks : length objs = length keys →
  Forall2 (λ x ok, landed s s' x.1 x.2 ok) (zip keys objs) oks → Forall3 (landed s s') keys objs oks.
Proof.
  revert objs oks. induction keys as [|k keys IH]; intros [|o objs] oks [=] Hall; cbn in Hall; inversion Hall; subst;
    constructor; [done|by apply IH].
Qed.

Lemma execute_load_io keys objs tid s : NoDup objs → length objs = length keys →
  wp (_execute_load cfg keys objs tid) s
    (λ _ s', frame (a_dfs s) (a_dfs s') ∧ same_sizes s s' ∧ (∀ o, o ∉ objs → _cbuf o s' = _cbuf o s) ∧
       ∃ bm, _completed_load s' = <[tid := bm]> (_completed_load s) ∧ Forall3 (landed s s') keys objs bm) (λ _ _, False).
Proof.
  intros Hnd Hl. apply wp_bind, monotonic_spec. intros t0 s1 Hq1. destruct (quiet_io _ _ Hq1) as [Hd1 Hl1].
  rw -(snd_zip keys objs) in Hnd; [lia|].
  apply wp_bind, wp_except, wp_bind.
  eapply wp_mono; [apply (wp_and_keeps same_book _ s1 (λ oks s', length oks = length (zip keys objs) ∧
    frame (a_dfs s1) (a_dfs s') ∧ same_sizes s1 s' ∧ (∀ o, o ∉ (zip keys objs).*2 → _cbuf o s' = _cbuf o s1) ∧
    Forall2 (λ x ok, landed s1 s' x.1 x.2 ok) (zip keys objs) oks))| |done].
  { case_match; rw ?/fair_map; (apply keeps_pool_map; [apply _|keeps_tac]). }
  { case_match; apply load_pool_any; try done; [apply fair_item_spec|]. intros [k o] s'. apply load_one_spec. }
  intros oks s2 ((Hlen & Hfr & Hz & Hb & Hall) & Hbk). apply wp_bind, wp_quiet; [keeps_tac|apply load_tally_ok|].
  intros [hk nb] s3 Hq3. apply wp_ret. apply load_epilogue_spec.
  intros s4 (_ & _ & _ & _ & Hd4 & Hl4) Hcl _ _. destruct (quiet_io _ _ Hq3) as [Hd3 Hl3]. fields.
  assert (∀ o, _cbuf o s4 = _cbuf o s2) as Hb4 by (intros o; apply cbuf_of_l1; congruence).
  assert (∀ o, _cbuf o s1 = _cbuf o s) as Hb1 by (intros o; by apply cbuf_of_l1).
  rw snd_zip in Hb; [lia|]. rw Hd4 Hd3 -Hd1. split_and!; [done| | |].
  - intros o. by rw Hb4 Hz Hb1.
  - intros o Ho. by rw Hb4 Hb // Hb1.
  - exists oks. split.
    + rw Hcl bitmap_of_full; [rw length_zip Hl in Hlen; lia|]. congruence.
    + apply zip_landed; [done|]. eapply Forall2_impl; [exact Hall|]. intros [k o] ok. rw /landed Hb4 Hb1 Hd1. done.
Qed.

(** Any task, on any backend. *)
Lemma execute_ran tid t s :
  match t with TLoad keys objs => NoDup objs ∧ length objs = length keys | _ => True end →
  wp (execute cfg tid t) s (λ _ s', ran tid t s s') (λ _ _, False).
Proof.
  intros Ht. pose proof (execute_books cfg tid t s) as Hb. destruct t as [keys objs|keys expected|keys objs].
  - eapply wp_mono; [apply (wp_and _ _ _ _ _ _ Hb (execute_store_io keys objs tid s))| |naive_solver].
    intros _ s' ((Hn & Hp & _ & v & _ & _ & Hc & _) & Hl & Hu & Hf).
    split_and!; [done..|by apply sizes_of_l1|done|intros o; by apply cbuf_of_l1|done].
  - eapply wp_mono; [apply (wp_and _ _ _ _ _ _ Hb (execute_lookup_io keys expected tid s))| |naive_solver].
    intros _ s' ((Hn & Hp & _ & bm & _ & _ & _ & Hc & _) & (Hf & _ & Hu) & Hl).
    split_and!; [done..|by apply sizes_of_l1|done|intros o; by apply cbuf_of_l1|done].
  - destruct Ht as [Hnd Hlen].
    eapply wp_mono; [apply (wp_and _ _ _ _ _ _ Hb (execute_load_io keys objs tid s Hnd Hlen))| |naive_solver].
    intros _ s' ((Hn & Hp & _) & (Hf & _ & Hu) & Hz & Hbuf & Hbm). by split_and!.
Qed.
End AnyBackend.

(** ** The adapter with its workers

    [sv_sched] is the order of the workers: before each query the tasks at the
    listed places of the queue are taken and run, one after the other.
    [sv_hist] records what the undelivered load tasks were asked for and
    [sv_used] the buffers handed over; the code does not read them. *)
Record served (D K : Type) := mkServed {
  sv_cfg : DaosL2AdapterConfig; sv_ad : adapter D K; sv_sched : list (list nat);
  sv_hist : gmap Z (list ObjectKey * list Z); sv_used : gset Z }.
Arguments mkServed {D K}. Arguments sv_cfg {D K}. Arguments sv_ad {D K}. Arguments sv_sched {D K}.
Arguments sv_hist {D K}. Arguments sv_used {D K}.

(** The buffers the queued loads will write. *)
Definition bufs_of (t : task) : list Z := match t with TLoad _ os => os | _ => [] end.
Definition queued_bufs (l : list (Z * task)) : list Z := x ← l; bufs_of x.2.

#[export] Instance queued_bufs_proper : Proper ((≡ₚ) ==> (≡ₚ)) queued_bufs.
Proof. intros l l' Hl. rw /queued_bufs. by rw Hl. Qed.
Lemma queued_split (l : list (Z * task)) j tid t : l !! j = Some (tid, t) →
  queued_bufs l ≡ₚ bufs_of t ++ queued_bufs (delete j l).
Proof. intros Hj. rw {1}(delete_Permutation l j _ Hj). done. Qed.
Lemma in_split_queue {A} (l : list A) (j : nat) x y : l !! j = Some x → y ∈ l ↔ y = x ∨ y ∈ delete j l.
Proof. intros Hj. rw {1}(delete_Permutation l j _ Hj). apply elem_of_cons. Qed.


Section Serve.
Context {D K : Type} `{LibDfs D} `{Clock K}.

(** A worker of [self._tasks] takes the task at place [j]. *)
Definition run_task (cfg : DaosL2AdapterConfig) (s : adapter D K) (j : nat) : adapter D K :=
  match pending s !! j with
  | Some (tid, t) => snd (execute cfg tid t (dequeue j s))
  | None => s
  end.
Definition work (cfg : DaosL2AdapterConfig) (round : list nat) (s : adapter D K) : adapter D K :=
  foldl (run_task cfg) s round.

#[global] Instance served_loads : L2Loads (served D K) ObjectKey := {|
  isubmit ks os i :=
    let '(r, ad) := L2Adapter.submit_load_task ks os (sv_ad i) in
    let t := match r with Ok t => t | Raise _ => 0 end in
    (t, mkServed (sv_cfg i) ad (sv_sched i) (<[t := (ks, os)]> (sv_hist i)) (list_to_set os ∪ sv_used i));
  iquery t i :=
    let ad := work (sv_cfg i) (default [] (head (sv_sched i))) (sv_ad i) in
    let '(r, ad) := L2Adapter.query_load_result t ad in
    let r := match r with Ok r => r | Raise _ => None end in
    (r, mkServed (sv_cfg i) ad (tail (sv_sched i))
          (match r with Some _ => delete t (sv_hist i) | None => sv_hist i end) (sv_used i)) |}.
End Serve.

Section Contract.
Context {D K : Type} `{LibDfsLaws D} `{Clock K}.
(** The configuration, the files stored before, the buffers' sizes, and whether
    the backend answers. *)
Context (cfg : DaosL2AdapterConfig) (stored : gmap string bytes) (bsz : Z → nat) (healthy : Prop).
Abbreviation I := (served D K).
Implicit Types i : I.
Abbreviation path := (_path cfg).
Abbreviation queue i := (pending (sv_ad i)).

(** The promise of a bit: set, the buffer is full of the start of the stored
    file; clear, the file is too short, or the backend failed.  No queued load
    writes the buffer any more. *)
Definition kept i (k : ObjectKey) (o : Z) (b : bool) : Prop :=
  o ∈ sv_used i ∧ (o ∉ queued_bufs (queue i)) ∧
  ∀ c, stored !! path k = Some c →
    (b = true → (bsz o ≤ length c)%nat ∧ _cbuf o (sv_ad i) = take (bsz o) c) ∧
    (b = false → healthy → (length c < bsz o)%nat).

Record served_ok i : Prop := mkServedOk {
  so_cfg : sv_cfg i = cfg;
  so_pend t ks os : (t, TLoad ks os) ∈ queue i → sv_hist i !! t = Some (ks, os) ∧ length os = length ks;
  so_store t ks os k : (t, TStore ks os) ∈ queue i → k ∈ ks → stored !! path k = None;
  so_nodup : NoDup (queued_bufs (queue i));
  so_tids : NoDup (queue i).*1;
  so_queued t : t ∈ (queue i).*1 → t < _next_task_id (sv_ad i) ∧ _completed_load (sv_ad i) !! t = None;
  so_used o : o ∈ queued_bufs (queue i) → o ∈ sv_used i;
  so_done t bm : _completed_load (sv_ad i) !! t = Some bm →
    ∃ ks os, sv_hist i !! t = Some (ks, os) ∧ Forall3 (kept i) ks os bm;
  so_ids t e : sv_hist i !! t = Some e → t < _next_task_id (sv_ad i);
  so_live t e : sv_hist i !! t = Some e →
    (∃ ks os, (t, TLoad ks os) ∈ queue i) ∨ is_Some (_completed_load (sv_ad i) !! t);
  so_files p c : stored !! p = Some c → fs (a_dfs (sv_ad i)) !! p = Some c;
  so_sizes o : length (_cbuf o (sv_ad i)) = bsz o;
  so_up : healthy → up (a_dfs (sv_ad i)) }.

Definition set_ad (s : adapter D K) i : I := mkServed (sv_cfg i) s (sv_sched i) (sv_hist i) (sv_used i).
Definition kmono i i' : Prop := ∀ k o b, kept i k o b → kept i' k o b.
#[local] Instance kmono_preorder : PreOrder kmono.
Proof. split; [by intros i k o b|]. intros i1 i2 i3 Ha Hb k o b Hk. by apply Hb, Ha. Qed.

(** *** A worker runs one task *)
Lemma run_task_kept i j tid t s' :
  served_ok i → queue i !! j = Some (tid, t) → ran (sv_cfg i) tid t (dequeue j (sv_ad i)) s' →
  kmono i (set_ad s' i).
Proof.
  intros Hok Hj (Hn & Hp & Hu & Hz & Ht) k o b (Hus & Hnq & Hk). pose proof (queued_split _ _ _ _ Hj) as Hq.
  split_and!; [done| |].
  - cbn. rw Hp. cbn. intros Ho. apply Hnq. rw Hq. apply elem_of_app. by right.
  - cbn. intros c Hc. specialize (Hk c Hc). assert (_cbuf o s' = _cbuf o (sv_ad i)) as ->; [|done].
    rw Hq elem_of_app in Hnq. destruct t as [ks os|ks e|ks os]; cbn in Hnq.
    + by destruct Ht as (_ & -> & _).
    + by destruct Ht as (_ & -> & _).
    + destruct Ht as (_ & Hb & _). apply (Hb o). intros Ho. apply Hnq. by left.
Qed.

(** The bits of the task that has run. *)
Lemma run_load_kept i j tid ks os s' bm :
  served_ok i → queue i !! j = Some (tid, TLoad ks os) → ran (sv_cfg i) tid (TLoad ks os) (dequeue j (sv_ad i)) s' →
  Forall3 (landed (sv_cfg i) (dequeue j (sv_ad i)) s') ks os bm → Forall3 (kept (set_ad s' i)) ks os bm.
Proof.
  intros Hok Hj (_ & Hp & _) Hall. pose proof (queued_split _ _ _ _ Hj) as Hq.
  pose proof (so_nodup i Hok) as Hnd. rw Hq in Hnd. apply NoDup_app in Hnd as (_ & Hsep & _).
  assert (∀ x, x ∈ os → x ∈ sv_used i ∧ x ∉ queued_bufs (delete j (queue i))) as Hos.
  { intros x Hx. split; [|by apply Hsep]. apply (so_used i Hok). rw Hq. apply elem_of_app. by left. }
  clear Hq Hsep Hj. induction Hall as [|k o b ks os bm Hl Hall IH]; constructor.
  - destruct (Hos o) as [Hus Hnq]; [by left|]. split_and!; [done|by rw /= Hp|]. cbn. intros c Hc.
    apply (so_files i Hok) in Hc. pose proof (so_sizes i Hok o) as Hsz. rw /landed (so_cfg i Hok) in Hl.
    replace (_cbuf o (dequeue j (sv_ad i))) with (_cbuf o (sv_ad i)) in Hl by done. rw Hsz in Hl.
    destruct b.
    + destruct Hl as (c' & Hc' & Hle & Hb). cbn in Hc'. rw Hc in Hc'. injection Hc' as <-. done.
    + split; [done|]. intros _ Hh. apply (so_up i Hok) in Hh. cbn in Hl. rw Hc in Hl. destruct Hl as [?|[?|(c' & [= <-] & ?)]]; done.
  - apply IH. intros x Hx. apply Hos. by right.
Qed.

Lemma kept_all i i' ks os bm : kmono i i' → Forall3 (kept i) ks os bm → Forall3 (kept i') ks os bm.
Proof. intros Hm Hall. eapply Forall3_impl; [exact Hall|exact Hm]. Qed.

(** The results after a task has run. *)
Lemma run_task_done i j tid t s' :
  served_ok i → queue i !! j = Some (tid, t) → ran (sv_cfg i) tid t (dequeue j (sv_ad i)) s' →
  (∀ t' bm, _completed_load s' !! t' = Some bm →
     ∃ ks os, sv_hist i !! t' = Some (ks, os) ∧ Forall3 (kept (set_ad s' i)) ks os bm) ∧
  (∀ t', is_Some (_completed_load (sv_ad i) !! t') ∨ (t' = tid ∧ ∃ ks os, t = TLoad ks os) →
     is_Some (_completed_load s' !! t')) ∧
  (∀ t', t' ≠ tid → _completed_load (sv_ad i) !! t' = None → _completed_load s' !! t' = None).
Proof.
  intros Hok Hj Hran. pose proof (run_task_kept _ _ _ _ _ Hok Hj Hran) as Hm.
  assert (∀ t' bm, _completed_load (sv_ad i) !! t' = Some bm →
    ∃ ks os, sv_hist i !! t' = Some (ks, os) ∧ Forall3 (kept (set_ad s' i)) ks os bm) as Hold.
  { intros t' bm Ht'. destruct (so_done i Hok _ _ Ht') as (ks & os & Hh & Hall). exists ks, os. split; [done|].
    by eapply kept_all. }
  destruct t as [ks os|ks e|ks os].
  1-2: destruct Hran as (_ & _ & _ & _ & Hc & _); rw Hc; split_and!; [exact Hold|by intros t' [?|(_ & ? & ? & [=])]|done].
  destruct (Hran) as (_ & _ & _ & _ & _ & _ & bm & Hc & Hall). rw Hc. split_and!.
  - intros t' bm' [[<- <-]|[_ Ht']]%lookup_insert_Some; [|by apply Hold].
    exists ks, os. split; [|by eapply run_load_kept]. apply (so_pend i Hok). by eapply list_elem_of_lookup_2.
  - intros t' Ht'. destruct (decide (t' = tid)) as [->|Hne]; [by rw lookup_insert_eq|].
    rw lookup_insert_ne //. naive_solver.
  - intros t' Hne Ht'. by rw lookup_insert_ne.
Qed.

Lemma ran_files i j tid t s' p c :
  served_ok i → queue i !! j = Some (tid, t) → ran (sv_cfg i) tid t (dequeue j (sv_ad i)) s' →
  stored !! p = Some c → fs (a_dfs s') !! p = Some c.
Proof.
  intros Hok Hj (_ & _ & _ & _ & Ht) Hc. pose proof (so_files i Hok p c Hc) as Hp. destruct t as [ks os|ks e|ks os].
  - destruct Ht as (_ & _ & Hf). rw Hf //. intros (k & -> & Hk)%list_elem_of_fmap.
    rw (so_cfg i Hok) (so_store i Hok tid ks os k) // in Hc. by eapply list_elem_of_lookup_2.
  - by destruct Ht as (_ & _ & ->).
  - by destruct Ht as (-> & _).
Qed.

Lemma run_task_ok i j :
  served_ok i → served_ok (set_ad (run_task (sv_cfg i) (sv_ad i) j) i) ∧
                kmono i (set_ad (run_task (sv_cfg i) (sv_ad i) j) i) ∧
                queue (set_ad (run_task (sv_cfg i) (sv_ad i) j) i) = delete j (queue i).
Proof.
  intros Hok. rw /run_task. destruct (queue i !! j) as [[tid t]|] eqn:Hj; last first.
  { rw (_ : set_ad (sv_ad i) i = i); [by destruct i|]. split_and!; [done..|].
    apply lookup_ge_None in Hj. rw delete_take_drop take_ge // drop_ge ?app_nil_r //; lia. }
  pose proof (execute_ran (sv_cfg i) tid t (dequeue j (sv_ad i))) as Hw.
  assert (∀ x, x ∈ delete j (queue i) → x ∈ queue i) as Hin.
  { intros x Hx. rw (in_split_queue _ _ _ _ Hj). by right. }
  pose proof (queued_split _ _ _ _ Hj) as Hq. pose proof (so_nodup i Hok) as Hnd. rw Hq in Hnd.
  apply NoDup_app in Hnd as (Hnd1 & Hsep & Hnd2).
  assert (ran (sv_cfg i) tid t (dequeue j (sv_ad i)) (snd (execute (sv_cfg i) tid t (dequeue j (sv_ad i))))) as Hran.
  { rw /wp in Hw. destruct (execute _ _ _ _) as [[[]|e] s1]; [|destruct Hw].
    - apply Hw. destruct t as [| |ks os]; [done..|]. split; [exact Hnd1|].
      apply (so_pend i Hok tid). by eapply list_elem_of_lookup_2.
    - destruct t as [| |ks os]; [done..|]. split; [exact Hnd1|].
      apply (so_pend i Hok tid). by eapply list_elem_of_lookup_2. }
  set (s' := snd _) in *. clearbody s'. destruct (run_task_done _ _ _ _ _ Hok Hj Hran) as (Hdone & Hlive & Hnone).
  pose proof (λ p c, ran_files i j tid t s' p c Hok Hj Hran) as Hfiles. pose proof (run_task_kept _ _ _ _ _ Hok Hj Hran) as Hm.
  destruct Hran as (Hn & Hp & Hu & Hz & _). cbn in Hp. split_and!; [|done|done]. split; cbn; rw ?Hp.
  - apply (so_cfg i Hok).
  - intros t' ks os Ht'. by apply (so_pend i Hok), Hin.
  - intros t' ks os k Ht'. by apply (so_store i Hok t' ks os), Hin.
  - done.
  - pose proof (so_tids i Hok) as Ht. rw (delete_Permutation _ _ _ Hj) in Ht. by apply NoDup_cons in Ht as [_ ?].
  - intros t' Ht'. pose proof (so_tids i Hok) as Ht. rw (delete_Permutation _ _ _ Hj) in Ht. apply NoDup_cons in Ht as [Hne _].
    destruct (so_queued i Hok t') as [Hlt Hc].
    { rw (delete_Permutation _ _ _ Hj). by right. }
    split; [by rw Hn|]. apply Hnone; [|done]. by intros ->.
  - intros o Ho. apply (so_used i Hok). rw Hq. apply elem_of_app. by right.
  - exact Hdone.
  - intros t' e He. rw Hn. by eapply so_ids.
  - intros t' e He. destruct (so_live i Hok t' e He) as [(ks & os & Ht')|Ht']; [|by right; apply Hlive; left].
    rw (in_split_queue _ _ _ _ Hj) in Ht'. destruct Ht' as [[= -> <-]|Ht']; [|by left; eauto].
    right. apply Hlive. right. eauto.
  - intros p c Hc. by apply Hfiles.
  - intros o. rw Hz. apply (so_sizes i Hok).
  - intros Hh. by apply Hu, (so_up i Hok).
Qed.

(** A round of the workers. *)
Lemma work_ok i round : served_ok i →
  let i' := set_ad (work (sv_cfg i) round (sv_ad i)) i in
  served_ok i' ∧ kmono i i' ∧ queue i' = foldl (λ l j, delete j l) (queue i) round.
Proof.
  cbn zeta. revert i. induction round as [|j round IH]; intros i Hok.
  { cbn. rw (_ : set_ad (sv_ad i) i = i); [by destruct i|]. by split_and!. }
  destruct (run_task_ok i j Hok) as (Hok1 & Hm1 & Hq1). destruct (IH _ Hok1) as (Hok2 & Hm2 & Hq2).
  split; [exact Hok2|]. split; [etrans; [exact Hm1|exact Hm2]|]. cbn in Hq2, Hq1 |- *. by rw Hq2 Hq1.
Qed.

(** *** A submission *)
Lemma served_submit ks os i t i' :
  served_ok i → length os = length ks → NoDup os → (∀ o, o ∈ os → o ∉ sv_used i) → isubmit ks os i = (t, i') →
  served_ok i' ∧ sv_hist i !! t = None ∧ sv_hist i' = <[t := (ks, os)]> (sv_hist i) ∧
  sv_used i' = list_to_set os ∪ sv_used i ∧ kmono i i'.
Proof.
  intros Hok Hlen Hnd Hus [= <- <-]. cbn. set (n := _next_task_id (sv_ad i)).
  set (i' := mkServed _ _ _ _ _). assert (queue i' = queue i ++ [(n, TLoad ks os)]) as Hq by done.
  assert (queued_bufs (queue i') = queued_bufs (queue i) ++ os) as Hb.
  { rw Hq /queued_bufs bind_app. cbn. by rw app_nil_r. }
  assert (sv_hist i !! n = None) as Hn.
  { destruct (sv_hist i !! n) as [e|] eqn:E; [|done]. apply (so_ids i Hok) in E. lia. }
  assert (kmono i i') as Hm.
  { intros k o b (Hu & Hnq & Hk). split_and!; [|rw Hb elem_of_app|done].
    - cbn. by apply elem_of_union_r.
    - intros [?|Ho]; [done|]. by apply (Hus o). }
  split_and!; [|done..]. split; rw ?Hq ?Hb.
  - apply (so_cfg i Hok).
  - intros t ks' os' [Ht|Ht]%elem_of_app.
    + destruct (so_pend i Hok _ _ _ Ht) as [Hh Hl]. split; [|done]. cbn. rw lookup_insert_ne //. intros <-. congruence.
    + apply list_elem_of_singleton in Ht. injection Ht as -> -> ->. split; [apply lookup_insert_eq|done].
  - intros t ks' os' k [Ht|Ht]%elem_of_app; [by apply (so_store i Hok t ks' os')|].
    by apply list_elem_of_singleton in Ht.
  - apply NoDup_app. split_and!; [apply (so_nodup i Hok)| |done]. intros o Ho Ho'. by apply (Hus o), (so_used i Hok).
  - rw fmap_app. apply NoDup_app. split_and!; [apply (so_tids i Hok)| |apply NoDup_singleton].
    intros t Ht ->%list_elem_of_singleton. apply (so_queued i Hok) in Ht as [Ht _]. cbn in Ht. lia.
  - rw fmap_app. intros t [Ht| ->%list_elem_of_singleton]%elem_of_app; cbn.
    + apply (so_queued i Hok) in Ht as [Ht ?]. split; [lia|done].
    + split; [lia|]. destruct (_completed_load (sv_ad i) !! n) eqn:E; [|done].
      destruct (so_done i Hok _ _ E) as (? & ? & ? & _). congruence.
  - intros o [Ho|Ho]%elem_of_app; cbn; [apply elem_of_union_r, (so_used i Hok), Ho|].
    apply elem_of_union_l. by apply elem_of_list_to_set.
  - intros t bm Ht. destruct (so_done i Hok _ _ Ht) as (ks' & os' & Hh & Hall). exists ks', os'.
    split; [|by eapply kept_all]. cbn. rw lookup_insert_ne //. intros <-. congruence.
  - cbn. intros t e [[<- _]|[_ He]]%lookup_insert_Some; [lia|]. apply (so_ids i Hok) in He. lia.
  - cbn [i' sv_hist]. intros t e [[<- _]|[_ He]]%lookup_insert_Some.
    + left. exists ks, os. apply elem_of_app. right. by left.
    + destruct (so_live i Hok t e He) as [(ks' & os' & Ht)|Ht]; [|by right].
      left. exists ks', os'. apply elem_of_app. by left.
  - apply (so_files i Hok).
  - apply (so_sizes i Hok).
  - apply (so_up i Hok).
Qed.

(** *** A query, after a round of the workers *)
Definition after_round i : I := set_ad (work (sv_cfg i) (default [] (head (sv_sched i))) (sv_ad i)) i.
Lemma served_query t i r i' :
  served_ok i → iquery t i = (r, i') →
  served_ok i' ∧ sv_used i' = sv_used i ∧ kmono i i' ∧ queue i' = queue (after_round i) ∧
  sv_sched i' = tail (sv_sched i) ∧ r = _completed_load (sv_ad (after_round i)) !! t ∧
  match r with
  | None => sv_hist i' = sv_hist i
  | Some bm => ∃ ks os, sv_hist i !! t = Some (ks, os) ∧ Forall3 (kept i') ks os bm ∧ sv_hist i' = delete t (sv_hist i)
  end.
Proof.
  intros Hok [= <- <-]. destruct (work_ok i (default [] (head (sv_sched i))) Hok) as (Hok1 & Hm & _).
  change (set_ad _ i) with (after_round i) in *. set (i1 := after_round i) in *.
  change (work _ _ _) with (sv_ad i1). cbn [sv_ad sv_sched sv_used sv_hist set_done _completed_load pending].
  set (bm := _completed_load (sv_ad i1) !! t).
  set (i' := mkServed _ _ _ _ _). assert (kmono i i') as Hm' by exact Hm.
  split_and!; [|done..|].
  - assert (∀ t', t' ≠ t ∨ bm = None → sv_hist i' !! t' = sv_hist i1 !! t') as Hh.
    { intros t' Ht'. cbn. destruct bm; [|done]. destruct Ht' as [Ht'|]; [|done]. by rw lookup_delete_ne. }
    assert (∀ t', t' ∈ (queue i1).*1 → sv_hist i' !! t' = sv_hist i1 !! t') as Hhq.
    { intros t' Ht'. apply Hh. destruct (so_queued i1 Hok1 t' Ht') as [_ Hc]. destruct (decide (t' = t)) as [->|]; auto. }
    split; cbn [i' sv_ad sv_used sv_cfg set_done pending _completed_load _next_task_id a_dfs].
    + apply (so_cfg i Hok).
    + intros t' ks os Ht'. rw Hhq; [|by apply (so_pend i1 Hok1)]. apply list_elem_of_fmap. by exists (t', TLoad ks os).
    + apply (so_store i1 Hok1).
    + apply (so_nodup i1 Hok1).
    + apply (so_tids i1 Hok1).
    + intros t' Ht'. destruct (so_queued i1 Hok1 t' Ht') as [? Hc]. split; [done|].
      apply lookup_delete_None. by right.
    + apply (so_used i1 Hok1).
    + intros t' bm' [Hne Ht']%lookup_delete_Some. rw Hh; [by left|]. exact (so_done i1 Hok1 t' bm' Ht').
    + intros t' e He. apply (so_ids i1 Hok1 t' e). cbn in He. destruct bm; [by apply lookup_delete_Some in He as [_ He]|done].
    + intros t' e He. destruct (decide (t' = t)) as [->|Hne].
      * cbn in He. destruct bm eqn:Eb; [by rw lookup_delete_eq in He|]. destruct (so_live i1 Hok1 t e He) as [?|[? Hc]]; [by left|].
        rw /bm in Eb. congruence.
      * rw Hh in He; [by left|]. rw lookup_delete_ne //. by apply (so_live i1 Hok1 t' e).
    + apply (so_files i1 Hok1).
    + apply (so_sizes i1 Hok1).
    + apply (so_up i1 Hok1).
  - destruct bm as [b|] eqn:Eb; [|done]. destruct (so_done i1 Hok1 t b Eb) as (ks & os & Hh & Hall).
    exists ks, os. split; [exact Hh|]. split; [exact Hall|done].
Qed.

#[global] Program Instance served_laws : L2LoadsLaws I kept := {| itask := sv_hist; iused := sv_used; iok := served_ok |}.
Next Obligation. intros ks os i t i'. apply served_submit. Qed.
Next Obligation.
  intros t i r i' Hok Hq. destruct (served_query t i r i' Hok Hq) as (Hok' & Hu & Hm & _ & _ & _ & Hr). by split_and!.
Qed.
End Contract.

(** A new adapter on a namespace that holds the stored files. *)
Lemma init_served_ok {D K} `{LibDfsLaws D} `{Clock K} cfg stored healthy (d : D) (k : K) bufs sched :
  (∀ p c, stored !! p = Some c → fs d !! p = Some c) → (healthy → up d) →
  served_ok cfg stored (λ o, length (default [] (bufs !! o))) healthy (mkServed cfg (init_adapter d k bufs) sched ∅ ∅).
Proof.
  intros Hf Hu. split; cbn; try done; try (intros; set_solver); constructor.
Qed.

(** ** The proxy over the adapter *)

(** The caller of the proxy: it queries a load up to [n] times, until the
    result is there. *)
Fixpoint poll_load {I L Key} `{Countable Key} `{!L2Loads I Key} `{!L1Manager L Key}
    (n : nat) (t : Z) (p : proxy I L Key) : option (list bool) * proxy I L Key :=
  match n with
  | O => (None, p)
  | S n => let '(r, p) := StreamPatch.query_load_result t p in
           match r with Some bm => (Some bm, p) | None => poll_load n t p end
  end.

Section EndToEnd.
Context {D K L : Type} `{LibDfsLaws D} `{Clock K} `{!L1Manager L ObjectKey}.
Context (cfg : DaosL2AdapterConfig) (stored : gmap string bytes) (bsz : Z → nat) (healthy : Prop).
Abbreviation I := (served D K).
Abbreviation promise := (kept (D:=D) (K:=K) cfg stored bsz healthy).
Abbreviation ok := (served_ok (D:=D) (K:=K) cfg stored bsz healthy).
Abbreviation query := (iquery (I:=I) (Key:=ObjectKey)).
Implicit Types (i : I) (p : proxy I L ObjectKey) (T : gmap Z (list ObjectKey * list Z)).
Abbreviation queue i := (pending (sv_ad i)).

(** The workers empty the queue within [n] rounds: one of these rounds takes
    the first task of the queue as often as there are tasks. *)
Definition drains (n : nat) i : Prop :=
  queue i = [] ∨ ∃ j m, (j < n)%nat ∧ sv_sched i !! j = Some (replicate m O) ∧ (length (queue i) ≤ m)%nat.

Lemma drains_mono n i : drains n i → drains (S n) i.
Proof. intros [?|(j & m & ? & ?)]; [by left|]. right. exists j, m. split; [lia|done]. Qed.

Lemma delete_all {A} (l : list A) m : (length l ≤ m)%nat → foldl (λ l j, delete j l) l (replicate m O) = [].
Proof.
  revert l. induction m as [|m IH]; intros [|x l] Hl; cbn in *; [done|lia|apply IH; cbn; lia|apply IH; lia].
Qed.
Lemma delete_some {A} (l : list A) js : (length (foldl (λ l j, delete j l) l js) ≤ length l)%nat.
Proof.
  revert l. induction js as [|j js IH]; intros l; simpl; [done|]. etrans; [apply IH|].
  rw delete_take_drop length_app length_take length_drop. lia.
Qed.

(** One round less. *)
Lemma query_drains n t i r i' : ok i → query t i = (r, i') → drains (S n) i → drains n i'.
Proof.
  intros Hok Hq Hd. destruct (served_query _ _ _ _ t i r i' Hok Hq) as (_ & _ & _ & Hqu & Hsch & _).
  destruct (work_ok _ _ _ _ i (default [] (head (sv_sched i))) Hok) as (_ & _ & Hround). rw /drains Hqu Hsch.
  rw /after_round Hround. destruct Hd as [He|(j & m & Hj & Hs & Hm)].
  { left. rw He. generalize (default [] (head (sv_sched i))). intros l. pose proof (delete_some ([] : list (Z * task)) l) as Hl.
    cbn in Hl. by apply nil_length_inv; lia. }
  destruct (sv_sched i) as [|round rounds]; [done|]. cbn. destruct j as [|j].
  - injection Hs as ->. left. by apply delete_all.
  - right. exists j, m. split_and!; [lia|done|]. etrans; [apply delete_some|done].
Qed.

(** With an empty queue a query of an open task is answered. *)
Lemma query_drained t i r i' : ok i → query t i = (r, i') → queue i = [] → is_Some (sv_hist i !! t) →
  is_Some r ∧ queue i' = [] ∧ sv_hist i' = delete t (sv_hist i).
Proof.
  intros Hok Hq He [e Hh]. destruct (query_drains 0 t i r i' Hok Hq (or_introl He)) as [He'|(j & _ & Hj & _)]; [|lia].
  destruct (served_query _ _ _ _ t i r i' Hok Hq) as (_ & _ & _ & Hqu & _ & Hr & Hcase).
  destruct (work_ok _ _ _ _ i (default [] (head (sv_sched i))) Hok) as (Hok1 & _ & _).
  change (set_ad _ i) with (after_round i) in Hok1.
  destruct (so_live _ _ _ _ _ Hok1 t e Hh) as [(ks & os & Hin)|[bm Hbm]].
  { rw -Hqu He' in Hin. by apply elem_of_nil in Hin. }
  rw Hbm in Hr. subst r. destruct Hcase as (_ & _ & _ & _ & Hd). split; [by eexists|done].
Qed.

Lemma poll_sub_inner (s : sub ObjectKey) p s' p' : poll_sub s p = (s', p') →
  match s_bm s with
  | Some _ => s' = s ∧ p' = p
  | None => ∃ r, query (s_tid s) (p_inner p) = (r, p_inner p') ∧ (is_Some (s_bm s') ↔ is_Some r)
  end.
Proof.
  rw /poll_sub. destruct (s_bm s) eqn:Eb; [by intros [= <- <-]|].
  destruct (iquery _ _) as [[bm|] i'] eqn:E; intros [= <- <-].
  - exists (Some bm). by rw (proj1 (publish_early_frame _ _)).
  - exists None. split; [done|]. by rw Eb.
Qed.

Lemma poll_subs_ok n (subs : list (sub ObjectKey)) p subs' p' :
  ok (p_inner p) → poll_subs subs p = (subs', p') → drains n (p_inner p) → ok (p_inner p') ∧ drains n (p_inner p').
Proof.
  revert p subs' p'. induction subs as [|s subs IH]; intros p subs' p' Hok; cbn [poll_subs].
  { by intros [= <- <-]. }
  destruct (poll_sub s p) as [s1 p1] eqn:E1. destruct (poll_subs subs p1) as [subs2 p2] eqn:E2.
  intros [= <- <-] Hd. apply poll_sub_inner in E1. destruct (s_bm s) as [bm|]; [destruct E1 as [-> ->]; eauto|].
  destruct E1 as (r & Hq & _). pose proof (query_drains n _ _ _ _ Hok Hq (drains_mono _ _ Hd)) as Hd1.
  eapply (served_query cfg stored bsz healthy) in Hq as [Hok1 _]; [|exact Hok]. by eapply IH.
Qed.

(** A poll that finds a sub-batch missing has used up a round. *)
Lemma poll_subs_round n (subs : list (sub ObjectKey)) p subs' p' :
  ok (p_inner p) → poll_subs subs p = (subs', p') → all_landed subs' = false → drains (S n) (p_inner p) →
  drains n (p_inner p').
Proof.
  revert p subs' p'. induction subs as [|s subs IH]; intros p subs' p' Hok; cbn [poll_subs].
  { by intros [= <- <-]. }
  destruct (poll_sub s p) as [s1 p1] eqn:E1. destruct (poll_subs subs p1) as [subs2 p2] eqn:E2.
  intros [= <- <-] Hl Hd. apply poll_sub_inner in E1. destruct (s_bm s) as [bm|] eqn:Eb.
  - destruct E1 as [-> ->]. cbn in Hl. rw Eb in Hl. by eapply IH.
  - destruct E1 as (r & Hq & _). pose proof (query_drains n _ _ _ _ Hok Hq Hd) as Hd1.
    eapply (served_query cfg stored bsz healthy) in Hq as [Hok1 _]; [|exact Hok].
    exact (proj2 (poll_subs_ok _ _ _ _ _ Hok1 E2 Hd1)).
Qed.

(** With an empty queue a poll finds every sub-batch. *)
Lemma poll_subs_drained (subs : list (sub ObjectKey)) p subs' p' :
  ok (p_inner p) → poll_subs subs p = (subs', p') → queue (p_inner p) = [] → NoDup (open_tids subs) →
  (∀ t, t ∈ open_tids subs → is_Some (sv_hist (p_inner p) !! t)) → all_landed subs' = true.
Proof.
  revert p subs' p'. induction subs as [|s subs IH]; intros p subs' p' Hok; cbn [poll_subs].
  { by intros [= <- <-]. }
  destruct (poll_sub s p) as [s1 p1] eqn:E1. destruct (poll_subs subs p1) as [subs2 p2] eqn:E2.
  intros [= <- <-] He. rw open_cons. intros Hnd Hin. apply poll_sub_inner in E1. destruct (s_bm s) as [bm|] eqn:Eb.
  - destruct E1 as [-> ->]. cbn. rw Eb. by eapply IH.
  - destruct E1 as (r & Hq & Hr). apply NoDup_app in Hnd as (_ & Hsep & Hnd).
    destruct (query_drained _ _ _ _ Hok Hq He) as (Hs & He1 & Hh1); [apply Hin; by left|].
    eapply (served_query cfg stored bsz healthy) in Hq as [Hok1 _]; [|exact Hok].
    cbn. rw bool_decide_true; [by apply Hr|]. eapply (IH p1); [done..|]. intros t Ht. rw Hh1 lookup_delete_ne.
    + intros <-. by apply (Hsep (s_tid s)); [left|].
    + apply Hin. by right.
Qed.

(** An unanswered query of a load has used up a round, and there was one left. *)
Lemma query_progress T t p r p' n :
  pinv promise T p → is_Some (T !! t) → StreamPatch.query_load_result t p = (r, p') → drains n (p_inner p) →
  match r with Some _ => True | None => ∃ m, n = S m ∧ drains m (p_inner p') end.
Proof.
  intros [Hok Hall _ _] [[ks os] HT]. specialize (Hall t). rw HT in Hall. rw /StreamPatch.query_load_result.
  destruct (p_outer p !! t) as [[subs k]|]; [|done]. destruct Hall as (_ & Hnd & oss & _ & _ & Hsub).
  destruct (poll_subs subs p) as [subs' p1] eqn:E. destruct (all_landed subs') eqn:El; intros [= <- <-] Hd; [done|].
  destruct n as [|n].
  - destruct Hd as [He|(? & ? & ? & _)]; [|lia].
    rw (poll_subs_drained subs p subs' p1) // in El. intros x Hx. exact (open_in_itask promise _ _ _ _ Hsub Hx).
  - exists n. split; [done|]. exact (poll_subs_round n subs p subs' p1 Hok E El Hd).
Qed.

(** A load that is polled until the queue has been emptied, and once more, is
    delivered. *)
Lemma poll_load_returns n T t p :
  pinv promise T p → is_Some (T !! t) → drains n (p_inner p) → is_Some (poll_load (S n) t p).1.
Proof.
  revert p. induction n as [|n IH]; intros p Hp Ht Hd; cbn [poll_load];
    pose proof (query_keeps_contract promise T p t) as Hc; pose proof (query_progress T t p) as Hq;
    destruct (StreamPatch.query_load_result t p) as [[bm|] p1]; try (by eexists);
    destruct (Hq None p1 _ Hp Ht eq_refl Hd) as (m & [= <-] & Hd1).
  apply IH; [|done..]. exact (proj2 (Hc None p1 Hp Ht eq_refl)).
Qed.
Lemma poll_load_keeps n T t p bm p' :
  pinv promise T p → is_Some (T !! t) → poll_load n t p = (Some bm, p') →
  ∃ ks os, T !! t = Some (ks, os) ∧ Forall3 (promise (p_inner p')) ks os bm ∧ pinv promise (delete t T) p'.
Proof.
  revert p. induction n as [|n IH]; intros p Hp Ht; cbn [poll_load]; [done|].
  pose proof (query_keeps_contract promise T p t) as Hc.
  destruct (StreamPatch.query_load_result t p) as [[b|] p1].
  - intros [= -> ->]. exact (proj2 (Hc _ _ Hp Ht eq_refl)).
  - apply IH; [|done]. exact (proj2 (Hc _ _ Hp Ht eq_refl)).
Qed.

(** C2: a streamed load over DAOS returns the stored bytes.  A load of any
    keys into fresh buffers goes through the streaming proxy, in sub-batches of
    any size, to the DAOS adapter, whose workers run its queue, with stores of
    other keys, lookups and other loads in it, in any order between the
    queries.  When the caller, polling, gets the bitmap, it has one bit per
    key; a set bit of a key stored before means that its buffer is filled with
    the stored bytes, and a clear one, if the backend answers, that the stored
    object is shorter than the buffer.  And the bitmap comes: once the workers
    have emptied the queue, one more poll delivers it. *)
Theorem streamed_load_end_to_end _sub T p ks os t p0 :
  pinv promise T p → length os = length ks → NoDup os → (∀ o, o ∈ os → o ∉ sv_used (p_inner p)) →
  StreamPatch.submit_load_task _sub ks os p = (t, p0) →
  (∀ n bm p', poll_load n t p0 = (Some bm, p') →
     length bm = length ks ∧
     ∀ j k o b c, ks !! j = Some k → os !! j = Some o → bm !! j = Some b → stored !! _path cfg k = Some c →
       if b then (bsz o ≤ length c)%nat ∧ _cbuf o (sv_ad (p_inner p')) = take (bsz o) c
       else healthy → (length c < bsz o)%nat) ∧
  (∀ n, drains n (p_inner p0) → is_Some (poll_load (S n) t p0).1).
Proof.
  intros Hp Hlen Hnd Hus Hs. destruct (submit_keeps_contract promise _ _ _ _ _ _ _ Hp Hlen Hnd Hus Hs) as (Hn & Hp0 & _).
  assert ((<[t := (ks, os)]> T) !! t = Some (ks, os)) as HT by apply lookup_insert_eq. split.
  - intros n bm p' Hpoll. destruct (poll_load_keeps _ _ _ _ _ _ Hp0 (ex_intro _ _ HT) Hpoll) as (ks' & os' & HT' & Hall & _).
    rw HT in HT'. injection HT' as <- <-. split; [exact (eq_sym (Forall3_length_lr _ _ _ _ Hall))|].
    intros j k o b c Hk Ho Hb Hc. destruct (Forall3_lookup_lmr _ _ _ _ _ _ _ _ Hall Hk Ho Hb) as (_ & _ & Hkept).
    destruct (Hkept c Hc) as [Ht Hf]. destruct b; [by apply Ht|by apply Hf].
  - intros n Hd. eapply poll_load_returns; [exact Hp0|by eexists|done].
Qed.
End EndToEnd.

(** ** A concrete server *)
Module ServedDemo.
Definition cfg : DaosL2AdapterConfig := L2Demo.cfg "fifo".
Definition k1 : ObjectKey := L2Demo.key Byte.x01.
Definition k2 : ObjectKey := L2Demo.key Byte.x02.
Definition stored : gmap string bytes := {[_path cfg k1 := encode "abc"; _path cfg k2 := encode "xyz"]}.
Definition bsz (o : Z) : nat := length (default [] (L2Demo.bufs !! o)).
#[global] Instance manager : L1Manager (list ObjectKey) ObjectKey := {|
  finish_write_and_reserve_read ks l := ks ++ l; unsafe_read k l := if bool_decide (k ∈ l) then Some 0 else None |}.
(** The second sub-batch runs first. *)
Definition sched : list (list nat) := [[1%nat]; [0%nat]; [0%nat; 0%nat]].
Definition adapter_on (w : MemDfs.mem) : served MemDfs.mem N := mkServed cfg (L2Demo.start w) sched ∅ ∅.
Definition start (w : MemDfs.mem) : proxy (served MemDfs.mem N) (list ObjectKey) ObjectKey := init_proxy (adapter_on w) [].
Lemma start_ok : pinv (kept cfg stored bsz True) ∅ (start (MemDfs.healthy stored)).
Proof.
  split; [|intros t; reflexivity|intros; discriminate|reflexivity].
  apply init_served_ok; [intros p c Hc; exact Hc|intros _; reflexivity].
Qed.
Definition loaded (w : MemDfs.mem) (n : nat) : option (list bool) * bytes * bytes :=
  let '(t, p) := StreamPatch.submit_load_task 1 [k1; k2] [11; 12] (start w) in
  let '(r, p) := poll_load n t p in (r, _cbuf 11 (sv_ad (p_inner p)), _cbuf 12 (sv_ad (p_inner p))).
Example arrives : loaded (MemDfs.healthy stored) 3 = (Some [true; true], encode "abc", encode "xyz").
Proof. by vm_compute. Qed.
(** The backend fails the read of the first key. *)
Example one_fails : (loaded (MemDfs.mkMem stored ∅ ∅ false [None; None; Some L2Demo.dead]) 3).1.1 = Some [false; true].
Proof. by vm_compute. Qed.
End ServedDemo.

Lemma streamed_load_end_to_end_witness :
  let '(t, p0) := StreamPatch.submit_load_task 1 [ServedDemo.k1; ServedDemo.k2] [11; 12]
                    (ServedDemo.start (MemDfs.healthy ServedDemo.stored)) in
  is_Some (poll_load 4 t p0).1 ∧
  ∀ p', poll_load 4 t p0 = (Some [true; true], p') → _cbuf 12 (sv_ad (p_inner p')) = take 3 (encode "xyz").
Proof.
  destruct (StreamPatch.submit_load_task 1 [ServedDemo.k1; ServedDemo.k2] [11; 12] _) as [t p0] eqn:E.
  destruct (streamed_load_end_to_end ServedDemo.cfg ServedDemo.stored ServedDemo.bsz True 1 ∅
    (ServedDemo.start (MemDfs.healthy ServedDemo.stored)) [ServedDemo.k1; ServedDemo.k2] [11; 12] t p0
    ServedDemo.start_ok eq_refl) as [Hs Hl]; [..|exact E|].
  - apply (bool_decide_unpack _). vm_compute. exact I.
  - intros o _. apply not_elem_of_empty.
  - split.
    + apply Hl. right. exists 2%nat, 2%nat. injection E as <- <-. split; [lia|]. split; [reflexivity|vm_compute; lia].
    + intros p' Hp. destruct (Hs _ _ _ Hp) as [_ Hb].
      apply (Hb 1%nat ServedDemo.k2 12 true (encode "xyz")); reflexivity.
Defined.
