(* ===== verification/DaosEvent.v ===== *)
(** * Event queues and the ABI check: [daos_event.py]

    [daos_event_t] is allocated by Python and written by DAOS, so its size is a
    guess that the module proves at start-up with a guard area behind each
    event.  The host buffers are a store from addresses to bytes; a C call
    returns, besides its code, the stores it made, and a store past the end of
    a buffer is undefined behaviour ([Overflow]).  [verify_abi] runs a real
    asynchronous read and then inspects the guard. *)
From S2P Require Import Prelude PyStruct DfsBinding.
Open Scope Z_scope.
Open Scope py_scope.

Definition DAOS_EQ_NOWAIT : Z := 0.
Definition DAOS_EQ_DESTROY_FORCE : Z := 1.
(** [b"\xA5\x5A\xC3\x3C" * 64] *)
Definition _CANARY : bytes := concat (replicate 64 (byte_of_Z <$> [0xA5; 0x5A; 0xC3; 0x3C])).
(** [ctypes.sizeof(DaosEvent)]: an int padded to eight bytes, twenty words, one word. *)
Definition sizeof_DaosEvent : Z := 8 + 8 * 20 + 8.

(** [_probe_event_size]: the size and whether the shim gave it; [shim] is what
    [daos_ev_size()] returns, if the library loads. *)
Definition _probe_event_size (shim : option Z) (cur : Z * bool) : Z * bool :=
  let '(size0, from_shim) := cur in
  if from_shim then cur else
  match shim with
  | None => cur
  | Some size => if (size <=? 0) || (4096 <? size) then cur else (size, true)
  end.

(** ** The C side

    A store is an address and the bytes written from its start. *)
Abbreviation stores := (list (Z * bytes)).
Class LibEvent (W : Type) := {
  daos_eq_create : W → Z * Z * W;                                  (* rc, handle *)
  daos_eq_destroy : Z → Z → W → Z * W;
  daos_event_init : Z → Z → W → Z * stores * W;                    (* event, queue: rc *)
  daos_event_fini : Z → W → Z * stores * W;
  daos_event_abort : Z → W → Z * stores * W;
  daos_eq_poll : Z → bool → Z → nat → W → Z * list (option Z) * stores * W;
  dfs_sys2base : W → Z * Z * W;
  (* base obj dest length offset size_addr event: submission code *)
  dfs_read : Z → Z → Z → Z → Z → Z → Z → W → Z * stores * W;
}.

(** ** State: the C world and the host buffers *)
Record est (W : Type) := mkEst { e_w : W; e_mem : gmap Z bytes; e_base : option Z }.
Arguments mkEst {W}. Arguments e_w {W}. Arguments e_mem {W}. Arguments e_base {W}.

Section Events.
Context {W : Type} `{LibDfs W} `{LibEvent W}.
(** [EVENT_SIZE] and [EVENT_SIZE_FROM_SHIM] after the probe. *)
Context (EVENT_SIZE : Z) (FROM_SHIM : bool).
Abbreviation St := (est W).

Definition onW {X} (m : M W X) : M St X := λ s,
  let '(r, w) := m (e_w s) in (r, mkEst w (e_mem s) (e_base s)).
Definition getm {X} (f : gmap Z bytes → X) : M St X := λ s, (Ok (f (e_mem s)), s).
Definition setm (f : gmap Z bytes → gmap Z bytes) : M St unit := λ s,
  (Ok tt, mkEst (e_w s) (f (e_mem s)) (e_base s)).

Definition bufat (m : gmap Z bytes) (a : Z) : bytes := default [] (m !! a).
(** Stores of a C call. *)
Fixpoint apply_stores (l : stores) : M St unit :=
  match l with
  | [] => ret tt
  | (a, b) :: l =>
      let! old := getm (λ m, bufat m a) in
      if len old <? len b then raise (Overflow (len b - len old)) else
      let! _ := setm (λ m, <[a := b ++ drop (length b) old]> m) in
      apply_stores l
  end.
Definition ccall {X} (f : W → X * stores * W) : M St X := λ s,
  let '(x, st, w) := f (e_w s) in
  (let! _ := apply_stores st in ret x) (mkEst w (e_mem s) (e_base s)).

(** [ctypes.create_string_buffer]: a new buffer. *)
Definition alloc_buf (b : bytes) : M St Z := λ s,
  let a := fresh (dom (e_mem s)) in (Ok a, mkEst (e_w s) (<[a := b]> (e_mem s)) (e_base s)).

(** *** [EventSlot] *)
Record EventSlot := mkSlot { addr : Z; _canary_off : Z }.
Definition EventSlot_init (canary : bool) : M St EventSlot :=
  let tail := if canary then _CANARY else [] in
  let buf := zeros (Z.to_nat EVENT_SIZE) ++ tail in
  let! a := alloc_buf buf in
  if len buf <? sizeof_DaosEvent then raise ValueError else
  ret (mkSlot a (if canary then EVENT_SIZE else -1)).
Definition canary_of (slot : EventSlot) (m : gmap Z bytes) : bytes :=
  slice (bufat m (addr slot)) (_canary_off slot) (_canary_off slot + len _CANARY).
Definition canary_ok (slot : EventSlot) (m : gmap Z bytes) : bool :=
  if _canary_off slot <? 0 then true else bool_decide (canary_of slot m = _CANARY).
Definition repoison (slot : EventSlot) : M St unit :=
  if _canary_off slot <? 0 then ret tt else
  setm (λ m, let b := bufat m (addr slot) in
    <[addr slot := take (Z.to_nat (_canary_off slot)) b ++ _CANARY ++
                   drop (Z.to_nat (_canary_off slot + len _CANARY)) b]> m).
(** [ev_error]: a C int at the start of the event. *)
Definition signed32 (z : Z) : Z := if z <? 2 ^ 31 then z else z - 2 ^ 32.
Definition error (slot : EventSlot) (m : gmap Z bytes) : Z :=
  signed32 (le_val (slice (bufat m (addr slot)) 0 4)).

(** *** [EventQueue] *)
Definition EventQueue_init : M St Z := onW (λ w, checked (daos_eq_create w)).
Definition checked_rc (rc : Z) : M St unit := if negb (rc =? 0) then raise (DaosError rc) else ret tt.
Definition new_event (eqh : Z) (canary : bool) : M St EventSlot :=
  let! slot := EventSlot_init canary in
  let! rc := ccall (daos_event_init (addr slot) eqh) in
  let! _ := checked_rc rc in ret slot.
Definition fini_event (slot : EventSlot) : M St unit :=
  let! rc := ccall (daos_event_fini (addr slot)) in checked_rc rc.
Definition reinit_event (eqh : Z) (slot : EventSlot) : M St unit :=
  let! rc := ccall (daos_event_fini (addr slot)) in
  let! _ := checked_rc rc in
  let! _ := repoison slot in
  let! rc := ccall (daos_event_init (addr slot) eqh) in
  checked_rc rc.
Definition abort_event (slot : EventSlot) : M St unit :=
  let! _ := ccall (daos_event_abort (addr slot)) in ret tt.
Definition poll (eqh max_events : Z) (wait : bool) (timeout_us : Z) : M St (list Z) :=
  let n := Z.to_nat (Z.max 1 max_events) in
  let! (rc, arr) := ccall (daos_eq_poll eqh wait (if wait then timeout_us else DAOS_EQ_NOWAIT) n) in
  if rc <? 0 then raise (DaosError rc) else
  if len arr <? rc then raise OtherError else          (* IndexError *)
  ret (omap id (take (Z.to_nat rc) arr)).
(** [close]: the handle is the cookie; [None] is a closed queue. *)
Definition EventQueue_close (eqh : Z) (force : bool) : W → W := λ w,
  if eqh =? 0 then w else snd (daos_eq_destroy eqh (if force then DAOS_EQ_DESTROY_FORCE else 0) w).

(** *** [DfsSys.base] and [DfsSys.submit_read] *)
Definition base : M St Z := λ s,
  match e_base s with
  | Some b => (Ok b, s)
  | None =>
      match checked (dfs_sys2base (e_w s)) with
      | (Ok b, w) => (Ok b, mkEst w (e_mem s) (Some b))
      | (Raise e, w) => (Raise e, mkEst w (e_mem s) None)
      end
  end.
Definition submit_read (obj dest length offset size_addr ev_addr : Z) : M St unit :=
  let! b := base in
  let! rc := ccall (dfs_read b obj dest length offset size_addr ev_addr) in
  checked_rc rc.

(** *** [AsyncRead] *)
Record AsyncRead := mkRead {
  ar_slot : EventSlot; ar_obj : Z; ar_dest : Z; ar_length : Z; ar_offset : Z; ar_size : Z }.
Definition AsyncRead_init (slot : EventSlot) (obj dest length offset : Z) : M St AsyncRead :=
  let! size := alloc_buf (le_bytes 8 length) in
  ret (mkRead slot obj dest length offset size).
Definition submit (op : AsyncRead) : M St unit :=
  submit_read (ar_obj op) (ar_dest op) (ar_length op) (ar_offset op) (ar_size op) (addr (ar_slot op)).
Definition bytes_read (op : AsyncRead) (m : gmap Z bytes) : Z := le_val (bufat m (ar_size op)).
Definition EIO : Z := 5.
Definition check (op : AsyncRead) : M St Z :=
  let! ok := getm (canary_ok (ar_slot op)) in
  if negb ok then raise DaosEventABIError else
  let! err := getm (error (ar_slot op)) in
  if negb (err =? 0) then raise (DaosError err) else
  let! got := getm (bytes_read op) in
  if negb (got =? ar_length op) then raise (DaosError EIO) else ret got.

(** *** [verify_abi] *)
Record abi_info := mkInfo {
  event_size : Z; size_from_shim : bool; i_bytes_read : Z; i_canary_ok : bool; poll_identity_ok : bool }.

(** The poll loop: at most [fuel] polls of one millisecond. *)
Fixpoint poll_until (fuel : nat) (eqh : Z) : M St (list Z) :=
  match fuel with
  | O => ret []
  | S fuel =>
      let! done := poll eqh 4 true 1000 in
      match done with [] => poll_until fuel eqh | _ => ret done end
  end.

(** Between the open and the close of the probed object. *)
Definition verify_read (eqh : Z) (slot : EventSlot) (obj length : Z) : M St abi_info :=
  let! dest := alloc_buf (zeros (Z.to_nat length)) in
  let! op := AsyncRead_init slot obj dest length 0 in
  let! _ := submit op in
  let! done := poll_until 2000 eqh in
  match done with
  | [] => raise DaosEventABIError
  | _ =>
      if bool_decide (addr slot ∉ done) then raise DaosEventABIError else
      let! ok := getm (canary_ok slot) in
      if negb ok then raise DaosEventABIError else
      let! got := check op in
      ret (mkInfo EVENT_SIZE FROM_SHIM got true true)
  end.

(** After the event exists: the read, then its finalisation, whose own
    exceptions are dropped. *)
Definition verify_with (path : string) (length eqh : Z) (slot : EventSlot) : M St abi_info :=
  let body :=
    let! ok := getm (canary_ok slot) in
    if negb ok then raise DaosEventABIError else
    let! obj := onW (open_rdonly path) in
    λ s, let '(r, s') := verify_read eqh slot obj length s in
         (r, mkEst (close_obj obj (e_w s')) (e_mem s') (e_base s')) in
  λ s,
    let '(r, s') := body s in
    match try_except (fini_event slot) (λ e, if is_exception e then Some (ret tt) else None) s' with
    | (Ok _, s'') => (r, s'')
    | (Raise e, s'') => (Raise e, s'')
    end.
Definition verify_abi (path : string) (length : Z) : M St abi_info :=
  let! eqh := EventQueue_init in
  λ s,
    let '(r, s') := (let! slot := new_event eqh true in verify_with path length eqh slot) s in
    (r, mkEst (EventQueue_close eqh true (e_w s')) (e_mem s') (e_base s')).
Definition verify_abi_or_die (path : string) (length : Z) : M St abi_info :=
  try_except (verify_abi path length)
    (λ e, if bool_decide (e = DaosEventABIError) then Some (raise SystemExit) else None).
End Events.

(** ** The guard *)
Lemma len_CANARY : len _CANARY = 256.
Proof. reflexivity. Qed.
#[global] Opaque _CANARY.

Section Guard.
Context {W : Type} (EVENT_SIZE : Z).
Abbreviation St := (est W).

Lemma wp_store (a : Z) (b : bytes) (s : St) (Q : unit → St → Prop) E :
  (len b ≤ len (bufat (e_mem s) a) →
     Q tt (mkEst (e_w s) (<[a := b ++ drop (length b) (bufat (e_mem s) a)]> (e_mem s)) (e_base s))) →
  (len (bufat (e_mem s) a) < len b → E (Overflow (len b - len (bufat (e_mem s) a))) s) →
  wp (apply_stores [(a, b)]) s Q E.
Proof.
  intros HQ HE. rw /wp /apply_stores /bind /=. destruct (Z.ltb_spec (len (bufat (e_mem s) a)) (len b)); [by apply HE|by apply HQ].
Qed.

Lemma wp_slot_init canary (s : St) (Q : EventSlot → St → Prop) E :
  let buf := zeros (Z.to_nat EVENT_SIZE) ++ (if canary then _CANARY else []) in
  (∀ a, e_mem s !! a = None → sizeof_DaosEvent ≤ len buf →
     Q (mkSlot a (if canary then EVENT_SIZE else -1)) (mkEst (e_w s) (<[a := buf]> (e_mem s)) (e_base s))) →
  (∀ a, e_mem s !! a = None → len buf < sizeof_DaosEvent →
     E ValueError (mkEst (e_w s) (<[a := buf]> (e_mem s)) (e_base s))) →
  wp (EventSlot_init EVENT_SIZE canary) s Q E.
Proof.
  intros buf HQ HE. rw /EventSlot_init. apply wp_bind. rw {1}/wp /alloc_buf. fold buf.
  assert (e_mem s !! fresh (dom (e_mem s)) = None) as Hf by (apply not_elem_of_dom, is_fresh).
  destruct (Z.ltb_spec (len buf) sizeof_DaosEvent); [by apply HE|by apply HQ].
Qed.

Lemma slice_store_guard (old b : bytes) (n : nat) :
  (length b ≤ length old)%nat → length old = (n + length _CANARY)%nat → drop n old = _CANARY →
  drop n (b ++ drop (length b) old) = _CANARY ↔ drop n b `prefix_of` _CANARY.
Proof.
  intros Hb Ho Hg. destruct (decide (n ≤ length b)%nat) as [Hn|Hn].
  - rw drop_app_le //. assert (drop (length b) old = drop (length b - n) _CANARY) as ->.
    { rw -Hg drop_drop. f_equal. lia. }
    split; [intros <-; by eexists|]. intros [k Hk]. rw {1}Hk drop_app_length'; [rw length_drop; lia|done].
  - rw drop_app_ge; [lia|]. rw drop_drop. replace (length b + (n - length b))%nat with n by lia. rw Hg drop_ge; [lia|].
    split; [intros _; by exists _CANARY|done].
Qed.

(** C33: the guard behind an event is exact: C code that writes [len b] bytes
    from the start of a new event trips the check exactly when it wrote past
    [EVENT_SIZE] something else than the pattern; a write within the event
    never trips it, and only a write past the whole guard escapes it (it is
    the undefined behaviour the guard cannot catch). *)
Theorem guard_detects_overrun (b : bytes) (s : St) :
  0 ≤ EVENT_SIZE →
  wp (let! slot := EventSlot_init EVENT_SIZE true in
      let! _ := apply_stores [(addr slot, b)] in
      getm (canary_ok slot)) s
    (λ ok _, len b ≤ EVENT_SIZE + 256 ∧
       (ok = true ↔ drop (Z.to_nat EVENT_SIZE) b `prefix_of` _CANARY) ∧ (len b ≤ EVENT_SIZE → ok = true))
    (λ e _, (e = ValueError ∧ EVENT_SIZE + 256 < sizeof_DaosEvent) ∨
            (e = Overflow (len b - (EVENT_SIZE + 256)) ∧ EVENT_SIZE + 256 < len b)).
Proof.
  intros Hsz. set (n := Z.to_nat EVENT_SIZE). set (buf := zeros n ++ _CANARY).
  assert (len buf = EVENT_SIZE + 256) as Hbuf by (rw /buf len_app len_CANARY /len /zeros length_replicate; lia).
  apply wp_bind, wp_slot_init; rw -/n -/buf Hbuf; intros a Ha Hs; [|by left].
  apply wp_bind, wp_store; cbn; rw /bufat lookup_insert_eq /= Hbuf; intros Hb; [|by right].
  rw /wp /getm /canary_ok /canary_of /=. destruct (Z.ltb_spec EVENT_SIZE 0); [lia|]. split; [done|].
  assert (length _CANARY = 256%nat) as Hc by (pose proof len_CANARY; unfold len in *; lia).
  rw /bufat insert_insert_eq lookup_insert_eq /= len_CANARY.
  assert (slice (b ++ drop (length b) buf) EVENT_SIZE (EVENT_SIZE + 256) = drop n (b ++ drop (length b) buf)) as Hslice.
  { rw /slice -/n. apply take_ge. rw length_drop length_app length_drop. unfold len in *. lia. }
  rw Hslice bool_decide_eq_true. assert (drop n buf = _CANARY) as Hg.
  { rw /buf drop_app_length' //. by rw /zeros length_replicate. }
  rw slice_store_guard //; [unfold len in *; lia|rw /buf length_app /zeros length_replicate; lia|].
  split; [done|]. intros Hle. rw drop_ge; [unfold len in *; lia|]. by exists _CANARY.
Qed.
End Guard.

(** ** Nothing is leaked

    [eqs] are the event queues that exist.  Only [daos_eq_create] and
    [daos_eq_destroy] change them; no event call touches the object handles. *)
Class EventLaws (W : Type) `{LibDfsLaws W} `{!LibEvent W} := {
  eqs : W → gset Z;
  same_handles w w' : Prop := hs w' = hs w ∧ eqs w' = eqs w;
  eq_create_law w rc h w' : daos_eq_create w = (rc, h, w') →
    hs w' = hs w ∧ (rc = 0 → h ≠ 0 ∧ (h ∉ eqs w) ∧ eqs w' = {[h]} ∪ eqs w) ∧ (rc ≠ 0 → eqs w' = eqs w);
  eq_destroy_law h fl w rc w' : daos_eq_destroy h fl w = (rc, w') → hs w' = hs w ∧ eqs w' = eqs w ∖ {[h]};
  event_init_law ev h w rc st w' : daos_event_init ev h w = (rc, st, w') → same_handles w w';
  event_fini_law ev w rc st w' : daos_event_fini ev w = (rc, st, w') → same_handles w w';
  event_abort_law ev w rc st w' : daos_event_abort ev w = (rc, st, w') → same_handles w w';
  eq_poll_law h wait t n w r st w' : daos_eq_poll h wait t n w = (r, st, w') → same_handles w w';
  sys2base_law w rc b w' : dfs_sys2base w = (rc, b, w') → same_handles w w';
  dfs_read_law b o d l off sa ev w rc st w' : dfs_read b o d l off sa ev w = (rc, st, w') → same_handles w w';
  open_keeps_eqs p m f c w r w' : dfs_sys_open p m f c w = (r, w') → eqs w' = eqs w;
  close_keeps_eqs h w rc w' : dfs_sys_close h w = (rc, w') → eqs w' = eqs w;
}.

Section Balance.
Context {W : Type} `{EventLaws W} (EVENT_SIZE : Z) (FROM_SHIM : bool).
Abbreviation St := (est W).
Implicit Types s : St.

Definition same s s' : Prop := same_handles (e_w s) (e_w s').
#[local] Instance same_preorder : PreOrder same.
Proof. split; [done|]. intros s1 s2 s3 [H1' H2'] [H3' H4']. split; congruence. Qed.

Lemma keeps_getm {X} (f : gmap Z bytes → X) : keeps same (getm f).
Proof. done. Qed.
Lemma keeps_setm f : keeps same (setm f).
Proof. done. Qed.
Lemma keeps_alloc b : keeps same (alloc_buf b).
Proof. done. Qed.
#[local] Hint Resolve keeps_getm keeps_setm keeps_alloc : keeps.
Lemma keeps_stores l : keeps same (apply_stores l).
Proof. induction l as [|[a b] l IH]; cbn; keeps_tac. Qed.
#[local] Hint Resolve keeps_stores : keeps.
Lemma keeps_ccall {X} (f : W → X * stores * W) :
  (∀ w r st w', f w = (r, st, w') → same_handles w w') → keeps same (ccall f).
Proof.
  intros Hf s. rw /ccall. destruct (f (e_w s)) as [[x st] w] eqn:E. apply Hf in E.
  set (s1 := mkEst w (e_mem s) (e_base s)).
  assert (keeps same (let! _ := apply_stores st in ret x)) as Hk by keeps_tac.
  specialize (Hk s1). transitivity s1; [exact E|exact Hk].
Qed.
Lemma keeps_checked_rc rc : keeps same (checked_rc rc).
Proof. rw /checked_rc. keeps_tac. Qed.
#[local] Hint Resolve keeps_checked_rc : keeps.
Lemma keeps_fini slot : keeps same (fini_event slot).
Proof. rw /fini_event. keeps_tac. apply keeps_ccall. intros w. apply event_fini_law. Qed.
Lemma keeps_new eqh : keeps same (new_event EVENT_SIZE eqh true).
Proof. rw /new_event /EventSlot_init. keeps_tac. apply keeps_ccall. intros w. apply event_init_law. Qed.
Lemma keeps_poll eqh n wait t : keeps same (poll eqh n wait t).
Proof. rw /poll. keeps_tac; apply keeps_ccall; intros w; apply eq_poll_law. Qed.
#[local] Hint Resolve keeps_poll : keeps.
Lemma keeps_poll_until fuel eqh : keeps same (poll_until fuel eqh).
Proof. induction fuel as [|fuel IH]; cbn; keeps_tac. Qed.
#[local] Hint Resolve keeps_poll_until : keeps.
Lemma keeps_submit op : keeps same (submit op).
Proof.
  rw /submit /submit_read /base. keeps_tac.
  - intros s. destruct (e_base s); [done|]. rw /checked. destruct (dfs_sys2base (e_w s)) as [[rc b] w] eqn:E.
    apply sys2base_law in E. by destruct (negb (rc =? 0)).
  - apply keeps_ccall. intros w. apply dfs_read_law.
Qed.
#[local] Hint Resolve keeps_submit : keeps.
Lemma keeps_check op : keeps same (check op).
Proof. rw /check. keeps_tac. Qed.
#[local] Hint Resolve keeps_check : keeps.
Lemma keeps_verify_read eqh slot obj n : keeps same (verify_read EVENT_SIZE FROM_SHIM eqh slot obj n).
Proof. rw /verify_read /AsyncRead_init. keeps_tac. Qed.

Lemma open_rdonly_eqs p w : eqs (snd (open_rdonly p w)) = eqs w.
Proof.
  rw /open_rdonly /_open /checked. destruct (dfs_sys_open p _ DFS_RDONLY 0 w) as [[rc h] w'] eqn:E.
  apply open_keeps_eqs in E. by destruct (negb (rc =? 0)).
Qed.
Lemma close_obj_eqs h w : eqs (close_obj h w) = eqs w.
Proof. rw /close_obj. destruct (dfs_sys_close h w) as [rc w'] eqn:E. by apply close_keeps_eqs in E. Qed.

Lemma verify_with_same path n eqh slot : keeps same (verify_with EVENT_SIZE FROM_SHIM path n eqh slot).
Proof.
  intros s. rw /verify_with. set (body := bind _ _).
  assert (keeps same body) as Hbody.
  { rw /body. apply keeps_bind; [apply _|apply keeps_getm|]. intros ok.
    destruct (negb ok); [apply keeps_raise, _|]. intros s1. rw /bind /onW.
    pose proof (open_rdonly_spec path (e_w s1)) as Ho. pose proof (open_rdonly_eqs path (e_w s1)) as He. rw /wp in Ho.
    destruct (open_rdonly path (e_w s1)) as [[h|e] w]; cbn in He.
    - destruct Ho as (c & _ & _ & Hn & Hh & _). set (s2 := mkEst w (e_mem s1) (e_base s1)).
      pose proof (keeps_verify_read eqh slot h n s2) as [Hvh Hve].
      change (same s1 (snd (let '(r, s') := verify_read EVENT_SIZE FROM_SHIM eqh slot h n s2 in
        (r, mkEst (close_obj h (e_w s')) (e_mem s') (e_base s'))))).
      destruct (verify_read EVENT_SIZE FROM_SHIM eqh slot h n s2) as [r s3]. cbn in Hvh, Hve.
      destruct (close_obj_spec h (e_w s3)) as (_ & Hch & _). split.
      + change (hs (close_obj h (e_w s3)) = hs (e_w s1)). by rw Hch Hvh Hh delete_insert_id.
      + change (eqs (close_obj h (e_w s3)) = eqs (e_w s1)). by rw close_obj_eqs Hve He.
    - destruct Ho as ((_ & Hh & _) & _). split; [exact Hh|exact He]. }
  specialize (Hbody s). destruct (body s) as [r s1]. cbn in Hbody |- *.
  assert (keeps same (try_except (fini_event slot) (λ e, if is_exception e then Some (ret tt) else None))) as Hf.
  { apply keeps_except; [apply _|apply keeps_fini|]. intros e k. case_match; intros [= <-]. apply keeps_ret, _. }
  specialize (Hf s1). destruct (try_except _ _ s1) as [[[]|e] s2]; cbn in *; by transitivity s1.
Qed.

(** Whatever the ABI check finds (a clean read, a clobbered guard, a read
    that never completes, any DAOS error), the probed object is closed and
    the event queue destroyed: the open handles and the queues are those of
    before the call. *)
Theorem verify_abi_leaks_nothing path n s :
  same s (snd (verify_abi EVENT_SIZE FROM_SHIM path n s)).
Proof.
  rw /verify_abi /EventQueue_init {1}/bind /onW /checked.
  destruct (daos_eq_create (e_w s)) as [[rc eqh] w] eqn:E. apply eq_create_law in E as (Hh & Hz & Hn).
  destruct (Z.eqb_spec rc 0) as [->|Hrc]; cbn [negb]; [|by split; [|apply Hn]].
  destruct (Hz eq_refl) as (Hne & Hfresh & Heq). clear Hz Hn. set (s1 := mkEst w (e_mem s) (e_base s)).
  assert (keeps same (let! slot := new_event EVENT_SIZE eqh true in verify_with EVENT_SIZE FROM_SHIM path n eqh slot)) as Hk.
  { apply keeps_bind; [apply _|apply keeps_new|]. intros slot. apply verify_with_same. }
  specialize (Hk s1). destruct (bind (new_event EVENT_SIZE eqh true) _ s1) as [r s2].
  cbn in Hk |- *. destruct Hk as [Hk1 Hk2].
  rw /EventQueue_close. destruct (Z.eqb_spec eqh 0); [done|].
  destruct (daos_eq_destroy eqh DAOS_EQ_DESTROY_FORCE (e_w s2)) as [rc w2] eqn:Ed.
  apply eq_destroy_law in Ed as [Hdh Hde]. split; cbn; [by rw Hdh Hk1|]. rw Hde Hk2 /= Heq. set_solver.
Qed.
End Balance.

(** ** Memory safety

    [wr] are the host addresses the C side may store to, with the most bytes
    it stores there: an initialised event ([real_size] bytes, what the loaded
    DAOS really uses), and the buffers of a read in flight. *)
Definition stores_ok (m : gmap Z Z) (st : stores) : Prop :=
  Forall (λ x, ∃ n, m !! x.1 = Some n ∧ len x.2 ≤ n) st.
Class StoreLaws (W : Type) `{!LibDfs W, !LibEvent W} (real_size : Z) := {
  wr : W → gmap Z Z;
  init_stores ev h w rc st w' : daos_event_init ev h w = (rc, st, w') →
    stores_ok (<[ev := real_size]> (wr w)) st ∧ wr w' ⊆ <[ev := real_size]> (wr w);
  fini_stores ev w rc st w' : daos_event_fini ev w = (rc, st, w') →
    stores_ok (<[ev := real_size]> (wr w)) st ∧ wr w' ⊆ <[ev := real_size]> (wr w);
  poll_stores h wait t n w r st w' : daos_eq_poll h wait t n w = (r, st, w') →
    stores_ok (wr w) st ∧ wr w' ⊆ wr w;
  read_stores b o d l off sa ev w rc st w' : dfs_read b o d l off sa ev w = (rc, st, w') →
    stores_ok (<[d := l]> (<[sa := 8]> (<[ev := real_size]> (wr w)))) st ∧
    wr w' ⊆ <[d := l]> (<[sa := 8]> (<[ev := real_size]> (wr w)));
  create_wr w r w' : daos_eq_create w = (r, w') → wr w' ⊆ wr w;
  destroy_wr h fl w r w' : daos_eq_destroy h fl w = (r, w') → wr w' ⊆ wr w;
  base_wr w r w' : dfs_sys2base w = (r, w') → wr w' ⊆ wr w;
  open_wr p m f c w r w' : dfs_sys_open p m f c w = (r, w') → wr w' ⊆ wr w;
  close_wr h w r w' : dfs_sys_close h w = (r, w') → wr w' ⊆ wr w;
}.

Section Safety.
Context {W : Type} (real_size : Z) `{StoreLaws W real_size} (EVENT_SIZE : Z) (FROM_SHIM : bool).
Abbreviation St := (est W).
Implicit Types s : St.

(** The buffer at [a] has room for [n] bytes. *)
Definition room s (a n : Z) : Prop := ∃ b, e_mem s !! a = Some b ∧ n ≤ len b.
Definition mem_ok s : Prop := ∀ a n, wr (e_w s) !! a = Some n → room s a n.
(** Buffers stay where they are and keep their size. *)
Definition grows s s' : Prop :=
  ∀ a b, e_mem s !! a = Some b → ∃ b', e_mem s' !! a = Some b' ∧ len b' = len b.
Definition good s s' : Prop := mem_ok s' ∧ grows s s'.

Lemma grows_refl s : grows s s.
Proof. intros a b Hb. eauto. Qed.
Lemma grows_trans s1 s2 s3 : grows s1 s2 → grows s2 s3 → grows s1 s3.
Proof. intros H12 H23 a b Hb. destruct (H12 a b Hb) as (b' & Hb' & <-). by apply H23. Qed.
Lemma room_grows s s' a n : grows s s' → room s a n → room s' a n.
Proof. intros Hg (b & Hb & Hn). destruct (Hg a b Hb) as (b' & Hb' & Hl). exists b'. split; [done|lia]. Qed.
Lemma good_trans s1 s2 s3 : good s1 s2 → good s2 s3 → good s1 s3.
Proof. intros [_ H12] [Hm H23]. split; [done|by eapply grows_trans]. Qed.
Lemma good_refl s : mem_ok s → good s s.
Proof. split; [done|apply grows_refl]. Qed.

(** [m] is memory safe from [s]: no undefined behaviour, and [Q] of its result. *)
Definition safe {X} (m : M St X) s (Q : X → St → Prop) : Prop :=
  wp m s (λ x s', good s s' ∧ Q x s') (λ e s', is_exception e = true ∧ good s s').

Lemma safe_ret {X} (x : X) s (Q : X → St → Prop) : mem_ok s → Q x s → safe (ret x) s Q.
Proof. intros Hm HQ. split; [by apply good_refl|done]. Qed.
Lemma safe_raise {X} e s (Q : X → St → Prop) : mem_ok s → is_exception e = true → safe (raise e) s Q.
Proof. intros Hm He. split; [done|by apply good_refl]. Qed.
Lemma safe_bind {X Y} (m : M St X) (f : X → M St Y) s P Q :
  safe m s P → (∀ x s', good s s' → P x s' → safe (f x) s' Q) → safe (bind m f) s Q.
Proof.
  intros Hm Hf. apply wp_bind. eapply wp_mono; [exact Hm| |done]. intros x s1 [Hg HP].
  eapply wp_mono; [by apply Hf| |].
  - intros y s2 [Hg2 HQ]. split; [by eapply good_trans|done].
  - intros e s2 [He Hg2]. split; [done|by eapply good_trans].
Qed.
Lemma safe_mono {X} (m : M St X) s (P Q : X → St → Prop) :
  safe m s P → (∀ x s', good s s' → P x s' → Q x s') → safe m s Q.
Proof. intros Hm HPQ. eapply wp_mono; [exact Hm| |done]. intros x s' [Hg HP]. eauto. Qed.
Lemma safe_getm {X} (f : gmap Z bytes → X) s : mem_ok s → safe (getm f) s (λ _ _, True).
Proof. intros Hm. split; [by apply good_refl|done]. Qed.
Lemma safe_checked_rc rc s : mem_ok s → safe (checked_rc rc) s (λ _ _, True).
Proof. intros Hm. rw /checked_rc. case_match; [by apply safe_raise|by apply safe_ret]. Qed.
Lemma safe_onW {X} (m : M W X) s :
  mem_ok s → (∀ r w, m (e_w s) = (r, w) → wr w ⊆ wr (e_w s) ∧ ∀ e, r = Raise e → is_exception e = true) →
  safe (onW m) s (λ _ _, True).
Proof.
  intros Hm Hf. rw /safe /wp /onW. destruct (m (e_w s)) as [r w]. destruct (Hf r w eq_refl) as [Hw He].
  assert (good s (mkEst w (e_mem s) (e_base s))) as Hg.
  { split; [|by intros a b Hb; exists b]. intros a n Ha. by apply Hm, (lookup_weaken _ _ _ _ Ha). }
  destruct r as [x|e]; [by split|]. split; [by apply He|done].
Qed.

Lemma fresh_none s : e_mem s !! fresh (dom (e_mem s)) = None.
Proof. apply not_elem_of_dom, is_fresh. Qed.
Lemma safe_alloc b s : mem_ok s → safe (alloc_buf b) s (λ a s', room s' a (len b)).
Proof.
  intros Hm. rw /safe /wp /alloc_buf. pose proof (fresh_none s) as Hf.
  assert (grows s (mkEst (e_w s) (<[fresh (dom (e_mem s)) := b]> (e_mem s)) (e_base s))) as Hg.
  { intros a b' Hb. exists b'. cbn. rw lookup_insert_ne //. congruence. }
  split; [split; [|exact Hg]|].
  - intros a n Ha. apply (room_grows s); [exact Hg|by apply Hm].
  - exists b. split; [apply lookup_insert_eq|lia].
Qed.

(** A C call that only stores where it may. *)
Lemma safe_stores m st s :
  mem_ok s → (∀ a n, m !! a = Some n → room s a n) → stores_ok m st → safe (apply_stores st) s (λ _ _, True).
Proof.
  intros Hm Hroom Hst. revert s Hm Hroom. induction Hst as [|[a b] st (n & Ha & Hn) _ IH]; intros s Hm Hroom; cbn [apply_stores fst snd] in *.
  { by apply safe_ret. }
  destruct (Hroom a n Ha) as (old & Hold & Hlen).
  rw /safe. apply wp_bind. rw {1}/wp /getm. rw /bufat Hold /=.
  destruct (Z.ltb_spec (len old) (len b)); [lia|]. apply wp_bind. rw {1}/wp /setm.
  set (new := b ++ drop (length b) old).
  assert (len new = len old) as Hl by (rw /new len_app; unfold len in *; rw length_drop; lia).
  set (s1 := mkEst (e_w s) (<[a := new]> (e_mem s)) (e_base s)).
  assert (grows s s1) as Hg.
  { intros a' b' Hb'. cbn. destruct (decide (a' = a)) as [->|Hne]; [|by rw lookup_insert_ne //; eauto].
    rw lookup_insert_eq. exists new. split; [done|congruence]. }
  assert (mem_ok s1) as Hm1 by (intros a' n' Ha'; apply (room_grows s); [exact Hg|by apply Hm]).
  eapply wp_mono; [apply (IH s1); [exact Hm1|]| |].
  - intros a' n' Ha'. apply (room_grows s); [exact Hg|by apply Hroom].
  - intros x s2 [Hg2 _]. split; [|done]. by eapply good_trans; [split; [exact Hm1|exact Hg]|].
  - intros e s2 [He Hg2]. split; [done|]. by eapply good_trans; [split; [exact Hm1|exact Hg]|].
Qed.
Lemma safe_ccall {X} (f : W → X * stores * W) m s :
  mem_ok s → (∀ a n, m !! a = Some n → room s a n) →
  (∀ r st w', f (e_w s) = (r, st, w') → stores_ok m st ∧ wr w' ⊆ m) →
  safe (ccall f) s (λ _ _, True).
Proof.
  intros Hm Hroom Hf. rw /safe /wp /ccall. destruct (f (e_w s)) as [[x st] w].
  destruct (Hf x st w eq_refl) as [Hst Hw]. set (s1 := mkEst w (e_mem s) (e_base s)).
  assert (mem_ok s1) as Hm1 by (intros a n Ha; by apply Hroom, (lookup_weaken _ _ _ _ Ha)).
  assert (safe (let! _ := apply_stores st in ret x) s1 (λ _ _, True)) as Hs.
  { eapply safe_bind; [by apply (safe_stores m)|]. intros _ s2 [Hm2 _] _. by apply safe_ret. }
  exact Hs.
Qed.

Lemma room_insert s (m : gmap Z Z) a n :
  (∀ a' n', m !! a' = Some n' → room s a' n') → room s a n →
  ∀ a' n', <[a := n]> m !! a' = Some n' → room s a' n'.
Proof. intros Hm Ha a' n' [[<- <-]|[_ H']]%lookup_insert_Some; auto. Qed.

Lemma safe_fini slot s : mem_ok s → room s (addr slot) real_size → safe (fini_event slot) s (λ _ _, True).
Proof.
  intros Hm Hr. eapply safe_bind; [apply (safe_ccall _ (<[addr slot := real_size]> (wr (e_w s))))|]; [done|by apply room_insert| |].
  - intros r st w'. apply fini_stores.
  - intros rc s1 [Hm1 _] _. by apply safe_checked_rc.
Qed.
Lemma safe_poll eqh n wait t s : mem_ok s → safe (poll eqh n wait t) s (λ _ _, True).
Proof.
  intros Hm. eapply safe_bind; [apply (safe_ccall _ (wr (e_w s)))|]; [done|done|intros r st w'; apply poll_stores|].
  intros [rc arr] s1 [Hm1 _] _. repeat case_match; [by apply safe_raise..|by apply safe_ret].
Qed.
Lemma safe_poll_until fuel eqh s : mem_ok s → safe (poll_until fuel eqh) s (λ _ _, True).
Proof.
  revert s. induction fuel as [|fuel IH]; intros s Hm; cbn [poll_until]; [by apply safe_ret|].
  eapply safe_bind; [by apply safe_poll|]. intros done s1 [Hm1 _] _. destruct done; [by apply IH|by apply safe_ret].
Qed.

Lemma safe_new_event eqh s :
  0 ≤ EVENT_SIZE → real_size ≤ EVENT_SIZE + 256 → mem_ok s →
  safe (new_event EVENT_SIZE eqh true) s (λ slot s', room s' (addr slot) real_size).
Proof.
  intros Hsz Hreal Hm. rw /new_event.
  eapply (safe_bind _ _ _ (λ slot s', room s' (addr slot) real_size)).
  { rw /EventSlot_init. eapply safe_bind; [by apply safe_alloc|]. intros a s1 [Hm1 _] Ha.
    case_match; [by apply safe_raise|]. apply safe_ret; [done|]. destruct Ha as (b & Hb & Hlen).
    exists b. split; [done|]. rw len_app len_CANARY in Hlen. rw /len /zeros length_replicate in Hlen.
    unfold len in *. lia. }
  intros slot s1 [Hm1 _] Hr.
  eapply safe_bind; [apply (safe_ccall _ (<[addr slot := real_size]> (wr (e_w s1))))|]; [done|by apply room_insert| |].
  - intros r st w'. apply init_stores.
  - intros rc s2 [Hm2 Hg2] _. eapply safe_bind; [by apply safe_checked_rc|]. intros _ s3 [Hm3 Hg3] _.
    apply safe_ret; [done|]. eapply room_grows; [exact Hg3|]. by eapply room_grows.
Qed.

Lemma safe_base s : mem_ok s → safe base s (λ _ _, True).
Proof.
  intros Hm. rw /safe /wp /base. destruct (e_base s) as [b|]; [by split; [apply good_refl|]|].
  rw /checked. destruct (dfs_sys2base (e_w s)) as [[rc b] w] eqn:E. apply base_wr in E.
  assert (∀ o, good s (mkEst w (e_mem s) o)) as Hg.
  { intros o. split; [|by intros a b' Hb'; exists b']. intros a n Ha. by apply Hm, (lookup_weaken _ _ _ _ Ha). }
  destruct (negb (rc =? 0)); by split.
Qed.

Lemma safe_verify_read eqh slot obj n s :
  0 ≤ n → mem_ok s → room s (addr slot) real_size →
  safe (verify_read EVENT_SIZE FROM_SHIM eqh slot obj n) s (λ _ _, True).
Proof.
  intros Hn Hm Hslot. eapply safe_bind; [by apply safe_alloc|]. intros dest s1 [Hm1 Hg1] Hdest.
  assert (room s1 dest n) as Hd.
  { destruct Hdest as (b & Hb & Hl). exists b. split; [done|]. rw /len /zeros length_replicate in Hl. unfold len. lia. }
  eapply (safe_bind _ _ _ (λ op s', room s' (ar_size op) 8 ∧ ar_dest op = dest ∧ ar_slot op = slot ∧ ar_length op = n)).
  { eapply safe_bind; [by apply safe_alloc|]. intros a s2 [Hm2 _] Ha. apply safe_ret; [done|]. by split_and!. }
  intros op s2 [Hm2 Hg2] (Hsa & Hopd & Hops & Hopl).
  assert (room s2 (addr slot) real_size) as Hs2 by (eapply room_grows; [exact Hg2|]; by eapply room_grows).
  assert (room s2 dest n) as Hd2 by (by eapply room_grows).
  eapply safe_bind; [|].
  { rw /submit /submit_read. eapply safe_bind; [by apply safe_base|]. intros b s3 [Hm3 Hg3] _.
    rw Hopd Hops Hopl. eapply safe_bind; [apply (safe_ccall _ (<[dest := n]> (<[ar_size op := 8]>
      (<[addr slot := real_size]> (wr (e_w s3))))))|]; [done| | |].
    - apply room_insert; [apply room_insert; [apply room_insert; [done|]|]|]; by eapply room_grows.
    - intros r st w'. apply read_stores.
    - intros rc s4 [Hm4 _] _. by apply safe_checked_rc. }
  intros _ s3 [Hm3 _] _. eapply safe_bind; [by apply safe_poll_until|]. intros done s4 [Hm4 _] _.
  destruct done; [by apply safe_raise|]. case_match; [by apply safe_raise|].
  eapply safe_bind; [by apply safe_getm|]. intros ok s5 [Hm5 _] _. case_match; [by apply safe_raise|].
  eapply (safe_bind _ _ _ (λ _ _, True)).
  { rw /check. eapply safe_bind; [by apply safe_getm|]. intros ok' s6 [Hm6 _] _. case_match; [by apply safe_raise|].
    eapply safe_bind; [by apply safe_getm|]. intros err s7 [Hm7 _] _. case_match; [by apply safe_raise|].
    eapply safe_bind; [by apply safe_getm|]. intros got s8 [Hm8 _] _. case_match; [by apply safe_raise|by apply safe_ret]. }
  intros got s6 [Hm6 _] _. by apply safe_ret.
Qed.

Lemma safe_world {X} (r : res X) s s1 (f : W → W) :
  (∀ w, wr (f w) ⊆ wr w) → good s s1 → good s (mkEst (f (e_w s1)) (e_mem s1) (e_base s1)).
Proof.
  intros Hf [Hm Hg]. split; [|exact Hg]. intros a n Ha. exact (Hm a n (lookup_weaken _ _ _ _ Ha (Hf _))).
Qed.
Lemma close_obj_wr h w : wr (close_obj h w) ⊆ wr w.
Proof. rw /close_obj. destruct (dfs_sys_close h w) as [rc w'] eqn:E. by apply close_wr in E. Qed.
Lemma open_rdonly_wr p w r w' : open_rdonly p w = (r, w') →
  wr w' ⊆ wr w ∧ ∀ e, r = Raise e → is_exception e = true.
Proof.
  rw /open_rdonly /_open /checked. destruct (dfs_sys_open p _ DFS_RDONLY 0 w) as [[rc h] w1] eqn:E.
  apply open_wr in E. destruct (negb (rc =? 0)); intros [= <- <-]; split; [done| |done|done]. by intros e [= <-].
Qed.

Lemma safe_verify_with path n eqh slot s :
  0 ≤ n → mem_ok s → room s (addr slot) real_size →
  safe (verify_with EVENT_SIZE FROM_SHIM path n eqh slot) s (λ _ _, True).
Proof.
  intros Hn Hm Hslot. rw /safe /verify_with /wp. set (body := bind _ _).
  assert (safe body s (λ _ _, True)) as Hbody.
  { eapply safe_bind; [by apply safe_getm|]. intros ok s1 [Hm1 Hg1] _. case_match; [by apply safe_raise|].
    eapply safe_bind; [apply safe_onW; [done|intros r w; apply open_rdonly_wr]|]. intros h s2 [Hm2 Hg2] _.
    assert (room s2 (addr slot) real_size) as Hs2 by (eapply room_grows; [exact Hg2|]; by eapply room_grows).
    pose proof (safe_verify_read eqh slot h n s2 Hn Hm2 Hs2) as Hv. rw /safe /wp in Hv |- *.
    destruct (verify_read EVENT_SIZE FROM_SHIM eqh slot h n s2) as [[x|e] s3].
    - destruct Hv as [Hg _]. split; [|done]. apply (safe_world (Ok x)); [apply close_obj_wr|done].
    - destruct Hv as [He Hg]. split; [done|]. apply (safe_world (Ok tt)); [apply close_obj_wr|done]. }
  rw /safe /wp in Hbody. destruct (body s) as [r s1].
  assert (good s s1 ∧ ∀ e, r = Raise e → is_exception e = true) as [Hg1 Hr].
  { destruct r; [by destruct Hbody as [? _]|]. destruct Hbody as [He ?]. split; [done|]. by intros e0 [= <-]. }
  clear Hbody. destruct Hg1 as [Hm1 Hg1].
  assert (room s1 (addr slot) real_size) as Hs1 by (by eapply room_grows).
  pose proof (safe_fini slot s1 Hm1 Hs1) as Hf. rw /safe /wp in Hf. rw /try_except.
  destruct (fini_event slot s1) as [[[]|e] s2].
  - destruct Hf as [Hg2 _]. assert (good s s2) by (by eapply good_trans). destruct r; split; eauto.
  - destruct Hf as [He Hg2]. rw He /ret. assert (good s s2) by (by eapply good_trans). destruct r; split; eauto.
Qed.

(** C22: the ABI check is memory safe even where the layout is wrong: as long
    as the event DAOS really uses is at most 256 bytes larger than the
    declared one, no store of the whole cycle (create, init, read, poll,
    finalise) leaves its buffer, whatever fails on the way, and no buffer is
    moved or resized; so the guard, which the cycle may overwrite, is there to
    be inspected. *)
Theorem verify_abi_is_memory_safe path n s :
  0 ≤ EVENT_SIZE → real_size ≤ EVENT_SIZE + 256 → 0 ≤ n → mem_ok s →
  wp (verify_abi EVENT_SIZE FROM_SHIM path n) s
    (λ _ s', good s s') (λ e s', is_exception e = true ∧ good s s').
Proof.
  intros Hsz Hreal Hn Hm. rw /verify_abi. apply wp_bind.
  eapply wp_mono; [apply (safe_onW (λ w, checked (daos_eq_create w)) s Hm)| |]; cycle 2.
  - intros e s' Hr. exact Hr.
  - intros r w. rw /checked. destruct (daos_eq_create (e_w s)) as [[rc h] w'] eqn:E. apply create_wr in E.
    destruct (negb (rc =? 0)); intros [= <- <-]; split; [done| |done|done]. by intros e [= <-].
  - intros eqh s1 [[Hm1 Hg1] _]. rw /wp.
    assert (safe (let! slot := new_event EVENT_SIZE eqh true in verify_with EVENT_SIZE FROM_SHIM path n eqh slot) s1
      (λ _ _, True)) as Hs.
    { eapply safe_bind; [by apply safe_new_event|]. intros slot s2 [Hm2 _] Hr. by apply safe_verify_with. }
    rw /safe /wp in Hs. destruct (bind (new_event EVENT_SIZE eqh true) _ s1) as [r s2].
    assert (∀ w, wr (EventQueue_close eqh true w) ⊆ wr w) as Hcl.
    { intros w. rw /EventQueue_close. destruct (eqh =? 0); [reflexivity|]. destruct (daos_eq_destroy eqh DAOS_EQ_DESTROY_FORCE w) as [rc w'] eqn:E.
      by apply destroy_wr in E. }
    assert (∀ s2, good s1 s2 → good s (mkEst (EventQueue_close eqh true (e_w s2)) (e_mem s2) (e_base s2))) as Hfin.
    { intros s3 Hg. apply (safe_world (Ok tt)); [exact Hcl|]. eapply good_trans; [|exact Hg]. by split. }
    destruct r as [x|e]; [by apply Hfin; destruct Hs|]. destruct Hs as [He Hg]. split; [done|by apply Hfin].
Qed.
End Safety.

(** *** The size of an event *)

(** Whatever the shim reports, the size used is the declared one or a
    plausible one of the shim (1 to 4096), and once it came from the shim it
    is never changed again. *)
Theorem probed_size_is_plausible shim shim' :
  let declared := (sizeof_DaosEvent, false) in
  let cur := _probe_event_size shim declared in
  1 ≤ fst cur ≤ 4096 ∧ (cur = declared ∨ ∃ n, shim = Some n ∧ cur = (n, true)) ∧
  (snd cur = true → _probe_event_size shim' cur = cur).
Proof.
  cbn. destruct shim as [n|]; cbn; [|by split_and!; [..|left|]].
  destruct (Z.leb_spec n 0); cbn; [by split_and!; [..|left|]|].
  destruct (Z.ltb_spec 4096 n); cbn; [by split_and!; [..|left|]|].
  split_and!; [lia|lia|right; by exists n|done].
Qed.

(** ** A concrete event library

    The in-memory DFS with event queues: a submitted read completes at the
    next poll. *)
Module EvDemo.
Definition real_size : Z := 176.
Record world := mkWorld { ew_dfs : MemDfs.mem; queues : gset Z; wrs : gmap Z Z; flight : list (Z * Z * Z * bytes) }.
Definition set_dfs (d : MemDfs.mem) (w : world) : world := mkWorld d (queues w) (wrs w) (flight w).
Definition lift1 {X} (f : MemDfs.mem → X * MemDfs.mem) (w : world) : X * world :=
  let '(x, d) := f (ew_dfs w) in (x, set_dfs d w).
#[global] Instance dfs : LibDfs world := {|
  dfs_sys_open p m f c := lift1 (dfs_sys_open p m f c); dfs_sys_close h := lift1 (dfs_sys_close h);
  dfs_sys_read h o n := lift1 (dfs_sys_read h o n); dfs_sys_write h o b := lift1 (dfs_sys_write h o b);
  dfs_sys_stat p := lift1 (dfs_sys_stat p); dfs_sys_mkdir_p p := lift1 (dfs_sys_mkdir_p p);
  dfs_sys_remove_type p := lift1 (dfs_sys_remove_type p); dfs_sys_opendir p := lift1 (dfs_sys_opendir p);
  dfs_sys_readdir d := lift1 (dfs_sys_readdir d); dfs_sys_closedir d := lift1 (dfs_sys_closedir d);
  dfs_lookup p f := lift1 (dfs_lookup p f); dfs_release h := lift1 (dfs_release h);
  dfs_move d n d' n' := lift1 (dfs_move d n d' n') |}.
Lemma lift1_inv {X} (f : MemDfs.mem → X * MemDfs.mem) w x w' :
  lift1 f w = (x, w') → f (ew_dfs w) = (x, ew_dfs w') ∧ queues w' = queues w ∧ wrs w' = wrs w.
Proof. rw /lift1. destruct (f (ew_dfs w)) as [y d]. by intros [= <- <-]. Qed.
#[global] Program Instance dfs_laws : LibDfsLaws world :=
  {| fs w := fs (ew_dfs w); hs w := hs (ew_dfs w); up w := up (ew_dfs w) |}.
Next Obligation. intros * [E _]%lift1_inv. exact (open_law _ _ _ _ _ _ _ _ E). Qed.
Next Obligation. intros * [E _]%lift1_inv. exact (close_law _ _ _ _ E). Qed.
Next Obligation. intros * [E _]%lift1_inv. exact (read_law _ _ _ _ _ _ _ _ _ E). Qed.
Next Obligation. intros * [E _]%lift1_inv. exact (write_law _ _ _ _ _ _ _ _ _ E). Qed.
Next Obligation. intros * [E _]%lift1_inv. exact (stat_law _ _ _ _ _ E). Qed.
Next Obligation. intros * [E _]%lift1_inv. exact (remove_law _ _ _ _ E). Qed.

Definition set_wrs (m : gmap Z Z) (w : world) : world := mkWorld (ew_dfs w) (queues w) m (flight w).
Definition legal (m : gmap Z Z) (x : Z * bytes) : bool :=
  match m !! x.1 with Some n => len x.2 <=? n | None => false end.
Definition landing (x : Z * Z * Z * bytes) : stores :=
  let '(_, dest, size, data) := x in [(dest, data); (size, le_bytes 8 (len data))].
Definition poll_all (w : world) : Z * list (option Z) * stores * world :=
  (len (flight w), (λ x, Some x.1.1.1) <$> flight w,
   filter (λ x, legal (wrs w) x) (concat (landing <$> flight w)),
   mkWorld (ew_dfs w) (queues w) (wrs w) []).
Definition start_read (obj dest length off size ev : Z) (w : world) : Z * stores * world :=
  let w := set_wrs (<[dest := length]> (<[size := 8]> (<[ev := real_size]> (wrs w)))) w in
  match hs w !! obj ≫= λ p, fs w !! p with
  | Some c => (0, [], mkWorld (ew_dfs w) (queues w) (wrs w) (flight w ++ [(ev, dest, size, slice c off (off + length))]))
  | None => (9, [], w)
  end.
#[global] Instance events : LibEvent world := {|
  daos_eq_create w := let h := fresh ({[0]} ∪ queues w) in (0, h, mkWorld (ew_dfs w) ({[h]} ∪ queues w) (wrs w) (flight w));
  daos_eq_destroy h _ w := (0, mkWorld (ew_dfs w) (queues w ∖ {[h]}) (wrs w) (flight w));
  daos_event_init ev _ w := (0, [(ev, zeros 176)], set_wrs (<[ev := real_size]> (wrs w)) w);
  daos_event_fini ev w := (0, [], set_wrs (<[ev := real_size]> (wrs w)) w);
  daos_event_abort ev w := (0, [], w);
  daos_eq_poll _ _ _ _ w := poll_all w;
  dfs_sys2base w := (0, 1, w);
  dfs_read _ obj dest length off size ev w := start_read obj dest length off size ev w |}.
#[global] Program Instance event_laws : EventLaws world := {| eqs := queues |}.
Next Obligation.
  intros w rc h w' [= <- <- <-]. split; [done|]. split; [|done]. intros _.
  pose proof (is_fresh ({[0]} ∪ queues w)) as Hf. split_and!; [set_solver|set_solver|done].
Qed.
Next Obligation. by intros h fl w rc w' [= <- <-]. Qed.
Next Obligation. by intros ev h w rc st w' [= <- <- <-]. Qed.
Next Obligation. by intros ev w rc st w' [= <- <- <-]. Qed.
Next Obligation. by intros ev w rc st w' [= <- <- <-]. Qed.
Next Obligation. by intros h wait t n w r st w' [= <- <- <-]. Qed.
Next Obligation. by intros w rc b w' [= <- <- <-]. Qed.
Next Obligation. intros b o d l off sa ev w rc st w'. cbn. rw /start_read. case_match; by intros [= <- <- <-]. Qed.
Next Obligation. intros p m f c w r w' E%lift1_inv. by destruct E as (_ & -> & _). Qed.
Next Obligation. intros h w rc w' E%lift1_inv. by destruct E as (_ & -> & _). Qed.
#[global] Program Instance store_laws : StoreLaws world real_size := {| wr := wrs |}.
Next Obligation.
  intros ev h w rc st w' [= <- <- <-]. split; [|reflexivity]. constructor; [|constructor].
  exists real_size. split; [by rw lookup_insert_eq|by vm_compute].
Qed.
Next Obligation. intros ev w rc st w' [= <- <- <-]. split; [constructor|reflexivity]. Qed.
Next Obligation.
  intros h wait t n w r st w' [= <- <- <-]. split; [|reflexivity]. apply Forall_forall. intros x [Hx _]%list_elem_of_filter.
  rw /legal in Hx. destruct (wrs w !! x.1) as [k|]; [|done]. exists k. split; [done|]. by apply Is_true_true_1, Z.leb_le in Hx.
Qed.
Next Obligation.
  intros b o d l off sa ev w rc st w'. cbn. rw /start_read. case_match; intros [= <- <- <-]; split; try reflexivity; constructor.
Qed.
Next Obligation. intros w r w' [= <- <-]. reflexivity. Qed.
Next Obligation. intros h fl w r w' [= <- <-]. reflexivity. Qed.
Next Obligation. intros w r w' [= <- <-]. reflexivity. Qed.
Next Obligation. intros p m f c w r w' E%lift1_inv. by destruct E as (_ & _ & ->). Qed.
Next Obligation. intros h w r w' E%lift1_inv. by destruct E as (_ & _ & ->). Qed.

Definition start : est world := mkEst (mkWorld (MemDfs.healthy {["/p"%string := encode "probe-data"]}) ∅ ∅ []) ∅ None.
End EvDemo.

(** The check passes on a library with the declared layout. *)
Example verify_abi_passes :
  fst (verify_abi sizeof_DaosEvent false "/p" 5 EvDemo.start) = Ok (mkInfo 176 false 5 true true).
Proof. vm_compute. reflexivity. Qed.

Lemma guard_detects_overrun_witness :
  wp (let! slot := EventSlot_init 176 true in
      let! _ := apply_stores [(addr slot, zeros 180)] in
      getm (canary_ok slot)) EvDemo.start
    (λ ok _, ok = false) (λ e _, e = ValueError ∧ False ∨ False).
Proof.
  eapply wp_mono; [apply (guard_detects_overrun 176 (zeros 180) EvDemo.start); lia| |].
  - intros ok s' (_ & [Hok _] & _). destruct ok; [|reflexivity]. destruct (Hok eq_refl) as [k Hk]. discriminate Hk.
  - intros e s' [[_ Hbad]|[_ Hbad]]; vm_compute in Hbad; discriminate Hbad.
Defined.

Lemma verify_abi_is_memory_safe_witness :
  wp (verify_abi 0 false "/p" 5) EvDemo.start
    (λ _ s', good EvDemo.real_size EvDemo.start s') (λ e s', is_exception e = true ∧ good EvDemo.real_size EvDemo.start s').
Proof.
  apply (verify_abi_is_memory_safe EvDemo.real_size 0 false "/p" 5 EvDemo.start); [lia|vm_compute; discriminate|lia|].
  intros a n Ha. discriminate Ha.
Defined.
(** An event that DAOS uses past its declared size is caught. *)
Example verify_abi_refuses_a_larger_event :
  fst (verify_abi 100 false "/p" 5 EvDemo.start) = Raise DaosEventABIError.
Proof. vm_compute. reflexivity. Qed.
