(* ===== verification/Ctypes.v ===== *)
(** * Python's [ctypes]: the types the bindings declare, their memory layout and
    what a declared parameter accepts

    Sizes are those of x86-64 Linux, the platform the bindings name.  A
    structure is nominal, as a Python class is: two structures with the same
    fields are two types.  [place] is the layout algorithm of a native
    [Structure]: every field at the next multiple of its alignment, the whole
    padded to the largest alignment; [layout_sound] shows that the fields of
    any structure are aligned, disjoint and inside it.  [accepts] is
    [from_param], the conversion of a call's arguments. *)
From S2P Require Import Prelude.
Open Scope Z_scope.
Open Scope py_scope.

(** ** Types *)
Inductive int_width := W8 | W16 | W32 | W64.
Definition width_bytes (w : int_width) : Z := match w with W8 => 1 | W16 => 2 | W32 => 4 | W64 => 8 end.

Inductive ctype :=
| CInt (w : int_width) (signed : bool)
| CBool
| CChar
| CCharP                                   (* c_char_p *)
| CVoidP                                   (* c_void_p *)
| CPtr (t : ctype)                         (* POINTER(t) *)
| CArr (t : ctype) (n : nat)               (* t * n *)
| CStruct (name : string) (fields : list (string * ctype)).

Abbreviation c_ubyte := (CInt W8 false).
Abbreviation c_ushort := (CInt W16 false).
Abbreviation c_uint16 := (CInt W16 false).
Abbreviation c_int := (CInt W32 true).
Abbreviation c_uint := (CInt W32 false).
Abbreviation c_uint32 := (CInt W32 false).
Abbreviation c_long := (CInt W64 true).
Abbreviation c_int64 := (CInt W64 true).
Abbreviation c_ulong := (CInt W64 false).
Abbreviation c_uint64 := (CInt W64 false).
Abbreviation c_ulonglong := (CInt W64 false).
Abbreviation c_size_t := (CInt W64 false).

Definition width_eqb (a b : int_width) : bool := width_bytes a =? width_bytes b.
(** The identity of types: structures by name. *)
Fixpoint ctype_eqb (a b : ctype) : bool :=
  match a, b with
  | CInt w s, CInt w' s' => width_eqb w w' && Bool.eqb s s'
  | CBool, CBool | CChar, CChar | CCharP, CCharP | CVoidP, CVoidP => true
  | CPtr a, CPtr b => ctype_eqb a b
  | CArr a n, CArr b m => ctype_eqb a b && (n =? m)%nat
  | CStruct n _, CStruct m _ => bool_decide (n = m)
  | _, _ => false
  end.

(** ** Layout *)
Definition round_up (off al : Z) : Z := (off + al - 1) / al * al.

Fixpoint alignment (t : ctype) : Z :=
  match t with
  | CInt w _ => width_bytes w
  | CBool | CChar => 1
  | CCharP | CVoidP | CPtr _ => 8
  | CArr t _ => alignment t
  | CStruct _ fs => (fix go fs := match fs with [] => 1 | (_, t) :: fs => Z.max (alignment t) (go fs) end) fs
  end.
Fixpoint sizeof (t : ctype) : Z :=
  match t with
  | CInt w _ => width_bytes w
  | CBool | CChar => 1
  | CCharP | CVoidP | CPtr _ => 8
  | CArr t n => sizeof t * Z.of_nat n
  | CStruct _ fs =>
      round_up ((fix go off fs := match fs with
        | [] => off
        | (_, t) :: fs => go (round_up off (alignment t) + sizeof t) fs end) 0 fs) (alignment t)
  end.

Definition fields_align (fs : list (string * ctype)) : Z :=
  foldr (λ f m, Z.max (alignment f.2) m) 1 fs.
(** The fields from offset [off] on: name, offset, type. *)
Fixpoint place (off : Z) (fs : list (string * ctype)) : list (string * Z * ctype) :=
  match fs with
  | [] => []
  | (n, t) :: fs => let o := round_up off (alignment t) in (n, o, t) :: place (o + sizeof t) fs
  end.
Definition place_end (off : Z) (fs : list (string * ctype)) : Z :=
  foldl (λ off f, round_up off (alignment f.2) + sizeof f.2) off fs.
Definition layout (t : ctype) : list (string * Z * ctype) :=
  match t with CStruct _ fs => place 0 fs | _ => [] end.
(** [Struct.field.offset] *)
Definition offset_of (t : ctype) (name : string) : option Z :=
  match filter (λ f, f.1.1 = name) (layout t) with (_, o, _) :: _ => Some o | [] => None end.

Lemma alignment_struct n fs : alignment (CStruct n fs) = fields_align fs.
Proof. cbn. induction fs as [|[m t] fs IH]; [done|]. cbn. by rw IH. Qed.
Lemma sizeof_struct n fs : sizeof (CStruct n fs) = round_up (place_end 0 fs) (fields_align fs).
Proof.
  rw -(alignment_struct n) /place_end. cbn [sizeof]. f_equal. generalize 0.
  induction fs as [|[m t] fs IH]; intros off; [done|]. cbn. by rw IH.
Qed.

Fixpoint ctype_nested_ind (P : ctype → Prop)
  (Hint : ∀ w s, P (CInt w s)) (Hbool : P CBool) (Hchar : P CChar) (Hcp : P CCharP) (Hvp : P CVoidP)
  (Hptr : ∀ t, P t → P (CPtr t)) (Harr : ∀ t n, P t → P (CArr t n))
  (Hst : ∀ n fs, Forall (λ f, P f.2) fs → P (CStruct n fs)) (t : ctype) : P t :=
  let go := ctype_nested_ind P Hint Hbool Hchar Hcp Hvp Hptr Harr Hst in
  match t with
  | CInt w s => Hint w s | CBool => Hbool | CChar => Hchar | CCharP => Hcp | CVoidP => Hvp
  | CPtr t => Hptr t (go t) | CArr t n => Harr t n (go t)
  | CStruct n fs => Hst n fs ((fix all fs : Forall (λ f, P f.2) fs :=
      match fs with [] => Forall_nil_2 _ | f :: fs => Forall_cons_2 _ _ _ (go f.2) (all fs) end) fs)
  end.

Lemma alignment_pos t : 1 ≤ alignment t.
Proof.
  induction t as [w s| | | | |t _|t n IH|n fs IH] using ctype_nested_ind; try done; [by destruct w|].
  rw alignment_struct. induction IH as [|f fs Hf _ IH]; [done|]. cbn. lia.
Qed.
Lemma round_up_spec off al : 1 ≤ al → 0 ≤ off → off ≤ round_up off al < off + al ∧ round_up off al mod al = 0.
Proof. rw /round_up. intros Ha Ho. split; [|apply Z.mod_mul; lia]. div_lia. Qed.
Lemma place_end_nonneg fs off : Forall (λ f, 0 ≤ sizeof f.2) fs → 0 ≤ off → 0 ≤ place_end off fs.
Proof.
  intros Hfs. revert off. induction Hfs as [|f fs Hf _ IH]; [done|]. intros off Ho. cbn. apply IH.
  pose proof (round_up_spec off (alignment f.2) (alignment_pos _) Ho). lia.
Qed.
Lemma sizeof_nonneg t : 0 ≤ sizeof t.
Proof.
  induction t as [w s| | | | |t _|t n IH|n fs IH] using ctype_nested_ind; try done; [by destruct w|cbn; lia|].
  rw sizeof_struct -(alignment_struct n). pose proof (place_end_nonneg fs 0 IH ltac:(lia)) as He.
  pose proof (round_up_spec (place_end 0 fs) (alignment (CStruct n fs)) (alignment_pos _) He). lia.
Qed.

(** Offsets that grow by at least the size of the field before, from [lo] to [hi]. *)
Fixpoint packed (lo hi : Z) (l : list (string * Z * ctype)) : Prop :=
  match l with
  | [] => lo ≤ hi
  | (_, o, t) :: l => lo ≤ o ∧ o mod alignment t = 0 ∧ packed (o + sizeof t) hi l
  end.

Lemma packed_mono l lo hi hi' : hi ≤ hi' → packed lo hi l → packed lo hi' l.
Proof.
  intros Hle. revert lo. induction l as [|[[n o] t] l IH]; intros lo; cbn; [lia|].
  intros (? & ? & ?). eauto.
Qed.
Lemma place_packed fs off : 0 ≤ off → packed off (place_end off fs) (place off fs).
Proof.
  revert off. induction fs as [|[n t] fs IH]; intros off Ho; cbn; [lia|].
  pose proof (round_up_spec off (alignment t) (alignment_pos t) Ho) as [? ?]. pose proof (sizeof_nonneg t).
  split; [lia|]. split; [done|]. apply IH. lia.
Qed.

(** The fields of a structure lie one after the other, each aligned, inside
    it, and its size is a multiple of its alignment. *)
Lemma layout_sound n fs : let t := CStruct n fs in
  packed 0 (sizeof t) (layout t) ∧ sizeof t mod alignment t = 0.
Proof.
  cbn zeta. rw sizeof_struct -(alignment_struct n). pose proof (place_packed fs 0 ltac:(lia)) as Hp.
  assert (0 ≤ place_end 0 fs) as He.
  { apply place_end_nonneg; [|done]. apply Forall_forall. intros f _. apply sizeof_nonneg. }
  pose proof (round_up_spec (place_end 0 fs) (alignment (CStruct n fs)) (alignment_pos _) He) as [? ?].
  split; [|done]. eapply packed_mono; [|exact Hp]. lia.
Qed.

(** ** Calls *)

(** What a call passes for one parameter. *)
Inductive pyarg :=
| ANone
| AInt                    (* a Python int *)
| ABool                   (* True or False *)
| ABytes                  (* bytes *)
| AVal (t : ctype)        (* an instance of [t] *)
| AByref (t : ctype)      (* byref of an instance of [t] *)
| APointer (t : ctype)    (* an instance of POINTER(t) *)
| AArray (t : ctype).     (* an array of [t] *)

(** [t.from_param(a)] does not raise. *)
Definition accepts (t : ctype) (a : pyarg) : bool :=
  match t, a with
  | CInt _ _, (AInt | ABool) => true
  | CBool, _ => true
  | CCharP, (ANone | ABytes) => true
  | CCharP, (AByref CChar | AArray CChar | APointer CChar) => true
  | CVoidP, (ANone | AInt | ABool | ABytes | AByref _ | APointer _ | AArray _) => true
  | CVoidP, AVal (CVoidP | CCharP) => true
  | CPtr t, ANone => true
  | CPtr t, (AByref t' | APointer t' | AArray t') => ctype_eqb t t'
  | _, AVal t' => ctype_eqb t t'
  | _, _ => false
  end.

Record proto := mkProto { restype : option ctype; argtypes : list ctype }.

(** A call through a declared function converts every argument or raises
    [ArgumentError] ([OtherError]): too few arguments are refused, extra ones
    pass as undeclared. *)
Fixpoint converts (ts : list ctype) (args : list pyarg) : bool :=
  match ts, args with
  | [], _ => true
  | t :: ts, a :: args => accepts t a && converts ts args
  | _ :: _, [] => false
  end.
(** Exactly the declared parameters. *)
Definition well_typed (p : proto) (args : list pyarg) : bool :=
  (length (argtypes p) =? length args)%nat && converts (argtypes p) args.

(** The integer the C function receives for a Python int: the declared width,
    or the C int of an undeclared function. *)
Definition passed (t : option ctype) (z : Z) : Z :=
  match t with
  | Some (CInt w _) => z mod 2 ^ (8 * width_bytes w)
  | Some _ => z mod 2 ^ 64
  | None => z mod 2 ^ 32
  end.
