(* ===== verification/Native.v ===== *)
(** * Loading the native libraries: the structures, prototypes and loaders of
    [dfs_binding.py], [obj_binding.py] and [daos_event.py]

    Each binding module opens its libraries on first use and declares the
    prototypes of the functions it calls.  The dynamic linker is a parameter
    ([Linker]): which files can be opened and which symbols they export.  The
    module globals are the state [natives]; a loader that raises keeps what it
    had set, as a Python function does.  The calls of the bindings are listed
    with what they pass for each parameter. *)
From Stdlib Require Import Ascii.
From S2P Require Import Prelude Ctypes DaosEvent.
Open Scope Z_scope.
Open Scope string_scope.
Open Scope py_scope.

(** ** Structures *)

(** *** [dfs_binding.py] *)
Definition _Dirent : ctype := CStruct "dfs_binding._Dirent"
  [("d_ino", c_ulong); ("d_off", c_long); ("d_reclen", c_ushort); ("d_type", c_ubyte); ("d_name", CArr CChar 256)].
Definition _Timespec : ctype := CStruct "dfs_binding._Timespec" [("tv_sec", c_long); ("tv_nsec", c_long)].
Definition _Stat : ctype := CStruct "dfs_binding._Stat"
  [("st_dev", c_ulong); ("st_ino", c_ulong); ("st_nlink", c_ulong); ("st_mode", c_uint);
   ("st_uid", c_uint); ("st_gid", c_uint); ("_pad0", c_int); ("st_rdev", c_ulong);
   ("st_size", c_long); ("st_blksize", c_long); ("st_blocks", c_long); ("st_atim", _Timespec);
   ("st_mtim", _Timespec); ("st_ctim", _Timespec); ("_reserved", CArr c_long 3)].
Definition DIov : ctype := CStruct "dfs_binding.DIov"
  [("iov_buf", CVoidP); ("iov_buf_len", c_size_t); ("iov_len", c_size_t)].
Definition DSgList : ctype := CStruct "dfs_binding.DSgList"
  [("sg_nr", c_uint32); ("sg_nr_out", c_uint32); ("sg_iovs", CPtr DIov)].
Definition DaosMemAttr : ctype := CStruct "dfs_binding.DaosMemAttr"
  [("ma_mem_type", c_int); ("ma_device_id", c_uint64); ("ma_rkey", DIov)].

(** *** [obj_binding.py] *)
Definition DaosPropEntry : ctype := CStruct "obj_binding.DaosPropEntry"
  [("dpe_type", c_uint32); ("dpe_flags", c_uint16); ("dpe_reserv", c_uint16); ("dpe_val", c_uint64)].
Definition DaosProp : ctype := CStruct "obj_binding.DaosProp"
  [("dpp_nr", c_uint32); ("dpp_reserv", c_uint32); ("dpp_entries", CPtr DaosPropEntry)].
Definition obj_DaosHandle : ctype := CStruct "obj_binding.DaosHandle" [("cookie", c_uint64)].
Definition DaosObjId : ctype := CStruct "obj_binding.DaosObjId" [("lo", c_uint64); ("hi", c_uint64)].
Definition DaosRecx : ctype := CStruct "obj_binding.DaosRecx" [("rx_idx", c_uint64); ("rx_nr", c_uint64)].
Definition DaosIod : ctype := CStruct "obj_binding.DaosIod"
  [("iod_name", DIov); ("iod_type", c_int); ("iod_size", c_uint64); ("iod_flags", c_uint64);
   ("iod_nr", c_uint32); ("iod_recxs", CPtr DaosRecx)].

(** *** [daos_event.py] *)
Definition ev_DaosHandle : ctype := CStruct "daos_event.DaosHandle" [("cookie", c_uint64)].
Definition _EvPrivate : ctype := CStruct "daos_event._EvPrivate" [("space", CArr c_uint64 20)].
Definition DaosEvent : ctype := CStruct "daos_event.DaosEvent"
  [("ev_error", c_int); ("ev_private", _EvPrivate); ("ev_debug", c_uint64)].
Definition ev_p : ctype := CPtr DaosEvent.

(** ** Prototypes, in the order of the loaders *)
Definition int_fn (args : list ctype) : proto := mkProto (Some c_int) args.

Definition dfs_daos_protos : list (string * proto) := [("daos_init", int_fn []); ("daos_fini", int_fn [])].
(** Before the GPU entry points. *)
Definition dfs_protos1 : list (string * proto) :=
  [("dfs_init", int_fn []); ("dfs_fini", int_fn []);
   ("dfs_sys_connect", int_fn [CCharP; CCharP; CCharP; c_int; c_int; CVoidP; CPtr CVoidP]);
   ("dfs_sys_disconnect", int_fn [CVoidP]);
   ("dfs_sys_open", int_fn [CVoidP; CCharP; c_uint; c_int; c_uint; c_ulonglong; CCharP; CPtr CVoidP]);
   ("dfs_sys_close", int_fn [CVoidP]);
   ("dfs_sys_read", int_fn [CVoidP; CVoidP; CVoidP; c_ulonglong; CPtr c_ulonglong; CVoidP]);
   ("dfs_sys_write", int_fn [CVoidP; CVoidP; CVoidP; c_ulonglong; CPtr c_ulonglong; CVoidP]);
   ("dfs_sys_remove_type", int_fn [CVoidP; CCharP; CBool; c_uint; CVoidP]);
   ("dfs_sys_opendir", int_fn [CVoidP; CCharP; c_int; CPtr CVoidP]);
   ("dfs_sys_readdir", int_fn [CVoidP; CVoidP; CPtr (CPtr _Dirent)]);
   ("dfs_sys_closedir", int_fn [CVoidP]);
   ("dfs_sys_stat", int_fn [CVoidP; CCharP; c_int; CPtr _Stat]);
   ("dfs_sys_mkdir_p", int_fn [CVoidP; CCharP; c_uint; c_uint])].
Definition dfs_gpu_protos : list (string * proto) :=
  [("dfs_read_gpu", int_fn [CVoidP; CVoidP; CPtr DSgList; c_ulonglong; CPtr c_ulonglong; CPtr DaosMemAttr]);
   ("dfs_write_gpu", int_fn [CVoidP; CVoidP; CPtr DSgList; c_ulonglong; CPtr DaosMemAttr])].
(** After them. *)
Definition dfs_protos2 : list (string * proto) :=
  [("dfs_lookup", int_fn [CVoidP; CCharP; c_int; CPtr CVoidP; CVoidP; CVoidP]);
   ("dfs_release", int_fn [CVoidP]);
   ("dfs_move", int_fn [CVoidP; CVoidP; CCharP; CVoidP; CCharP; CVoidP]);
   ("dfs_sys2base", int_fn [CVoidP; CPtr CVoidP]);
   ("dfs_read", int_fn [CVoidP; CVoidP; CPtr DSgList; c_ulonglong; CPtr c_ulonglong; CVoidP])].

Definition obj_protos : list (string * proto) :=
  [("daos_init", int_fn []); ("daos_fini", int_fn []);
   ("daos_pool_connect", int_fn [CCharP; CCharP; c_uint; CPtr obj_DaosHandle; CVoidP; CVoidP]);
   ("daos_pool_disconnect", int_fn [obj_DaosHandle; CVoidP]);
   ("daos_cont_open", int_fn [obj_DaosHandle; CCharP; c_uint; CPtr obj_DaosHandle; CVoidP; CVoidP]);
   ("daos_cont_close", int_fn [obj_DaosHandle; CVoidP]);
   ("daos_obj_generate_oid", int_fn [obj_DaosHandle; CPtr DaosObjId; c_uint; c_uint; c_uint; c_uint]);
   ("daos_obj_open", int_fn [obj_DaosHandle; DaosObjId; c_uint; CPtr obj_DaosHandle; CVoidP]);
   ("daos_obj_close", int_fn [obj_DaosHandle; CVoidP]);
   ("daos_obj_update", int_fn [obj_DaosHandle; obj_DaosHandle; c_uint64; CPtr DIov; c_uint; CPtr DaosIod; CPtr DSgList; CVoidP]);
   ("daos_obj_fetch", int_fn [obj_DaosHandle; obj_DaosHandle; c_uint64; CPtr DIov; c_uint; CPtr DaosIod; CPtr DSgList; CVoidP; CVoidP]);
   ("daos_obj_punch_dkeys", int_fn [obj_DaosHandle; obj_DaosHandle; c_uint64; c_uint; CPtr DIov; CVoidP]);
   ("daos_obj_punch_akeys", int_fn [obj_DaosHandle; obj_DaosHandle; c_uint64; CPtr DIov; c_uint; CPtr DIov; CVoidP]);
   ("daos_cont_query", int_fn [obj_DaosHandle; CVoidP; CPtr DaosProp; CVoidP]);
   ("daos_prop_alloc", mkProto (Some (CPtr DaosProp)) [c_uint]);
   ("daos_prop_free", mkProto None [CPtr DaosProp])].

Definition event_protos : list (string * proto) :=
  [("daos_eq_create", int_fn [CPtr ev_DaosHandle]);
   ("daos_eq_destroy", int_fn [ev_DaosHandle; c_int]);
   ("daos_event_init", int_fn [ev_p; ev_DaosHandle; ev_p]);
   ("daos_event_fini", int_fn [ev_p]);
   ("daos_event_abort", int_fn [ev_p]);
   ("daos_eq_poll", int_fn [ev_DaosHandle; c_int; c_int64; c_uint; CPtr ev_p])].

(** ** The dynamic linker and the module globals *)
Class Linker := {
  exports : string → option (gset string);     (* dlopen: the symbols found, or failure *)
  find_library : string → option string;       (* ctypes.util.find_library *)
}.

(** A loaded library: its path and the functions declared on it so far. *)
Record cdll := mkCdll { cd_path : string; cd_protos : gmap string proto }.
Inductive slot := DfsDaos | DfsDfs | ObjDaos.
#[export] Instance slot_eq_dec : EqDecision slot.
Proof. solve_decision. Defined.
(** [dfs_binding._daos], [dfs_binding._dfs], [obj_binding._daos], [_gpu_ok],
    and [EVENT_SIZE] with its origin and [_protos_done] of [daos_event]. *)
Record natives := mkNat {
  libs : slot → option cdll; _gpu_ok : bool; event_size : Z * bool; _protos_done : bool }.
Definition set_lib (w : slot) (c : cdll) (s : natives) : natives :=
  mkNat (λ w', if bool_decide (w = w') then Some c else libs s w') (_gpu_ok s) (event_size s) (_protos_done s).
Definition set_gpu (b : bool) (s : natives) : natives := mkNat (libs s) b (event_size s) (_protos_done s).
Definition set_event (e : Z * bool) (s : natives) : natives := mkNat (libs s) (_gpu_ok s) e (_protos_done s).
Definition set_done (s : natives) : natives := mkNat (libs s) (_gpu_ok s) (event_size s) true.
Definition fresh_process : natives := mkNat (λ _, None) false (sizeof_DaosEvent, false) false.

Section Loaders.
Context `{Linker}.
(** [os.environ]; [shim] is what the event shim answers, if it loads. *)
Context (env : gmap string string) (shim : option Z).

Definition modify (f : natives → natives) : M natives unit := λ s, (Ok tt, f s).
Definition gets {X} (f : natives → X) : M natives X := λ s, (Ok (f s), s).

(** [ctypes.CDLL(path)], assigned to a module global. *)
Definition open_lib (w : slot) (path : string) : M natives unit :=
  match exports path with
  | Some _ => modify (set_lib w (mkCdll path ∅))
  | None => raise (OSError 0)
  end.
(** [hasattr(lib, fn)] *)
Definition has_symbol (w : slot) (fn : string) (s : natives) : bool :=
  match libs s w with
  | Some c => match exports (cd_path c) with Some syms => bool_decide (fn ∈ syms) | None => false end
  | None => false
  end.
(** [lib.fn.restype = ...; lib.fn.argtypes = ...]: [AttributeError] on a
    missing symbol. *)
Definition declare (w : slot) (d : string * proto) : M natives unit := λ s,
  match libs s w with
  | Some c => if has_symbol w d.1 s then (Ok tt, set_lib w (mkCdll (cd_path c) (<[d.1 := d.2]> (cd_protos c))) s)
              else (Raise OtherError, s)
  | None => (Raise OtherError, s)
  end.
Fixpoint declare_all (w : slot) (l : list (string * proto)) : M natives unit :=
  match l with
  | [] => ret tt
  | d :: l => let! _ := declare w d in declare_all w l
  end.

(** [os.path.join(d, n)] of a relative [n]. *)
Fixpoint ends_with_slash (s : string) : bool :=
  match s with
  | EmptyString => false
  | String a EmptyString => bool_decide (a = "/"%char)
  | String _ s => ends_with_slash s
  end.
Definition path_join (d n : string) : string := if ends_with_slash d then d +:+ n else d +:+ "/" +:+ n.
(** [os.environ.get(name)], used as a condition: [None] and the empty string are false. *)
Definition getenv (name : string) : option string :=
  match env !! name with Some v => if bool_decide (v = EmptyString) then None else Some v | None => None end.
(** [find_library(name) or default] *)
Definition found_or (name default : string) : string :=
  match find_library name with Some p => if bool_decide (p = EmptyString) then default else p | None => default end.

(** *** [dfs_binding._load] *)
Definition dfs_paths : string * string :=
  match getenv "LMCACHE_DAOS_LIBDIR" with
  | Some libdir => (path_join libdir "libdaos.so", path_join libdir "libdfs.so")
  | None => (found_or "daos" "libdaos.so", found_or "dfs" "libdfs.so")
  end.
Definition dfs_load : M natives unit :=
  let! loaded := gets (λ s, libs s DfsDfs) in
  if loaded is Some _ then ret tt else
  let '(daos_path, dfs_path) := dfs_paths in
  let! _ := open_lib DfsDaos daos_path in
  let! _ := open_lib DfsDfs dfs_path in
  let! _ := declare_all DfsDaos dfs_daos_protos in
  let! _ := declare_all DfsDfs dfs_protos1 in
  let! gpu := gets (λ s, has_symbol DfsDfs "dfs_read_gpu" s && has_symbol DfsDfs "dfs_write_gpu" s) in
  let! _ := modify (set_gpu gpu) in
  let! _ := if gpu then declare_all DfsDfs dfs_gpu_protos else ret tt in
  declare_all DfsDfs dfs_protos2.
Definition gpu_supported : M natives bool := let! _ := dfs_load in gets _gpu_ok.

(** *** [obj_binding._load] *)
Definition obj_path : string :=
  match getenv "DAOS_LIBDIR" with
  | Some libdir => path_join libdir "libdaos.so"
  | None => found_or "daos" "libdaos.so"
  end.
Definition obj_load : M natives unit :=
  let! lib := gets (λ s, libs s ObjDaos) in
  if lib is Some _ then ret tt else
  let! _ := open_lib ObjDaos obj_path in
  declare_all ObjDaos obj_protos.
Definition loaded (s : natives) : bool := bool_decide (is_Some (libs s ObjDaos)).

(** *** [daos_event._declare] *)
Definition libdaos : M natives unit := dfs_load.
Definition _declare : M natives unit :=
  let! _ := libdaos in
  let! done := gets _protos_done in
  if done then ret tt else
  let! _ := modify (λ s, set_event (_probe_event_size shim (event_size s)) s) in
  let! _ := declare_all DfsDaos event_protos in
  modify set_done.
End Loaders.

(** ** The calls of the bindings *)
Record call := mkCall { call_lib : slot; call_fn : string; call_args : list pyarg }.
Abbreviation hdl := (AVal CVoidP).        (* a dfs_t, dfs_sys_t or dfs_obj_t handle *)
Abbreviation out_hdl := (AByref CVoidP).
Abbreviation out_size := (AByref c_ulonglong).
Abbreviation buf := (AArray CChar).

(** [DfsSys.__init__] (with and without a system name) and [close] *)
Definition mount_calls : list call :=
  [mkCall DfsDaos "daos_init" []; mkCall DfsDfs "dfs_init" [];
   mkCall DfsDfs "dfs_sys_connect" [ABytes; ABytes; ABytes; AInt; AInt; ANone; out_hdl];
   mkCall DfsDfs "dfs_sys_connect" [ABytes; ANone; ABytes; AInt; AInt; ANone; out_hdl];
   mkCall DfsDfs "dfs_sys_disconnect" [hdl]].
(** [_open], [write], [write_obj_from], [read], [close_obj], [read_obj], [read_obj_into] *)
Definition io_calls : list call :=
  [mkCall DfsDfs "dfs_sys_open" [hdl; ABytes; AInt; AInt; AInt; AInt; ANone; out_hdl];
   mkCall DfsDfs "dfs_sys_write" [hdl; hdl; buf; AInt; out_size; ANone];
   mkCall DfsDfs "dfs_sys_read" [hdl; hdl; buf; AInt; out_size; ANone];
   mkCall DfsDfs "dfs_sys_close" [hdl]].
(** [base], [submit_read] *)
Definition base_calls : list call :=
  [mkCall DfsDfs "dfs_sys2base" [hdl; out_hdl];
   mkCall DfsDfs "dfs_read" [hdl; hdl; AByref DSgList; AInt; out_size; hdl]].
(** [_gpu_call] *)
Definition gpu_calls : list call :=
  [mkCall DfsDfs "dfs_read_gpu" [hdl; hdl; AByref DSgList; AInt; out_size; AByref DaosMemAttr];
   mkCall DfsDfs "dfs_write_gpu" [hdl; hdl; AByref DSgList; AInt; AByref DaosMemAttr]].
(** [lookup], [release], [move] *)
Definition dir_calls : list call :=
  [mkCall DfsDfs "dfs_lookup" [hdl; ABytes; AInt; out_hdl; ANone; ANone];
   mkCall DfsDfs "dfs_release" [hdl];
   mkCall DfsDfs "dfs_move" [hdl; hdl; ABytes; hdl; ABytes; ANone]].
(** [stat_size], [mkdir_p] *)
Definition stat_calls : list call :=
  [mkCall DfsDfs "dfs_sys_stat" [hdl; ABytes; AInt; AByref _Stat];
   mkCall DfsDfs "dfs_sys_mkdir_p" [hdl; ABytes; AInt; AInt]].
(** [iterdir], [remove] *)
Definition enum_calls : list call :=
  [mkCall DfsDfs "dfs_sys_opendir" [hdl; ABytes; AInt; out_hdl];
   mkCall DfsDfs "dfs_sys_readdir" [hdl; hdl; AByref (CPtr _Dirent)];
   mkCall DfsDfs "dfs_sys_closedir" [hdl];
   mkCall DfsDfs "dfs_sys_remove_type" [hdl; ABytes; ABool; AInt; ANone]].

Abbreviation cookie := (AVal obj_DaosHandle).
Abbreviation out_cookie := (AByref obj_DaosHandle).
(** [ObjSys.__init__] and [close] *)
Definition objsys_calls : list call :=
  [mkCall ObjDaos "daos_init" [];
   mkCall ObjDaos "daos_pool_connect" [ABytes; ABytes; AInt; out_cookie; ANone; ANone];
   mkCall ObjDaos "daos_pool_connect" [ABytes; ANone; AInt; out_cookie; ANone; ANone];
   mkCall ObjDaos "daos_cont_open" [cookie; ABytes; AInt; out_cookie; ANone; ANone];
   mkCall ObjDaos "daos_obj_generate_oid" [cookie; AByref DaosObjId; AInt; AInt; AInt; AInt];
   mkCall ObjDaos "daos_obj_open" [cookie; AVal DaosObjId; AInt; out_cookie; ANone];
   mkCall ObjDaos "daos_obj_close" [cookie; ANone];
   mkCall ObjDaos "daos_cont_close" [cookie; ANone];
   mkCall ObjDaos "daos_pool_disconnect" [cookie; ANone]].
(** [update], [fetch], [punch], [punch_akeys] *)
Definition transfer_calls : list call :=
  [mkCall ObjDaos "daos_obj_update" [cookie; cookie; AInt; AByref DIov; AInt; AArray DaosIod; AArray DSgList; ANone];
   mkCall ObjDaos "daos_obj_fetch" [cookie; cookie; AInt; AByref DIov; AInt; AArray DaosIod; AArray DSgList; ANone; ANone];
   mkCall ObjDaos "daos_obj_punch_dkeys" [cookie; cookie; AInt; AInt; AByref DIov; ANone];
   mkCall ObjDaos "daos_obj_punch_akeys" [cookie; cookie; AInt; AByref DIov; AInt; AArray DIov; ANone]].
(** [container_layout] *)
Definition layout_calls : list call :=
  [mkCall ObjDaos "daos_prop_alloc" [AInt];
   mkCall ObjDaos "daos_cont_query" [cookie; ANone; APointer DaosProp; ANone];
   mkCall ObjDaos "daos_prop_free" [APointer DaosProp]].
(** [EventQueue] *)
Definition event_calls : list call :=
  [mkCall DfsDaos "daos_eq_create" [AByref ev_DaosHandle];
   mkCall DfsDaos "daos_event_init" [AByref DaosEvent; AVal ev_DaosHandle; ANone];
   mkCall DfsDaos "daos_event_fini" [AByref DaosEvent];
   mkCall DfsDaos "daos_event_abort" [AByref DaosEvent];
   mkCall DfsDaos "daos_eq_poll" [AVal ev_DaosHandle; AInt; AInt; AInt; AArray ev_p];
   mkCall DfsDaos "daos_eq_destroy" [AVal ev_DaosHandle; AInt]].

Definition all_calls (gpu : bool) : list call :=
  mount_calls ++ io_calls ++ base_calls ++ dir_calls ++ stat_calls ++ enum_calls ++
  (if gpu then gpu_calls else []) ++ objsys_calls ++ transfer_calls ++ layout_calls ++ event_calls.

(** ** What a loader leaves behind *)
Definition declared (w : slot) (fn : string) (s : natives) : option proto :=
  match libs s w with Some c => cd_protos c !! fn | None => None end.
(** The type a call converts its argument [i] to, if the function is declared. *)
Definition arg_type (w : slot) (fn : string) (i : nat) (s : natives) : option ctype :=
  match declared w fn s with Some p => argtypes p !! i | None => None end.

Definition protos_of (m : gmap string proto) (l : list (string * proto)) : gmap string proto :=
  foldl (λ m d, <[d.1 := d.2]> m) m l.

Section LoaderLemmas.
Context `{Linker}.
Context (env : gmap string string) (shim : option Z).
Implicit Types s : natives.

(** Loaders change only the globals they name. *)
Definition others (w : slot) (s s' : natives) : Prop :=
  (∀ w', w' ≠ w → libs s' w' = libs s w') ∧ _gpu_ok s' = _gpu_ok s ∧
  event_size s' = event_size s ∧ _protos_done s' = _protos_done s.
#[local] Instance others_preorder w : PreOrder (others w).
Proof.
  split; [by intros s|]. intros s1 s2 s3 (Ha & ? & ? & ?) (Hb & ? & ? & ?). split_and!; [|congruence..].
  intros w' Hw. by rw Hb // Ha.
Qed.
Lemma set_lib_others w c s : others w s (set_lib w c s).
Proof. split; [|done]. intros w' Hw. cbn. by rw bool_decide_false. Qed.
Lemma set_lib_libs w c s : libs (set_lib w c s) w = Some c.
Proof. cbn. by rw bool_decide_true. Qed.

(** Only exported functions are declared. *)
Definition exported_only (w : slot) s : Prop :=
  ∀ fn, declared w fn s ≠ None → has_symbol w fn s = true.

Lemma declare_spec w d s c : libs s w = Some c →
  if has_symbol w d.1 s
  then declare w d s = (Ok tt, set_lib w (mkCdll (cd_path c) (<[d.1 := d.2]> (cd_protos c))) s)
  else declare w d s = (Raise OtherError, s).
Proof. intros Hc. rw /declare Hc. by destruct (has_symbol w d.1 s). Qed.

(** A run of declarations: all of them, or up to the first missing symbol. *)
Lemma declare_all_spec w l s c : libs s w = Some c → exported_only w s →
  ∃ l1, (l1 `prefix_of` l) ∧ let s' := snd (declare_all w l s) in
    others w s s' ∧ libs s' w = Some (mkCdll (cd_path c) (protos_of (cd_protos c) l1)) ∧ exported_only w s' ∧
    match fst (declare_all w l s) with
    | Ok _ => l1 = l
    | Raise e => e = OtherError ∧ ∃ d, d ∈ l ∧ has_symbol w d.1 s' = false
    end.
Proof.
  revert s c. induction l as [|d l IH]; intros s c Hc Hex.
  - exists []. destruct c. by split_and!.
  - pose proof (declare_spec w d s c Hc) as Hd. cbn [declare_all]. rw /bind.
    destruct (has_symbol w d.1 s) eqn:Hs; rw Hd; last first.
    { exists []. split; [apply prefix_nil|]. destruct c. split_and!; try done. cbn. split; [done|].
      exists d. split; [by left|done]. }
    set (c1 := mkCdll _ _). destruct (IH (set_lib w c1 s) c1) as (l1 & Hp & Ho & Hl & He & Hr).
    { apply set_lib_libs. }
    { intros fn. rw /declared /has_symbol !set_lib_libs. cbn [cd_protos cd_path c1]. intros Hfn.
      destruct (decide (fn = d.1)) as [->|Hne]; [by rw /has_symbol Hc in Hs|].
      rw lookup_insert_ne // in Hfn. specialize (Hex fn). rw /declared /has_symbol Hc in Hex. by apply Hex. }
    exists (d :: l1). split; [by apply prefix_cons|]. split_and!.
    + etrans; [apply set_lib_others|exact Ho].
    + by rw Hl.
    + done.
    + destruct (declare_all w l (set_lib w c1 s)) as [[[]|e] s2]; cbn in *; [by rw Hr|].
      destruct Hr as [-> (d' & Hd' & Hn)]. split; [done|]. exists d'. split; [by right|done].
Qed.

Lemma fresh_lib_exported w path s : exported_only w (set_lib w (mkCdll path ∅) s).
Proof. intros fn. rw /declared set_lib_libs. by rw lookup_empty. Qed.

(** A symbol that is missing is not declared. *)
Definition missing (w : slot) (l : list (string * proto)) s : Prop :=
  ∃ d, d ∈ l ∧ has_symbol w d.1 s = false ∧ declared w d.1 s = None.
Lemma wp_declare_all w l s path m Q E : libs s w = Some (mkCdll path m) → exported_only w s →
  (∀ s', others w s s' → libs s' w = Some (mkCdll path (protos_of m l)) → exported_only w s' → Q tt s') →
  (∀ s' m', others w s s' → libs s' w = Some (mkCdll path m') → missing w l s' → E OtherError s') →
  wp (declare_all w l) s Q E.
Proof.
  intros Hl Hex HQ HE. destruct (declare_all_spec w l s _ Hl Hex) as (l1 & _ & Ho & Hl' & Hex' & Hr).
  rw /wp. destruct (declare_all w l s) as [[[]|e] s']; cbn in *.
  - apply HQ; [done| |done]. by rw Hl' Hr.
  - destruct Hr as [-> (d & Hd & Hs)]. eapply HE; [done|exact Hl'|]. exists d. split_and!; [done..|].
    destruct (declared w d.1 s') eqn:Hdec; [|done]. rw Hex' in Hs; [by rw Hdec|done].
Qed.
Lemma wp_open w path s Q E :
  (∀ syms, exports path = Some syms → Q tt (set_lib w (mkCdll path ∅) s)) →
  E (OSError 0) s → wp (open_lib w path) s Q E.
Proof. rw /wp /open_lib /modify. intros HQ HE. destruct (exports path); [by eapply HQ|done]. Qed.

(** The globals of the other modules. *)
Definition outside s s' : Prop :=
  libs s' ObjDaos = libs s ObjDaos ∧ event_size s' = event_size s ∧ _protos_done s' = _protos_done s.
Lemma others_outside w s s' : others w s s' → w ≠ ObjDaos → outside s s'.
Proof. intros (Hl & _ & He & Hd) Hw. split_and!; [by apply Hl|done..]. Qed.

Definition dfs_protos (gpu : bool) : list (string * proto) :=
  dfs_protos1 ++ (if gpu then dfs_gpu_protos else []) ++ dfs_protos2.
(** [dfs_binding] is loaded, with every prototype. *)
Definition dfs_ready s : Prop :=
  libs s DfsDaos = Some (mkCdll (dfs_paths env).1 (protos_of ∅ dfs_daos_protos)) ∧
  libs s DfsDfs = Some (mkCdll (dfs_paths env).2 (protos_of ∅ (dfs_protos (_gpu_ok s)))).
(** Some function the loader declares is not in its library. *)
Definition dfs_missing s : Prop :=
  missing DfsDaos dfs_daos_protos s ∨ missing DfsDfs (dfs_protos1 ++ dfs_protos2) s.

Lemma missing_app_l w l l' s : missing w l s → missing w (l ++ l') s.
Proof. intros (d & Hd & ?). exists d. split; [|done]. set_solver. Qed.
Lemma missing_app_r w l l' s : missing w l' s → missing w (l ++ l') s.
Proof. intros (d & Hd & ?). exists d. split; [|done]. set_solver. Qed.
Lemma has_symbol_path w fn s s' p m m' :
  libs s w = Some (mkCdll p m) → libs s' w = Some (mkCdll p m') → has_symbol w fn s' = has_symbol w fn s.
Proof. intros Hs Hs'. by rw /has_symbol Hs Hs'. Qed.

Lemma protos_of_app m l1 l2 : protos_of m (l1 ++ l2) = protos_of (protos_of m l1) l2.
Proof. by rw /protos_of foldl_app. Qed.

#[local] Instance outside_preorder : PreOrder outside.
Proof. split; [by intros s|]. intros s1 s2 s3 (? & ? & ?) (? & ? & ?). split_and!; congruence. Qed.
Lemma set_lib_ne w w' c s : w ≠ w' → libs (set_lib w c s) w' = libs s w'.
Proof. intros. cbn. by rw bool_decide_false. Qed.
Lemma set_lib_outside w c s : w ≠ ObjDaos → outside s (set_lib w c s).
Proof. intros. split_and!; [by apply set_lib_ne|done..]. Qed.
Lemma no_protos_exported w path s : libs s w = Some (mkCdll path ∅) → exported_only w s.
Proof. intros Hl fn. by rw /declared Hl lookup_empty. Qed.

Lemma exported_only_libs w s s' : libs s' w = libs s w → exported_only w s → exported_only w s'.
Proof. intros Hl Hex fn. rw /declared /has_symbol Hl. apply Hex. Qed.

(** The outcomes of the first load. *)
Definition load_ok s (_ : unit) s' : Prop := outside s s' ∧ dfs_ready s' ∧ exported_only DfsDaos s'.
Definition load_failed s (e : exn) s' : Prop :=
  outside s s' ∧ ((e = OSError 0 ∧ libs s' DfsDfs = None) ∨
                  (e = OtherError ∧ is_Some (libs s' DfsDfs) ∧ dfs_missing s')).

(** From the GPU entry points on. *)
Lemma load_tail_spec s0 s :
  outside s0 s → libs s DfsDaos = Some (mkCdll (dfs_paths env).1 (protos_of ∅ dfs_daos_protos)) →
  libs s DfsDfs = Some (mkCdll (dfs_paths env).2 (protos_of ∅ dfs_protos1)) → exported_only DfsDfs s →
  exported_only DfsDaos s →
  wp (let! gpu := gets (λ s, has_symbol DfsDfs "dfs_read_gpu" s && has_symbol DfsDfs "dfs_write_gpu" s) in
      let! _ := modify (set_gpu gpu) in
      let! _ := if gpu then declare_all DfsDfs dfs_gpu_protos else ret tt in
      declare_all DfsDfs dfs_protos2) s (load_ok s0) (load_failed s0).
Proof.
  intros Hout Hd Hf Hex Hexd. apply wp_bind. rw {1}/wp /gets. set (gpu := _ && _). apply wp_bind. rw {1}/wp /modify.
  set (s1 := set_gpu gpu s). assert (outside s0 s1) as Ho1 by exact Hout.
  assert (gpu = true → ∀ d, d ∈ dfs_gpu_protos → has_symbol DfsDfs d.1 s1 = true) as Hgpu.
  { intros [Hr Hw]%andb_prop d Hdin. rw /dfs_gpu_protos in Hdin.
    apply list_elem_of_In in Hdin as [<-|[<-|[]]]; [exact Hr|exact Hw]. }
  assert (∀ s2, outside s0 s2 → libs s2 DfsDaos = libs s DfsDaos → _gpu_ok s2 = gpu → exported_only DfsDfs s2 →
    libs s2 DfsDfs = Some (mkCdll (dfs_paths env).2 (protos_of ∅ (dfs_protos1 ++ (if gpu then dfs_gpu_protos else [])))) →
    wp (declare_all DfsDfs dfs_protos2) s2 (load_ok s0) (load_failed s0)) as Hlast.
  { intros s2 Ho2 Hd2 Hg2 Hex2 Hf2. eapply wp_declare_all; [exact Hf2|exact Hex2|intros s3 Ho3 Hl3 _|intros s3 m3 Ho3 Hl3 Hm].
    - split; [etrans; [exact Ho2|by eapply others_outside]|]. destruct Ho3 as (Ho3 & Hg3 & _).
      split; [|by eapply exported_only_libs, Hexd; rw Ho3 // Hd2].
      split; [by rw Ho3 // Hd2|]. by rw Hl3 -protos_of_app Hg3 Hg2 /dfs_protos -app_assoc.
    - split; [etrans; [exact Ho2|by eapply others_outside]|]. right. split_and!; [done|by rw Hl3|].
      right. by apply missing_app_r. }
  apply wp_bind. clearbody gpu. destruct gpu; last first.
  { apply wp_ret. apply Hlast; [done..|]. by rw app_nil_r. }
  eapply wp_declare_all; [exact Hf|exact Hex|intros s2 Ho2 Hl2 Hex2|intros s2 m2 Ho2 Hl2 (d & Hdin & Hs & _)].
  - apply Hlast; [etrans; [exact Ho1|by eapply others_outside]| | |done|by rw Hl2 protos_of_app].
    + destruct Ho2 as [Ho2 _]. by rw Ho2.
    + by destruct Ho2 as (_ & -> & _).
  - exfalso. rw (has_symbol_path DfsDfs d.1 s1 s2 _ _ _ Hf Hl2) in Hs. by rw (Hgpu eq_refl d Hdin) in Hs.
Qed.

(** The first load: everything is declared, or a library could not be opened,
    or a symbol is missing. *)
Lemma dfs_load_spec s : libs s DfsDfs = None → wp (dfs_load env) s (load_ok s) (load_failed s).
Proof.
  intros Hn. rw /dfs_load. apply wp_bind. rw {1}/wp /gets Hn.
  destruct (dfs_paths env) as [dp fp] eqn:Hp.
  apply wp_bind, wp_open; [|by split; [|left]]. intros _ _. set (s1 := set_lib _ _ s).
  assert (outside s s1) as Ho1 by by apply set_lib_outside.
  apply wp_bind, wp_open; [|split; [done|left; split; [done|by rw set_lib_ne]]]. intros _ _.
  set (s2 := set_lib _ _ s1). assert (outside s s2) as Ho2 by (etrans; [exact Ho1|by apply set_lib_outside]).
  assert (libs s2 DfsDaos = Some (mkCdll dp ∅)) as Hd2 by (by rw /s2 set_lib_ne // /s1 set_lib_libs).
  assert (libs s2 DfsDfs = Some (mkCdll fp ∅)) as Hf2 by (by rw /s2 set_lib_libs).
  clearbody s2. apply wp_bind.
  eapply wp_declare_all; [exact Hd2|by eapply no_protos_exported|intros s3 Ho3 Hd3 Hex3|intros s3 m3 Ho3 Hl3 Hm].
  2:{ split; [etrans; [exact Ho2|by eapply others_outside]|]. right. destruct Ho3 as [Ho3 _].
      split_and!; [done|by rw Ho3 // Hf2|by left]. }
  assert (libs s3 DfsDfs = Some (mkCdll fp ∅)) as Hf3 by (destruct Ho3 as [Ho3 _]; by rw Ho3).
  assert (outside s s3) as Hs3 by (etrans; [exact Ho2|by eapply others_outside]).
  apply wp_bind.
  eapply wp_declare_all; [exact Hf3|by eapply no_protos_exported|intros s4 Ho4 Hf4 Hex4|intros s4 m4 Ho4 Hl4 Hm].
  - apply load_tail_spec; [etrans; [exact Hs3|by eapply others_outside]| |by rw Hp|done|].
    + destruct Ho4 as [Ho4 _]. by rw Ho4 // Hp.
    + destruct Ho4 as [Ho4 _]. by eapply exported_only_libs, Hex3; rw Ho4.
  - split; [etrans; [exact Hs3|by eapply others_outside]|]. right. split_and!; [done|by rw Hl4|].
    right. by apply missing_app_l.
Qed.

(** Once the handle is set, loading does nothing. *)
Lemma dfs_load_again s : is_Some (libs s DfsDfs) → dfs_load env s = (Ok tt, s).
Proof. intros [c Hc]. rw /dfs_load {1}/bind /gets Hc. done. Qed.

Lemma obj_load_spec s : libs s ObjDaos = None →
  wp (obj_load env) s
    (λ _ s', others ObjDaos s s' ∧ libs s' ObjDaos = Some (mkCdll (obj_path env) (protos_of ∅ obj_protos)))
    (λ e s', others ObjDaos s s' ∧ ((e = OSError 0 ∧ libs s' ObjDaos = None) ∨
      (e = OtherError ∧ is_Some (libs s' ObjDaos) ∧ missing ObjDaos obj_protos s'))).
Proof.
  intros Hn. rw /obj_load. apply wp_bind. rw {1}/wp /gets Hn.
  apply wp_bind, wp_open; [|by split; [|left]]. intros _ _. set (s1 := set_lib _ _ s).
  assert (others ObjDaos s s1) as Ho1 by apply set_lib_others.
  assert (libs s1 ObjDaos = Some (mkCdll (obj_path env) ∅)) as Hl1 by apply set_lib_libs.
  eapply wp_declare_all; [exact Hl1|by eapply no_protos_exported|intros s2 Ho2 Hl2 _|intros s2 m2 Ho2 Hl2 Hm].
  - split; [by etrans|done].
  - split; [by etrans|]. right. by rw Hl2.
Qed.
Lemma obj_load_again s : is_Some (libs s ObjDaos) → obj_load env s = (Ok tt, s).
Proof. intros [c Hc]. rw /obj_load {1}/bind /gets Hc. done. Qed.

(** Declaring the event functions, with [dfs_binding] loaded. *)
Lemma declare_spec_ready s path m : is_Some (libs s DfsDfs) → libs s DfsDaos = Some (mkCdll path m) →
  exported_only DfsDaos s → _protos_done s = false →
  wp (_declare env shim) s
    (λ _ s', _protos_done s' = true ∧ libs s' DfsDaos = Some (mkCdll path (protos_of m event_protos)) ∧
       libs s' DfsDfs = libs s DfsDfs ∧ libs s' ObjDaos = libs s ObjDaos ∧ _gpu_ok s' = _gpu_ok s ∧
       event_size s' = _probe_event_size shim (event_size s))
    (λ e s', e = OtherError ∧ _protos_done s' = false ∧ missing DfsDaos event_protos s').
Proof.
  intros Hf Hd Hex Hdone. rw /_declare /libdaos. apply wp_bind. rw {1}/wp dfs_load_again //.
  apply wp_bind. rw {1}/wp /gets Hdone. apply wp_bind. rw {1}/wp /modify. set (s1 := set_event _ s).
  apply wp_bind. eapply (wp_declare_all _ _ s1 path m); [exact Hd|exact Hex|intros s2 Ho2 Hl2 _|intros s2 m2 Ho2 Hl2 Hm].
  - destruct Ho2 as (Ho2 & Hg2 & He2 & _). rw /wp /modify. split_and!; cbn; try done; by rw Ho2.
  - split_and!; [done| |done]. destruct Ho2 as (_ & _ & _ & ->). done.
Qed.
Lemma declare_again s : is_Some (libs s DfsDfs) → _protos_done s = true → _declare env shim s = (Ok tt, s).
Proof. intros Hf Hd. rw /_declare /libdaos {1}/bind dfs_load_again // {1}/bind /gets Hd. done. Qed.

(** *** The three bindings together *)
Definition start_all : M natives unit :=
  let! _ := dfs_load env in let! _ := obj_load env in _declare env shim.
Definition full_table (gpu : bool) (w : slot) : gmap string proto :=
  match w with
  | DfsDaos => protos_of (protos_of ∅ dfs_daos_protos) event_protos
  | DfsDfs => protos_of ∅ (dfs_protos gpu)
  | ObjDaos => protos_of ∅ obj_protos
  end.

(** Starting all three from a fresh process declares exactly the tables. *)
Lemma start_all_spec : wp start_all fresh_process
  (λ _ s', (∀ w fn, declared w fn s' = full_table (_gpu_ok s') w !! fn) ∧
     cd_path <$> libs s' DfsDaos = Some (dfs_paths env).1 ∧ cd_path <$> libs s' DfsDfs = Some (dfs_paths env).2 ∧
     cd_path <$> libs s' ObjDaos = Some (obj_path env)) (λ _ _, True).
Proof.
  rw /start_all. apply wp_bind. wp_use dfs_load_spec; [done| |done].
  intros _ s1 ((Ho1 & He1 & Hd1) & (Hdd & Hdf) & Hex1).
  apply wp_bind. wp_use obj_load_spec; [done| |done]. intros _ s2 ((Hl2 & Hg2 & He2 & Hdn2) & Hob).
  assert (libs s2 DfsDaos = libs s1 DfsDaos ∧ libs s2 DfsDfs = libs s1 DfsDfs) as [Hd2 Hf2] by (split; by apply Hl2).
  wp_use declare_spec_ready; [by rw Hf2 Hdf|by rw Hd2|by eapply exported_only_libs|by rw Hdn2 Hd1| |done].
  intros _ s3 (_ & Hd3 & Hf3 & Ho3 & Hg3 & _). split; [|by rw Hd3 Hf3 Hf2 Hdf Ho3 Hob].
  intros w fn. rw /declared. destruct w; cbn [full_table].
  - by rw Hd3.
  - by rw Hf3 Hf2 Hdf Hg3 Hg2.
  - by rw Ho3 Hob.
Qed.
End LoaderLemmas.

Definition check_call (gpu : bool) (c : call) : bool :=
  match full_table gpu (call_lib c) !! call_fn c with Some p => well_typed p (call_args c) | None => false end.
Lemma calls_checked gpu : forallb (check_call gpu) (all_calls gpu) = true.
Proof. destruct gpu; by vm_compute. Qed.

(** C39: no binding calls a function with undeclared or wrong parameter types:
    once the three modules have loaded their libraries (with or without the
    GPU entry points), every call they make goes to a function with a declared
    prototype of as many parameters, and each argument (a handle, a byref of
    the right structure, an array, an integer) is one that the declared type
    accepts, so that no pointer or 64-bit offset is passed as a C int. *)
Theorem every_call_is_well_typed `{Linker} env shim s' :
  start_all env shim fresh_process = (Ok tt, s') →
  ∀ c, c ∈ all_calls (_gpu_ok s') →
  ∃ p, declared (call_lib c) (call_fn c) s' = Some p ∧ well_typed p (call_args c) = true.
Proof.
  intros Hrun c Hc. pose proof (start_all_spec env shim) as Hs. rw /wp Hrun in Hs. destruct Hs as [-> _].
  pose proof (proj1 (forallb_forall _ _) (calls_checked (_gpu_ok s')) c) as Hk.
  specialize (Hk (proj1 (list_elem_of_In _ _) Hc)). rw /check_call in Hk.
  destruct (full_table _ _ !! _) as [p|]; [by exists p|done].
Qed.

(** A load that fails half-way is never completed: when [_load] of
    [dfs_binding] raises for a symbol the library lacks, its handle is already
    set, so that the next [_load] returns at once and leaves a function of its
    tables undeclared.  The event module, which sets its flag last, declares its
    own functions again after a failure. *)
Theorem failed_load_is_not_retried `{Linker} env shim s e s' :
  libs s DfsDfs = None → dfs_load env s = (Raise e, s') → libs s' DfsDfs ≠ None →
  dfs_load env s' = (Ok tt, s') ∧ e = OtherError ∧ dfs_missing s' ∧
  (_protos_done s = false → ∀ e' s2, _declare env shim s' = (Raise e', s2) → _protos_done s2 = false).
Proof.
  intros Hn Hrun Hsome. pose proof (dfs_load_spec env s Hn) as Hs. rw /wp Hrun in Hs.
  destruct Hs as [(_ & _ & Hdone) [[_ Hbad]|(-> & Hl & Hm)]]; [done|].
  split_and!; [by apply dfs_load_again|done|done|]. intros Hpd e' s2. rw -Hdone in Hpd.
  rw /_declare /libdaos {1}/bind dfs_load_again // {1}/bind /gets Hpd {1}/bind /modify /bind.
  set (s1 := set_event _ s').
  assert (∀ l s0, _protos_done s0 = false → _protos_done (snd (declare_all DfsDaos l s0)) = false) as Hkeep.
  { induction l as [|d l IH]; intros s0 Hs0; [done|]. cbn [declare_all]. rw /bind /declare.
    destruct (libs s0 DfsDaos) as [c|]; [|done]. destruct (has_symbol DfsDaos d.1 s0); [|done]. by apply IH. }
  specialize (Hkeep event_protos s1 Hpd). destruct (declare_all DfsDaos event_protos s1) as [[[]|e2] s3]; [done|].
  by intros [= _ <-].
Qed.

(** An integer passed to an undeclared function is cut to 32 bits. *)
Lemma undeclared_offset_is_cut `{Linker} s w fn i z :
  declared w fn s = None → passed (arg_type w fn i s) z = z mod 2 ^ 32.
Proof. rw /arg_type. by intros ->. Qed.

(** The two bindings can load two DAOS clients: with LMCACHE_DAOS_LIBDIR
    set and DAOS_LIBDIR not, [dfs_binding] opens libdaos.so in that directory
    and [obj_binding] the one the linker finds, although each is meant to
    resolve as the other does. *)
Theorem bindings_can_load_two_clients `{Linker} env shim d s' :
  env !! "LMCACHE_DAOS_LIBDIR" = Some d → d ≠ EmptyString → env !! "DAOS_LIBDIR" = None →
  start_all env shim fresh_process = (Ok tt, s') →
  cd_path <$> libs s' DfsDaos = Some (path_join d "libdaos.so") ∧
  cd_path <$> libs s' ObjDaos = Some (found_or "daos" "libdaos.so").
Proof.
  intros Hl Hd Ho Hrun. pose proof (start_all_spec env shim) as Hs. rw /wp Hrun in Hs.
  destruct Hs as (_ & -> & _ & ->). rw /dfs_paths /obj_path /getenv Hl Ho. by rw bool_decide_false.
Qed.

(** ** The structures *)
Definition structures : list ctype :=
  [_Dirent; _Timespec; _Stat; DIov; DSgList; DaosMemAttr; DaosPropEntry; DaosProp; obj_DaosHandle;
   DaosObjId; DaosRecx; DaosIod; ev_DaosHandle; _EvPrivate; DaosEvent].

(** Every structure passed to DAOS has a sound layout: its fields are
    aligned, disjoint and inside it, and its size is the documented one: 144
    bytes for struct stat with the size at byte 48, the name of a struct dirent
    at byte 19, 16 for a property entry, 24 for an iov, 64 for an iod, and 176
    for an event, the size the event slots are allocated with. *)
Theorem structures_have_the_documented_layout t :
  t ∈ structures →
  packed 0 (sizeof t) (layout t) ∧ sizeof t mod alignment t = 0 ∧
  (sizeof <$> structures) = [280; 16; 144; 24; 16; 40; 16; 16; 8; 16; 16; 64; 8; 160; sizeof_DaosEvent] ∧
  offset_of _Stat "st_size" = Some 48 ∧ offset_of _Stat "st_mode" = Some 24 ∧
  offset_of _Dirent "d_name" = Some 19 ∧ offset_of DaosIod "iod_recxs" = Some 56 ∧
  offset_of DaosEvent "ev_error" = Some 0.
Proof.
  intros Ht. assert (∃ n fs, t = CStruct n fs) as (n & fs & ->).
  { apply list_elem_of_In in Ht. repeat (destruct Ht as [<-|Ht]; [by do 2 eexists|]). done. }
  destruct (layout_sound n fs) as [Hp Hm]. split_and!; [exact Hp|exact Hm|by vm_compute..].
Qed.

(** ** Concrete libraries *)
Module NativeDemo.
(** Every symbol of the tables; [old] lacks the rename. *)
Definition all_symbols : gset string :=
  list_to_set ((dfs_daos_protos ++ dfs_protos true ++ obj_protos ++ event_protos)%list.*1).
#[global] Instance linker : Linker := {|
  exports p := if bool_decide (p = "/old/libdfs.so") then Some (all_symbols ∖ {["dfs_move"]})
               else if bool_decide (p = "/none/libdfs.so") then None else Some all_symbols;
  find_library n := if bool_decide (n = "daos") then Some "libdaos.so.2" else None |}.
Definition env_of (d : string) : gmap string string := {["LMCACHE_DAOS_LIBDIR" := d]}.

Definition started : natives := snd (start_all (env_of "/opt/daos/") None fresh_process).
Lemma starts : start_all (env_of "/opt/daos/") None fresh_process = (Ok tt, started).
Proof. rw /started -(run_of (start_all (env_of "/opt/daos/") None) fresh_process (Ok tt)) //. Qed.
Definition half : natives := snd (dfs_load (env_of "/old") fresh_process).
Lemma starts_half : dfs_load (env_of "/old") fresh_process = (Raise OtherError, half).
Proof. rw /half -(run_of (dfs_load (env_of "/old")) fresh_process (Raise OtherError)) //. Qed.
Example shim_size : event_size (snd (start_all (env_of "/opt/daos/") (Some 200) fresh_process)) = (200, true).
Proof. by vm_compute. Qed.
Example cannot_open : fst (dfs_load (env_of "/none") fresh_process) = Raise (OSError 0).
Proof. by vm_compute. Qed.
End NativeDemo.

Lemma every_call_is_well_typed_witness :
  ∃ p, declared DfsDfs "dfs_move" NativeDemo.started = Some p ∧
       well_typed p [hdl; hdl; ABytes; hdl; ABytes; ANone] = true.
Proof.
  apply (every_call_is_well_typed _ _ _ NativeDemo.starts (mkCall DfsDfs "dfs_move" [hdl; hdl; ABytes; hdl; ABytes; ANone])).
  apply list_elem_of_In. do 13 right. left. reflexivity.
Defined.

(** A client without [dfs_move]: the asynchronous read stays undeclared, and
    its offset of 4 GiB arrives as 0. *)
Lemma failed_load_is_not_retried_witness :
  dfs_load (NativeDemo.env_of "/old") NativeDemo.half = (Ok tt, NativeDemo.half) ∧
  declared DfsDfs "dfs_read" NativeDemo.half = None ∧
  passed (arg_type DfsDfs "dfs_read" 3 NativeDemo.half) (2 ^ 32) = 0.
Proof.
  split; [|split; vm_compute; reflexivity].
  apply (failed_load_is_not_retried _ None fresh_process OtherError NativeDemo.half eq_refl NativeDemo.starts_half).
  vm_compute. discriminate.
Defined.

Lemma bindings_can_load_two_clients_witness :
  path_join "/opt/daos/" "libdaos.so" = "/opt/daos/libdaos.so" ∧ found_or "daos" "libdaos.so" = "libdaos.so.2" ∧
  cd_path <$> libs NativeDemo.started DfsDaos = Some (path_join "/opt/daos/" "libdaos.so") ∧
  cd_path <$> libs NativeDemo.started ObjDaos = Some (found_or "daos" "libdaos.so").
Proof.
  split; [vm_compute; reflexivity|]. split; [vm_compute; reflexivity|].
  apply (bindings_can_load_two_clients (NativeDemo.env_of "/opt/daos/") None "/opt/daos/" NativeDemo.started);
    [reflexivity|discriminate|reflexivity|apply NativeDemo.starts].
Defined.

Lemma structures_have_the_documented_layout_witness : packed 0 144 (layout _Stat).
Proof. apply (structures_have_the_documented_layout _Stat). right. right. left. Defined.
