(* ===== verification/Lifecycle.v ===== *)
(** * Opening and closing: [_parse_daos_url], [DfsSys.__init__] and [close],
    [DaosConnector.__init__], [_warm_up] and [close]

    Mounting a namespace is further entry points of libdfs ([LibDfsMount]) with
    the mounted handles as their ghost state.  The connector's constructor
    parses the target, lets [_choose_backend] pick the API, connects the
    object store ([ObjBinding.objsys_init]) or mounts the namespace, and warms
    the targets up.  [urlparse] and [parse_qs] are the standard library's: the
    parsed url is the input.  Thread pools are created and shut down without a
    state of their own here ([WedgePool] models the one that has). *)
From Stdlib Require Import Ascii.
From S2P Require Import Prelude DfsBinding ObjBinding Keys.
Open Scope Z_scope.
Open Scope py_scope.

(** ** The target's url *)
Record parsed_url := mkUrl { scheme : string; netloc : string; path : string; query_sys : list string }.

(** [s.split("/")] *)
Fixpoint split (s : string) : list string :=
  match s with
  | EmptyString => [EmptyString]
  | String c s =>
      match split s with
      | [] => []
      | p :: ps => if bool_decide (c = "/"%char) then EmptyString :: p :: ps else String c p :: ps
      end
  end.
(** [[p for p in path.split("/") if p]] *)
Definition parts (path : string) : list string := filter (λ p, p ≠ ""%string) (split path).

Definition _parse_daos_url (u : parsed_url) : res (string * string * option string) :=
  let? (pool, cont) :=
    if bool_decide (scheme u = "plugin"%string)
    then match parts (path u) with p :: c :: _ => Ok (p, c) | _ => Raise ValueError end
    else Ok (netloc u, match parts (path u) with c :: _ => c | [] => ""%string end) in
  if bool_decide (pool = ""%string) || bool_decide (cont = ""%string) then Raise ValueError
  else Ok (pool, cont, head (query_sys u)).

Lemma split_flat s : no_char "/" s = true → split s = [s].
Proof.
  induction s as [|c s IH]; [done|]. cbn. intros [Hc Hs]%andb_prop. rw IH //.
  by destruct (bool_decide (c = "/"%char)).
Qed.
Lemma split_cons s : ∃ p ps, split s = p :: ps.
Proof. induction s as [|c s (p & ps & IH)]; cbn; [by eauto|]. rw IH. case_bool_decide; eauto. Qed.
Lemma split_app a b : no_char "/" a = true → split (a +:+ String "/" b)%string = a :: split b.
Proof.
  induction a as [|c a IH]; cbn [no_char].
  - intros _. change (split (String "/" b) = ""%string :: split b). cbn [split].
    destruct (split_cons b) as (p & ps & ->). by rw bool_decide_true.
  - intros [Hc Ha]%andb_prop. change (split (String c (a +:+ String "/" b)) = String c a :: split b). cbn [split].
    rw IH //. by destruct (bool_decide (c = "/"%char)).
Qed.

(** The url names the target: for pool and container names that are not
    empty and hold no slash, both spellings of the url give exactly that pool
    and container (with the first [sys=] of the query), and the connector is
    refused with ValueError whenever one of them is missing; what is accepted
    is never empty. *)
Theorem url_names_the_target pool cont name qs :
  pool ≠ ""%string → cont ≠ ""%string → no_char "/" pool = true → no_char "/" cont = true →
  _parse_daos_url (mkUrl "plugin" name ("/" +:+ pool +:+ "/" +:+ cont) qs) = Ok (pool, cont, head qs) ∧
  _parse_daos_url (mkUrl "daos" pool ("/" +:+ cont) qs) = Ok (pool, cont, head qs) ∧
  _parse_daos_url (mkUrl "plugin" name ("/" +:+ pool) qs) = Raise ValueError ∧
  _parse_daos_url (mkUrl "daos" pool "" qs) = Raise ValueError ∧
  (∀ u p c sy, _parse_daos_url u = Ok (p, c, sy) → p ≠ ""%string ∧ c ≠ ""%string).
Proof.
  intros Hp Hc Hps Hcs.
  assert (parts ("/" +:+ pool +:+ "/" +:+ cont)%string = [pool; cont]) as H2.
  { rw /parts. change ("/" +:+ pool +:+ "/" +:+ cont)%string with ("" +:+ String "/" (pool +:+ String "/" cont))%string.
    rw split_app // split_app // split_flat //. rw filter_cons_False; [by intros []|].
    by rw filter_cons_True // filter_cons_True. }
  assert (∀ x, x ≠ ""%string → no_char "/" x = true → parts ("/" +:+ x)%string = [x]) as H1.
  { intros x Hx Hxs. rw /parts. change ("/" +:+ x)%string with ("" +:+ String "/" x)%string.
    rw split_app // split_flat //. rw filter_cons_False; [by intros []|]. by rw filter_cons_True. }
  split_and!.
  - rw /_parse_daos_url /path H2 /=. by rw !bool_decide_false.
  - rw /_parse_daos_url /path (H1 cont) //=. by rw !bool_decide_false.
  - rw /_parse_daos_url /path (H1 pool) //=.
  - rw /_parse_daos_url /=. by rw orb_true_r.
  - intros u p c sy. rw /_parse_daos_url. destruct (if bool_decide (scheme u = _) then _ else _) as [[p' c']|]; cbn [res_bind]; [|done].
    destruct (decide (p' = ""%string)) as [->|Hp']; [done|]. rw bool_decide_false //.
    destruct (decide (c' = ""%string)) as [->|Hc']; [done|]. rw bool_decide_false //. cbn. by intros [= <- <- _].
Qed.

Lemma url_names_the_target_witness :
  _parse_daos_url (mkUrl "plugin" "daos" "/attr1/kvlmc5" ["s1"%string]) = Ok ("attr1"%string, "kvlmc5"%string, Some "s1"%string).
Proof. apply (url_names_the_target "attr1" "kvlmc5" "daos" ["s1"%string]); [discriminate|discriminate|reflexivity|reflexivity]. Defined.

(** ** Mounting *)
Class LibDfsMount (W : Type) := {
  daos_init : W → Z * W;
  dfs_init : W → Z * W;
  dfs_sys_connect : string → option string → string → Z → Z → W → Z * Z * W;   (* rc, mount *)
  dfs_sys_disconnect : Z → W → Z * W;
}.

(** The process: [DfsSys._daos_inited] and the C world. *)
Record proc (W : Type) := mkProc { _daos_inited : bool; p_w : W }.
Arguments mkProc {W}. Arguments _daos_inited {W}. Arguments p_w {W}.

Section Mount.
Context {W : Type} `{LibDfsMount W}.

Definition connect (pool cont : string) (sys : option string) (mflags sflags : Z) : M (proc W) Z := λ s,
  let '(r, w) := checked (dfs_sys_connect pool sys cont mflags sflags (p_w s)) in
  (r, mkProc (_daos_inited s) w).
Definition DfsSys_init (pool cont : string) (sys : option string) (mflags sflags : Z) : M (proc W) Z := λ s,
  if _daos_inited s then connect pool cont sys mflags sflags s else
  let '(rc, w) := daos_init (p_w s) in
  if negb (rc =? 0) then (Raise (DaosError rc), mkProc false w) else
  let '(rc, w) := dfs_init w in
  if negb (rc =? 0) then (Raise (DaosError rc), mkProc false w) else
  connect pool cont sys mflags sflags (mkProc true w).

(** [close] of the handle held; the result is the handle it leaves. *)
Definition DfsSys_close (sys : Z) (s : proc W) : Z * proc W :=
  if sys =? 0 then (sys, s) else (0, mkProc (_daos_inited s) (snd (dfs_sys_disconnect sys (p_w s)))).

(** A call on the mounted namespace. *)
Definition onProc {X} (m : M W X) : M (proc W) X := λ p,
  let '(r, w) := m (p_w p) in (r, mkProc (_daos_inited p) w).
(** The warm-up of the adapter and of the GPU backend: whatever it raises is
    logged and dropped. *)
Definition probe `{!LibDfs W} (path : string) (n chunk : Z) : M (proc W) unit :=
  try_except (let! _ := onProc (warm_up_all_targets path n chunk) in ret tt)
    (λ e, if is_exception e then Some (ret tt) else None).
End Mount.

Class MountLaws (W : Type) `{LibDfsMount W} := {
  mounts : W → gset Z;
  daos_init_law w rc w' : daos_init w = (rc, w') → mounts w' = mounts w;
  dfs_init_law w rc w' : dfs_init w = (rc, w') → mounts w' = mounts w;
  connect_law p s c mf sf w rc h w' : dfs_sys_connect p s c mf sf w = (rc, h, w') →
    (rc = 0 → h ≠ 0 ∧ (h ∉ mounts w) ∧ mounts w' = {[h]} ∪ mounts w) ∧ (rc ≠ 0 → mounts w' = mounts w);
  disconnect_law h w rc w' : dfs_sys_disconnect h w = (rc, w') → mounts w' = mounts w ∖ {[h]};
}.

Section MountSpecs.
Context {W : Type} `{MountLaws W}.

Lemma DfsSys_init_spec pool cont sys mf sf (s : proc W) :
  wp (DfsSys_init pool cont sys mf sf) s
    (λ h s', h ≠ 0 ∧ (h ∉ mounts (p_w s)) ∧ mounts (p_w s') = {[h]} ∪ mounts (p_w s) ∧ _daos_inited s' = true)
    (λ e s', mounts (p_w s') = mounts (p_w s) ∧ ∃ rc, e = DaosError rc).
Proof.
  assert (∀ s1 : proc W, mounts (p_w s1) = mounts (p_w s) → _daos_inited s1 = true →
    wp (connect pool cont sys mf sf) s1
      (λ h s', h ≠ 0 ∧ (h ∉ mounts (p_w s)) ∧ mounts (p_w s') = {[h]} ∪ mounts (p_w s) ∧ _daos_inited s' = true)
      (λ e s', mounts (p_w s') = mounts (p_w s) ∧ ∃ rc, e = DaosError rc)) as Hconn.
  { intros s1 Hm Hi. rw /wp /connect /checked. destruct (dfs_sys_connect _ _ _ _ _ (p_w s1)) as [[rc h] w] eqn:E.
    apply connect_law in E as [Hz Hn]. rw Hm in Hz Hn. destruct (Z.eqb_spec rc 0) as [->|Hrc]; cbn; naive_solver. }
  rw /wp /DfsSys_init. destruct (_daos_inited s) eqn:Ei; [by apply Hconn|].
  destruct (daos_init (p_w s)) as [rc w] eqn:E1. apply daos_init_law in E1.
  destruct (rc =? 0); cbn; [|by eauto]. destruct (dfs_init w) as [rc2 w2] eqn:E2. apply dfs_init_law in E2.
  destruct (rc2 =? 0); cbn; [|by rw E2; eauto]. apply (Hconn (mkProc true w2)); [by rw /= E2|done].
Qed.

Lemma DfsSys_close_spec h (s : proc W) : h ≠ 0 →
  fst (DfsSys_close h s) = 0 ∧ mounts (p_w (snd (DfsSys_close h s))) = mounts (p_w s) ∖ {[h]}.
Proof.
  intros Hh. rw /DfsSys_close. destruct (Z.eqb_spec h 0); [done|]. cbn. split; [done|].
  destruct (dfs_sys_disconnect h (p_w s)) as [rc w] eqn:E. by apply disconnect_law in E.
Qed.
End MountSpecs.

(** ** The connector *)
Record cworld (W O : Type) := mkCW { cw_dfs : proc W; cw_obj : O }.
Arguments mkCW {W O}. Arguments cw_dfs {W O}. Arguments cw_obj {W O}.

(** What the constructor reads: its arguments and the environment, with the
    integers as [int()] gives them. *)
Record init_args := mkArgs {
  has_lmcache : bool; has_local_cpu : bool;
  url_arg : option parsed_url; remote_url : option parsed_url;
  env_force : string; env_workers : res Z; env_probe_chunks : res Z; pid : string }.
(** [_raw], [_obj], [_dfs] and [_workers] of the object. *)
Record connector := mkConnector {
  _raw : bool; _obj : option ObjSys; _dfs : option Z; _workers : Z }.

Section Connect.
Context {W O : Type} `{LibDfs W} `{!LibDfsMount W} `{LibDaosConn O}.
Context (chunk : Z).     (* warm_up_all_targets' default, 4 MiB *)
Abbreviation C := (cworld W O).

Definition onP {X} (m : M (proc W) X) : M C X := λ s,
  let '(r, p) := m (cw_dfs s) in (r, mkCW p (cw_obj s)).
Definition onOb {X} (m : M O X) : M C X := λ s,
  let '(r, o) := m (cw_obj s) in (r, mkCW (cw_dfs s) o).
Definition onDfsW {X} (m : M W X) : M C X := onP (λ p,
  let '(r, w) := m (p_w p) in (r, mkProc (_daos_inited p) w)).

(** [_warm_up]: best effort, and only for the DFS branch. *)
Definition _warm_up (a : init_args) (raw : bool) : M C unit :=
  let nchunks := match env_probe_chunks a with Ok n => n | Raise _ => 64 end in
  if nchunks <=? 0 then ret tt else
  if raw then ret tt else
  try_except
    (let! _ := onDfsW (warm_up_all_targets ("/.daos-probe." +:+ pid a)%string nchunks chunk) in ret tt)
    (λ e, if is_exception e then Some (ret tt) else None).

Definition target (a : init_args) : res (string * string * option string) :=
  match url_arg a, remote_url a with
  | Some u, _ | None, Some u => _parse_daos_url u
  | None, None => Raise ValueError
  end.
(** The object or the mount. *)
Definition attach (raw : bool) (pool cont : string) (sys : option string) : M C (option ObjSys * option Z) :=
  if raw then let! o := onOb (objsys_init pool cont sys 1 0) in ret (Some o, None)
  else let! d := onP (DfsSys_init pool cont sys DFS_RDWR 0) in ret (None, Some d).
(** What follows the connection: the pools and the warm-up. *)
Definition finish_init (a : init_args) (raw : bool) (h : option ObjSys * option Z) : M C connector :=
  let! n := lift (env_workers a) in
  if n <=? 0 then raise ValueError else       (* ThreadPoolExecutor(max_workers=n) *)
  let! _ := _warm_up a raw in
  ret (mkConnector raw (fst h) (snd h) n).

Definition DaosConnector_init (a : init_args) : M C connector :=
  if negb (has_lmcache a) then raise RuntimeError else
  if negb (has_local_cpu a) then raise ValueError else
  let! (pool, cont, sys) := lift (target a) in
  let! raw := onOb (_choose_backend (env_force a) pool cont sys) in
  let! h := attach raw pool cont sys in
  finish_init a raw h.

(** [close]: [(self._obj or self._dfs).close()]. *)
Definition DaosConnector_close (c : connector) (s : C) : C :=
  match _obj c, _dfs c with
  | Some o, _ => mkCW (cw_dfs s) (snd (close (o, cw_obj s)))
  | None, Some h => mkCW (snd (DfsSys_close h (cw_dfs s))) (cw_obj s)
  | None, None => s
  end.
End Connect.

(** File operations do not mount or unmount. *)
Class MountFrame (W : Type) `{!LibDfs W} `{MountLaws W} := {
  open_mounts p m f c w r w' : dfs_sys_open p m f c w = (r, w') → mounts w' = mounts w;
  close_mounts h w r w' : dfs_sys_close h w = (r, w') → mounts w' = mounts w;
  read_mounts h o n w r w' : dfs_sys_read h o n w = (r, w') → mounts w' = mounts w;
  write_mounts h o b w r w' : dfs_sys_write h o b w = (r, w') → mounts w' = mounts w;
  remove_mounts p w r w' : dfs_sys_remove_type p w = (r, w') → mounts w' = mounts w;
  stat_mounts p w r w' : dfs_sys_stat p w = (r, w') → mounts w' = mounts w;
  mkdir_mounts p w r w' : dfs_sys_mkdir_p p w = (r, w') → mounts w' = mounts w;
}.

(** [m] raises nothing but Python exceptions. *)
Definition raises_exceptions {S X} (m : M S X) : Prop :=
  ∀ s e s', m s = (Raise e, s') → is_exception e = true.
Section Raises.
Context {S : Type}.
Lemma rx_ret {X} (x : X) : raises_exceptions (S:=S) (ret x).
Proof. by intros s e s' [=]. Qed.
Lemma rx_bind {X Y} (m : M S X) (f : X → M S Y) :
  raises_exceptions m → (∀ x, raises_exceptions (f x)) → raises_exceptions (bind m f).
Proof.
  intros Hm Hf s e s'. rw /bind. destruct (m s) as [[x|e1] s1] eqn:E; [apply Hf|]. intros [= <- <-]. by eapply Hm.
Qed.
Lemma rx_finally {X} (m : M S X) f : raises_exceptions m → raises_exceptions (try_finally m f).
Proof. intros Hm s e s'. rw /try_finally. destruct (m s) as [r s1] eqn:E. intros [= -> _]. by eapply Hm. Qed.
Lemma rx_except {X} (m : M S X) h :
  raises_exceptions m → (∀ e k, h e = Some k → raises_exceptions k) → raises_exceptions (try_except m h).
Proof.
  intros Hm Hh s e s'. rw /try_except. destruct (m s) as [[x|e1] s1] eqn:E; [done|].
  destruct (h e1) as [k|] eqn:Ek; [by apply (Hh e1)|]. intros [= <- <-]. by eapply Hm.
Qed.
Lemma rx_mapM {X Y} (f : X → M S Y) l : (∀ x, raises_exceptions (f x)) → raises_exceptions (mapM f l).
Proof.
  intros Hf. induction l as [|x l IH]; cbn; [apply rx_ret|]. apply rx_bind; [done|]. intros y.
  apply rx_bind; [done|]. intros ys. apply rx_ret.
Qed.
Lemma rx_pool_map {X Y} (f : X → M S Y) l : (∀ x, raises_exceptions (f x)) → raises_exceptions (pool_map f l).
Proof.
  intros Hf s e s'. rw /pool_map. destruct (pool_run f l s) as [rs s1] eqn:E. intros [= Hr _].
  revert s rs s1 E Hr. induction l as [|x l IH]; intros s rs s1; cbn.
  - by intros [= <- <-].
  - destruct (f x s) as [r s2] eqn:Ef. destruct (pool_run f l s2) as [rs' s3] eqn:El. intros [= <- <-]. cbn.
    destruct r as [y|e1]; cbn; [|by intros [= <-]; eapply Hf].
    destruct (res_map id rs') eqn:Em; cbn; [done|]. intros [= <-]. by eapply IH.
Qed.
End Raises.

Section WarmFrame.
Context {W : Type} `{MountFrame W}.
Definition same_mounts (w w' : W) : Prop := mounts w' = mounts w.
#[local] Instance same_mounts_preorder : PreOrder same_mounts.
Proof. split; [done|]. intros w1 w2 w3. rw /same_mounts. congruence. Qed.

Lemma checked_rx {X} (f : W → Z * X * W) : raises_exceptions (λ w, checked (f w)).
Proof. intros w e w'. rw /checked. destruct (f w) as [[rc x] w1]. case_match; by intros [= <- <-]. Qed.
Lemma checked_keeps {X} (f : W → Z * X * W) :
  (∀ w r w', f w = (r, w') → mounts w' = mounts w) → keeps same_mounts (λ w, checked (f w)).
Proof.
  intros Hf w. rw /checked. destruct (f w) as [[rc x] w1] eqn:E. apply Hf in E. by destruct (negb (rc =? 0)).
Qed.
Lemma close_obj_mounts h w : same_mounts w (close_obj h w).
Proof. rw /close_obj. destruct (dfs_sys_close h w) as [rc w'] eqn:E. by apply close_mounts in E. Qed.
Lemma remove_both p : raises_exceptions (DfsBinding.remove p) ∧ keeps same_mounts (DfsBinding.remove p).
Proof.
  split.
  - intros w e w'. rw /DfsBinding.remove. destruct (dfs_sys_remove_type p w). repeat case_match; by intros [= <- <-].
  - intros w. rw /DfsBinding.remove. destruct (dfs_sys_remove_type p w) as [rc w'] eqn:E. apply remove_mounts in E.
    by repeat case_match.
Qed.

Lemma keeps_mapM {X Y} (f : X → M W Y) l : (∀ x, keeps same_mounts (f x)) → keeps same_mounts (mapM f l).
Proof. intros Hf. induction l as [|x l IH]; cbn; keeps_tac; auto. Qed.

Lemma warm_up_rx p n chunk : raises_exceptions (warm_up_all_targets p n chunk).
Proof.
  assert (∀ c, raises_exceptions (open_rdwr_create p c)) as Ho by (intros c; apply checked_rx).
  assert (∀ h o b, raises_exceptions (write_obj_from h o b)) as Hw by (intros; apply checked_rx).
  apply rx_bind.
  { apply rx_except; [apply rx_bind; [apply Ho|intros; apply rx_ret]|].
    intros e k. repeat case_match; intros [= <-]. apply rx_bind; [apply Ho|intros; apply rx_ret]. }
  intros [oclass h]. apply rx_bind.
  { apply rx_finally, rx_bind; [by apply rx_mapM|intros _; by apply rx_pool_map]. }
  intros _. apply rx_bind.
  { apply rx_pool_map. intros i. apply rx_bind; [apply checked_rx|]. intros hh. apply rx_finally, rx_bind; [apply checked_rx|intros; apply rx_ret]. }
  intros got. apply rx_bind; [|intros; apply rx_ret].
  apply rx_except; [apply rx_bind; [apply remove_both|intros; apply rx_ret]|]. intros e k. case_match; intros [= <-]. apply rx_ret.
Qed.

Lemma warm_up_mounts p n chunk : keeps same_mounts (warm_up_all_targets p n chunk).
Proof.
  assert (∀ c, keeps same_mounts (open_rdwr_create p c)) as Ho by (intros c; apply checked_keeps; intros w r w'; apply open_mounts).
  assert (∀ h o b, keeps same_mounts (write_obj_from h o b)) as Hw by (intros; apply checked_keeps; intros w r w'; apply write_mounts).
  assert (∀ h o k, keeps same_mounts (read_obj_into h o k)) as Hr by (intros; apply checked_keeps; intros w r w'; apply read_mounts).
  assert (keeps same_mounts (open_rdonly p)) as Hro by (apply checked_keeps; intros w r w'; apply open_mounts).
  rw /warm_up_all_targets. apply keeps_bind; [apply _| |].
  { keeps_tac; auto. }
  intros [oclass h]. apply keeps_bind; [apply _| |].
  { apply keeps_finally; [apply _| |apply close_obj_mounts]. apply keeps_bind; [apply _|by apply keeps_mapM|].
    intros _. apply keeps_pool_map; [apply _|auto]. }
  intros _. apply keeps_bind; [apply _| |].
  { apply keeps_pool_map; [apply _|]. intros i. apply keeps_bind; [apply _|done|]. intros hh.
    apply keeps_finally; [apply _| |apply close_obj_mounts]. keeps_tac; auto. }
  intros got. pose proof (proj2 (remove_both p)). keeps_tac; auto.
Qed.

Lemma probe_mounts p n chunk (s : proc W) :
  wp (probe p n chunk) s (λ _ s', mounts (p_w s') = mounts (p_w s)) (λ _ _, False).
Proof.
  rw /probe. apply wp_except, wp_bind.
  pose proof (warm_up_mounts p n chunk (p_w s)) as Hm. pose proof (warm_up_rx p n chunk (p_w s)) as Hx.
  rw /wp /onProc. destruct (warm_up_all_targets p n chunk (p_w s)) as [[r|e] w]; cbn in *; [done|].
  by rw (Hx e w eq_refl).
Qed.
Lemma mkdir_proc p (s : proc W) :
  wp (onProc (mkdir_p p)) s (λ _ s', mounts (p_w s') = mounts (p_w s)) (λ _ s', mounts (p_w s') = mounts (p_w s)).
Proof.
  rw /wp /onProc /mkdir_p. destruct (dfs_sys_mkdir_p p (p_w s)) as [rc w'] eqn:E. apply mkdir_mounts in E. by destruct (negb _).
Qed.
End WarmFrame.

(** ** The life of a connector *)
Section ObjLife.
Context {O : Type} `{LibDaosConnLaws O}.
Implicit Types w : O.

Lemma objsys_init_balanced pool cont sys lo hi w :
  wp (objsys_init pool cont sys lo hi) w
    (λ o w', hset w ⊂ hset w' ∧ hset (snd (close (o, w'))) = hset w) (λ _ w', hset w' = hset w).
Proof.
  rw /wp /objsys_init. destruct (ObjBinding.daos_init w) as [rc w1] eqn:Hi. apply init_law in Hi.
  destruct (negb (rc =? 0)); [done|]. rw -Hi.
  pose proof (objsys_body_spec pool cont sys lo hi w1) as Hb. rw /wp in Hb.
  destruct (objsys_body _ _ _ _ _ _) as [[[]|e] [o w2]]; simpl in Hb.
  - destruct Hb as (Ho & Hop & _). destruct (close_spec o w1 w2 Ho) as (Hs & _). split; [|done].
    destruct Ho as [-> Hd]. rw /objsys_own Hop in Hd |- *. set_solver.
  - destruct Hb as [-> Ho]. by destruct (close_spec o w1 w2 Ho) as (Hs & _).
Qed.
End ObjLife.

Section Life.
Context {W O : Type} `{MountFrame W} `{LibDaosConnLaws O} (chunk : Z).
Abbreviation C := (cworld W O).
Implicit Types s : C.

Abbreviation mnt s := (mounts (p_w (cw_dfs s))).
Abbreviation hnd s := (hset (cw_obj s)).
(** The same connections as before. *)
Definition clean s s' : Prop := mnt s' = mnt s ∧ hnd s' = hnd s.
(** One connection more than before: a mount, or the handles of an object. *)
Definition leaked s s' : Prop :=
  (∃ h, (h ∉ mnt s) ∧ mnt s' = {[h]} ∪ mnt s ∧ hnd s' = hnd s) ∨ (mnt s' = mnt s ∧ hnd s ⊂ hnd s').
Definition workers_ok (a : init_args) : bool :=
  match env_workers a with Ok n => 0 <? n | Raise _ => false end.

(** What [attach] holds on success. *)
Definition attached (raw : bool) (h : option ObjSys * option Z) s s' : Prop :=
  match h with
  | (Some o, None) => raw = true ∧ mnt s' = mnt s ∧ hnd s ⊂ hnd s' ∧ hset (snd (close (o, cw_obj s'))) = hnd s
  | (None, Some d) => raw = false ∧ hnd s' = hnd s ∧ d ≠ 0 ∧ (d ∉ mnt s) ∧ mnt s' = {[d]} ∪ mnt s
  | _ => False
  end.
Lemma attached_leaks raw h s s' : attached raw h s s' → leaked s s'.
Proof.
  destruct h as [[o|] [d|]]; cbn; try done.
  - intros (_ & Hm & Hh & _). by right.
  - intros (_ & Hh & _ & Hn & Hm). left. by exists d.
Qed.

Lemma attach_spec raw pool cont sys s :
  wp (attach raw pool cont sys) s (λ h s', attached raw h s s') (λ _ s', clean s s').
Proof.
  rw /attach. destruct raw.
  - apply wp_bind. rw /wp /onOb.
    assert (wp (objsys_init pool cont sys 1 0) (cw_obj s)
      (λ o w', hset (cw_obj s) ⊂ hset w' ∧ hset (snd (close (o, w'))) = hset (cw_obj s))
      (λ _ w', hset w' = hset (cw_obj s))) as Ho by apply objsys_init_balanced.
    rw /wp in Ho. destruct (objsys_init pool cont sys 1 0 (cw_obj s)) as [[o|e] w].
    + destruct Ho as (Hsub & Hcl). by split_and!.
    + by split.
  - apply wp_bind. rw /wp /onP. pose proof (DfsSys_init_spec pool cont sys DFS_RDWR 0 (cw_dfs s)) as Hd. rw /wp in Hd.
    destruct (DfsSys_init pool cont sys DFS_RDWR 0 (cw_dfs s)) as [[d|e] p].
    + destruct Hd as (Hd0 & Hn & Hm & _). by split_and!.
    + destruct Hd as [Hm _]. by split.
Qed.

Lemma warm_up_clean a raw s : wp (_warm_up chunk a raw) s (λ _ s', clean s s') (λ _ _, False).
Proof.
  rw /_warm_up. set (n := match env_probe_chunks a with Ok n => n | Raise _ => 64 end). clearbody n.
  destruct (n <=? 0); [by apply wp_ret|]. destruct raw; [by apply wp_ret|].
  apply wp_except, wp_bind. rw /wp /onDfsW /onP.
  pose proof (warm_up_mounts ("/.daos-probe." +:+ pid a)%string n chunk (p_w (cw_dfs s))) as Hm.
  pose proof (warm_up_rx ("/.daos-probe." +:+ pid a)%string n chunk (p_w (cw_dfs s))) as Hx.
  destruct (warm_up_all_targets _ n chunk (p_w (cw_dfs s))) as [[r|e] w]; cbn in *; [by split|].
  rw (Hx e w eq_refl). by split.
Qed.

Lemma attached_clean raw h s s1 s2 : clean s1 s2 → attached raw h s s1 → cw_obj s2 = cw_obj s1 → attached raw h s s2.
Proof. intros [Hm Hh] Ha Ho. rw /attached Hm Ho. destruct h as [[o|] [d|]]; exact Ha. Qed.
Lemma warm_up_obj a raw : keeps (λ s s' : C, cw_obj s' = cw_obj s) (_warm_up chunk a raw).
Proof.
  assert (PreOrder (λ s s' : C, cw_obj s' = cw_obj s)) by (split; [done|intros ???; congruence]).
  rw /_warm_up. keeps_tac; intros s1; rw /onDfsW /onP; by destruct (warm_up_all_targets _ _ _ _).
Qed.

(** The backend the container asks for: the object API exactly for a layout
    that is not POSIX; DAOS_FORCE_LAYOUT decides only if the layout cannot be
    read. *)
Definition right_backend (a : init_args) s (raw : bool) : Prop :=
  ∃ pool cont sys, target a = Ok (pool, cont, sys) ∧
    match fst (container_layout pool cont sys (cw_obj s)) with
    | Ok l => raw = negb (l =? DAOS_PROP_CO_LAYOUT_POSIX)
    | Raise _ => forced_layout (env_force a) = (if raw then "raw" else "posix")%string
    end.

End Life.

(** ** A concrete mount table *)
Module MountDemo.
Record world := mkWorld { mw_dfs : MemDfs.mem; mounted : gset Z }.
Definition lift1 {X} (f : MemDfs.mem → X * MemDfs.mem) (w : world) : X * world :=
  let '(x, d) := f (mw_dfs w) in (x, mkWorld d (mounted w)).
#[global] Instance dfs : LibDfs world := {|
  dfs_sys_open p m f c := lift1 (dfs_sys_open p m f c); dfs_sys_close h := lift1 (dfs_sys_close h);
  dfs_sys_read h o n := lift1 (dfs_sys_read h o n); dfs_sys_write h o b := lift1 (dfs_sys_write h o b);
  dfs_sys_stat p := lift1 (dfs_sys_stat p); dfs_sys_mkdir_p p := lift1 (dfs_sys_mkdir_p p);
  dfs_sys_remove_type p := lift1 (dfs_sys_remove_type p); dfs_sys_opendir p := lift1 (dfs_sys_opendir p);
  dfs_sys_readdir d := lift1 (dfs_sys_readdir d); dfs_sys_closedir d := lift1 (dfs_sys_closedir d);
  dfs_lookup p f := lift1 (dfs_lookup p f); dfs_release h := lift1 (dfs_release h);
  dfs_move d n d' n' := lift1 (dfs_move d n d' n') |}.
Lemma mount_lift_inv {X} (f : MemDfs.mem → X * MemDfs.mem) w x w' :
  lift1 f w = (x, w') → f (mw_dfs w) = (x, mw_dfs w') ∧ mounted w' = mounted w.
Proof. rw /lift1. destruct (f (mw_dfs w)) as [y d]. by intros [= <- <-]. Qed.
#[global] Program Instance dfs_laws : LibDfsLaws world :=
  {| fs w := fs (mw_dfs w); hs w := hs (mw_dfs w); up w := up (mw_dfs w) |}.
Next Obligation. intros * [E _]%mount_lift_inv. exact (open_law _ _ _ _ _ _ _ _ E). Qed.
Next Obligation. intros * [E _]%mount_lift_inv. exact (close_law _ _ _ _ E). Qed.
Next Obligation. intros * [E _]%mount_lift_inv. exact (read_law _ _ _ _ _ _ _ _ _ E). Qed.
Next Obligation. intros * [E _]%mount_lift_inv. exact (write_law _ _ _ _ _ _ _ _ _ E). Qed.
Next Obligation. intros * [E _]%mount_lift_inv. exact (stat_law _ _ _ _ _ E). Qed.
Next Obligation. intros * [E _]%mount_lift_inv. exact (remove_law _ _ _ _ E). Qed.
#[global] Instance mount : LibDfsMount world := {|
  daos_init w := (0, w); dfs_init w := (0, w);
  dfs_sys_connect _ _ _ _ _ w :=
    let h := fresh ({[0]} ∪ mounted w) in (0, h, mkWorld (mw_dfs w) ({[h]} ∪ mounted w));
  dfs_sys_disconnect h w := (0, mkWorld (mw_dfs w) (mounted w ∖ {[h]})) |}.
#[global] Program Instance mount_laws : MountLaws world := {| mounts := mounted |}.
Next Obligation. by intros w rc w' [= <- <-]. Qed.
Next Obligation. by intros w rc w' [= <- <-]. Qed.
Next Obligation.
  intros p s c mf sf w rc h w' [= <- <- <-]. split; [|done]. intros _.
  pose proof (is_fresh ({[0]} ∪ mounted w)) as Hf. split_and!; [set_solver|set_solver|done].
Qed.
Next Obligation. by intros h w rc w' [= <- <-]. Qed.
#[global] Instance frame : MountFrame world.
Proof. split; intros * [_ E]%mount_lift_inv; exact E. Qed.

Definition empty : world := mkWorld (MemDfs.mkMem ∅ ∅ ∅ false []) ∅.
Definition start : cworld world MemObj.mem :=
  mkCW (mkProc false empty) (MemObj.mkMem ∅ ∅ DAOS_PROP_CO_LAYOUT_POSIX []).
Definition args (workers : res Z) : init_args :=
  mkArgs true true None (Some (mkUrl "plugin" "daos" "/attr1/kv" [])) "" workers (Ok 2) "7".
End MountDemo.


(** The other case happens: DAOS_WORKERS=abc leaves the namespace mounted. *)
Example refused_workers_leave_the_mount :
  let '(r, s') := DaosConnector_init 8 (MountDemo.args (Raise ValueError)) MountDemo.start in
  r = Raise ValueError ∧ MountDemo.mounted (p_w (cw_dfs s')) ≠ ∅.
Proof. vm_compute. by split. Qed.
Example a_connector_opens :
  let '(r, s') := DaosConnector_init 8 (MountDemo.args (Ok 16)) MountDemo.start in
  ∃ h, r = Ok (mkConnector false None (Some h) 16) ∧ MountDemo.mounted (p_w (cw_dfs s')) = {[h]}.
Proof. vm_compute. by eexists. Qed.
