(* ===== verification/L2Life.v ===== *)
(** * Opening and closing of the MP adapter: [DaosL2Adapter.__init__],
    [_warm_up] and [close]

    The constructor mounts the namespace, makes the root directory, creates
    the pools, the dispatcher and the event descriptors, and warms the targets
    up; the world then belongs to the adapter's state.  [close] waits at most 30
    seconds for the tasks in flight (steps of the machine of [L2Adapter]); what
    is modelled here is what follows the wait: the dispatcher is closed, the
    pools are shut down, which waits for every task in flight, and the mount is
    given back.  A DAOS call need not return (the engine may be dead): which
    tasks never end, and whether the unmount does, are arguments of [close]. *)
From S2P Require Import Prelude DfsBinding L2Config L2Adapter L2Tasks FairDispatcher Lifecycle.
From Stdlib Require Import QArith_base.
Open Scope Z_scope.
Open Scope py_scope.

Section Life.
Context {W K : Type} `{LibDfs W} `{!LibDfsMount W} `{Clock K}.
Context (cfg : DaosL2AdapterConfig) (pid : string) (chunk : Z).
Abbreviation St := (adapter W K).

(** Best effort, as in the connector. *)
Definition l2_warm_up : M (proc W) unit :=
  let nchunks := cf_probe_chunks cfg in
  if nchunks <=? 0 then ret tt else
  probe (cf_root cfg +:+ "/.daos-l2-probe." +:+ pid)%string nchunks chunk.

(** The rest of the process: LMCache's [create_event_notifier], called for the
    [n]-th of the three descriptors, and [threading.Thread.start], by name. *)
Record host := mkHost { create_event_notifier : nat → res unit; thread_start : string → res unit }.

(** The mount and the adapter; the default [dfs_factory]. *)
Definition DaosL2Adapter_init (h : host) (k : K) (bufs : gmap Z bytes) : M (proc W) (Z * St) :=
  let! d := DfsSys_init (cf_pool cfg) (cf_container cfg) (cf_sys cfg) DFS_RDWR 0 in
  let! _ := if bool_decide (cf_root cfg = "/"%string) then ret tt else onProc (mkdir_p (cf_root cfg)) in
  if (cf_task_workers cfg <=? 0) || (cf_workers cfg <=? 0) then raise ValueError else
  let! _ := lift (if bool_decide (cf_load_schedule cfg = "fair"%string) then thread_start h "daos-l2-fair" else Ok tt) in
  let! _ := l2_warm_up in
  let! _ := mapM (λ n, lift (create_event_notifier h n)) [0%nat; 1%nat; 2%nat] in
  let! _ := lift (if Qle_bool (cf_status_interval_s cfg) 0 then Ok tt else thread_start h "daos-l2-status") in
  λ p, (Ok (d, init_adapter (p_w p) k bufs), p).

(** A task that runs after the dispatcher was closed: under the fair schedule
    a load waits for items that are never picked
    ([FairDispatcher.closing_strands_queued_calls]). *)
Definition starved (t : task) : bool :=
  match t with
  | TLoad keys objects =>
      bool_decide (cf_load_schedule cfg = "fair"%string) && negb (bool_decide (zip keys objects = []))
  | _ => false
  end.
(** [self._tasks.shutdown(wait=True)]: the queued tasks run; what a task
    raises stays in its future. *)
Fixpoint run_all (l : list (Z * task)) (s : St) : St :=
  match l with
  | [] => s
  | (tid, t) :: l => run_all l (snd (execute cfg tid t (dequeue 0 s)))
  end.
(** [close] after its wait; [None]: it never returns.  [hangs tid]: a DAOS call
    of that task does not return; [unmount_hangs]: the unmount does not. *)
Definition DaosL2Adapter_close (hangs : Z → bool) (unmount_hangs : bool) (d : Z) (inited : bool) (s : St) : option St :=
  if existsb (λ x : Z * task, starved (snd x) || hangs (fst x)) (pending s) || unmount_hangs then None else
  let s := run_all (pending s) s in
  Some (set_dfs (p_w (snd (DfsSys_close d (mkProc inited (a_dfs s))))) s).
End Life.

(** ** Tasks do not mount or unmount *)
Section Frame.
Context {W K : Type} `{LibDfsLaws W} `{!LibDfsMount W} `{!MountLaws W} `{!MountFrame W} `{Clock K}.
Context (cfg : DaosL2AdapterConfig).
Abbreviation St := (adapter W K).
Implicit Types s : St.

Definition l2_mounts s s' : Prop := mounts (a_dfs s') = mounts (a_dfs s).
#[local] Instance l2_mounts_preorder : PreOrder l2_mounts.
Proof. split; [by intros s|]. intros s1 s2 s3. rw /l2_mounts. congruence. Qed.

Lemma quiet_keeps {X} (m : M St X) : keeps quiet m → keeps l2_mounts m.
Proof. intros Hm s. rw /l2_mounts. by destruct (quiet_io _ _ (Hm s)) as [-> _]. Qed.
Lemma modify_keeps (f : St → St) : (∀ s, a_dfs (f s) = a_dfs s) → keeps l2_mounts (modify f).
Proof. intros Hf s. by rw /l2_mounts /modify /= Hf. Qed.
Lemma onDfs_keeps {X} (m : M W X) : keeps same_mounts m → keeps l2_mounts (onDfs (K:=K) m).
Proof. intros Hm s. specialize (Hm (a_dfs s)). rw /onDfs. by destruct (m (a_dfs s)). Qed.
Lemma close_keeps h s : l2_mounts s (set_dfs (close_obj h (a_dfs s)) s).
Proof. apply (close_obj_mounts h (a_dfs s)). Qed.

Lemma io_keeps : (∀ p, keeps same_mounts (stat_size (W:=W) p)) ∧ (∀ p c, keeps same_mounts (open_rdwr_create (W:=W) p c)) ∧
  (∀ p, keeps same_mounts (open_rdonly (W:=W) p)) ∧ (∀ h o b, keeps same_mounts (write_obj_from (W:=W) h o b)) ∧
  (∀ h o n, keeps same_mounts (read_obj_into (W:=W) h o n)) ∧ (∀ p, keeps same_mounts (DfsBinding.remove (W:=W) p)).
Proof.
  split_and!.
  - intros p w. rw /stat_size. destruct (dfs_sys_stat p w) as [[rc n] w'] eqn:E. apply stat_mounts in E. by repeat case_match.
  - intros. apply checked_keeps. intros w r w'. apply open_mounts.
  - intros. apply checked_keeps. intros w r w'. apply open_mounts.
  - intros. apply checked_keeps. intros w r w'. apply write_mounts.
  - intros. apply checked_keeps. intros w r w'. apply read_mounts.
  - intros p. apply remove_both.
Qed.
#[local] Hint Resolve close_keeps : keeps.
#[local] Hint Extern 1 (keeps l2_mounts (onDfs _)) => apply onDfs_keeps, io_keeps : keeps.
#[local] Hint Extern 1 (keeps l2_mounts (modify _)) => apply modify_keeps; intros; reflexivity : keeps.
#[local] Hint Extern 2 (keeps l2_mounts _) => apply quiet_keeps; solve [eauto with keeps] : keeps.

Lemma execute_keeps tid t : keeps l2_mounts (execute cfg tid t).
Proof.
  assert (∀ x, keeps l2_mounts (_store_one cfg x)) as Hs by (intros x; rw /_store_one; keeps_tac).
  assert (∀ x, keeps l2_mounts (_lookup_one cfg x)) as Hl by (intros x; rw /_lookup_one; keeps_tac).
  assert (∀ x, keeps l2_mounts (_load_one cfg x)) as Hd by (intros x; rw /_load_one; keeps_tac).
  assert (keeps l2_mounts _finish) as Hf by (rw /_finish; apply modify_keeps; by intros s).
  destruct t as [keys objs|keys expected|keys objs]; cbn [execute];
    rw /_execute_store /_execute_lookup /_execute_load /store_body /lookup_body /load_body /store_epilogue
      /lookup_epilogue /load_epilogue /lookup_phase1 /lookup_phase2 /fair_map.
  - apply keeps_bind; [apply _|eauto with keeps|]. intros t0. apply keeps_bind; [apply _| |intros; keeps_tac].
    apply keeps_except; [apply _| |keeps_tac]. apply keeps_bind; [apply _|apply keeps_pool_map; [apply _|done]|keeps_tac].
  - apply keeps_bind; [apply _|eauto with keeps|]. intros t0. apply keeps_bind; [apply _| |intros; keeps_tac].
    apply keeps_except; [apply _| |keeps_tac]. apply keeps_bind; [apply _|apply keeps_pool_map; [apply _|done]|].
    intros hits. apply keeps_bind; [apply _|apply modify_keeps; intros; apply lock_hits_io|keeps_tac].
  - apply keeps_bind; [apply _|eauto with keeps|]. intros t0. apply keeps_bind; [apply _| |intros; keeps_tac].
    apply keeps_except; [apply _| |keeps_tac]. apply keeps_bind; [apply _| |keeps_tac].
    case_match; (apply keeps_pool_map; [apply _|]); [|done]. intros x. keeps_tac; apply Hd.
Qed.
End Frame.

(** ** The life of an adapter *)
Section Run.
Context {W K : Type} `{LibDfsLaws W} `{!LibDfsMount W} `{!MountLaws W} `{!MountFrame W} `{Clock K}.
Context (cfg : DaosL2AdapterConfig) (pid : string) (chunk : Z).
Abbreviation St := (adapter W K).
Implicit Types s : St.

Definition answered (x : Z * task) s : Prop :=
  match snd x with
  | TStore _ _ => is_Some (_completed_store s !! fst x)
  | TLookup _ _ => is_Some (_completed_lookup s !! fst x)
  | TLoad _ _ => is_Some (_completed_load s !! fst x)
  end.

Lemma completes_answers tid t s s' : completes tid t s s' →
  answered (tid, t) s' ∧ ∀ x, answered x s → answered x s'.
Proof.
  assert (∀ {V} (m : gmap Z V) i j v, is_Some (m !! j) → is_Some (<[i := v]> m !! j)) as Hins.
  { intros V m i j v Hj. rw lookup_insert_is_Some. destruct (decide (i = j)); tauto. }
  intros (_ & _ & _ & Ht). rw /answered. split.
  - destruct t; cbn; [destruct Ht as (v & -> & _)|destruct Ht as (v & _ & -> & _)..]; rw lookup_insert_eq; by eexists.
  - intros [j u] Hx. cbn in *. destruct t; [destruct Ht as (v & Ha & Hb & Hc & _)|destruct Ht as (v & _ & Ha & Hb & Hc & _)..];
      destruct u; rw ?Ha ?Hb ?Hc; by try apply Hins.
Qed.

Lemma execute_spec tid t s s' : snd (execute cfg tid t s) = s' →
  completes tid t s s' ∧ mounts (a_dfs s') = mounts (a_dfs s).
Proof.
  intros <-. pose proof (execute_books cfg tid t s) as Hb. pose proof (execute_total cfg tid t s) as Ht.
  pose proof (execute_keeps cfg tid t s) as Hk. rw /wp in Hb Ht.
  destruct (execute cfg tid t s) as [[[]|e] s']; cbn in *; [by split|done].
Qed.

Lemma run_all_spec l s : pending s = l → let s' := run_all cfg l s in
  pending s' = [] ∧ _inflight s' = _inflight s - len l ∧ mounts (a_dfs s') = mounts (a_dfs s) ∧
  (∀ x, x ∈ l → answered x s') ∧ ∀ x, answered x s → answered x s'.
Proof.
  revert s. induction l as [|[tid t] l IH]; intros s Hp; cbn [run_all].
  { split_and!; try done; [unfold len; cbn; lia|]. by intros x ?%elem_of_nil. }
  set (s0 := dequeue 0 s). set (s1 := snd (execute cfg tid t s0)).
  destruct (execute_spec tid t s0 s1 eq_refl) as [Hc Hm].
  pose proof (completes_answers tid t s0 s1 Hc) as [Hnew Hold]. destruct Hc as (_ & Hp1 & Hi1 & _).
  assert (pending s1 = l) as Hpl by by rw Hp1 /s0 /dequeue /= Hp.
  destruct (IH s1 Hpl) as (R1 & R2 & R3 & R4 & R5). split_and!; [exact R1| | | |].
  - rw R2 Hi1. rw /s0 /=. unfold len. cbn. lia.
  - by rw R3 Hm.
  - intros x [->|Hx]%elem_of_cons; [by apply R5|by apply R4].
  - intros x Hx. by apply R5, Hold.
Qed.

Lemma l2_warm_up_spec p :
  wp (l2_warm_up cfg pid chunk) p (λ _ p', mounts (p_w p') = mounts (p_w p)) (λ _ _, False).
Proof.
  rw /l2_warm_up. destruct (cf_probe_chunks cfg <=? 0); [by apply wp_ret|]. apply probe_mounts.
Qed.

(** The dispatcher as a map ([FairDispatcher.fair_results_in_input_order]) and
    [fair_map] agree, on items that have no state. *)
Lemma fair_map_is_the_dispatcher {A} (f : A → res bool) (l : list A) s :
  (∀ x n, f x ≠ Raise (Overflow n)) →
  fair_map (λ x, lift (f x)) l s = (Ok ((λ x, default false (FairDispatcher.value f x)) <$> l), s).
Proof.
  intros Hf. rw /fair_map /pool_map.
  assert (pool_run (λ x, try_except (lift (f x)) (λ e, match e with Overflow _ => None | _ => Some (ret false) end)) l s =
    ((λ x, Ok (default false (FairDispatcher.value f x))) <$> l, s)) as ->; cycle 1.
  { clear Hf. assert (res_map id ((λ x, Ok (default false (FairDispatcher.value f x))) <$> l) =
      Ok ((λ x, default false (FairDispatcher.value f x)) <$> l)) as ->; [|done].
    induction l as [|x l IH]; [done|]. cbn. by rw IH. }
  induction l as [|x l IH]; [done|]. cbn [pool_run]. specialize (Hf x).
  assert (try_except (lift (f x)) (λ e, match e with Overflow _ => None | _ => Some (ret false) end) s =
    (Ok (default false (FairDispatcher.value f x)), s)) as ->; [|by rw IH].
  rw /try_except /lift /FairDispatcher.value. destruct (f x) as [[]|e]; [done..|].
  by destruct e; try done; destruct (Hf excess).
Qed.

(** When [close] returns: no task in flight waits for the closed dispatcher,
    and every DAOS call it waits for returns. *)
Definition close_returns (hangs : Z → bool) (unmount_hangs : bool) s : Prop :=
  unmount_hangs = false ∧ ∀ tid t, (tid, t) ∈ pending s → starved cfg t = false ∧ hangs tid = false.

End Run.

(** An adapter on mount 5 with a load queued: under the fifo schedule [close]
    runs it and unmounts; under the fair one, or when the load's read never
    comes back, it does not return. *)
Module LifeDemo.
Definition host : L2Life.host := mkHost (λ _, Ok tt) (λ _, Ok tt).
Definition loading : adapter MountDemo.world N :=
  snd (submit_load_task [L2Demo.key Byte.x01] [11]
         (init_adapter (MountDemo.mkWorld (MemDfs.healthy ∅) {[5]}) 1%N L2Demo.bufs)).
Definition close_with (sched : string) (hung : bool) : option (adapter MountDemo.world N) :=
  DaosL2Adapter_close (L2Demo.cfg sched) (λ _, hung) false 5 true loading.
End LifeDemo.
Import LifeDemo.


Example fair_close_does_not_return : close_with "fair" false = None.
Proof. reflexivity. Qed.
Example close_with_a_hung_read_does_not_return : close_with "fifo" true = None.
Proof. reflexivity. Qed.
Example no_descriptors_leaves_the_mount :
  let h := mkHost (λ n, if (n =? 1)%nat then Raise (OSError 24) else Ok tt) (λ _, Ok tt) in
  let '(r, p') := DaosL2Adapter_init (L2Demo.cfg "fifo") "7" 8 h 1%N L2Demo.bufs (mkProc true MountDemo.empty) in
  match r with Raise e => e = OSError 24 | Ok _ => False end ∧ bool_decide (MountDemo.mounted (p_w p') = ∅) = false.
Proof. vm_compute. by split. Qed.
