(* ===== verification/GdsLife.v ===== *)
(** * Opening and closing of the GPU backend: [DaosGdsBackend.__init__],
    [close], the allocator delegates and the prefetch serializer of
    [gds_backend.py]

    The configuration keys are read as LMCache's dictionary gives them; what
    [int] and [float] make of a value is the input ([res Z]).  The allocator
    ([GPUMemoryAllocator]) is third-party: what its constructor does is the
    argument [new_allocator].  The thread pool's initializer is
    [GdsBackend._ensure_cuda_ctx]. *)
From Stdlib Require Import Ascii.
From S2P Require Import Prelude DfsBinding Keys L2Config ConnBase GdsBackend Lifecycle.
Open Scope Z_scope.
Open Scope py_scope.

(** The [daosgds.*] keys, [None] where a key is missing, and the environment. *)
Record gconf := mkGconf {
  dst_is_cuda : bool; gc_pool : option string; gc_container : option string; gc_sys : option string;
  gc_root : option string; gc_io_workers : res Z; gc_buffer_bytes : res Z; gc_store : bool;
  genv_probe_chunks : res Z; gpid : string }.

(** [not x]: missing or empty. *)
Definition unset (x : option string) : bool := bool_decide (default "" x = ""%string).
(** [str(root).rstrip("/") or V2_PREFIX] *)
Definition root_of (x : option string) : string :=
  let r := rstrip_slash (default V2_PREFIX x) in if bool_decide (r = ""%string) then V2_PREFIX else r.

Section Gds.
Context {W G : Type} `{LibDfs W} `{!LibDfsMount W}.
Context (new_allocator : Z → res G) (chunk : Z) (c : gconf).

(** What the constructor leaves: the mount, the settings, the allocator with
    the size of its buffer, and the book-keeping of [GdsBackend]. *)
Record gds := mkGds { gd_mount : Z; gd_set : gsettings; gd_alloc : G; gpu_buffer_bytes : Z; io_workers : Z; gd_book : gbook }.

Definition empty_book : gbook := mkBook ∅ ∅ ∅ false ∅ 0 [] 0.

(** The warm-up and its environment variable, in one [try]. *)
Definition gds_warm_up (root : string) : M (proc W) unit :=
  match genv_probe_chunks c with
  | Raise e => if is_exception e then ret tt else raise e
  | Ok n => if 0 <? n then probe (root +:+ "/.daos-probe." +:+ gpid c)%string n chunk else ret tt
  end.

Definition DaosGdsBackend_init : M (proc W) gds :=
  if negb (dst_is_cuda c) then raise AssertionError else
  if unset (gc_pool c) || unset (gc_container c) then raise ValueError else
  let root := root_of (gc_root c) in
  let! n := lift (gc_io_workers c) in
  let! size := lift (gc_buffer_bytes c) in
  let! d := DfsSys_init (default "" (gc_pool c))%string (default "" (gc_container c))%string (gc_sys c) DFS_RDWR 0 in
  let! _ := onProc (mkdir_p root) in
  if n <=? 0 then raise ValueError else
  let! _ := gds_warm_up root in
  let! a := lift (new_allocator size) in
  ret (mkGds d (mkGset root (gc_store c)) a size n empty_book).

(** [close], after the pool has run the puts it was given. *)
Definition DaosGdsBackend_close (g : gds) (p : proc W) : proc W := snd (DfsSys_close (gd_mount g) p).
End Gds.
Arguments gds : clear implicits.

(** [allocate] and [batched_allocate]: the allocator's answer, counted when it is None. *)
Definition counted {X} (r : option X) (b : gbook) : option X * gbook :=
  (r, match r with None => bump "alloc_fail" 1 b | Some _ => b end).

(** [calculate_chunk_budget]: the shape and element size, if the metadata has them. *)
Definition calculate_chunk_budget (gpu_buffer_bytes : Z) (md : res (list Z * Z)) : Z :=
  match md with
  | Raise _ => 16
  | Ok (kv_shape, element_size) =>
      let chunk_bytes := fold_left Z.mul kv_shape 1 * element_size in
      if chunk_bytes =? 0 then 16 else Z.max 1 (gpu_buffer_bytes / chunk_bytes)
  end.

(** [_install_multi_prefetch_serializer]: the names of the patched module. *)
Inductive serializer := Single | Multi | Factory.
Record smm := mkSmm { AsyncSingleSerializer : serializer; _daos_gds_single : option serializer; _daos_gds_multi_patched : bool }.
Definition _install_multi_prefetch_serializer (enabled : bool) (m : smm) : smm :=
  if negb enabled then m else
  if _daos_gds_multi_patched m then m else
  mkSmm Factory (Some (AsyncSingleSerializer m)) true.
(** What calling [AsyncSingleSerializer] builds; [backend]: [_LAST_BACKEND] is set. *)
Definition build_serializer (backend : bool) (m : smm) : option serializer :=
  match AsyncSingleSerializer m with
  | Factory => if backend then Some Multi else _daos_gds_single m
  | s => Some s
  end.

(** ** Properties *)
Section Life.
Context {W G : Type} `{MountFrame W}.
Context (new_allocator : Z → res G) (chunk : Z) (c : gconf).

Lemma gds_warm_up_spec root (p : proc W) :
  is_exception (match genv_probe_chunks c with Raise e => e | Ok _ => ValueError end) = true →
  wp (gds_warm_up chunk c root) p (λ _ p', mounts (p_w p') = mounts (p_w p)) (λ _ _, False).
Proof.
  intros He. rw /gds_warm_up. destruct (genv_probe_chunks c) as [n|e]; [|by rw He; apply wp_ret].
  destruct (0 <? n); [apply probe_mounts|by apply wp_ret].
Qed.

Lemma rstrip_idem s : rstrip_slash s = ""%string ∨ ∃ a b, rstrip_slash s = (a +:+ String b "")%string ∧ b ≠ "/"%char.
Proof.
  induction s as [|x s IH]; cbn; [by left|]. destruct (rstrip_slash s) as [|y t] eqn:E.
  - case_bool_decide; [by left|]. right. by exists ""%string, x.
  - destruct IH as [IH|(a & b & IH & Hb)]; [done|]. right. exists (String x a), b. split; [|done]. by rw IH.
Qed.

(** The GPU backend's mount lives as long as the backend.  The constructor
    either returns with exactly one new mount, a root directory that is neither
    empty nor ends in a slash, at least one worker and nothing known or
    pending, and [close] gives exactly that mount back; or it raises without
    a new mount, except when the root cannot be made, the worker count is
    refused or the GPU allocator fails: then the mount stays. *)
Theorem gds_lifecycle (p : proc W) :
  is_exception (match genv_probe_chunks c with Raise e => e | Ok _ => ValueError end) = true →
  wp (DaosGdsBackend_init new_allocator chunk c) p
    (λ g p', (gd_mount g ∉ mounts (p_w p)) ∧ mounts (p_w p') = {[gd_mount g]} ∪ mounts (p_w p) ∧
       (∃ a b, g_root (gd_set g) = (a +:+ String b "")%string ∧ b ≠ "/"%char) ∧ 0 < io_workers g ∧
       gd_book g = empty_book ∧ mounts (p_w (DaosGdsBackend_close g p')) = mounts (p_w p))
    (λ e p', mounts (p_w p') = mounts (p_w p) ∨
       ((∃ d, (d ∉ mounts (p_w p)) ∧ mounts (p_w p') = {[d]} ∪ mounts (p_w p)) ∧
        ((∃ rc, e = DaosError rc) ∨ (e = ValueError ∧ ∃ n, gc_io_workers c = Ok n ∧ n ≤ 0) ∨
         ∃ n, gc_buffer_bytes c = Ok n ∧ new_allocator n = Raise e))).
Proof.
  intros Hprobe. rw /DaosGdsBackend_init. destruct (dst_is_cuda c); cbn [negb]; [|by left].
  destruct (_ || _); [by left|]. apply wp_bind, wp_lift. destruct (gc_io_workers c) as [n|e]; [|by left].
  apply wp_bind, wp_lift. destruct (gc_buffer_bytes c) as [size|e]; [|by left].
  apply wp_bind. eapply wp_mono; [apply DfsSys_init_spec| |by intros e p' [Hm _]; left].
  intros d p1 (Hd & Hfr & Hm & _).
  assert (∀ p', mounts (p_w p') = mounts (p_w p1) → ∃ d, (d ∉ mounts (p_w p)) ∧ mounts (p_w p') = {[d]} ∪ mounts (p_w p)) as Hleak.
  { intros p' ->. by exists d. }
  apply wp_bind. apply (wp_mono _ _ (λ _ p', mounts (p_w p') = mounts (p_w p1)) _
    (λ e p', mounts (p_w p') = mounts (p_w p1) ∧ ∃ rc, e = DaosError rc)).
  { pose proof (mkdir_proc (root_of (gc_root c)) p1) as Hk. rw /wp in Hk |- *.
    destruct (onProc _ p1) as [[[]|e] p2] eqn:E; [done|]. split; [done|].
    rw /onProc /mkdir_p in E. destruct (dfs_sys_mkdir_p _ _) as [rc w]. destruct (negb _); [|done]. injection E as <- _. by eexists. }
  2:{ intros e p2 [Hp2 He]. right. split; [by apply Hleak|by left]. }
  intros _ p2 Hp2. destruct (Z.leb_spec n 0) as [Hn|Hn].
  { apply wp_raise. right. split; [by apply Hleak|]. right; left. split; [done|]. by exists n. }
  apply wp_bind. eapply wp_mono; [by apply gds_warm_up_spec| |done]. intros u p3 Hp3.
  assert (mounts (p_w p3) = mounts (p_w p1)) as Hp31 by by rw Hp3 Hp2.
  apply wp_bind, wp_lift. destruct (new_allocator size) as [a|e] eqn:Ea.
  2:{ right. split; [by apply Hleak|]. right; right. by exists size. }
  apply wp_ret. cbn [gd_mount gd_set g_root io_workers gd_book]. split_and!; [done|by rw Hp31| |lia|done|].
  - rw /root_of. destruct (rstrip_idem (default V2_PREFIX (gc_root c))) as [-> |(a' & b & Hr & Hb)].
    + rw bool_decide_true //. exists "/v"%string, "2"%char. by split.
    + exists a', b. rw bool_decide_false; [rw Hr; by destruct a'|by split].
  - rw /DaosGdsBackend_close. cbn [gd_mount]. destruct (DfsSys_close_spec d p3 Hd) as [_ ->]. rw Hp31 Hm. set_solver.
Qed.
End Life.

(** The chunk budget is at least one, and never promises more than the buffer
    holds unless a single chunk is already larger than it. *)
Theorem chunk_budget_fits buffer shape element :
  let chunk := fold_left Z.mul shape 1 * element in
  1 ≤ calculate_chunk_budget buffer (Ok (shape, element)) ∧
  (0 < chunk ≤ buffer → calculate_chunk_budget buffer (Ok (shape, element)) * chunk ≤ buffer).
Proof.
  cbn. set (chunk := fold_left Z.mul shape 1 * element). clearbody chunk.
  destruct (Z.eqb_spec chunk 0); split; try lia. intros [Hc Hb].
  assert (1 ≤ buffer / chunk) by (apply Z.div_le_lower_bound; lia).
  pose proof (Z.mul_div_le buffer chunk Hc). rw Z.max_r //. lia.
Qed.

(** Installing the serializer twice is installing it once, and before any
    backend exists the patched name still builds what it built. *)
Theorem install_is_idempotent enabled m :
  AsyncSingleSerializer m = Single → _daos_gds_multi_patched m = false →
  let m' := _install_multi_prefetch_serializer enabled m in
  _install_multi_prefetch_serializer enabled m' = m' ∧
  build_serializer false m' = build_serializer false m ∧
  build_serializer true m' = Some (if enabled then Multi else Single).
Proof.
  rw /_install_multi_prefetch_serializer /build_serializer. destruct enabled; cbn; intros Hs Hp.
  - rw Hp /= Hs. done.
  - rw Hs. done.
Qed.

Definition demo_conf (workers : Z) : gconf :=
  mkGconf true (Some "attr1"%string) (Some "kvgds"%string) None None (Ok workers) (Ok 1024) true (Ok 2) "7".

Lemma gds_lifecycle_witness :
  wp (DaosGdsBackend_init (λ n, Ok n) 8 (demo_conf 16)) (mkProc false MountDemo.empty)
    (λ g p', mounts (p_w (DaosGdsBackend_close g p')) = ∅) (λ _ _, True).
Proof.
  eapply wp_mono; [apply (gds_lifecycle (λ n : Z, Ok n) 8 (demo_conf 16) (mkProc false MountDemo.empty) eq_refl)| |done].
  intros g p' (_ & _ & _ & _ & _ & Hc). exact Hc.
Defined.

(** A worker count of zero is refused with the namespace mounted. *)
Example refused_worker_count_leaves_the_mount :
  let '(r, p') := DaosGdsBackend_init (λ n : Z, Ok n) 8 (demo_conf 0) (mkProc false MountDemo.empty) in
  r = Raise ValueError ∧ MountDemo.mounted (p_w p') ≠ ∅.
Proof. vm_compute. by split. Qed.
