(* ===== verification/Install.v ===== *)
(** * Installation: [streaming_patch.apply], [mp/server.py], [mp/vllm_connector.py]
    and [register] of [mp/l2_adapter.py]

    These modules rebind attributes of LMCache's modules in the running process
    and start its server.  A process is a record: what each attribute ([seam])
    is bound to, the module globals of [streaming_patch], and what has run.  A
    function is described by what it wraps, so that a chain of wrappers is a
    value; [PatchedFwrr] goes through a module global, which is how a second
    installation could make it call itself.  LMCache's own functions (argument
    parsing, the server, the registries) are parameters. *)
From S2P Require Import Prelude Json.
Open Scope Z_scope.
Open Scope string_scope.
Open Scope py_scope.

(** ** The process *)
Inductive fn :=
| Orig (seam : string)              (* LMCache's own *)
| ProxyCreate (orig : fn) (sub : Z) (* the lambda around [create_l2_adapter] *)
| CaptureInit (orig : fn)           (* [_init] *)
| PatchedFwrr                       (* [_patched_fwrr]: calls the global [_orig_fwrr] *)
| PatchedWait (orig : fn)           (* [_wait] *)
| PatchedQuery (orig : fn)          (* [_query] *)
| PatchedRead                       (* [_read]: does not call the original *)
| PatchedTransfer (orig : fn) (sub : Z)  (* [_transfer] *)
| TraceRw (orig : fn)               (* [_rw] of the server's trace *)
| UrlsInit (orig : fn).             (* [_init] of [vllm_connector] *)

Definition s_create := "storage_manager.create_l2_adapter".
Definition s_init := "storage_manager.StorageManager.__init__".
Definition s_fwrr := "l1_manager.L1Manager.finish_write_and_reserve_read".
Definition s_wait := "storage_manager.StorageManager.wait_prefetch_status".
Definition s_query := "storage_manager.StorageManager.query_prefetch_status".
Definition s_read := "storage_manager.StorageManager.read_prefetched_results".
Definition s_transfer := "lmcache_driven_transfer.transfer_kv_per_object_group".
Definition s_reserve := "l1_manager.L1Manager.reserve_write".
Definition s_urls := "vllm_multi_process_adapter.LMCacheMPSchedulerAdapter.__init__".

Record proc (F : Type) := mkProc {
  seams : string → fn;
  st_applied : bool; st_sub : Z; _orig_fwrr : option fn;    (* globals of streaming_patch *)
  janitors : nat;
  ec_tick : option F;        (* the eviction controller's clock, if replaced *)
  gc_frozen : bool; argv : list pystr;
  urls_patched : bool;       (* LMCacheMPSchedulerAdapter._daos_urls_patched *)
  served : bool;             (* run_cache_server was called *)
}.
Arguments mkProc {F}. Arguments seams {F}. Arguments st_applied {F}. Arguments st_sub {F}.
Arguments _orig_fwrr {F}. Arguments janitors {F}. Arguments ec_tick {F}. Arguments gc_frozen {F}.
Arguments argv {F}. Arguments urls_patched {F}. Arguments served {F}.

Section Install.
Context {F : Type}.
Implicit Types p : proc F.

Definition rebind (s : string) (f : fn) p : proc F :=
  mkProc (λ s', if bool_decide (s = s') then f else seams p s') (st_applied p) (st_sub p) (_orig_fwrr p)
    (janitors p) (ec_tick p) (gc_frozen p) (argv p) (urls_patched p) (served p).
Definition set_applied (sub : Z) p : proc F :=
  mkProc (seams p) true sub (_orig_fwrr p) (janitors p) (ec_tick p) (gc_frozen p) (argv p) (urls_patched p) (served p).
Definition set_fwrr (f : fn) p : proc F :=
  mkProc (seams p) (st_applied p) (st_sub p) (Some f) (janitors p) (ec_tick p) (gc_frozen p) (argv p) (urls_patched p) (served p).
Definition add_janitor p : proc F :=
  mkProc (seams p) (st_applied p) (st_sub p) (_orig_fwrr p) (S (janitors p)) (ec_tick p) (gc_frozen p) (argv p) (urls_patched p) (served p).
Definition set_tick (t : F) p : proc F :=
  mkProc (seams p) (st_applied p) (st_sub p) (_orig_fwrr p) (janitors p) (Some t) (gc_frozen p) (argv p) (urls_patched p) (served p).
Definition set_gc p : proc F :=
  mkProc (seams p) (st_applied p) (st_sub p) (_orig_fwrr p) (janitors p) (ec_tick p) true (argv p) (urls_patched p) (served p).
Definition set_argv (a : list pystr) p : proc F :=
  mkProc (seams p) (st_applied p) (st_sub p) (_orig_fwrr p) (janitors p) (ec_tick p) (gc_frozen p) a (urls_patched p) (served p).
Definition set_urls p : proc F :=
  mkProc (seams p) (st_applied p) (st_sub p) (_orig_fwrr p) (janitors p) (ec_tick p) (gc_frozen p) (argv p) true (served p).
Definition set_served p : proc F :=
  mkProc (seams p) (st_applied p) (st_sub p) (_orig_fwrr p) (janitors p) (ec_tick p) (gc_frozen p) (argv p) (urls_patched p) true.

Definition modify (f : proc F → proc F) : M (proc F) unit := λ p, (Ok tt, f p).
Definition gets {X} (f : proc F → X) : M (proc F) X := λ p, (Ok (f p), p).
(** [seam = wrapper(seam)] *)
Definition wrap (s : string) (w : fn → fn) : M (proc F) unit :=
  let! f := gets (λ p, seams p s) in modify (rebind s (w f)).

(** *** [streaming_patch.apply]: [imports] is the import of the LMCache modules *)
Definition apply (imports : res unit) (sub_batch : Z) : M (proc F) unit :=
  let! applied := gets st_applied in
  if applied then ret tt else
  let sub := Z.max 1 sub_batch in
  let! _ := modify (set_applied sub) in
  let! _ := lift imports in
  let! _ := wrap s_create (λ f, ProxyCreate f sub) in
  let! _ := wrap s_init CaptureInit in
  let! f := gets (λ p, seams p s_fwrr) in
  let! _ := modify (set_fwrr f) in
  let! _ := modify (rebind s_fwrr PatchedFwrr) in
  let! _ := wrap s_wait PatchedWait in
  let! _ := wrap s_query PatchedQuery in
  let! _ := modify (rebind s_read PatchedRead) in
  let! _ := wrap s_transfer (λ f, PatchedTransfer f sub) in
  modify add_janitor.

(** *** [mp/server.py] *)

(** [_FastTick.sleep]: [min(x, tick)], by the order on floats. *)
Definition fast_sleep (ltb : F → F → bool) (t x : F) : F := if ltb t x then t else x.

(** The knobs in the order of [main]; [environ n] is [os.environ.get(n, "")],
    [float_of] is [float(s)]. *)
Context (environ : string → pystr) (float_of : pystr → res F).
Definition gc_knob : M (proc F) unit :=
  if bool_decide (environ "DAOS_MP_GC" = codes "freeze") then modify set_gc else ret tt.
Definition tick_knob (imports : res unit) : M (proc F) unit :=
  if bool_decide (environ "DAOS_MP_EVICT_TICK_S" = []) then ret tt else
  let! _ := lift imports in
  let! t := lift (float_of (environ "DAOS_MP_EVICT_TICK_S")) in
  modify (set_tick t).
Definition trace_knob (imports : res unit) : M (proc F) unit :=
  if bool_decide (environ "DAOS_MP_TRACE" = codes "1") then
    let! _ := lift imports in wrap s_reserve TraceRw
  else ret tt.
Definition stream_knob (imports : res unit) : M (proc F) unit :=
  let stream := environ "DAOS_MP_STREAM" in
  if bool_decide (stream = []) then ret tt else
  let! n := lift (py_int stream) in
  if (0 <? n)%Z then (let! n := lift (py_int stream) in apply imports n) else ret tt.

(** [main]: [parse] is LMCache's argument parser and its three readers. *)
Definition main (imports : res unit) (parse : list pystr → res unit) (args : option (list pystr)) : M (proc F) unit :=
  let! _ := lift imports in
  let! _ := match args with
    | Some l => let! a := gets argv in modify (set_argv (take 1 a ++ l)%list)
    | None => ret tt
    end in
  let! _ := gc_knob in
  let! _ := tick_knob imports in
  let! _ := trace_knob imports in
  let! _ := stream_knob imports in
  let! a := gets argv in
  let! _ := lift (parse a) in
  modify set_served.

(** *** [mp/vllm_connector.py] *)
Definition patch_urls : M (proc F) unit :=
  let! done := gets urls_patched in
  if done then ret tt else
  let! _ := wrap s_urls UrlsInit in
  modify set_urls.
End Install.

(** [_init]: a url string becomes a list of one. *)
Inductive urls := OneUrl (u : pystr) | Urls (l : list pystr).
Definition coerce_urls (u : urls) : list pystr := match u with OneUrl u => [u] | Urls l => l end.

(** [s.split(c)] *)
Fixpoint split_on (c : Z) (s : pystr) : list pystr :=
  match s with
  | [] => [[]]
  | x :: s =>
      if (x =? c)%Z then [] :: split_on c s else
      match split_on c s with w :: l => (x :: w) :: l | [] => [[x]] end
  end.
(** [_VLLM]: [version] is [None] when vllm cannot be imported. *)
Definition _VLLM (version : option pystr) : list Z :=
  match version with
  | None => [0; 0]
  | Some v => match res_map py_int (take 2 (split_on 46 v)) with Ok l => l | Raise _ => [0; 0] end
  end.
Inductive connector := Connector0180 | Connector0201 | ConnectorGeneric.
Definition choose_connector (v : list Z) : connector :=
  if bool_decide (v = [0; 18]) then Connector0180 else
  if bool_decide (v = [0; 20]) || bool_decide (v = [0; 19]) then Connector0201 else ConnectorGeneric.

(** *** [register] of [mp/l2_adapter.py], with LMCache's registries *)
Class Registry (R : Type) := {
  register_l2_adapter_type : string → R → res unit * R;
  register_l2_adapter_factory : string → R → res unit * R;
}.
Definition ADAPTER_TYPE : string := "daos".
Definition register {R} `{Registry R} : M R unit :=
  let! first := try_except (let! _ := register_l2_adapter_type ADAPTER_TYPE in ret true)
    (λ e, if is_value_error e then Some (ret false) else None) in
  if first then register_l2_adapter_factory ADAPTER_TYPE else ret tt.
(** [_factory]: the adapter is built from a config of the right class only. *)
Definition _factory {C A} (is_config : C → bool) (build : C → res A) (config : C) : res A :=
  if negb (is_config config) then Raise OtherError else build config.

(** ** What is installed *)

(** Following a chain of wrappers to LMCache's own function; [fuel] bounds its
    length. *)
Fixpoint reaches (fuel : nat) (global : option fn) (f : fn) : option string :=
  match fuel with
  | O => None
  | S fuel =>
      match f with
      | Orig s => Some s
      | ProxyCreate f _ | CaptureInit f | PatchedWait f | PatchedQuery f | PatchedTransfer f _
      | TraceRw f | UrlsInit f => reaches fuel global f
      | PatchedFwrr => match global with Some f => reaches fuel global f | None => None end
      | PatchedRead => None
      end
  end.

(** A process in which LMCache's attributes are LMCache's own. *)
Definition pristine {F} (p : proc F) : Prop :=
  (∀ s, seams p s = Orig s) ∧ st_applied p = false ∧ _orig_fwrr p = None ∧ janitors p = O ∧
  urls_patched p = false ∧ served p = false ∧ ec_tick p = None ∧ gc_frozen p = false.

(** The streaming seams after the patch with sub-batches of [sub]. *)
Definition streamed (sub : Z) (s : string) : fn :=
  if bool_decide (s = s_create) then ProxyCreate (Orig s) sub else
  if bool_decide (s = s_init) then CaptureInit (Orig s) else
  if bool_decide (s = s_fwrr) then PatchedFwrr else
  if bool_decide (s = s_wait) then PatchedWait (Orig s) else
  if bool_decide (s = s_query) then PatchedQuery (Orig s) else
  if bool_decide (s = s_read) then PatchedRead else
  if bool_decide (s = s_transfer) then PatchedTransfer (Orig s) sub else Orig s.
Definition streaming_seams : list string := [s_create; s_init; s_fwrr; s_wait; s_query; s_read; s_transfer].

Section Installed.
Context {F : Type}.
Implicit Types p : proc F.

Lemma rebind_seam s f p s' : seams (rebind s f p) s' = if bool_decide (s = s') then f else seams p s'.
Proof. done. Qed.

(** The first installation in a pristine process. *)
Lemma apply_pristine n p : (∀ s, s ≠ s_reserve → seams p s = Orig s) → st_applied p = false →
  wp (apply (Ok tt) n) p (λ _ p',
    (∀ s, s ≠ s_reserve → seams p' s = streamed (Z.max 1 n) s) ∧ seams p' s_reserve = seams p s_reserve ∧
    _orig_fwrr p' = Some (Orig s_fwrr) ∧ janitors p' = S (janitors p) ∧ st_applied p' = true ∧
    served p' = served p ∧ argv p' = argv p) (λ _ _, False).
Proof.
  intros Hp Ha. rw /wp /apply {1}/bind /gets Ha. cbn [bind]. rw /bind /modify /lift /wrap /gets /=.
  split; [|by rw (Hp s_fwrr)].
  intros s Hs. rw (Hp s_create) // (Hp s_init) // (Hp s_wait) // (Hp s_query) // (Hp s_transfer) // (Hp s) //.
  rw /streamed. repeat (case_bool_decide; subst; try done).
Qed.

(** C40: the streaming patch is installed once: in a process where LMCache's
    functions are its own, [apply] wraps each of the seven seams around LMCache's function, with
    the sub-batch of at least one, keeps the original
    [finish_write_and_reserve_read] for the proxy and starts one janitor; any
    later [apply], with any argument, changes nothing, so that every chain of
    calls still ends at LMCache's function and [_patched_fwrr] never calls
    itself. *)
Theorem patches_wrap_once n p :
  pristine p →
  let p' := snd (apply (Ok tt) n p) in
  fst (apply (Ok tt) n p) = Ok tt ∧ (∀ s, seams p' s = streamed (Z.max 1 n) s) ∧ janitors p' = 1%nat ∧
  (∀ imports m, apply imports m p' = (Ok tt, p')) ∧
  ∀ s, s ≠ s_read → reaches 2 (_orig_fwrr p') (seams p' s) = Some s.
Proof.
  intros (Hs & Ha & _ & Hj & _) p'. pose proof (apply_pristine n p (λ s _, Hs s) Ha) as Hw.
  rw /wp in Hw. subst p'. destruct (apply (Ok tt) n p) as [[[]|e] p']; [|done]. cbn.
  destruct Hw as (Hst & Hr & Ho & Hjan & Hap & _).
  assert (∀ s, seams p' s = streamed (Z.max 1 n) s) as Hall.
  { intros s. destruct (decide (s = s_reserve)) as [->|]; [by rw Hr Hs|by apply Hst]. }
  split_and!; [done|done|by rw Hjan Hj|intros imports m; by rw /apply /bind /gets Hap|].
  intros s Hread. rw Hall Ho /streamed. repeat (case_bool_decide; subst; try done).
Qed.

(** An installation whose import fails marks the patch as applied: a later one
    returns without installing anything. *)
Lemma failed_apply_is_not_retried e n m p : pristine p →
  let p1 := snd (apply (Raise e) n p) in
  fst (apply (Raise e) n p) = Raise e ∧ apply (Ok tt) m p1 = (Ok tt, p1) ∧ ∀ s, seams p1 s = Orig s.
Proof.
  intros (Hs & Ha & _) p1. assert (apply (Raise e) n p = (Raise e, set_applied (Z.max 1 n) p)) as Hrun
    by by rw /apply {1}/bind /gets Ha. subst p1. rw Hrun. by split_and!.
Qed.

(** [vllm_connector] wraps the scheduler adapter once, however often it is
    imported. *)
Lemma patch_urls_once p : seams p s_urls = Orig s_urls → urls_patched p = false →
  let p' := snd (patch_urls p) in
  fst (patch_urls p) = Ok tt ∧ seams p' s_urls = UrlsInit (Orig s_urls) ∧
  (∀ s, s ≠ s_urls → seams p' s = seams p s) ∧ patch_urls p' = (Ok tt, p').
Proof.
  intros Hs Hd p'. assert (patch_urls p = (Ok tt, set_urls (rebind s_urls (UrlsInit (Orig s_urls)) p))) as Hrun
    by by rw /patch_urls {1}/bind /gets Hd /wrap /bind /gets Hs.
  subst p'. rw Hrun. split_and!; [done|by cbn|intros s Hne; by rw /= bool_decide_false|by rw /patch_urls {1}/bind].
Qed.

(** ** The server *)
Context (environ : string → pystr) (float_of : pystr → res F).
(** The sub-batch that [DAOS_MP_STREAM] asks for. *)
Definition requested : option Z :=
  let stream := environ "DAOS_MP_STREAM" in
  if bool_decide (stream = []) then None else
  match py_int stream with Ok n => if (0 <? n)%Z then Some n else None | Raise _ => None end.
Definition traced : bool := bool_decide (environ "DAOS_MP_TRACE" = codes "1").

(** What the knobs before the streaming one leave alone. *)
Definition same_install p p' : Prop :=
  (∀ s, s ≠ s_reserve → seams p' s = seams p s) ∧ st_applied p' = st_applied p ∧ served p' = served p ∧
  argv p' = argv p ∧ janitors p' = janitors p.

Lemma gc_knob_spec p : wp (gc_knob environ) p
  (λ _ p', same_install p p' ∧ seams p' s_reserve = seams p s_reserve) (λ _ _, False).
Proof. rw /gc_knob. by case_bool_decide. Qed.
Lemma tick_knob_spec imports p : wp (tick_knob environ float_of imports) p
  (λ _ p', same_install p p' ∧ seams p' s_reserve = seams p s_reserve ∧
     (environ "DAOS_MP_EVICT_TICK_S" ≠ [] → is_ok (float_of (environ "DAOS_MP_EVICT_TICK_S")) = true))
  (λ e p', p' = p ∧ (imports = Raise e ∨ float_of (environ "DAOS_MP_EVICT_TICK_S") = Raise e)).
Proof.
  rw /tick_knob. case_bool_decide as Ht; [by split_and!|]. rw /wp /bind /lift.
  destruct imports as [[]|e]; [|by split; [|left]]. destruct (float_of _) as [t|e]; [|by split; [|right]].
  by split_and!.
Qed.
Lemma trace_knob_spec imports p : wp (trace_knob environ imports) p
  (λ _ p', same_install p p' ∧ seams p' s_reserve = if traced then TraceRw (seams p s_reserve) else seams p s_reserve)
  (λ e p', p' = p ∧ imports = Raise e).
Proof.
  rw /trace_knob /traced. case_bool_decide; [|by split_and!]. rw /wp /bind /lift.
  destruct imports as [[]|e]; [|done]. cbn. split; [|done]. split; [|done].
  intros s Hs. rw rebind_seam bool_decide_false //.
Qed.
Lemma stream_knob_spec imports p :
  (∀ s, s ≠ s_reserve → seams p s = Orig s) → st_applied p = false → imports = Ok tt →
  wp (stream_knob environ imports) p
  (λ _ p', (∀ s, s ≠ s_reserve → seams p' s = match requested with Some n => streamed n s | None => Orig s end) ∧
     seams p' s_reserve = seams p s_reserve ∧ served p' = served p ∧ argv p' = argv p ∧
     (environ "DAOS_MP_STREAM" ≠ [] → is_ok (py_int (environ "DAOS_MP_STREAM")) = true))
  (λ e p', p' = p ∧ py_int (environ "DAOS_MP_STREAM") = Raise e).
Proof.
  intros Hs Ha ->. rw /stream_knob /requested. case_bool_decide as He; [by split_and!|].
  apply wp_bind, wp_lift. destruct (py_int _) as [n|e] eqn:Hn; [|done].
  destruct (Z.ltb_spec 0 n); [|by split_and!]. apply wp_bind, wp_lift. cbn beta iota.
  eapply wp_mono; [by apply apply_pristine| |done].
  intros _ p' (Hst & Hr & _ & _ & _ & Hsv & Hav). rw Z.max_r in Hst; [lia|]. by split_and!.
Qed.

End Installed.

(** A second registration stops at LMCache's [ValueError] and leaves the
    factory alone. *)
Lemma register_again {R} `{Registry R} (r r' : R) :
  register_l2_adapter_type ADAPTER_TYPE r = (Raise ValueError, r') → register r = (Ok tt, r').
Proof. intros Hr. by rw /register {1}/bind /try_except {1}/bind Hr. Qed.

(** ** Concrete processes *)
Module InstallDemo.
Definition start : proc unit := mkProc Orig false 8 None O None false [codes "server"] false false.
Lemma start_pristine : pristine start.
Proof. by split_and!. Qed.
Definition env (stream : string) (n : string) : pystr :=
  if bool_decide (n = "DAOS_MP_STREAM") then codes stream else [].
Definition run (stream : string) (parse : list pystr → res unit) : res unit * proc unit :=
  main (env stream) (λ _, Ok tt) (Ok tt) parse (Some [codes "--port"; codes "5555"]) start.

Example streams : seams (snd (run " 16 " (λ _, Ok tt))) s_transfer = PatchedTransfer (Orig s_transfer) 16.
Proof. by vm_compute. Qed.
Example zero_is_off : seams (snd (run "0" (λ _, Ok tt))) s_transfer = Orig s_transfer.
Proof. by vm_compute. Qed.
Example malformed : fst (run "8x" (λ _, Ok tt)) = Raise ValueError.
Proof. by vm_compute. Qed.
(** Without its guard a second installation would make the patched function
    call itself: the chain through the global never ends. *)
Example without_the_guard : ∀ fuel, reaches fuel (Some PatchedFwrr) PatchedFwrr = None.
Proof. induction fuel as [|fuel IH]; [done|]. exact IH. Qed.

Example vllm_018 : choose_connector (_VLLM (Some (codes "0.18.1"))) = Connector0180.
Proof. by vm_compute. Qed.
Example vllm_dev : _VLLM (Some (codes "dev")) = [0%Z; 0%Z].
Proof. by vm_compute. Qed.
End InstallDemo.

Lemma patches_wrap_once_witness :
  let p' := snd (apply (Ok tt) 4 InstallDemo.start) in
  apply (Ok tt) 16 p' = (Ok tt, p') ∧ reaches 2 (_orig_fwrr p') (seams p' s_fwrr) = Some s_fwrr.
Proof.
  destruct (patches_wrap_once 4 InstallDemo.start InstallDemo.start_pristine) as (_ & _ & _ & Ha & Hr).
  split; [apply Ha|apply Hr]. discriminate.
Defined.

